(** * AI-document-checker: the markup transcoder, the chunker and the LLM cache

    A shallow embedding of [utils.py] and [ai_agent.py].

    Python strings are sequences of Unicode code points, so a character is
    a code point ([N]) and a string is a list of them.  Python integers are
    unbounded, so offsets and sizes are [Z]. *)

From Stdlib Require Import ZArith NArith QArith List Ascii String Lia Bool DecimalString.
From stdpp Require Import gmap strings list.

Local Open Scope Z_scope.

(** ** Python strings *)

Definition char : Type := N.
Definition str : Type := list char.

(** [u "abc"] is the Python literal ["abc"] (ASCII only). *)
Definition u (s : string) : str :=
  List.map N_of_ascii (list_ascii_of_string s).

(** [len(s)] *)
Definition len {A} (s : list A) : Z := Z.of_nat (length s).

(** A slice bound, as CPython's [PySlice_AdjustIndices] clamps it for a
    step of 1: a negative bound counts from the end, then it is clamped
    to [0, len]. *)
Definition slice_bound (n i : Z) : Z :=
  if i <? 0 then (if i + n <? 0 then 0 else i + n)
  else (if n <? i then n else i).

(** [s[i:j]] *)
Definition py_slice {A} (s : list A) (i j : Z) : list A :=
  let n := len s in
  let a := slice_bound n i in
  let b := slice_bound n j in
  if a <? b then take (Z.to_nat (b - a)) (drop (Z.to_nat a) s) else [].

(** ** utils.chunk_text *)

Module Chunker.
Section Chunker.
Context {A : Type}.
Variable text : list A.
Variable chunk_size : Z.

(** [end = min(start + chunk_size, text_len)] *)
Definition next_end (start : Z) : Z := Z.min (start + chunk_size) (len text).

(** The [while start < text_len] loop; [None] when the fuel runs out
    before the loop condition turns false. *)
Fixpoint chunk_while (fuel : nat) (start : Z) (chunks : list (list A))
  : option (list (list A)) :=
  match fuel with
  | O => if start <? len text then None else Some chunks
  | S fuel' =>
      if start <? len text then
        let end_ := next_end start in
        chunk_while fuel' end_ (chunks ++ [py_slice text start end_])
      else Some chunks
  end.

Definition chunk_text (fuel : nat) : option (list (list A)) :=
  chunk_while fuel 0 [].
End Chunker.
End Chunker.

(** ** Python string operations used by [utils.py] *)

Definition ch (a : ascii) : char := N_of_ascii a.

Definition str_eqb (a b : str) : bool := bool_decide (a = b).

(** [Py_UNICODE_ISSPACE]: what [str.strip()] removes and what [\s]
    matches in a [str] pattern. *)
Definition is_space (c : char) : bool :=
  ((9 <=? c) && (c <=? 13) || (28 <=? c) && (c <=? 32)
   || (c =? 133) || (c =? 160) || (c =? 5760)
   || (8192 <=? c) && (c <=? 8202)
   || (c =? 8232) || (c =? 8233) || (c =? 8239) || (c =? 8287)
   || (c =? 12288))%N.

Fixpoint lstrip (s : str) : str :=
  match s with
  | c :: s' => if is_space c then lstrip s' else s
  | [] => []
  end.

Definition rstrip (s : str) : str := rev (lstrip (rev s)).

(** [s.strip()] *)
Definition strip (s : str) : str := rstrip (lstrip s).

(** [s.lstrip(c)] for a one-character argument *)
Fixpoint lstrip_char (c : char) (s : str) : str :=
  match s with
  | x :: s' => if (x =? c)%N then lstrip_char c s' else s
  | [] => []
  end.

(** [s.startswith(p)] *)
Fixpoint startswith (p s : str) : bool :=
  match p, s with
  | [], _ => true
  | a :: p', b :: s' => (a =? b)%N && startswith p' s'
  | _ :: _, [] => false
  end.

(** [p in s] *)
Fixpoint contains (p s : str) : bool :=
  startswith p s ||
  match s with
  | [] => false
  | _ :: s' => contains p s'
  end.

(** [s.split(c)[0]]: the text before the first [c] *)
Fixpoint before_first (c : char) (s : str) : str :=
  match s with
  | [] => []
  | x :: s' => if (x =? c)%N then [] else x :: before_first c s'
  end.

(** [sep.join(parts)] *)
Fixpoint join (sep : str) (parts : list str) : str :=
  match parts with
  | [] => []
  | [p] => p
  | p :: ps => p ++ sep ++ join sep ps
  end.

(** The decimal digits of a natural number, as [str(n)] prints them. *)
Definition decimal (n : N) : str :=
  u (NilZero.string_of_uint (N.to_uint n)).

(** One uppercase hexadecimal digit. *)
Definition hex_digit (d : Z) : char :=
  if d <? 10 then Z.to_N (48 + d) else Z.to_N (55 + d).

(** [f"{r:02X}"] for [0 <= r < 256] *)
Definition fmt_02X (r : Z) : str := [hex_digit (r / 16); hex_digit (r mod 16)].

(** ** utils.extract_text_from_pdf *)

Module Pdf.

(** A span of [page.get_text("dict")]; the font, size and colour are
    read with [span.get(key, default)].  A size is the exact value of
    the Python float (or of the default [12]). *)
Record span := {
  text : str;
  font : option str;
  size : option Q;
  color : option Z
}.

Definition line := list span.                (* line["spans"] *)
Definition block := option (list line).      (* block["lines"], when present *)
Definition page := list block.
Definition pdf := list page.

(** [f"{x:.1f}"]: the nearest number with one decimal, ties to even on
    the exact value, the sign kept. *)
Definition fmt_1f (x : Q) : str :=
  let a := Z.abs (Qnum x) * 10 in
  let b := Z.pos (Qden x) in
  let fl := a / b in
  let r := a mod b in
  let t := if 2 * r <? b then fl
           else if b <? 2 * r then fl + 1
           else if Z.even fl then fl else fl + 1 in
  (if Qnum x <? 0 then u "-" else []) ++
  decimal (Z.to_N (t / 10)) ++ u "." ++ decimal (Z.to_N (t mod 10)).

Definition is_bold (font_name : str) : bool := contains (u "Bold") font_name.
Definition is_italic (font_name : str) : bool :=
  contains (u "Italic") font_name || contains (u "Oblique") font_name.

(** [font_name.split("-")[0] if "-" in font_name else font_name] *)
Definition font_family (font_name : str) : str :=
  if contains (u "-") font_name then before_first (ch "-") font_name
  else font_name.

(** [f"#{r:02X}{g:02X}{b:02X}"] of the packed colour *)
Definition color_hex (color_val : Z) : str :=
  let r := Z.land (Z.shiftr color_val 16) 255 in
  let g := Z.land (Z.shiftr color_val 8) 255 in
  let b := Z.land color_val 255 in
  u "#" ++ fmt_02X r ++ fmt_02X g ++ fmt_02X b.

(** The body of the loop over spans: [None] for a span that is skipped. *)
Definition styled_span (sp : span) : option str :=
  let text := strip (text sp) in
  match text with
  | [] => None
  | _ =>
      let font_name := default [] (font sp) in
      let font_size := default (12 # 1)%Q (size sp) in
      let hex := color_hex (default 0 (color sp)) in
      let styled :=
        u "<size=" ++ fmt_1f font_size ++ u "><font=" ++ font_family font_name
          ++ u "><" ++ hex ++ u ">" ++ text
          ++ u "</" ++ hex ++ u "></font></size>" in
      let styled :=
        if is_bold font_name then u "<b>" ++ styled ++ u "</b>" else styled in
      let styled :=
        if is_italic font_name then u "<i>" ++ styled ++ u "</i>" else styled in
      Some styled
  end.

Definition block_text (b : block) : list str :=
  match b with
  | None => []
  | Some lines =>
      let paragraph := omap styled_span (concat lines) in
      match paragraph with
      | [] => []
      | _ => [concat paragraph; [10; 10]%N]
      end
  end.

Definition extract_text_from_pdf (doc : pdf) : str :=
  strip (concat (concat (List.map block_text (concat doc)))).

End Pdf.

(** The value of a hexadecimal digit, either case. *)
Definition hex_value (c : char) : option Z :=
  if ((48 <=? c) && (c <=? 57))%N then Some (Z.of_N c - 48)
  else if ((65 <=? c) && (c <=? 70))%N then Some (Z.of_N c - 55)
  else if ((97 <=? c) && (c <=? 102))%N then Some (Z.of_N c - 87)
  else None.

(** ** The python-docx document tree

    The part of a python-docx [Document] that [utils.py] reads and writes:
    paragraphs with a style name and runs, and tables of cell texts.  A
    flag of a run is the truth value of the attribute ([if run.bold:]); a
    colour is [run.font.color.rgb] when it is set.  Writing the file with
    [doc.save] and reading it back with [Document(path)] is the identity
    on this tree. *)

Module Docx.

Record rgb := RGBColor { red : Z; green : Z; blue : Z }.

Record run := {
  text : str;
  bold : bool;
  italic : bool;
  underline : bool;
  color : option rgb
}.

Record paragraph := {
  style : str;          (* para.style.name *)
  runs : list run
}.

Definition table := list (list str).   (* rows of cell texts *)

Record document := {
  paragraphs : list paragraph;
  tables : list table
}.

(** [para.text] *)
Definition para_text (p : paragraph) : str := concat (List.map text (runs p)).

(** [str(rgb)]: [RGBColor.__str__] is ['%02X%02X%02X' % self] *)
Definition rgb_str (c : rgb) : str :=
  fmt_02X (red c) ++ fmt_02X (green c) ++ fmt_02X (blue c).

End Docx.

#[global] Instance rgb_eq_dec : EqDecision Docx.rgb.
Proof. solve_decision. Defined.
#[global] Instance run_eq_dec : EqDecision Docx.run.
Proof. solve_decision. Defined.
#[global] Instance paragraph_eq_dec : EqDecision Docx.paragraph.
Proof. solve_decision. Defined.

(** ** utils.extract_text_from_docx *)

(** [s.lower()], on the ASCII letters (the style names that the extractor
    looks for are ASCII). *)
Definition lower (s : str) : str :=
  List.map (fun c => if ((65 <=? c) && (c <=? 90))%N then (c + 32)%N else c) s.

(** [str.isdigit], on ASCII *)
Definition is_digit (c : char) : bool := ((48 <=? c) && (c <=? 57))%N.

(** [int(s)] of a string of ASCII decimal digits *)
Definition int_of_digits (s : str) : N :=
  fold_left (fun acc c => (acc * 10 + (c - 48))%N) s 0%N.

Definition bullet : char := 8226%N.   (* U+2022 *)

Module DocxExtract.
Import Docx.

(** The nested [get_color_tag]: the name of a bucket, or '#' and the
    hexadecimal colour, or [None] when the run has no colour. *)
Definition get_color_tag (r : run) : option str :=
  match color r with
  | Some rgb =>
      let '(r, g, b) := (red rgb, green rgb, blue rgb) in
      if (200 <? r) && (g <? 80) && (b <? 80) then Some (u "red")
      else if (200 <? b) && (r <? 80) && (g <? 80) then Some (u "blue")
      else if (150 <? g) && (r <? 100) then Some (u "green")
      else if (200 <? r) && (200 <? g) && (b <? 100) then Some (u "yellow")
      else if (100 <? r) && (100 <? g) && (100 <? b) then Some (u "gray")
      else Some (u "#" ++ rgb_str rgb)
  | None => None
  end.

(** The body of [for run in para.runs]: what the run adds to
    [formatted_text]. *)
Definition format_run (r : run) : str :=
  let text := text r in
  match text with
  | [] => []
  | _ =>
      let color_tag := get_color_tag r in
      let text := if bold r then u "**" ++ text ++ u "**" else text in
      let text := if italic r then u "*" ++ text ++ u "*" else text in
      let text := if underline r then u "__" ++ text ++ u "__" else text in
      match color_tag with
      | Some tag => u "<" ++ tag ++ u ">" ++ text ++ u "</" ++ tag ++ u ">"
      | None => text
      end
  end.

(** The body of [for para in doc.paragraphs]: the line it appends, if
    any. *)
Definition para_line (p : paragraph) : option str :=
  match strip (para_text p) with
  | [] => None
  | stripped =>
      let style_name := lower (style p) in
      if startswith (u "heading") style_name then
        let digits := List.filter is_digit style_name in
        let level := match digits with [] => u "1" | _ => digits end in
        Some (repeat (ch "#") (N.to_nat (int_of_digits level)) ++ u " " ++ stripped)
      else
        let prefix :=
          if contains (u "list bullet") style_name
             || contains (u "list paragraph") style_name
          then [bullet; ch " "]
          else if contains (u "list number") style_name then u "1. "
          else [] in
        Some (prefix ++ strip (concat (List.map format_run (runs p))))
  end.

Definition table_lines (t : table) : list str :=
  List.map (fun row => join (u " | ") (List.map strip row)) t ++ [[]].

Definition extract_text_from_docx (doc : document) : str :=
  let lines := omap para_line (paragraphs doc)
               ++ concat (List.map table_lines (tables doc)) in
  strip (join [10; 10]%N lines).

End DocxExtract.

(** ** Exceptions *)

(** The exceptions that the modelled code raises or receives: the
    [ValueError] of [_hex_to_rgbcolor], [int] and python-docx, the
    [TypeError] and [AttributeError] of an operation on a value of the
    wrong type, and the [Exception] that the OpenAI client or the file
    system may raise (with its message, [str(e)]). *)
Inductive exn : Type :=
| ValueError
| TypeError
| AttributeError
| Failure (message : str).

Inductive result (A : Type) : Type :=
| Ok (a : A)
| Raise (e : exn).
Arguments Ok {A} a.
Arguments Raise {A} e.

Definition bind {A B} (r : result A) (k : A -> result B) : result B :=
  match r with
  | Ok a => k a
  | Raise e => Raise e
  end.

Notation "'let*' x ':=' r 'in' k" := (bind r (fun x => k))
  (at level 10, x pattern, r at level 100, k at level 200).

(** ** utils._hex_to_rgbcolor *)

(** The white space that [int(s, 16)] skips at both ends of [s]. *)
Definition int_space (c : char) : bool :=
  is_space c && negb ((28 <=? c) && (c <=? 31))%N.

Fixpoint dropwhile_space (s : str) : str :=
  match s with
  | c :: t => if int_space c then dropwhile_space t else s
  | [] => []
  end.

(** The digits of [int(s, 16)] after the first one: more digits, each
    possibly after one underscore, then white space to the end. *)
Fixpoint int16_digits (acc : Z) (s : str) : option Z :=
  match s with
  | [] => Some acc
  | c :: t =>
      if (c =? 95)%N then
        match t with
        | d :: t' =>
            match hex_value d with
            | Some v => int16_digits (acc * 16 + v) t'
            | None => None
            end
        | [] => None
        end
      else
        match hex_value c with
        | Some v => int16_digits (acc * 16 + v) t
        | None => if forallb int_space s then Some acc else None
        end
  end.

(** [int(s, 16)]: white space, a sign, a [0x] prefix, then hexadecimal
    digits; [None] is the [ValueError].  (CPython also takes the decimal
    digits of other scripts for digits; here a digit is ASCII.) *)
Definition int16 (s : str) : option Z :=
  let s := dropwhile_space s in
  let '(sign, s) :=
    match s with
    | 43%N :: t => (1, t)
    | 45%N :: t => (-1, t)
    | _ => (1, s)
    end in
  let s :=
    match s with
    | 48%N :: x :: t =>
        if ((x =? 120) || (x =? 88))%N
        then match t with 95%N :: t' => t' | _ => t end
        else s
    | _ => s
    end in
  match s with
  | d :: t =>
      match hex_value d with
      | Some v => option_map (Z.mul sign) (int16_digits v t)
      | None => None
      end
  | [] => None
  end.

Module HexColor.
Import Docx.

(** [RGBColor(r, g, b)]: python-docx refuses a component outside 0..255. *)
Definition new_RGBColor (r g b : Z) : result rgb :=
  if forallb (fun v => (0 <=? v) && (v <=? 255)) [r; g; b]
  then Ok (RGBColor r g b) else Raise ValueError.

Definition int16_or_raise (s : str) : result Z :=
  match int16 s with
  | Some v => Ok v
  | None => Raise ValueError
  end.

Definition _hex_to_rgbcolor (hexstr : str) : result rgb :=
  let hexstr := strip hexstr in
  if negb (len hexstr =? 6) then Raise ValueError
  else
    let* r := int16_or_raise (py_slice hexstr 0 2) in
    let* g := int16_or_raise (py_slice hexstr 2 4) in
    let* b := int16_or_raise (py_slice hexstr 4 6) in
    new_RGBColor r g b.

End HexColor.

(** ** The inline patterns of [_add_runs_from_text]

    [re.search] returns the leftmost match, and at that start the lazy
    [(.+?)] takes the shortest text after which the rest of the pattern
    matches.  A match is kept as the three pieces of the searched text that
    the caller uses: [text[:m.start()]], [m.group(1)] and [text[m.end():]]. *)

Module Re.

Record rmatch := {
  before : str;     (* text[:m.start()] *)
  group1 : str;     (* m.group(1) *)
  after : str       (* text[m.end():] *)
}.

(** [m.start()] *)
Definition start (m : rmatch) : Z := len (before m).

(** The same match, one character further in the text. *)
Definition shift (c : char) (m : rmatch) : rmatch :=
  {| before := c :: before m; group1 := group1 m; after := after m |}.

(** The text up to the first [dd], and the text after it. *)
Fixpoint find_pair (d : char) (s : str) : option (str * str) :=
  match s with
  | a :: (b :: t) as s' =>
      if ((a =? d) && (b =? d))%N then Some ([], t)
      else option_map (fun '(x, y) => (a :: x, y)) (find_pair d s')
  | _ => None
  end.

(** [dd(.+?)dd] at the head of [s]: the group and what follows. *)
Definition match_pair_at (d : char) (s : str) : option (str * str) :=
  match s with
  | a :: b :: c :: t =>
      if ((a =? d) && (b =? d))%N
      then option_map (fun '(x, y) => (c :: x, y)) (find_pair d t)
      else None
  | _ => None
  end.

(** [re.compile(r"dd(.+?)dd", re.DOTALL).search(s)], for the bold
    ([d = '*']) and the underline ([d = '_']) patterns. *)
Fixpoint search_pair (d : char) (s : str) : option rmatch :=
  match match_pair_at d s with
  | Some (g, rest) => Some {| before := []; group1 := g; after := rest |}
  | None =>
      match s with
      | [] => None
      | c :: s' => option_map (shift c) (search_pair d s')
      end
  end.

Definition star : char := 42%N.
Definition underscore : char := 95%N.

Definition is_star (c : option char) : bool :=
  match c with
  | Some x => (x =? star)%N
  | None => false
  end.

(** The closing delimiter of the italic pattern, a star between a
    negative lookbehind and a negative lookahead for a star: the text up
    to the first star that has no star before it ([prev] is the
    character before [s]) and no star after it. *)
Fixpoint find_lone_star (prev : char) (s : str) : option (str * str) :=
  match s with
  | [] => None
  | a :: t =>
      if ((a =? star) && negb (prev =? star))%N && negb (is_star (head t))
      then Some ([], t)
      else option_map (fun '(x, y) => (a :: x, y)) (find_lone_star a t)
  end.

(** The italic pattern at the head of [s]: a lone star, the lazy group
    [(.+?)], a lone star; [prev] is the character before [s], if any. *)
Definition match_italic_at (prev : option char) (s : str) : option (str * str) :=
  match s with
  | a :: c :: t =>
      if (a =? star)%N && negb (is_star prev) && negb (c =? star)%N
      then option_map (fun '(x, y) => (c :: x, y)) (find_lone_star c t)
      else None
  | _ => None
  end.

Fixpoint search_italic_from (prev : option char) (s : str) : option rmatch :=
  match match_italic_at prev s with
  | Some (g, rest) => Some {| before := []; group1 := g; after := rest |}
  | None =>
      match s with
      | [] => None
      | c :: s' => option_map (shift c) (search_italic_from (Some c) s')
      end
  end.

(** [italic_re.search(s)] *)
Definition search_italic (s : str) : option rmatch := search_italic_from None s.

End Re.

(** ** utils._add_runs_from_text *)

(** [min(xs, key=key)]: the first of the minimal elements. *)
Fixpoint py_min_by {A} (key : A -> Z) (best : A) (xs : list A) : A :=
  match xs with
  | [] => best
  | x :: xs' => py_min_by key (if key x <? key best then x else best) xs'
  end.

(** The text that a run gives back after [run.text = s]: python-docx
    stores a carriage return as a line break, read back as a newline. *)
Definition run_text (s : str) : str :=
  List.map (fun c => if (c =? 13)%N then 10%N else c) s.

Module Tokenizer.
Import Docx.

Inductive kind := KBold | KUnderline | KItalic.     (* "b", "u", "i" *)

(** [para.add_run(text)], then the flags and the colour that the caller
    sets on the new run. *)
Definition add_run (para : paragraph) (text : str) (k : option kind)
                   (color_rgb : option rgb) : paragraph :=
  let r := {| text := run_text text;
              bold := match k with Some KBold => true | _ => false end;
              italic := match k with Some KItalic => true | _ => false end;
              underline := match k with Some KUnderline => true | _ => false end;
              color := color_rgb |} in
  {| style := style para; runs := runs para ++ [r] |}.

(** [matches = [(m, t) for m, t in matches if m]] *)
Definition found (text : str) : list (Re.rmatch * kind) :=
  omap (fun '(m, t) => option_map (fun m' => (m', t)) m)
       [(Re.search_pair Re.star text, KBold);
        (Re.search_pair Re.underscore text, KUnderline);
        (Re.search_italic text, KItalic)].

(** [min(matches, key=lambda mt: mt[0].start())], when there is a match *)
Definition earliest (text : str) : option (Re.rmatch * kind) :=
  match found text with
  | [] => None
  | mt :: rest => Some (py_min_by (fun mt => Re.start (fst mt)) mt rest)
  end.

(** One iteration of [while text:] on a non-empty text: the paragraph
    after it, and the text that is left ([None] after [break]). *)
Definition step (para : paragraph) (text : str) (color_rgb : option rgb)
  : paragraph * option str :=
  match earliest text with
  | None => (add_run para text None color_rgb, None)
  | Some (m, k) =>
      let para :=
        if 0 <? Re.start m then add_run para (Re.before m) None color_rgb
        else para in
      let para := add_run para (Re.group1 m) (Some k) color_rgb in
      (para, Some (Re.after m))
  end.

(** The loop; [None] when the fuel runs out before it ends. *)
Fixpoint add_runs_loop (fuel : nat) (para : paragraph) (text : str)
                       (color_rgb : option rgb) : option paragraph :=
  match text with
  | [] => Some para
  | _ =>
      match fuel with
      | O => None
      | S fuel' =>
          match step para text color_rgb with
          | (para', None) => Some para'
          | (para', Some text') => add_runs_loop fuel' para' text' color_rgb
          end
      end
  end.

Definition _add_runs_from_text (para : paragraph) (text : str)
                               (color_rgb : option rgb) : option paragraph :=
  add_runs_loop (length text) para text color_rgb.

(** The markers that delimit a run of a kind. *)
Definition marker (k : kind) : str :=
  match k with
  | KBold => [Re.star; Re.star]
  | KUnderline => [Re.underscore; Re.underscore]
  | KItalic => [Re.star]
  end.

(** The order in which the matches are listed. *)
Definition rank (k : kind) : Z :=
  match k with KBold => 0 | KUnderline => 1 | KItalic => 2 end.

Definition search (k : kind) (text : str) : option Re.rmatch :=
  match k with
  | KBold => Re.search_pair Re.star text
  | KUnderline => Re.search_pair Re.underscore text
  | KItalic => Re.search_italic text
  end.

End Tokenizer.

(** ** The colour-tag pattern and the block separator *)

Module ColorRe.

Definition is_hex (c : char) : bool :=
  match hex_value c with Some _ => true | None => false end.

(** The text up to the first occurrence of [p], and the text after it. *)
Fixpoint find_sub (p s : str) : option (str * str) :=
  if startswith p s then Some ([], drop (length p) s)
  else
    match s with
    | [] => None
    | c :: s' => option_map (fun '(x, y) => (c :: x, y)) (find_sub p s')
    end.

Definition open_tag (hex : str) : str := u "<#" ++ hex ++ u ">".
Definition close_tag (hex : str) : str := u "</#" ++ hex ++ u ">".

(** [_hex_color_tag_re] at the head of [s]: an opening tag of six
    hexadecimal digits, the lazy group [(.*?)], the closing tag with the
    very same digits (the back-reference).  Gives group 1, group 2 and the
    text after the match. *)
Definition match_at (s : str) : option (str * str * str) :=
  if startswith (u "<#") s then
    let rest := drop 2 s in
    let hex := take 6 rest in
    if (length hex =? 6)%nat && forallb is_hex hex
       && startswith (u ">") (drop 6 rest)
    then option_map (fun '(x, y) => (hex, x, y))
                    (find_sub (close_tag hex) (drop 7 rest))
    else None
  else None.

(** A match of [finditer], with the text between the end of the match
    before it (or the start of the block) and its own start. *)
Record cmatch := {
  gap : str;        (* block[pos : m.start()] *)
  hex : str;        (* m.group(1) *)
  inner : str       (* m.group(2) *)
}.

Definition shift (c : char) (r : cmatch * str) : cmatch * str :=
  ({| gap := c :: gap (fst r); hex := hex (fst r); inner := inner (fst r) |}, snd r).

(** The leftmost match in [s], and the text after it. *)
Fixpoint search (s : str) : option (cmatch * str) :=
  match match_at s with
  | Some (h, x, rest) => Some ({| gap := []; hex := h; inner := x |}, rest)
  | None =>
      match s with
      | [] => None
      | c :: s' => option_map (shift c) (search s')
      end
  end.

(** [_hex_color_tag_re.finditer(s)]: the matches from left to right, none
    overlapping, and the text after the last one ([block[pos:]] after the
    loop).  [None] when the fuel runs out. *)
Fixpoint finditer (fuel : nat) (s : str) : option (list cmatch * str) :=
  match search s with
  | None => Some ([], s)
  | Some (m, rest) =>
      match fuel with
      | O => None
      | S fuel' =>
          option_map (fun '(ms, tail) => (m :: ms, tail)) (finditer fuel' rest)
      end
  end.

End ColorRe.

Module BlankRe.

(** The text after the last newline of [w], if [w] has a newline. *)
Fixpoint after_last_newline (w : str) : option str :=
  match w with
  | [] => None
  | c :: w' =>
      match after_last_newline w' with
      | Some r => Some r
      | None => if (c =? 10)%N then Some w' else None
      end
  end.

Fixpoint span_space (s : str) : str * str :=
  match s with
  | c :: s' =>
      if is_space c then let '(w, r) := span_space s' in (c :: w, r)
      else ([], s)
  | [] => ([], [])
  end.

(** [\n\s*\n] at the head of [s]: a newline, then the greedy [\s*] gives
    back characters until a newline follows, so the match ends at the
    last newline of the white space after the first one.  Gives the text
    after the match. *)
Definition match_at (s : str) : option str :=
  match s with
  | c :: t =>
      if (c =? 10)%N then
        let '(w, r) := span_space t in
        option_map (fun w' => w' ++ r) (after_last_newline w)
      else None
  | [] => None
  end.

(** [re.split(r"\n\s*\n", s)]; [cur] is the piece being read. *)
Fixpoint split_loop (fuel : nat) (cur : str) (s : str) : option (list str) :=
  match s with
  | [] => Some [cur]
  | c :: t =>
      match fuel with
      | O => None
      | S fuel' =>
          match match_at s with
          | Some rest => option_map (cons cur) (split_loop fuel' [] rest)
          | None => split_loop fuel' (cur ++ [c]) t
          end
      end
  end.

Definition split (s : str) : option (list str) := split_loop (length s) [] s.

End BlankRe.

(** ** utils._process_block_into_para and utils.save_docx_text *)

Module Reconstruct.
Import Docx.

(** [doc.add_paragraph(text, style)] of python-docx: a paragraph of that
    style (the default style is "Normal"), with one run when the text is
    not empty. *)
Definition add_paragraph (text : str) (style_name : str) : paragraph :=
  let para := {| style := style_name; runs := [] |} in
  match text with
  | [] => para
  | _ => Tokenizer.add_run para text None None
  end.

(** [doc.add_heading(text, level)] of python-docx: it refuses a level
    outside 0..9. *)
Definition add_heading (text : str) (level : Z) : result paragraph :=
  if (0 <=? level) && (level <=? 9) then
    let style_name :=
      if level =? 0 then u "Title"
      else u "Heading " ++ decimal (Z.to_N level) in
    Ok (add_paragraph text style_name)
  else Raise ValueError.

(** The [try] around [_hex_to_rgbcolor]: an exception means no colour. *)
Definition rgb_or_none (color_hex : str) : option rgb :=
  match HexColor._hex_to_rgbcolor color_hex with
  | Ok rgb => Some rgb
  | Raise _ => None
  end.

(** The body of [for m in _hex_color_tag_re.finditer(block)].  The test
    [m.start() > pos] is that the text between the matches is not
    empty. *)
Definition color_step (para : paragraph) (m : ColorRe.cmatch) : option paragraph :=
  para ← (match ColorRe.gap m with
          | [] => Some para
          | prefix => Tokenizer._add_runs_from_text para prefix None
          end);
  let rgb := rgb_or_none (ColorRe.hex m) in
  Tokenizer._add_runs_from_text para (ColorRe.inner m) rgb.

Fixpoint color_loop (para : paragraph) (ms : list ColorRe.cmatch) : option paragraph :=
  match ms with
  | [] => Some para
  | m :: ms' => para ← color_step para m; color_loop para ms'
  end.

(** The runs of a block that is not a heading. *)
Definition fill_para (para : paragraph) (block : str) : option paragraph :=
  '(ms, suffix) ← ColorRe.finditer (length block) block;
  para ← color_loop para ms;
  match suffix with
  | [] => Some para
  | _ => Tokenizer._add_runs_from_text para suffix None
  end.

(** [_process_block_into_para(doc, block)]: the paragraph that the block
    adds to the document.  The outer [None] is a loop of the model out of
    fuel. *)
Definition _process_block_into_para (block : str) : option (result paragraph) :=
  if startswith (u "#") block then
    let level := len block - len (lstrip_char (ch "#") block) in
    let heading_text := strip (lstrip_char (ch "#") block) in
    Some (add_heading heading_text level)
  else
    let '(para, block) :=
      if startswith [bullet; ch " "] block
      then (add_paragraph [] (u "List Bullet"), strip (py_slice block 2 (len block)))
      else if startswith (u "1. ") block
      then (add_paragraph [] (u "List Number"), strip (py_slice block 3 (len block)))
      else (add_paragraph [] (u "Normal"), block) in
    option_map Ok (fill_para para block).

(** The loop of [save_docx_text] over the blocks. *)
Fixpoint blocks_loop (doc : list paragraph) (blocks : list str)
  : option (result (list paragraph)) :=
  match blocks with
  | [] => Some (Ok doc)
  | block :: blocks' =>
      let block := strip block in
      match block with
      | [] => blocks_loop doc blocks'
      | _ =>
          r ← _process_block_into_para block;
          match r with
          | Ok para => blocks_loop (doc ++ [para]) blocks'
          | Raise e => Some (Raise e)
          end
      end
  end.

(** [save_docx_text(path, text)]: the document that is saved. *)
Definition save_docx_text (text : str) : option (result document) :=
  blocks ← BlankRe.split (strip text);
  r ← blocks_loop [] blocks;
  Some (let* paras := r in Ok {| paragraphs := paras; tables := [] |}).

End Reconstruct.

(** ** utils.convert_custom_text_to_html *)

Module Html.

(** Replacing, from left to right, every occurrence of a token of [n]
    characters ([n >= 1]) that [pat] accepts by the text that [pat] gives
    for it, the occurrences not overlapping: [re.sub] for a pattern of
    fixed length, and [str.replace].  [skip] counts the characters of the
    last occurrence that are still to be passed. *)
Fixpoint replace_loop (n : nat) (pat : str -> option str) (skip : nat) (s : str) : str :=
  match s with
  | [] => []
  | c :: t =>
      match skip with
      | S k => replace_loop n pat k t
      | O =>
          match (if (length (take n s) =? n)%nat then pat (take n s) else None) with
          | Some r => r ++ replace_loop n pat (n - 1) t
          | None => c :: replace_loop n pat 0 t
          end
      end
  end.

Definition replace_all (n : nat) (pat : str -> option str) (s : str) : str :=
  replace_loop n pat 0 s.

Definition quote : char := 34%N.

(** The replacement of an opening tag: the span with the digits of
    group 1. *)
Definition span (hex : str) : str :=
  u "<span style=" ++ [quote] ++ u "color:#" ++ hex ++ u ";" ++ [quote] ++ u ">".

(** An opening tag, "<#" six hexadecimal digits ">" *)
Definition open_pat (tok : str) : option str :=
  let hex := take 6 (drop 2 tok) in
  if startswith (u "<#") tok && forallb ColorRe.is_hex hex
     && str_eqb (drop 8 tok) (u ">")
  then Some (span hex) else None.

(** A closing tag, "</#" six hexadecimal digits ">" *)
Definition close_pat (tok : str) : option str :=
  let hex := take 6 (drop 3 tok) in
  if startswith (u "</#") tok && forallb ColorRe.is_hex hex
     && str_eqb (drop 9 tok) (u ">")
  then Some (u "</span>") else None.

Definition literal (old new : str) (tok : str) : option str :=
  if str_eqb tok old then Some new else None.

(** [html.replace("\n\n", "</p><p>").replace("\n", "<br>")] *)
Definition newlines (html : str) : str :=
  replace_all 1 (literal [10%N] (u "<br>"))
    (replace_all 2 (literal [10%N; 10%N] (u "</p><p>")) html).

(** The text that goes between [<body><p>] and [</p></body>]. *)
Definition body (text : str) : str :=
  newlines (replace_all 10 close_pat (replace_all 9 open_pat text)).

Definition nl : str := [10%N].

Definition header : str :=
  nl ++ u "    <html>" ++ nl
  ++ u "    <head>" ++ nl
  ++ u "        <meta charset=" ++ [quote] ++ u "utf-8" ++ [quote] ++ u ">" ++ nl
  ++ u "        <style>" ++ nl
  ++ u "            body {" ++ nl
  ++ u "                font-family: Arial, sans-serif;" ++ nl
  ++ u "                line-height: 1.5;" ++ nl
  ++ u "                font-size: 12pt;" ++ nl
  ++ u "                margin: 20px;" ++ nl
  ++ u "            }" ++ nl
  ++ u "            b { font-weight: bold; }" ++ nl
  ++ u "            i { font-style: italic; }" ++ nl
  ++ u "            p { margin-bottom: 10px; }" ++ nl
  ++ u "        </style>" ++ nl
  ++ u "    </head>" ++ nl
  ++ u "    <body><p>".

Definition footer : str :=
  u "</p></body>" ++ nl ++ u "    </html>" ++ nl ++ u "    ".

Definition convert_custom_text_to_html (text : str) : str :=
  header ++ body text ++ footer.

End Html.

(** ** ai_agent.py: the cache and the chunked calls

    The OpenAI client, the file that holds the cache and the [json] and
    [hashlib] modules are outside the program.  The client and the file
    system are an environment with a state of its own: a call may answer or
    raise, and what it does may depend on what happened before.  The state
    of the program is the dictionary [CACHE]; the model also keeps the list
    of the requests sent to the client. *)

(** [response.choices[0].message.content]: a text, or [None] *)
Definition content : Type := option str.

(** The arguments of [client.chat.completions.create], which are also the
    fields of [key_data]. *)
Record request := {
  model : str;
  messages : list (str * str);       (* role, content *)
  max_tokens : Z;
  temperature : Q;
  response_format : option str       (* {"type": ...} or None *)
}.

(** A JSON value, as [json.loads] returns it. *)
#[warnings="-register-all"]
Inductive json : Type :=
| JNull
| JStr (s : str)
| JInt (n : Z)
| JOther                             (* a number that is not an integer, a boolean *)
| JArr (items : list json)
| JObj (fields : list (str * json)).

Definition CHUNK_SIZE : Z := 7000.

Module Agent.
Section Agent.

(** The environment. *)
Variable env : Type.
(** [client.chat.completions.create(...)] and the content of its first
    choice, or the exception that either raises. *)
Variable api : env -> request -> env * result content.
(** Writing [CACHE] to [CACHE_FILE] with [json.dump]. *)
Variable write_file : env -> gmap str content -> env * result unit.
(** [hashlib.sha256(text.encode("utf-8")).hexdigest()] *)
Variable sha256_hex : str -> str.
(** [json.dumps(key_data, sort_keys=True, indent=2)] *)
Variable dumps_key : request -> str.
(** [json.dumps(obj, indent=2)] and [json.loads(s)] ([None]: an exception) *)
Variable json_dumps : json -> str.
Variable json_loads : str -> option json.
(** [str(e)] *)
Variable exn_message : exn -> str.
(** What [nlp_summary] finds in a text, and the two prompts (the f-strings
    of [analyze] and of [correct_whole]). *)
Variable nlp_info : Type.
Variable nlp_summary : str -> nlp_info.
Variable analysis_prompt : nlp_info -> str -> str.
Variable correction_prompt : str -> str.

Record state := {
  CACHE : gmap str content;
  world : env;
  api_log : list request             (* the requests sent to the client *)
}.

(** A computation on the state that returns or raises; the outer [None] is
    a loop of the model out of fuel. *)
Definition M (A : Type) : Type := state -> option (state * result A).

Definition ret {A} (a : A) : M A := fun s => Some (s, Ok a).
Definition raise {A} (e : exn) : M A := fun s => Some (s, Raise e).

Definition mbind' {A B} (m : M A) (k : A -> M B) : M B :=
  fun s =>
    match m s with
    | Some (s', Ok a) => k a s'
    | Some (s', Raise e) => Some (s', Raise e)
    | None => None
    end.

(** [try: m except Exception as e: h(e)] *)
Definition try_except {A} (m : M A) (h : exn -> M A) : M A :=
  fun s =>
    match m s with
    | Some (s', Raise e) => h e s'
    | r => r
    end.

Definition _hash_text (text : str) : str := sha256_hex text.

(** [save_cache()] *)
Definition save_cache : M unit :=
  fun s =>
    let '(w, r) := write_file (world s) (CACHE s) in
    Some ({| CACHE := CACHE s; world := w; api_log := api_log s |}, r).

(** [CACHE[key] = value] *)
Definition cache_store (key : str) (value : content) : M unit :=
  fun s => Some ({| CACHE := <[key := value]> (CACHE s); world := world s;
                    api_log := api_log s |}, Ok tt).

(** [client.chat.completions.create(...)], logged *)
Definition create (q : request) : M content :=
  fun s =>
    let '(w, r) := api (world s) q in
    Some ({| CACHE := CACHE s; world := w; api_log := api_log s ++ [q] |}, r).

(** [LLMAgent._call_openai_chat]; [q] holds [self.model] and the
    arguments. *)
Definition _call_openai_chat (q : request) : M content :=
  let cache_key := _hash_text (dumps_key q) in
  fun s =>
    match CACHE s !! cache_key with
    | Some stored => Some (s, Ok stored)
    | None =>
        mbind' (create q) (fun content =>
        mbind' (cache_store cache_key content) (fun _ =>
        mbind' save_cache (fun _ =>
        ret content))) s
    end.

(** *** The chunked calls *)

Variable self_model : str.

(** [min(cap, int(len(chunk) / 3) + 1500)] *)
Definition est_tokens (cap : Z) (chunk : str) : Z :=
  Z.min cap (len chunk / 3 + 1500).

(** [d[key] = value] on the fields of an object, in insertion order *)
Fixpoint dict_set (fields : list (str * json)) (key : str) (value : json)
  : list (str * json) :=
  match fields with
  | [] => [(key, value)]
  | (k, v) :: rest =>
      if str_eqb k key then (k, value) :: rest
      else (k, v) :: dict_set rest key value
  end.

Definition lift {A} (r : result A) : M A := fun s => Some (s, r).

Definition analysis_request (info : nlp_info) (chunk : str) : request :=
  {| model := self_model;
     messages := [(u "system", u "You are an English writing guideline checker.");
                  (u "user", analysis_prompt info chunk)];
     max_tokens := est_tokens CHUNK_SIZE chunk;
     temperature := 0;
     response_format := Some (u "json_object") |}.

(** The error-shaped output of a chunk whose call failed:
    [json.dumps({"error": "openai_call_failed", "message": str(e)})] *)
Definition error_report (e : exn) : json :=
  JObj [(u "error", JStr (u "openai_call_failed"));
        (u "message", JStr (exn_message e))].

(** The [out] of a chunk in [analyze]: from the cache, from the call, or
    the error-shaped output when the call or the cache write raises. *)
Definition analysis_out (info : nlp_info) (chunk : str) : M content :=
  let cache_key := _hash_text (chunk ++ u "_analysis") in
  fun s =>
    match CACHE s !! cache_key with
    | Some out => Some (s, Ok out)
    | None =>
        try_except
          (mbind' (_call_openai_chat (analysis_request info chunk)) (fun out =>
           mbind' (cache_store cache_key out) (fun _ =>
           mbind' save_cache (fun _ =>
           ret out))))
          (fun e => ret (Some (json_dumps (error_report e)))) s
    end.

(** [try: parsed = json.loads(out)] [except Exception: parsed =
    {"raw_output": out}] *)
Definition parse_out (out : content) : json :=
  match out with
  | Some text =>
      match json_loads text with
      | Some parsed => parsed
      | None => JObj [(u "raw_output", JStr text)]
      end
  | None => JObj [(u "raw_output", JNull)]
  end.

(** [parsed["_chunk_index"] = idx]: only a dictionary takes it. *)
Definition set_chunk_index (parsed : json) (idx : Z) : result json :=
  match parsed with
  | JObj fields => Ok (JObj (dict_set fields (u "_chunk_index") (JInt idx)))
  | _ => Raise TypeError
  end.

(** [for idx, chunk in enumerate(chunks)] of [analyze] *)
Fixpoint analyze_loop (info : nlp_info) (idx : Z) (chunks : list str)
                      (reports : list json) : M (list json) :=
  match chunks with
  | [] => ret reports
  | chunk :: rest =>
      mbind' (analysis_out info chunk) (fun out =>
      mbind' (lift (set_chunk_index (parse_out out) idx)) (fun parsed =>
      analyze_loop info (idx + 1) rest (reports ++ [parsed])))
  end.

Record findings := {
  grammar_issues : list json;
  clarity_issues : list json;
  style_issues : list json;
  per_chunk_reports : list json;
  summary : str
}.

(** [chunk_text(text, chunk_size=CHUNK_SIZE)] *)
Definition chunks_of (text : str) : M (list str) :=
  fun s =>
    match Chunker.chunk_text text CHUNK_SIZE (length text) with
    | Some chunks => Some (s, Ok chunks)
    | None => None
    end.

(** [LLMAgent.analyze] *)
Definition analyze (text : str) : M findings :=
  let info := nlp_summary text in
  mbind' (chunks_of text) (fun chunks =>
  mbind' (analyze_loop info 0 chunks []) (fun reports =>
  ret {| grammar_issues := []; clarity_issues := []; style_issues := [];
         per_chunk_reports := reports;
         summary := u "Combined report from LLM over chunks." |})).

Definition correction_request (chunk : str) : request :=
  {| model := self_model;
     messages := [(u "system", u "You are an expert English editor.");
                  (u "user", correction_prompt chunk)];
     max_tokens := est_tokens 3500 chunk;
     temperature := 0;
     response_format := None |}.

(** The [corrected] of a chunk in [correct_whole]: from the cache or from
    the call; nothing catches an exception here. *)
Definition corrected_chunk (chunk : str) : M content :=
  let cache_key := _hash_text (chunk ++ u "_correction") in
  fun s =>
    match CACHE s !! cache_key with
    | Some corrected => Some (s, Ok corrected)
    | None =>
        mbind' (_call_openai_chat (correction_request chunk)) (fun corrected =>
        mbind' (cache_store cache_key corrected) (fun _ =>
        mbind' save_cache (fun _ =>
        ret corrected))) s
    end.

(** [corrected.strip()] *)
Definition content_strip (corrected : content) : result str :=
  match corrected with
  | Some text => Ok (strip text)
  | None => Raise AttributeError
  end.

Fixpoint correct_loop (chunks : list str) (corrected_parts : list str) : M (list str) :=
  match chunks with
  | [] => ret corrected_parts
  | chunk :: rest =>
      mbind' (corrected_chunk chunk) (fun corrected =>
      mbind' (lift (content_strip corrected)) (fun part =>
      correct_loop rest (corrected_parts ++ [part])))
  end.

(** [LLMAgent.correct_whole] *)
Definition correct_whole (text : str) : M str :=
  mbind' (chunks_of text) (fun chunks =>
  mbind' (correct_loop chunks []) (fun parts =>
  ret (join [10%N; 10%N] parts))).

(** A sequence of calls of the wrapper, whatever each gives. *)
Fixpoint calls (qs : list request) (s : state) : option state :=
  match qs with
  | [] => Some s
  | q :: qs' =>
      match _call_openai_chat q s with
      | Some (s', _) => calls qs' s'
      | None => None
      end
  end.

End Agent.
End Agent.

(** ** utils.validate_file *)

(** [s.endswith(p)] *)
Definition endswith (p s : str) : bool := startswith (rev p) (rev s).

Module Upload.

(** An [UploadFile]: its name, when it has one, and the file behind it,
    its bytes and the position of the next read. *)
Record upload := {
  filename : option str;
  data : list Byte.byte;
  position : nat
}.

(** [await file.read(size)] *)
Definition read (size : nat) (file : upload) : list Byte.byte * upload :=
  let head := take size (drop (position file) (data file)) in
  (head, {| filename := filename file; data := data file;
            position := position file + length head |}).

(** [await file.seek(offset)] *)
Definition seek (offset : nat) (file : upload) : upload :=
  {| filename := filename file; data := data file; position := offset |}.

Definition allowed_types : list str :=
  [u "application/pdf"; u "application/msword";
   u "application/vnd.openxmlformats-officedocument.wordprocessingml.document"].

Section Validate.
(** [magic.from_buffer(head, mime=True)], or the exception that it
    raises *)
Variable from_buffer : list Byte.byte -> result str.

(** [validate_file(file)]: the file after the call, and the pair that is
    returned or the exception that is raised.  The name is lowered as
    [lower] does, which is [str.lower] on an ASCII name; on any name the
    two tests of the end of the name give what Python gives, no other
    character being lowered to a character of ".pdf" or ".docx". *)
Definition validate_file (file : upload) : upload * result (bool * str) :=
  match filename file with
  | None => (file, Raise AttributeError)
  | Some name =>
      let file_name := lower name in
      if endswith (u ".pdf") file_name || endswith (u ".docx") file_name then
        let '(head, file) := read 2048 file in
        let file := seek 0 file in
        match from_buffer head with
        | Ok mime_type =>
            if existsb (str_eqb mime_type) allowed_types
            then (file, Ok (true, u "Allowed file"))
            else (file, Ok (false, u "Not allowed: " ++ file_name ++ u " ("
                                     ++ mime_type ++ u ")"))
        | Raise e => (file, Raise e)
        end
      else (file, Ok (false, u "File must be a PDF or DOCX"))
  end.
End Validate.

End Upload.

(** * Properties *)

(** ceil(n / d) for positive [d] *)
Definition ceil_div (n d : Z) : Z := (n + d - 1) / d.

Lemma ceil_div_0 (d : Z) : 0 < d -> ceil_div 0 d = 0.
Proof. intros Hd. unfold ceil_div. apply Z.div_small. lia. Qed.

Lemma ceil_div_small (n d : Z) : 0 < n -> n <= d -> ceil_div n d = 1.
Proof.
  intros Hn Hd. unfold ceil_div. symmetry.
  apply Z.div_unique with (r := n - 1); lia.
Qed.

Lemma ceil_div_add (n d : Z) : 0 < d -> ceil_div (n + d) d = ceil_div n d + 1.
Proof.
  intros Hd. unfold ceil_div.
  replace (n + d + d - 1) with ((n + d - 1) + 1 * d) by lia.
  apply Z.div_add. lia.
Qed.

Lemma len_cons {A} (x : A) (l : list A) : len (x :: l) = len l + 1.
Proof. unfold len. simpl length. lia. Qed.

Lemma len_app {A} (l k : list A) : len (l ++ k) = len l + len k.
Proof. unfold len. rewrite length_app. lia. Qed.

Lemma len_nonneg {A} (l : list A) : 0 <= len l.
Proof. unfold len. lia. Qed.

(** *** Properties of the chunker *)

Section ChunkerFacts.
Context {A : Type}.
Implicit Types (text : list A) (S : Z).

Lemma slice_bound_inside (n i : Z) : 0 <= i -> i <= n -> slice_bound n i = i.
Proof.
  intros H0 Hn. unfold slice_bound.
  destruct (Z.ltb_spec i 0); [lia|].
  destruct (Z.ltb_spec n i); [lia|]. reflexivity.
Qed.

Lemma py_slice_inside text a b :
  0 <= a -> a <= b -> b <= len text ->
  py_slice text a b = take (Z.to_nat (b - a)) (drop (Z.to_nat a) text).
Proof.
  intros Ha Hab Hb. unfold py_slice.
  rewrite !slice_bound_inside by lia.
  destruct (Z.ltb_spec a b); [reflexivity|].
  assert (b = a) as -> by lia. rewrite Z.sub_diag. reflexivity.
Qed.

Lemma py_slice_length text a b :
  0 <= a -> a <= b -> b <= len text ->
  len (py_slice text a b) = b - a.
Proof.
  intros Ha Hab Hb. rewrite py_slice_inside by assumption.
  unfold len in *. rewrite length_take, length_drop. lia.
Qed.

Lemma py_slice_drop text a b :
  0 <= a -> a <= b -> b <= len text ->
  py_slice text a b ++ drop (Z.to_nat b) text = drop (Z.to_nat a) text.
Proof.
  intros Ha Hab Hb. rewrite py_slice_inside by assumption.
  replace (Z.to_nat b) with (Z.to_nat a + Z.to_nat (b - a))%nat by lia.
  rewrite <- drop_drop. apply take_drop.
Qed.

(** The loop invariant: from an offset inside the text the loop appends
    chunks that rebuild the rest of the text. *)
Lemma chunk_while_spec text S :
  0 < S ->
  forall (fuel : nat) (start : Z) (chunks : list (list A)),
    0 <= start -> start <= len text ->
    (len text - start <= Z.of_nat fuel) ->
    exists cs,
      Chunker.chunk_while text S fuel start chunks = Some (chunks ++ cs)
      /\ concat cs = drop (Z.to_nat start) text
      /\ Forall (fun c => 0 < len c <= S) cs
      /\ len cs = ceil_div (len text - start) S.
Proof.
  intros HS. induction fuel as [|fuel IH]; intros start chunks H0 Hle Hfuel.
  - simpl. destruct (Z.ltb_spec start (len text)); [lia|].
    exists []. rewrite app_nil_r. assert (start = len text) as -> by lia.
    repeat split.
    + unfold len. rewrite Nat2Z.id. symmetry. apply drop_all.
    + constructor.
    + rewrite Z.sub_diag, ceil_div_0 by lia. reflexivity.
  - simpl. destruct (Z.ltb_spec start (len text)) as [Hlt|Hge].
    + set (e := Chunker.next_end text S start).
      assert (He : start < e /\ e <= len text /\ e - start <= S
                   /\ (e = len text \/ e = start + S)).
      { unfold e, Chunker.next_end. lia. }
      destruct He as (He1 & He2 & He3 & He4).
      destruct (IH e (chunks ++ [py_slice text start e])) as (cs & Hrun & Hcat & Hall & Hcnt);
        [lia | lia | lia |].
      exists (py_slice text start e :: cs). repeat split.
      * rewrite Hrun. rewrite <- app_assoc. reflexivity.
      * simpl. rewrite Hcat. apply py_slice_drop; lia.
      * constructor; [|exact Hall].
        rewrite py_slice_length by lia. lia.
      * rewrite len_cons, Hcnt. destruct He4 as [He4|He4].
        -- rewrite He4, Z.sub_diag, ceil_div_0 by lia.
           rewrite ceil_div_small by lia. reflexivity.
        -- rewrite He4.
           replace (len text - start) with ((len text - (start + S)) + S) by lia.
           rewrite ceil_div_add by lia. lia.
    + exists []. rewrite app_nil_r. assert (start = len text) as -> by lia.
      repeat split.
      * unfold len. rewrite Nat2Z.id. symmetry. apply drop_all.
      * constructor.
      * rewrite Z.sub_diag, ceil_div_0 by lia. reflexivity.
Qed.

(** With a non-positive size the offset never gets past where it is. *)
Lemma chunk_while_stuck text S :
  S <= 0 ->
  forall (fuel : nat) (start : Z) (chunks : list (list A)),
    start < len text ->
    Chunker.chunk_while text S fuel start chunks = None.
Proof.
  intros HS. induction fuel as [|fuel IH]; intros start chunks Hlt; simpl.
  - destruct (Z.ltb_spec start (len text)); [reflexivity | lia].
  - destruct (Z.ltb_spec start (len text)); [| lia].
    apply IH. unfold Chunker.next_end. lia.
Qed.
End ChunkerFacts.

(** C2. For every text T and size S > 0, [chunk_text(T, S)] returns (the
    loop ends within [len(T)] iterations) a list of chunks whose
    concatenation is T, in which every chunk is non-empty and at most S
    long, and which has ceil(len(T)/S) chunks; an empty text gives no
    chunk. *)
Theorem chunk_text_correct {A : Type} (T : list A) (S : Z) :
  0 < S ->
  exists chunks,
    Chunker.chunk_text T S (length T) = Some chunks
    /\ concat chunks = T
    /\ Forall (fun c => 0 < len c <= S) chunks
    /\ len chunks = ceil_div (len T) S
    /\ (T = [] -> chunks = []).
Proof.
  intros HS.
  destruct (chunk_while_spec T S HS (length T) 0 []) as (cs & Hrun & Hcat & Hall & Hcnt);
    [lia | unfold len; lia | unfold len; lia |].
  exists cs. simpl in Hrun. rewrite Z.sub_0_r in Hcnt. simpl in Hcat.
  repeat split; try assumption.
  intros ->. destruct cs as [|c cs]; [reflexivity|].
  exfalso. inversion Hall as [|? ? Hc _]; subst.
  simpl in Hcat. apply app_eq_nil in Hcat as [-> _]. unfold len in Hc. simpl in Hc. lia.
Qed.

Lemma chunk_text_correct_witness :
  exists chunks,
    Chunker.chunk_text (u "abcdefg") 3 7 = Some chunks
    /\ concat chunks = u "abcdefg"
    /\ Forall (fun c => 0 < len c <= 3) chunks
    /\ len chunks = ceil_div (len (u "abcdefg")) 3
    /\ (u "abcdefg" = [] -> chunks = []).
Proof. apply (chunk_text_correct (u "abcdefg") 3). lia. Defined.

(** C10. [chunk_text] terminates for every text when [chunk_size >= 1]:
    the offset strictly increases at every iteration, and [len(text)]
    iterations are enough.  When [chunk_size <= 0] and the text is not
    empty the offset never advances and the loop never ends, whatever the
    number of iterations; nothing in the function guards against it. *)
Theorem chunk_text_termination {A : Type} (T : list A) (S : Z) :
  (1 <= S ->
     (forall start, start < len T -> start < Chunker.next_end T S start)
     /\ exists chunks, Chunker.chunk_text T S (length T) = Some chunks)
  /\ (S <= 0 -> T <> [] ->
     (forall start, start < len T -> Chunker.next_end T S start <= start)
     /\ forall fuel, Chunker.chunk_text T S fuel = None).
Proof.
  split.
  - intros HS. split.
    + intros start Hlt. unfold Chunker.next_end. lia.
    + destruct (chunk_while_spec T S ltac:(lia) (length T) 0 []) as (cs & Hrun & _);
        [lia | unfold len; lia | unfold len; lia |].
      exists cs. exact Hrun.
  - intros HS HT. split.
    + intros start Hlt. unfold Chunker.next_end. lia.
    + intros fuel. apply chunk_while_stuck; [exact HS|].
      destruct T; [congruence|]. unfold len. simpl. lia.
Qed.

Lemma chunk_text_termination_witness :
  (exists chunks, Chunker.chunk_text (u "abcdefg") 3 7 = Some chunks)
  /\ (forall fuel, Chunker.chunk_text (u "abcdefg") 0 fuel = None).
Proof.
  destruct (chunk_text_termination (u "abcdefg") 3) as [H1 _].
  destruct (chunk_text_termination (u "abcdefg") 0) as [_ H2].
  split.
  - apply H1. lia.
  - apply H2; [lia | discriminate].
Defined.

(** *** Facts on these operations *)

(** Evaluate the string literals of the goal, then flatten the appends. *)
Ltac eval_literals :=
  repeat match goal with
         | |- context [u ?s] =>
             let x := eval vm_compute in (u s) in change (u s) with x
         | |- context [ch ?a] =>
             let x := eval vm_compute in (ch a) in change (ch a) with x
         end.

Ltac flatten_app :=
  repeat (progress cbn [app] || rewrite <- app_assoc).

Ltac str_norm := eval_literals; flatten_app.

Lemma startswith_spec (p s : str) :
  startswith p s = true <-> exists t, s = p ++ t.
Proof.
  revert s. induction p as [|a p IH]; intros s; simpl.
  - split; eauto.
  - destruct s as [|b s].
    + split; [discriminate | intros [t Ht]; discriminate].
    + rewrite andb_true_iff, N.eqb_eq, IH. split.
      * intros [-> [t ->]]. eauto.
      * intros [t Ht]. injection Ht as -> ->. eauto.
Qed.

Lemma startswith_head_ne (p s : str) (a b : char) :
  a <> b -> startswith (a :: p) (b :: s) = false.
Proof.
  intros H. cbn [startswith]. destruct (N.eqb_spec a b); [contradiction | reflexivity].
Qed.

Lemma startswith_app (p t : str) : startswith p (p ++ t) = true.
Proof. apply startswith_spec. eauto. Qed.

Lemma contains_spec (p s : str) :
  contains p s = true <-> exists a b, s = a ++ p ++ b.
Proof.
  induction s as [|x s IH]; simpl.
  - rewrite orb_false_r, startswith_spec. split.
    + intros [t Ht]. exists [], t. exact Ht.
    + intros (a & b & H). destruct a; [eauto|discriminate].
  - rewrite orb_true_iff, startswith_spec, IH. split.
    + intros [[t Ht] | (a & b & ->)].
      * exists [], t. exact Ht.
      * exists (x :: a), b. reflexivity.
    + intros (a & b & H). destruct a as [|y a].
      * left. eauto.
      * right. injection H as -> ->. eauto.
Qed.

Lemma before_first_spec (c : char) (s : str) :
  exists rest, s = before_first c s ++ rest
               /\ (c ∉ before_first c s)
               /\ (rest = [] \/ exists r, rest = c :: r).
Proof.
  induction s as [|x s (rest & Hs & Hnot & Hrest)]; simpl.
  - exists []. repeat split; [apply not_elem_of_nil | now left].
  - destruct (N.eqb_spec x c) as [->|Hne].
    + exists (c :: s). repeat split; [apply not_elem_of_nil | right; eauto].
    + exists rest. repeat split.
      * simpl. congruence.
      * rewrite elem_of_cons. intros [?|?]; [congruence | contradiction].
      * exact Hrest.
Qed.

Lemma lstrip_not_space (c : char) (s : str) :
  is_space c = false -> lstrip (c :: s) = c :: s.
Proof. intros H. simpl. rewrite H. reflexivity. Qed.

Lemma lstrip_idem (s : str) : lstrip (lstrip s) = lstrip s.
Proof.
  induction s as [|c s IH]; simpl; [reflexivity|].
  destruct (is_space c) eqn:E; [exact IH|]. simpl. rewrite E. reflexivity.
Qed.

Lemma lstrip_head (s : str) :
  match lstrip s with [] => True | c :: _ => is_space c = false end.
Proof.
  induction s as [|c s IH]; simpl; [exact I|].
  destruct (is_space c) eqn:E; [exact IH | exact E].
Qed.

Lemma lstrip_app_not_space (s t : str) (c : char) :
  is_space c = false -> lstrip (s ++ c :: t) = lstrip s ++ c :: t.
Proof.
  intros Hc. induction s as [|x s IH]; simpl.
  - rewrite Hc. reflexivity.
  - destruct (is_space x); [exact IH | reflexivity].
Qed.

Lemma rstrip_snoc_not_space (s : str) (c : char) :
  is_space c = false -> rstrip (s ++ [c]) = s ++ [c].
Proof.
  intros Hc. unfold rstrip. rewrite rev_app_distr. simpl. rewrite Hc.
  simpl. rewrite rev_involutive. reflexivity.
Qed.

Lemma rstrip_snoc_space (s : str) (c : char) :
  is_space c = true -> rstrip (s ++ [c]) = rstrip s.
Proof.
  intros Hc. unfold rstrip. rewrite rev_app_distr. simpl. rewrite Hc. reflexivity.
Qed.

Lemma rstrip_app_spaces (s t : str) :
  forallb is_space t = true -> rstrip (s ++ t) = rstrip s.
Proof.
  induction t as [|c t IH] using rev_ind; intros Ht.
  - rewrite app_nil_r. reflexivity.
  - rewrite forallb_app in Ht. simpl in Ht.
    apply andb_true_iff in Ht as [Ht Hc]. rewrite andb_true_r in Hc.
    rewrite app_assoc, rstrip_snoc_space by exact Hc. apply IH, Ht.
Qed.

(** A text that starts and ends with a visible character is left alone. *)
Lemma strip_id (a b : char) (s : str) :
  is_space a = false -> is_space b = false ->
  strip (a :: s ++ [b]) = a :: s ++ [b].
Proof.
  intros Ha Hb. unfold strip. rewrite lstrip_not_space by exact Ha.
  apply (rstrip_snoc_not_space (a :: s)), Hb.
Qed.

Lemma strip_trailing (a b : char) (s w : str) :
  is_space a = false -> is_space b = false -> forallb is_space w = true ->
  strip ((a :: s ++ [b]) ++ w) = a :: s ++ [b].
Proof.
  intros Ha Hb Hw. unfold strip.
  replace (lstrip ((a :: s ++ [b]) ++ w)) with ((a :: s ++ [b]) ++ w)
    by (simpl; rewrite Ha; reflexivity).
  rewrite (rstrip_app_spaces (a :: s ++ [b]) w Hw).
  apply (rstrip_snoc_not_space (a :: s)), Hb.
Qed.

Example fmt_1f_examples :
  Pdf.fmt_1f 11.5%Q = u "11.5" /\ Pdf.fmt_1f (12 # 1)%Q = u "12.0"
  /\ Pdf.fmt_1f 0.25%Q = u "0.2" /\ Pdf.fmt_1f 0.75%Q = u "0.8"
  /\ Pdf.fmt_1f 9.96%Q = u "10.0" /\ Pdf.fmt_1f (-0.01)%Q = u "-0.0".
Proof. repeat split; vm_compute; reflexivity. Qed.

Definition is_upper_hex (c : char) : bool :=
  ((48 <=? c) && (c <=? 57) || (65 <=? c) && (c <=? 70))%N.

Lemma hex_digit_value (d : Z) :
  0 <= d < 16 ->
  hex_value (hex_digit d) = Some d /\ is_upper_hex (hex_digit d) = true.
Proof.
  intros Hd.
  assert (d = 0 \/ d = 1 \/ d = 2 \/ d = 3 \/ d = 4 \/ d = 5 \/ d = 6 \/ d = 7
          \/ d = 8 \/ d = 9 \/ d = 10 \/ d = 11 \/ d = 12 \/ d = 13 \/ d = 14
          \/ d = 15) as H by lia.
  repeat (destruct H as [-> | H]; [split; reflexivity|]). subst. split; reflexivity.
Qed.

Lemma land_255 (x : Z) : Z.land x 255 = x mod 256.
Proof. change 255 with (Z.ones 8). rewrite Z.land_ones by lia. reflexivity. Qed.

(** The three bytes of a packed colour. *)
Lemma unpack_rgb (c : Z) :
  let r := Z.land (Z.shiftr c 16) 255 in
  let g := Z.land (Z.shiftr c 8) 255 in
  let b := Z.land c 255 in
  0 <= r < 256 /\ 0 <= g < 256 /\ 0 <= b < 256
  /\ c mod 2 ^ 24 = r * 65536 + g * 256 + b.
Proof.
  cbv zeta. rewrite !land_255, !Z.shiftr_div_pow2 by lia.
  change (2 ^ 16) with 65536. change (2 ^ 8) with 256. change (2 ^ 24) with 16777216.
  pose proof (Z.mod_pos_bound (c / 65536) 256).
  pose proof (Z.mod_pos_bound (c / 256) 256).
  pose proof (Z.mod_pos_bound c 256).
  repeat split; try lia.
  replace (c / 65536) with (c / 256 / 256) by (rewrite Z.div_div by lia; reflexivity).
  pose proof (Z.div_mod c 256 ltac:(lia)).
  pose proof (Z.div_mod (c / 256) 256 ltac:(lia)).
  pose proof (Z.div_mod (c / 256 / 256) 256 ltac:(lia)).
  pose proof (Z.mod_pos_bound (c / 256 / 256) 256 ltac:(lia)).
  symmetry. apply Z.mod_unique with (q := c / 256 / 256 / 256); lia.
Qed.

(** C7, as stated, fails in the order of the tags.  Its chain
    size⊂font⊂color⊂(b)⊂(i), read outward as it reads for (b)⊂(i), has the
    size tag innermost and the colour tag around the font tag.  The
    extractor writes the three the other way round: the colour tag is the
    innermost, around the text; the font tag is around it, and the size
    tag around the font tag. *)
Lemma pdf_colour_tag_is_innermost :
  Pdf.extract_text_from_pdf
    [[Some [[ {| Pdf.text := u "Hello"; Pdf.font := Some (u "Arial-BoldItalic");
                 Pdf.size := Some 11.5%Q; Pdf.color := Some 0xFF0000 |} ]]]]
    = u "<i><b><size=11.5><font=Arial><#FF0000>Hello</#FF0000></font></size></b></i>"
  /\ Pdf.extract_text_from_pdf
       [[Some [[ {| Pdf.text := u "Hello"; Pdf.font := Some (u "Arial-BoldItalic");
                    Pdf.size := Some 11.5%Q; Pdf.color := Some 0xFF0000 |} ]]]]
     <> u "<i><b><#FF0000><font=Arial><size=11.5>Hello</size></font></#FF0000></b></i>".
Proof. split; [vm_compute; reflexivity | vm_compute; discriminate]. Qed.

(** C7, amended. A span with font "Arial-BoldItalic", size 11.5 and colour
    0xFF0000 comes out as a block [<i><b><size=11.5><font=Arial><#FF0000>text
    </#FF0000></font></size></b></i>].  For every span that is not blank
    the tags are nested in one order, which is, from the text outward:
    colour, font, size, then [<b>] when the font name contains "Bold", then
    [<i>] when it contains "Italic" or "Oblique"; the family is the font
    name cut at the first '-'; the colour is '#' and the six uppercase
    hexadecimal digits of the three bytes of the packed integer. *)
Theorem pdf_span_emission :
  (forall txt : str, strip txt <> [] ->
     Pdf.extract_text_from_pdf
       [[Some [[ {| Pdf.text := txt; Pdf.font := Some (u "Arial-BoldItalic");
                    Pdf.size := Some 11.5%Q; Pdf.color := Some 0xFF0000 |} ]]]]
     = u "<i><b><size=11.5><font=Arial><#FF0000>" ++ strip txt
         ++ u "</#FF0000></font></size></b></i>")
  /\ (forall sp : Pdf.span, strip (Pdf.text sp) <> [] ->
      let font_name := default [] (Pdf.font sp) in
      exists (bold italic : bool) (family rest : str) (r g b : Z),
        Pdf.styled_span sp =
          Some ((if italic then u "<i>" else []) ++ (if bold then u "<b>" else [])
                ++ u "<size=" ++ Pdf.fmt_1f (default (12 # 1)%Q (Pdf.size sp))
                ++ u "><font=" ++ family
                ++ u "><#" ++ fmt_02X r ++ fmt_02X g ++ fmt_02X b ++ u ">"
                ++ strip (Pdf.text sp)
                ++ u "</#" ++ fmt_02X r ++ fmt_02X g ++ fmt_02X b
                ++ u "></font></size>"
                ++ (if bold then u "</b>" else []) ++ (if italic then u "</i>" else []))
        /\ (bold = true <-> exists x y, font_name = x ++ u "Bold" ++ y)
        /\ (italic = true <->
              (exists x y, font_name = x ++ u "Italic" ++ y)
              \/ (exists x y, font_name = x ++ u "Oblique" ++ y))
        /\ font_name = family ++ rest /\ (ch "-" ∉ family)
        /\ (rest = [] \/ exists t, rest = ch "-" :: t)
        /\ 0 <= r < 256 /\ 0 <= g < 256 /\ 0 <= b < 256
        /\ default 0 (Pdf.color sp) mod 2 ^ 24 = r * 65536 + g * 256 + b
        /\ forallb is_upper_hex (fmt_02X r ++ fmt_02X g ++ fmt_02X b) = true).
Proof.
  split.
  - intros txt Hne.
    unfold Pdf.extract_text_from_pdf, Pdf.block_text, Pdf.styled_span,
      Pdf.text, Pdf.font, Pdf.size, Pdf.color, default, from_option, id.
    cbn [concat List.map app omap list_omap].
    destruct (strip txt) as [|c t] eqn:E; [congruence|]. clear Hne E.
    set (body := c :: t).
    change (Pdf.is_bold (u "Arial-BoldItalic")) with true.
    change (Pdf.is_italic (u "Arial-BoldItalic")) with true.
    change (Pdf.font_family (u "Arial-BoldItalic")) with (u "Arial").
    change (Pdf.color_hex 0xFF0000) with (u "#FF0000").
    change (Pdf.fmt_1f 11.5%Q) with (u "11.5").
    cbn [concat app]. rewrite !app_nil_r.
    set (inner := u "i><b><size=11.5><font=Arial><#FF0000>" ++ body
                  ++ u "</#FF0000></font></size></b></i").
    transitivity (ch "<" :: inner ++ [ch ">"]).
    + rewrite <- (strip_trailing (ch "<") (ch ">") inner [10; 10]%N) by reflexivity.
      f_equal. unfold inner. str_norm. reflexivity.
    + unfold inner. str_norm. reflexivity.
  - intros sp Hne font_name. unfold Pdf.styled_span.
    destruct (strip (Pdf.text sp)) as [|c t] eqn:E; [congruence|].
    fold font_name. set (cv := default 0 (Pdf.color sp)).
    destruct (before_first_spec (ch "-") font_name) as (rest & Hfam & Hnot & Hrest).
    destruct (unpack_rgb cv) as (Hr & Hg & Hb & Hval).
    set (r := Z.land (Z.shiftr cv 16) 255) in *.
    set (g := Z.land (Z.shiftr cv 8) 255) in *.
    set (b := Z.land cv 255) in *.
    exists (Pdf.is_bold font_name), (Pdf.is_italic font_name).
    assert (Hff : exists rest', font_name = Pdf.font_family font_name ++ rest'
                   /\ (ch "-" ∉ Pdf.font_family font_name)
                   /\ (rest' = [] \/ exists t, rest' = ch "-" :: t)).
    { unfold Pdf.font_family. destruct (contains (u "-") font_name) eqn:Ec.
      - exists rest. auto.
      - exists []. rewrite app_nil_r. repeat split; [|now left].
        intros Hin. apply list_elem_of_split in Hin as (x & y & Hxy).
        assert (contains (u "-") font_name = true) as Hc; [|congruence].
        apply contains_spec. exists x, y. exact Hxy. }
    destruct Hff as (rest' & Hf1 & Hf2 & Hf3).
    exists (Pdf.font_family font_name), rest', r, g, b.
    split_and!; try assumption; try lia.
    + unfold Pdf.color_hex. fold r g b.
      destruct (Pdf.is_bold font_name), (Pdf.is_italic font_name);
        str_norm; reflexivity.
    + apply contains_spec.
    + unfold Pdf.is_italic. rewrite orb_true_iff, !contains_spec. reflexivity.
    + unfold fmt_02X. cbn [app forallb].
      assert (Hd : forall x, 0 <= x < 256 ->
                  is_upper_hex (hex_digit (x / 16)) = true
                  /\ is_upper_hex (hex_digit (x mod 16)) = true).
      { intros x Hx. split; apply hex_digit_value.
        - split; [apply Z.div_pos; lia | apply Z.div_lt_upper_bound; lia].
        - apply Z.mod_pos_bound. lia. }
      destruct (Hd r Hr) as [-> ->], (Hd g Hg) as [-> ->], (Hd b Hb) as [-> ->].
      reflexivity.
Qed.

Lemma pdf_span_emission_witness :
  Pdf.extract_text_from_pdf
    [[Some [[ {| Pdf.text := u " Hello "; Pdf.font := Some (u "Arial-BoldItalic");
                 Pdf.size := Some 11.5%Q; Pdf.color := Some 0xFF0000 |} ]]]]
  = u "<i><b><size=11.5><font=Arial><#FF0000>" ++ strip (u " Hello ")
      ++ u "</#FF0000></font></size></b></i>".
Proof. apply (proj1 pdf_span_emission). vm_compute. discriminate. Defined.

(** What section 4.3 of the specification words for a run that is bold,
    italic and underlined: bold markers outermost, underline markers
    innermost. *)
Definition spec_bold_outermost (text : str) : str :=
  u "**" ++ u "*" ++ u "__" ++ text ++ u "__" ++ u "*" ++ u "**".

(** The wrapping that the extractor applies: bold first, so innermost,
    underline last, so outermost. *)
Definition underline_outermost (text : str) : str :=
  u "__" ++ u "*" ++ u "**" ++ text ++ u "**" ++ u "*" ++ u "__".

Definition all_styles (text : str) (c : option Docx.rgb) : Docx.run :=
  {| Docx.text := text; Docx.bold := true; Docx.italic := true;
     Docx.underline := true; Docx.color := c |}.

(** C6, as stated, fails: the run "x" with the three flags set comes out
    as [__***x***__], with the underline markers outermost. *)
Lemma run_wrapping_not_bold_outermost :
  DocxExtract.format_run (all_styles (u "x") None) = u "__***x***__"
  /\ DocxExtract.format_run (all_styles (u "x") None) <> spec_bold_outermost (u "x").
Proof. split; [reflexivity | vm_compute; discriminate]. Qed.

(** C6, amended. For every run with bold, italic and underline all set (and
    some text), the extractor wraps the text in the bold markers first, then
    in the italic markers, then in the underline markers, so the bold
    markers are innermost and the underline markers outermost; and it wraps
    the whole in a colour tag when it detects a colour. *)
Theorem run_wrapping_order (r : Docx.run) :
  Docx.text r <> [] ->
  Docx.bold r = true -> Docx.italic r = true -> Docx.underline r = true ->
  DocxExtract.format_run r =
    match DocxExtract.get_color_tag r with
    | Some tag => u "<" ++ tag ++ u ">" ++ underline_outermost (Docx.text r)
                    ++ u "</" ++ tag ++ u ">"
    | None => underline_outermost (Docx.text r)
    end
  /\ (is_Some (Docx.color r) <-> is_Some (DocxExtract.get_color_tag r)).
Proof.
  intros Ht Hb Hi Hu. split.
  - unfold DocxExtract.format_run, underline_outermost. rewrite Hb, Hi, Hu.
    destruct (Docx.text r) as [|c t]; [congruence|].
    destruct (DocxExtract.get_color_tag r); str_norm; reflexivity.
  - unfold DocxExtract.get_color_tag. destruct (Docx.color r) as [c|].
    + split; intros _; [|eauto].
      repeat match goal with |- context [if ?b then _ else _] => destruct b end; eauto.
    + split; intros [? ?]; discriminate.
Qed.

Lemma run_wrapping_order_witness :
  DocxExtract.format_run (all_styles (u "x") (Some (Docx.RGBColor 54 95 145)))
  = u "<#365F91>__***x***__</#365F91>".
Proof.
  destruct (run_wrapping_order (all_styles (u "x") (Some (Docx.RGBColor 54 95 145))))
    as [H _]; [vm_compute; discriminate | reflexivity | reflexivity | reflexivity |].
  rewrite H. reflexivity.
Defined.

Example hex_to_rgbcolor_examples :
  HexColor._hex_to_rgbcolor (u "365F91") = Ok (Docx.RGBColor 54 95 145)
  /\ HexColor._hex_to_rgbcolor (u " ff00ff ") = Ok (Docx.RGBColor 255 0 255)
  /\ HexColor._hex_to_rgbcolor (u "FF000") = Raise ValueError
  /\ HexColor._hex_to_rgbcolor (u "-F0000") = Raise ValueError
  /\ HexColor._hex_to_rgbcolor (u "+F 1_2") = Raise ValueError
  /\ HexColor._hex_to_rgbcolor (u "+F 10x") = Raise ValueError
  /\ HexColor._hex_to_rgbcolor (u "+FF 1 ") = Raise ValueError
  /\ HexColor._hex_to_rgbcolor (u "+FF 1 2") = Raise ValueError
  /\ HexColor._hex_to_rgbcolor (u "+F 1+2") = Ok (Docx.RGBColor 15 1 2).
Proof. repeat split; vm_compute; reflexivity. Qed.

Example search_examples :
  Re.search_pair Re.star (u "x**a**y") = Some (Re.Build_rmatch (u "x") (u "a") (u "y"))
  /\ Re.search_pair Re.star (u "****") = None
  /\ Re.search_pair Re.star (u "*****") = Some (Re.Build_rmatch [] (u "*") [])
  /\ Re.search_pair Re.star (u "***t***") = Some (Re.Build_rmatch [] (u "*t") (u "*"))
  /\ Re.search_italic (u "**a** and *b*") = Some (Re.Build_rmatch (u "**a** and ") (u "b") [])
  /\ Re.search_italic (u "*a***b**") = None
  /\ Re.search_italic (u "*a**b*") = Some (Re.Build_rmatch [] (u "a**b") [])
  /\ Re.search_italic (u "***t***") = None
  /\ Re.search_pair Re.underscore (u "__**t**__") = Some (Re.Build_rmatch [] (u "**t**") []).
Proof. repeat split; vm_compute; reflexivity. Qed.

(** *** What a match says about the text *)

Section SearchFacts.
Import Re.

Lemma find_pair_cons d a b t :
  find_pair d (a :: b :: t) =
    if ((a =? d) && (b =? d))%N then Some ([], t)
    else option_map (fun '(x, y) => (a :: x, y)) (find_pair d (b :: t)).
Proof. reflexivity. Qed.

Lemma find_pair_split d s x y :
  find_pair d s = Some (x, y) -> s = x ++ [d; d] ++ y.
Proof.
  revert x. induction s as [|a s IH]; intros x; [discriminate|].
  destruct s as [|b t]; [discriminate|].
  rewrite find_pair_cons.
  destruct ((a =? d)%N && (b =? d)%N) eqn:E.
  - apply andb_true_iff in E as [Ha Hb].
    apply N.eqb_eq in Ha, Hb. subst. intros [= <- <-]. reflexivity.
  - destruct (find_pair d (b :: t)) as [[x' y']|]; [|discriminate].
    simpl. intros [= <- <-]. rewrite (IH x' eq_refl). reflexivity.
Qed.

Lemma match_pair_at_split d s g y :
  match_pair_at d s = Some (g, y) -> g <> [] /\ s = [d; d] ++ g ++ [d; d] ++ y.
Proof.
  unfold match_pair_at. destruct s as [|a [|b [|c t]]]; try discriminate.
  destruct (N.eqb_spec a d) as [->|]; [|discriminate].
  destruct (N.eqb_spec b d) as [->|]; [|discriminate]. simpl.
  destruct (find_pair d t) as [[x y']|] eqn:E; [|discriminate].
  simpl. intros [= <- <-]. split; [discriminate|].
  rewrite (find_pair_split _ _ _ _ E). reflexivity.
Qed.

Lemma search_pair_split d s m :
  search_pair d s = Some m ->
  group1 m <> [] /\ s = before m ++ [d; d] ++ group1 m ++ [d; d] ++ after m.
Proof.
  revert m. induction s as [|c s IH]; intros m.
  - simpl. discriminate.
  - cbn [search_pair]. destruct (match_pair_at d (c :: s)) as [[g y]|] eqn:E.
    + intros [= <-]. apply match_pair_at_split in E. exact E.
    + destruct (search_pair d s) as [m'|]; [|discriminate].
      simpl. intros [= <-]. destruct (IH m' eq_refl) as [Hg Hs].
      split; [exact Hg|]. simpl. rewrite Hs at 1. reflexivity.
Qed.

Lemma find_lone_star_split prev s x y :
  find_lone_star prev s = Some (x, y) -> s = x ++ star :: y.
Proof.
  revert prev x. induction s as [|a s IH]; intros prev x; simpl; [discriminate|].
  destruct ((a =? star)%N && negb (prev =? star)%N && negb (is_star (head s))) eqn:E.
  - intros [= <- <-]. apply andb_true_iff in E as [E _].
    apply andb_true_iff in E as [E _]. apply N.eqb_eq in E. subst. reflexivity.
  - destruct (find_lone_star a s) as [[x' y']|] eqn:E'; [|discriminate].
    simpl. intros [= <- <-]. rewrite (IH _ _ E') at 1. reflexivity.
Qed.

Lemma match_italic_at_split prev s g y :
  match_italic_at prev s = Some (g, y) -> g <> [] /\ s = star :: g ++ star :: y.
Proof.
  unfold match_italic_at. destruct s as [|a [|c t]]; try discriminate.
  destruct ((a =? star)%N && negb (is_star prev) && negb (c =? star)%N) eqn:E;
    [|discriminate].
  destruct (find_lone_star c t) as [[x y']|] eqn:E'; [|discriminate].
  simpl. intros [= <- <-]. split; [discriminate|].
  apply andb_true_iff in E as [E _]. apply andb_true_iff in E as [E _].
  apply N.eqb_eq in E. subst. rewrite (find_lone_star_split _ _ _ _ E') at 1.
  reflexivity.
Qed.

Lemma search_italic_from_split prev s m :
  search_italic_from prev s = Some m ->
  group1 m <> [] /\ s = before m ++ [star] ++ group1 m ++ [star] ++ after m.
Proof.
  revert prev m. induction s as [|c s IH]; intros prev m.
  - simpl. discriminate.
  - cbn [search_italic_from].
    destruct (match_italic_at prev (c :: s)) as [[g y]|] eqn:E.
    + intros [= <-]. apply match_italic_at_split in E. exact E.
    + destruct (search_italic_from (Some c) s) as [m'|] eqn:E'; [|discriminate].
      simpl. intros [= <-]. destruct (IH _ _ E') as [Hg Hs].
      split; [exact Hg|]. simpl. rewrite Hs at 1. reflexivity.
Qed.

(** Every match is its marker, a non-empty group, its marker again. *)
Lemma search_split (k : Tokenizer.kind) (s : str) (m : rmatch) :
  Tokenizer.search k s = Some m ->
  group1 m <> []
  /\ s = before m ++ Tokenizer.marker k ++ group1 m ++ Tokenizer.marker k ++ after m.
Proof.
  destruct k; simpl.
  - apply search_pair_split.
  - apply search_pair_split.
  - apply search_italic_from_split.
Qed.
End SearchFacts.

(** *** The choice among the matches, and the end of the loop *)

Section TokenizerFacts.
Import Docx Tokenizer.

(** The chosen match is the match of its kind; no match of another kind
    starts before it, and one that starts at the same place is listed
    after it. *)
Lemma earliest_spec (text : str) :
  match earliest text with
  | None => forall k, search k text = None
  | Some (m, k) =>
      search k text = Some m
      /\ forall k' m', search k' text = Some m' ->
           Re.start m <= Re.start m'
           /\ (Re.start m = Re.start m' -> rank k <= rank k')
  end.
Proof.
  unfold earliest, found. cbn [omap list_omap].
  change (Re.search_pair Re.star text) with (search KBold text).
  change (Re.search_pair Re.underscore text) with (search KUnderline text).
  change (Re.search_italic text) with (search KItalic text).
  destruct (search KBold text) as [mb|] eqn:Eb;
    destruct (search KUnderline text) as [mu|] eqn:Eu;
    destruct (search KItalic text) as [mi|] eqn:Ei;
    cbn [option_map mbind option_bind py_min_by fst];
    repeat match goal with
           | |- context [Re.start ?a <? Re.start ?b] =>
               is_var a; is_var b;
               destruct (Z.ltb_spec (Re.start a) (Re.start b)); cbn [fst]
           end;
    first
      [ intros k'; destruct k'; assumption
      | split; [assumption|];
        intros k' m'; destruct k'; intros Hk; try congruence;
        try (replace m' with mb in * by congruence);
        try (replace m' with mu in * by congruence);
        try (replace m' with mi in * by congruence);
        cbn [rank]; lia ].
Qed.

Lemma earliest_shorter (text : str) (m : Re.rmatch) (k : kind) :
  earliest text = Some (m, k) -> (length (Re.after m) < length text)%nat.
Proof.
  intros E. pose proof (earliest_spec text) as H. rewrite E in H.
  destruct H as [H _]. apply search_split in H as [_ H].
  rewrite H. rewrite !length_app.
  destruct k; simpl; lia.
Qed.

Lemma add_runs_loop_fuel (fuel1 fuel2 : nat) (para : paragraph) (text : str)
      (c : option rgb) :
  (length text <= fuel1)%nat -> (length text <= fuel2)%nat ->
  add_runs_loop fuel1 para text c = add_runs_loop fuel2 para text c.
Proof.
  revert fuel2 para text.
  induction fuel1 as [|fuel1 IH]; intros fuel2 para text H1 H2.
  - destruct text; [destruct fuel2; reflexivity | simpl in H1; lia].
  - destruct text as [|x text]; [destruct fuel2; reflexivity|].
    destruct fuel2 as [|fuel2]; [simpl in H2; lia|].
    cbn [add_runs_loop]. unfold step.
    destruct (earliest (x :: text)) as [[m k]|] eqn:E; [|reflexivity].
    apply earliest_shorter in E. apply IH; simpl in *; lia.
Qed.

Lemma add_runs_loop_total (fuel : nat) (para : paragraph) (text : str)
      (c : option rgb) :
  (length text <= fuel)%nat -> is_Some (add_runs_loop fuel para text c).
Proof.
  revert para text. induction fuel as [|fuel IH]; intros para text H.
  - destruct text; [eauto | simpl in H; lia].
  - destruct text as [|x text]; [simpl; eauto|].
    cbn [add_runs_loop]. unfold step.
    destruct (earliest (x :: text)) as [[m k]|] eqn:E; [|eauto].
    apply earliest_shorter in E. apply IH; simpl in *; lia.
Qed.

(** The loop, one iteration unrolled. *)
Lemma add_runs_unfold (para : paragraph) (text : str) (c : option rgb) :
  _add_runs_from_text para text c =
    match text with
    | [] => Some para
    | _ =>
        match earliest text with
        | None => Some (add_run para text None c)
        | Some (m, k) =>
            let para :=
              if 0 <? Re.start m then add_run para (Re.before m) None c
              else para in
            _add_runs_from_text (add_run para (Re.group1 m) (Some k) c)
                                (Re.after m) c
        end
    end.
Proof.
  unfold _add_runs_from_text. destruct text as [|x text]; [reflexivity|].
  cbn [length add_runs_loop]. unfold step.
  destruct (earliest (x :: text)) as [[m k]|] eqn:E; [|reflexivity].
  apply earliest_shorter in E. cbv zeta.
  apply add_runs_loop_fuel; simpl in *; lia.
Qed.
End TokenizerFacts.

Definition empty_para : Docx.paragraph := {| Docx.style := u "Normal"; Docx.runs := [] |}.

Definition mk_run (text : str) (b i ul : bool) (c : option Docx.rgb) : Docx.run :=
  {| Docx.text := text; Docx.bold := b; Docx.italic := i; Docx.underline := ul;
     Docx.color := c |}.


Example split_examples :
  BlankRe.split (u "a" ++ [10; 32; 10; 32; 10]%N ++ u " b" ++ [10]%N ++ u "c")
    = Some [u "a"; u " b" ++ [10]%N ++ u "c"]
  /\ BlankRe.split [10; 10]%N = Some [[]; []]
  /\ ColorRe.finditer 99 (u "x<#FF0000>A</#00FF00>B</#FF0000>y<#00ff00></#00ff00>")
     = Some ([ColorRe.Build_cmatch (u "x") (u "FF0000") (u "A</#00FF00>B");
              ColorRe.Build_cmatch (u "y") (u "00ff00") []], [])
  /\ ColorRe.finditer 99 (u "<#00ff00>a</#00FF00>") = Some ([], u "<#00ff00>a</#00FF00>").
Proof. repeat split; vm_compute; reflexivity. Qed.

Definition test_markup : str :=
  u "# Title" ++ [10; 10]%N ++ [bullet] ++ u " Bullet 1" ++ [10; 10]%N
  ++ u "Normal **bold** and *italic*" ++ [10; 32; 10]%N
  ++ u "<#365F91>Blue __text__</#365F91> end".

Example save_docx_text_example :
  Reconstruct.save_docx_text test_markup =
    Some (Ok {| Docx.paragraphs :=
                 [ {| Docx.style := u "Heading 1";
                      Docx.runs := [mk_run (u "Title") false false false None] |};
                   {| Docx.style := u "List Bullet";
                      Docx.runs := [mk_run (u "Bullet 1") false false false None] |};
                   {| Docx.style := u "Normal";
                      Docx.runs := [mk_run (u "Normal ") false false false None;
                                    mk_run (u "bold") true false false None;
                                    mk_run (u " and ") false false false None;
                                    mk_run (u "italic") false true false None] |};
                   {| Docx.style := u "Normal";
                      Docx.runs :=
                        [mk_run (u "Blue ") false false false (Some (Docx.RGBColor 54 95 145));
                         mk_run (u "text") false false true (Some (Docx.RGBColor 54 95 145));
                         mk_run (u " end") false false false None] |} ];
                Docx.tables := [] |})
  /\ option_map (fun r => match r with
                          | Ok d => Ok (DocxExtract.extract_text_from_docx d)
                          | Raise e => Raise e
                          end) (Reconstruct.save_docx_text test_markup)
     = Some (Ok (u "# Title" ++ [10; 10]%N ++ [bullet] ++ u " Bullet 1" ++ [10; 10]%N
                 ++ u "Normal **bold** and *italic*" ++ [10; 10]%N
                 ++ u "<#365F91>Blue </#365F91><#365F91>__text__</#365F91> end")).
Proof. split; vm_compute; reflexivity. Qed.

(** *** What a colour match says about the block *)

Section ColorFacts.
Import ColorRe.

Lemma find_sub_split (p s x y : str) :
  find_sub p s = Some (x, y) -> s = x ++ p ++ y.
Proof.
  revert x. induction s as [|c s IH]; intros x; cbn [find_sub].
  - destruct p; [|discriminate]. intros [= <- <-]. reflexivity.
  - destruct (startswith p (c :: s)) eqn:E.
    + intros [= <- <-]. apply startswith_spec in E as [t Ht].
      rewrite Ht. rewrite drop_app_length. reflexivity.
    + destruct (find_sub p s) as [[x' y']|]; [|discriminate].
      simpl. intros [= <- <-]. rewrite (IH x' eq_refl) at 1. reflexivity.
Qed.

Lemma color_match_at_split (s h x y : str) :
  match_at s = Some (h, x, y) ->
  s = open_tag h ++ x ++ close_tag h ++ y
  /\ length h = 6%nat /\ forallb is_hex h = true.
Proof.
  unfold match_at. destruct (startswith (u "<#") s) eqn:E1; [|discriminate].
  apply startswith_spec in E1 as [t ->].
  replace (drop 2 (u "<#" ++ t)) with t by reflexivity.
  destruct ((length (take 6 t) =? 6)%nat && forallb is_hex (take 6 t)
            && startswith (u ">") (drop 6 t)) eqn:E2; [|discriminate].
  apply andb_true_iff in E2 as [E2 E3]. apply andb_true_iff in E2 as [E2 E4].
  apply Nat.eqb_eq in E2. apply startswith_spec in E3 as [t' Ht'].
  assert (Hd : drop 7 t = t').
  { replace 7%nat with (6 + 1)%nat by reflexivity.
    rewrite <- drop_drop, Ht'. reflexivity. }
  rewrite Hd.
  destruct (find_sub (close_tag (take 6 t)) t') as [[x' y']|] eqn:E5;
    [|discriminate].
  cbn [option_map]. intros [= <- <- <-]. apply find_sub_split in E5.
  split; [|split; assumption].
  unfold open_tag. rewrite <- !app_assoc. f_equal.
  rewrite <- (take_drop 6 t) at 1. f_equal.
  rewrite Ht'. f_equal. exact E5.
Qed.

Lemma color_search_split (s : str) (m : cmatch) (rest : str) :
  search s = Some (m, rest) ->
  s = gap m ++ open_tag (hex m) ++ inner m ++ close_tag (hex m) ++ rest
  /\ length (hex m) = 6%nat /\ forallb is_hex (hex m) = true.
Proof.
  revert m. induction s as [|c s IH]; intros m.
  - cbn [search]. destruct (match_at []) as [[[h x] y]|] eqn:E; [|discriminate].
    intros [= <- <-]. apply color_match_at_split in E. exact E.
  - cbn [search]. destruct (match_at (c :: s)) as [[[h x] y]|] eqn:E.
    + intros [= <- <-]. apply color_match_at_split in E. exact E.
    + destruct (search s) as [[m' rest']|]; [|discriminate].
      simpl. intros [= <- <-]. destruct (IH m' eq_refl) as (Hs & Hl & Hh).
      split; [|split; assumption]. simpl. rewrite Hs at 1. reflexivity.
Qed.

Lemma color_search_shorter (s : str) (m : cmatch) (rest : str) :
  search s = Some (m, rest) -> (length rest < length s)%nat.
Proof.
  intros H. apply color_search_split in H as (Hs & _ & _). rewrite Hs.
  rewrite !length_app. unfold open_tag. rewrite !length_app. simpl. lia.
Qed.

Lemma finditer_total (fuel : nat) (s : str) :
  (length s <= fuel)%nat -> is_Some (finditer fuel s).
Proof.
  revert s. induction fuel as [|fuel IH]; intros s Hlen; cbn [finditer].
  - destruct (search s) as [[m rest]|] eqn:E; [|eauto].
    apply color_search_shorter in E. lia.
  - destruct (search s) as [[m rest]|] eqn:E; [|eauto].
    apply color_search_shorter in E.
    destruct (IH rest) as [[ms tail] ->]; [lia|]. simpl. eauto.
Qed.

Lemma finditer_fuel (fuel1 fuel2 : nat) (s : str) :
  (length s <= fuel1)%nat -> (length s <= fuel2)%nat ->
  finditer fuel1 s = finditer fuel2 s.
Proof.
  revert fuel2 s. induction fuel1 as [|fuel1 IH]; intros fuel2 s H1 H2;
    destruct fuel2 as [|fuel2]; cbn [finditer];
    destruct (search s) as [[m rest]|] eqn:E; try reflexivity;
    apply color_search_shorter in E; try lia.
  rewrite (IH fuel2 rest) by lia. reflexivity.
Qed.
End ColorFacts.

Section ReconstructFacts.
Import Docx Reconstruct.

Lemma add_runs_total (para : paragraph) (text : str) (c : option rgb) :
  is_Some (Tokenizer._add_runs_from_text para text c).
Proof. apply add_runs_loop_total. lia. Qed.

Lemma color_step_total (para : paragraph) (m : ColorRe.cmatch) :
  is_Some (color_step para m).
Proof.
  unfold color_step. destruct (ColorRe.gap m) as [|x g]; simpl.
  - apply add_runs_total.
  - destruct (add_runs_total para (x :: g) None) as [p' ->]. simpl.
    apply add_runs_total.
Qed.

Lemma color_loop_total (ms : list ColorRe.cmatch) (para : paragraph) :
  is_Some (color_loop para ms).
Proof.
  revert para. induction ms as [|m ms IH]; intros para; simpl; [eauto|].
  destruct (color_step_total para m) as [p' ->]. simpl. apply IH.
Qed.

Lemma fill_para_total (para : paragraph) (block : str) :
  is_Some (fill_para para block).
Proof.
  unfold fill_para.
  destruct (finditer_total (length block) block) as [[ms suffix] ->]; [lia|].
  simpl. destruct (color_loop_total ms para) as [p' ->]. simpl.
  destruct suffix; [eauto | apply add_runs_total].
Qed.
End ReconstructFacts.



Example html_examples :
  Html.body (u "<#FF0000>Hello</#FF0000>" ++ [10; 10; 10]%N ++ u "World")
  = Html.span (u "FF0000") ++ u "Hello</span></p><p><br>World"
  /\ Html.body (u "<#FF000>x</#FF0000>></#FF00000>") = u "<#FF000>x</span>></#FF00000>"
  /\ Html.body (u "<#<#123abc>>") = u "<#" ++ Html.span (u "123abc") ++ u ">".
Proof. repeat split; vm_compute; reflexivity. Qed.

(** *** Replacing tokens in a text made of pieces *)

Section ReplaceFacts.
Variable n : nat.
Variable pat : str -> option str.
Hypothesis n_pos : (1 <= n)%nat.

(** No token has [c] after its first character. *)
Definition barrier (c : char) : Prop :=
  forall tok r, pat tok = Some r -> c ∉ drop 1 tok.

(** No token starts with [c]. *)
Definition not_head (c : char) : Prop :=
  forall tok r, pat tok = Some r -> head tok <> Some c.

Lemma replace_loop_skip (w rest : str) :
  Html.replace_loop n pat (length w) (w ++ rest) = Html.replace_loop n pat 0 rest.
Proof.
  induction w as [|c w IH]; [reflexivity|]. simpl. exact IH.
Qed.

Lemma replace_token (tok r rest : str) :
  length tok = n -> pat tok = Some r ->
  Html.replace_all n pat (tok ++ rest) = r ++ Html.replace_all n pat rest.
Proof.
  intros Hlen Hpat. unfold Html.replace_all.
  destruct tok as [|c tok]; [simpl in Hlen; lia|].
  cbn [app Html.replace_loop].
  replace (take n (c :: tok ++ rest)) with (c :: tok).
  - rewrite Hlen, Nat.eqb_refl, Hpat. f_equal.
    replace (n - 1)%nat with (length tok) by (simpl in Hlen; lia).
    apply replace_loop_skip.
  - change (c :: tok ++ rest) with ((c :: tok) ++ rest).
    rewrite take_app_le by lia. rewrite take_ge by lia. reflexivity.
Qed.

Lemma replace_no_match (c : char) (s : str) :
  pat (take n (c :: s)) = None ->
  Html.replace_all n pat (c :: s) = c :: Html.replace_all n pat s.
Proof.
  intros H. unfold Html.replace_all. cbn [Html.replace_loop]. rewrite H.
  destruct (length (take n (c :: s)) =? n)%nat; reflexivity.
Qed.

Lemma replace_not_head (c : char) (s : str) :
  not_head c -> Html.replace_all n pat (c :: s) = c :: Html.replace_all n pat s.
Proof.
  intros H. apply replace_no_match.
  destruct (pat (take n (c :: s))) as [r|] eqn:E; [|reflexivity].
  exfalso. apply (H _ _ E). destruct n; [lia | reflexivity].
Qed.

(** A piece with no character that starts a token goes through as it
    is. *)
Lemma replace_inert (w s : str) :
  Forall not_head w ->
  Html.replace_all n pat (w ++ s) = w ++ Html.replace_all n pat s.
Proof.
  induction 1 as [|c w Hc _ IH]; [reflexivity|].
  cbn [app]. rewrite replace_not_head by exact Hc. rewrite IH. reflexivity.
Qed.

Lemma replace_loop_barrier (c : char) (b : str) :
  barrier c ->
  forall (a : str) (k : nat), (k <= length a)%nat ->
    Html.replace_loop n pat k (a ++ c :: b)
    = Html.replace_loop n pat k a ++ Html.replace_loop n pat 0 (c :: b).
Proof.
  intros Hbar. induction a as [|x a IH]; intros k Hk.
  - simpl in Hk. assert (k = 0)%nat as -> by lia. reflexivity.
  - destruct k as [|k].
    + cbn [app Html.replace_loop].
      destruct (le_lt_dec n (length (x :: a))) as [Hge|Hlt].
      * change (x :: a ++ c :: b) with ((x :: a) ++ c :: b).
        rewrite take_app_le by exact Hge.
        destruct (if (length (take n (x :: a)) =? n)%nat
                  then pat (take n (x :: a)) else None) as [r|].
        -- rewrite IH by (simpl in Hge; lia). rewrite app_assoc. reflexivity.
        -- rewrite IH by lia. reflexivity.
      * assert (Hshort : (length (take n (x :: a)) =? n)%nat = false).
        { apply Nat.eqb_neq. rewrite length_take. lia. }
        rewrite Hshort.
        assert (Hnone : (if (length (take n (x :: a ++ c :: b)) =? n)%nat
                         then pat (take n (x :: a ++ c :: b)) else None) = None).
        { destruct (length (take n (x :: a ++ c :: b)) =? n)%nat; [|reflexivity].
          destruct (pat (take n (x :: a ++ c :: b))) as [r|] eqn:E; [|reflexivity].
          exfalso. apply (Hbar _ _ E).
          destruct n as [|n']; [lia|]. cbn [take drop].
          rewrite take_app_ge by (simpl in Hlt; lia).
          apply elem_of_app. right.
          destruct (n' - length a)%nat as [|j] eqn:Ej; [simpl in Hlt; lia|].
          cbn [take]. apply elem_of_cons. left. reflexivity. }
        rewrite Hnone. rewrite IH by lia. reflexivity.
    + cbn [app Html.replace_loop]. apply IH. simpl in Hk. lia.
Qed.

(** A piece that ends where a barrier character stands is replaced on its
    own. *)
Lemma replace_barrier (c : char) (a b : str) :
  barrier c ->
  Html.replace_all n pat (a ++ c :: b)
  = Html.replace_all n pat a ++ Html.replace_all n pat (c :: b).
Proof.
  intros Hbar. unfold Html.replace_all. apply replace_loop_barrier; [exact Hbar | lia].
Qed.
End ReplaceFacts.

(** *** The colour tags through the four replacements *)

Definition valid_hex (h : str) : Prop :=
  length h = 6%nat /\ forallb ColorRe.is_hex h = true.

Definition avoids (c : char) (w : str) : bool :=
  forallb (fun x => negb (x =? c)%N) w.

Lemma avoids_app (c : char) (a b : str) :
  avoids c (a ++ b) = avoids c a && avoids c b.
Proof. apply forallb_app. Qed.

Lemma avoids_cons (c x : char) (w : str) :
  avoids c (x :: w) = negb (x =? c)%N && avoids c w.
Proof. reflexivity. Qed.

Lemma hex_avoids (c : char) (h : str) :
  ColorRe.is_hex c = false -> forallb ColorRe.is_hex h = true -> avoids c h = true.
Proof.
  intros Hc. induction h as [|x h IH]; [reflexivity|]. simpl.
  intros H. apply andb_true_iff in H as [Hx Hh]. rewrite (IH Hh), andb_true_r.
  destruct (N.eqb_spec x c) as [->|]; [congruence | reflexivity].
Qed.

Lemma avoids_elem (c : char) (w : str) : avoids c w = true -> c ∉ w.
Proof.
  induction w as [|x w IH]; simpl; [intros _; apply not_elem_of_nil|].
  intros H. apply andb_true_iff in H as [Hx Hw]. rewrite elem_of_cons.
  intros [->|Hin]; [rewrite N.eqb_refl in Hx; discriminate | exact (IH Hw Hin)].
Qed.

Lemma open_pat_inv (tok r : str) :
  Html.open_pat tok = Some r ->
  exists h, tok = u "<#" ++ h ++ u ">" /\ forallb ColorRe.is_hex h = true /\ r = Html.span h.
Proof.
  unfold Html.open_pat.
  destruct (startswith (u "<#") tok) eqn:E1; [|discriminate].
  destruct (forallb ColorRe.is_hex (take 6 (drop 2 tok))) eqn:E2; [|discriminate].
  destruct (str_eqb (drop 8 tok) (u ">")) eqn:E3; [|discriminate].
  cbn [andb]. intros [= <-]. apply startswith_spec in E1 as [t ->].
  apply bool_decide_eq_true in E3.
  replace (drop 2 (u "<#" ++ t)) with t in * by reflexivity.
  replace (drop 8 (u "<#" ++ t)) with (drop 6 t) in E3 by reflexivity.
  exists (take 6 t). split; [|split; [exact E2 | reflexivity]].
  rewrite <- E3, take_drop. reflexivity.
Qed.

Lemma close_pat_inv (tok r : str) :
  Html.close_pat tok = Some r ->
  exists h, tok = u "</#" ++ h ++ u ">" /\ forallb ColorRe.is_hex h = true
            /\ r = u "</span>".
Proof.
  unfold Html.close_pat.
  destruct (startswith (u "</#") tok) eqn:E1; [|discriminate].
  destruct (forallb ColorRe.is_hex (take 6 (drop 3 tok))) eqn:E2; [|discriminate].
  destruct (str_eqb (drop 9 tok) (u ">")) eqn:E3; [|discriminate].
  cbn [andb]. intros [= <-]. apply startswith_spec in E1 as [t ->].
  apply bool_decide_eq_true in E3.
  replace (drop 3 (u "</#" ++ t)) with t in * by reflexivity.
  replace (drop 9 (u "</#" ++ t)) with (drop 6 t) in E3 by reflexivity.
  exists (take 6 t). split; [|split; [exact E2 | reflexivity]].
  rewrite <- E3, take_drop. reflexivity.
Qed.

Lemma open_pat_tag (h : str) :
  valid_hex h ->
  length (ColorRe.open_tag h) = 9%nat
  /\ Html.open_pat (ColorRe.open_tag h) = Some (Html.span h).
Proof.
  intros [Hl Hh]. unfold ColorRe.open_tag. split.
  - rewrite !length_app, Hl. reflexivity.
  - unfold Html.open_pat. rewrite startswith_app.
    replace (drop 2 (u "<#" ++ h ++ u ">")) with (h ++ u ">") by reflexivity.
    replace (drop 8 (u "<#" ++ h ++ u ">")) with (drop 6 (h ++ u ">")) by reflexivity.
    rewrite take_app_length', drop_app_length' by (symmetry; exact Hl).
    rewrite Hh. reflexivity.
Qed.

Lemma close_pat_tag (h : str) :
  valid_hex h ->
  length (ColorRe.close_tag h) = 10%nat
  /\ Html.close_pat (ColorRe.close_tag h) = Some (u "</span>").
Proof.
  intros [Hl Hh]. unfold ColorRe.close_tag. split.
  - rewrite !length_app, Hl. reflexivity.
  - unfold Html.close_pat. rewrite startswith_app.
    replace (drop 3 (u "</#" ++ h ++ u ">")) with (h ++ u ">") by reflexivity.
    replace (drop 9 (u "</#" ++ h ++ u ">")) with (drop 6 (h ++ u ">")) by reflexivity.
    rewrite take_app_length', drop_app_length' by (symmetry; exact Hl).
    rewrite Hh. reflexivity.
Qed.

Definition lt_sign : char := ch "<".

Lemma open_pat_barrier : barrier Html.open_pat lt_sign.
Proof.
  intros tok r H. apply open_pat_inv in H as (h & -> & Hh & _).
  apply avoids_elem. change (drop 1 (u "<#" ++ h ++ u ">")) with (ch "#" :: h ++ u ">").
  rewrite !avoids_cons, avoids_app, (hex_avoids lt_sign h eq_refl Hh). reflexivity.
Qed.

Lemma close_pat_barrier : barrier Html.close_pat lt_sign.
Proof.
  intros tok r H. apply close_pat_inv in H as (h & -> & Hh & _).
  apply avoids_elem.
  change (drop 1 (u "</#" ++ h ++ u ">")) with (ch "/" :: ch "#" :: h ++ u ">").
  rewrite !avoids_cons, avoids_app, (hex_avoids lt_sign h eq_refl Hh). reflexivity.
Qed.

Lemma open_pat_head (c : char) : c <> lt_sign -> not_head Html.open_pat c.
Proof.
  intros Hc tok r H. apply open_pat_inv in H as (h & -> & _). simpl.
  intros [= E]. apply Hc. rewrite <- E. reflexivity.
Qed.

Lemma close_pat_head (c : char) : c <> lt_sign -> not_head Html.close_pat c.
Proof.
  intros Hc tok r H. apply close_pat_inv in H as (h & -> & _). simpl.
  intros [= E]. apply Hc. rewrite <- E. reflexivity.
Qed.

Lemma literal_inv (old new tok r : str) :
  Html.literal old new tok = Some r -> tok = old.
Proof.
  unfold Html.literal. destruct (str_eqb tok old) eqn:E; [|discriminate].
  intros _. apply bool_decide_eq_true in E. exact E.
Qed.

Lemma literal_head (old new : str) (c0 c : char) :
  head old = Some c0 -> c <> c0 -> not_head (Html.literal old new) c.
Proof.
  intros H0 Hc tok r H. apply literal_inv in H as ->. rewrite H0. congruence.
Qed.

Lemma literal_barrier (old new : str) (c : char) :
  c ∉ drop 1 old -> barrier (Html.literal old new) c.
Proof. intros Hc tok r H. apply literal_inv in H as ->. exact Hc. Qed.

Lemma avoids_Forall (P : char -> Prop) (c0 : char) (w : str) :
  (forall c, c <> c0 -> P c) -> avoids c0 w = true -> Forall P w.
Proof.
  intros HP. induction w as [|x w IH]; [constructor|]. simpl.
  intros H. apply andb_true_iff in H as [Hx Hw]. constructor; [|exact (IH Hw)].
  apply HP. intros ->. rewrite N.eqb_refl in Hx. discriminate.
Qed.

Section PieceFacts.
Variable n : nat.
Variable pat : str -> option str.
Hypothesis n_pos : (1 <= n)%nat.

(** A piece [w] that starts with a barrier character [c], in the middle of
    a text. *)
Lemma replace_piece (c : char) (w w' a b : str) :
  barrier pat c -> head w = Some c ->
  Html.replace_all n pat (w ++ b) = w' ++ Html.replace_all n pat b ->
  Html.replace_all n pat (a ++ w ++ b)
  = Html.replace_all n pat a ++ w' ++ Html.replace_all n pat b.
Proof.
  intros Hbar Hw Hrep. destruct w as [|x w]; [discriminate|].
  injection Hw as ->. rewrite <- Hrep.
  apply (replace_barrier n pat n_pos c a (w ++ b) Hbar).
Qed.

(** A piece whose first character [c] starts no token here, and whose other
    characters start no token at all, is left as it is. *)
Lemma replace_plain_piece (c0 c : char) (w b : str) :
  (forall x, x <> c0 -> not_head pat x) ->
  avoids c0 w = true ->
  pat (take n (c :: w ++ b)) = None ->
  Html.replace_all n pat ((c :: w) ++ b) = (c :: w) ++ Html.replace_all n pat b.
Proof.
  intros Hhead Hw Hc. cbn [app]. rewrite replace_no_match by exact Hc.
  rewrite replace_inert; [reflexivity | exact n_pos |].
  apply (avoids_Forall _ c0); assumption.
Qed.
End PieceFacts.

Definition span_tail (h : str) : str :=
  u "span style=" ++ [Html.quote] ++ u "color:#" ++ h ++ u ";" ++ [Html.quote] ++ u ">".

Lemma span_cons (h : str) : Html.span h = lt_sign :: span_tail h.
Proof. reflexivity. Qed.

Lemma span_tail_avoids (c : char) (h : str) :
  ColorRe.is_hex c = false -> avoids c (span_tail (u "")) = true ->
  forallb ColorRe.is_hex h = true -> avoids c (span_tail h) = true.
Proof.
  intros Hc Hfix Hh. unfold span_tail in *.
  rewrite !avoids_app in *. rewrite (hex_avoids c h Hc Hh).
  revert Hfix.
  repeat match goal with
         | |- context [avoids c ?w] => destruct (avoids c w)
         end; simpl; intros; congruence.
Qed.

Definition close_tail (h : str) : str := u "/#" ++ h ++ u ">".

Lemma close_tag_cons (h : str) : ColorRe.close_tag h = lt_sign :: close_tail h.
Proof. reflexivity. Qed.

Lemma close_tail_avoids (h : str) :
  forallb ColorRe.is_hex h = true -> avoids lt_sign (close_tail h) = true.
Proof.
  intros Hh. unfold close_tail. rewrite !avoids_app, (hex_avoids lt_sign h eq_refl Hh).
  reflexivity.
Qed.

Definition P_open : str -> str := Html.replace_all 9 Html.open_pat.
Definition P_close : str -> str := Html.replace_all 10 Html.close_pat.
Definition P_para : str -> str :=
  Html.replace_all 2 (Html.literal [10%N; 10%N] (u "</p><p>")).
Definition P_br : str -> str := Html.replace_all 1 (Html.literal [10%N] (u "<br>")).

Lemma body_passes (text : str) :
  Html.body text = P_br (P_para (P_close (P_open text))).
Proof. reflexivity. Qed.

Lemma P_open_open_tag (h a b : str) :
  valid_hex h ->
  P_open (a ++ ColorRe.open_tag h ++ b) = P_open a ++ Html.span h ++ P_open b.
Proof.
  intros Hv. destruct (open_pat_tag h Hv) as [Hl Hp].
  apply (replace_piece 9 Html.open_pat ltac:(lia) lt_sign);
    [apply open_pat_barrier | reflexivity |].
  apply replace_token; [lia | assumption | assumption].
Qed.

Lemma P_open_close_tag (h a b : str) :
  valid_hex h ->
  P_open (a ++ ColorRe.close_tag h ++ b)
  = P_open a ++ ColorRe.close_tag h ++ P_open b.
Proof.
  intros [Hl Hh].
  apply (replace_piece 9 Html.open_pat ltac:(lia) lt_sign);
    [apply open_pat_barrier | reflexivity |].
  rewrite close_tag_cons.
  apply (replace_plain_piece 9 Html.open_pat ltac:(lia) lt_sign);
    [apply open_pat_head | apply close_tail_avoids, Hh | reflexivity].
Qed.

Lemma P_close_close_tag (h a b : str) :
  valid_hex h ->
  P_close (a ++ ColorRe.close_tag h ++ b) = P_close a ++ u "</span>" ++ P_close b.
Proof.
  intros Hv. destruct (close_pat_tag h Hv) as [Hl Hp].
  apply (replace_piece 10 Html.close_pat ltac:(lia) lt_sign);
    [apply close_pat_barrier | reflexivity |].
  apply replace_token; [lia | assumption | assumption].
Qed.

Lemma P_close_span (h a b : str) :
  valid_hex h ->
  P_close (a ++ Html.span h ++ b) = P_close a ++ Html.span h ++ P_close b.
Proof.
  intros [Hl Hh].
  apply (replace_piece 10 Html.close_pat ltac:(lia) lt_sign);
    [apply close_pat_barrier | reflexivity |].
  rewrite span_cons.
  apply (replace_plain_piece 10 Html.close_pat ltac:(lia) lt_sign);
    [apply close_pat_head | | reflexivity].
  apply span_tail_avoids; [reflexivity | reflexivity | exact Hh].
Qed.

(** A piece without a newline, starting with '<', through the two
    replacements of newlines. *)
Lemma newlines_piece (w a b : str) :
  head w = Some lt_sign -> avoids 10%N w = true ->
  P_br (P_para (a ++ w ++ b)) = P_br (P_para a) ++ w ++ P_br (P_para b).
Proof.
  intros Hw Hnl.
  assert (H1 : P_para (a ++ w ++ b) = P_para a ++ w ++ P_para b).
  { apply (replace_piece 2 _ ltac:(lia) lt_sign); [|exact Hw|].
    - apply literal_barrier. vm_compute. intros H.
      apply elem_of_cons in H as [H|H]; [discriminate|].
      apply not_elem_of_nil in H. exact H.
    - apply replace_inert; [lia|].
      apply (avoids_Forall _ 10%N); [|exact Hnl].
      intros x Hx. apply (literal_head _ _ 10%N); [reflexivity | exact Hx]. }
  rewrite H1.
  apply (replace_piece 1 _ ltac:(lia) lt_sign); [|exact Hw|].
  - apply literal_barrier. apply not_elem_of_nil.
  - apply replace_inert; [lia|].
    apply (avoids_Forall _ 10%N); [|exact Hnl].
    intros x Hx. apply (literal_head _ _ 10%N); [reflexivity | exact Hx].
Qed.

Lemma body_open_tag (h a b : str) :
  valid_hex h ->
  Html.body (a ++ ColorRe.open_tag h ++ b) = Html.body a ++ Html.span h ++ Html.body b.
Proof.
  intros Hv. rewrite !body_passes, P_open_open_tag, P_close_span by exact Hv.
  apply newlines_piece; [reflexivity|].
  rewrite span_cons, avoids_cons.
  rewrite span_tail_avoids; [reflexivity | reflexivity | reflexivity | apply Hv].
Qed.

Lemma body_close_tag (h a b : str) :
  valid_hex h ->
  Html.body (a ++ ColorRe.close_tag h ++ b) = Html.body a ++ u "</span>" ++ Html.body b.
Proof.
  intros Hv. rewrite !body_passes, P_open_close_tag, P_close_close_tag by exact Hv.
  apply newlines_piece; reflexivity.
Qed.

(** C5, as stated, fails: the mismatched pair [<#FF0000>Hello</#00FF00>]
    is not left as literal text, its two tags are replaced and the output
    has a span. *)
Lemma html_mismatched_pair_gets_span :
  Html.body (u "<#FF0000>Hello</#00FF00>") = Html.span (u "FF0000") ++ u "Hello</span>"
  /\ Html.body (u "<#FF0000>Hello</#00FF00>") <> u "<#FF0000>Hello</#00FF00>"
  /\ contains (u "<span")
       (Html.convert_custom_text_to_html (u "<#FF0000>Hello</#00FF00>")) = true.
Proof.
  split; [vm_compute; reflexivity|]. split; [vm_compute; discriminate|].
  vm_compute. reflexivity.
Qed.

(** C5, amended. In every input, an opening tag [<#HEX>] is replaced by
    [<span style="color:#HEX;">] and a closing tag [</#HEX>] by [</span>],
    each on its own, the text around them rendered as it would be alone.
    So a pair [<#HEX>...</#HEX'>] is rendered as a span with the colour of
    its opening tag, whether the two values are the same or not. *)
Theorem html_color_tags :
  (forall a h b : str, valid_hex h ->
     Html.body (a ++ ColorRe.open_tag h ++ b)
     = Html.body a ++ Html.span h ++ Html.body b)
  /\ (forall a h b : str, valid_hex h ->
        Html.body (a ++ ColorRe.close_tag h ++ b)
        = Html.body a ++ u "</span>" ++ Html.body b)
  /\ (forall a h x h' b : str, valid_hex h -> valid_hex h' ->
        Html.convert_custom_text_to_html
          (a ++ ColorRe.open_tag h ++ x ++ ColorRe.close_tag h' ++ b)
        = Html.header ++ Html.body a ++ Html.span h ++ Html.body x
            ++ u "</span>" ++ Html.body b ++ Html.footer).
Proof.
  split; [|split].
  - intros a h b Hv. apply body_open_tag, Hv.
  - intros a h b Hv. apply body_close_tag, Hv.
  - intros a h x h' b Hv Hv'. unfold Html.convert_custom_text_to_html.
    rewrite body_open_tag by exact Hv. rewrite body_close_tag by exact Hv'.
    rewrite <- !app_assoc. reflexivity.
Qed.

Lemma html_color_tags_witness :
  Html.convert_custom_text_to_html (u "<#FF0000>Hello</#FF0000>")
  = Html.header ++ Html.span (u "FF0000") ++ u "Hello</span>" ++ Html.footer.
Proof.
  destruct html_color_tags as (_ & _ & H).
  exact (H [] (u "FF0000") (u "Hello") (u "FF0000") []
           (conj eq_refl eq_refl) (conj eq_refl eq_refl)).
Defined.

(** *** The cache of the wrapper *)

Section CacheFacts.
Context {env : Type}.
Variable api : env -> request -> env * result content.
Variable write_file : env -> gmap str content -> env * result unit.
Variable sha256_hex : str -> str.
Variable dumps_key : request -> str.

Abbreviation state := (Agent.state env).
Abbreviation call := (Agent._call_openai_chat env api write_file sha256_hex dumps_key).
Abbreviation calls := (Agent.calls env api write_file sha256_hex dumps_key).

(** The fingerprint of a request. *)
Definition fingerprint (q : request) : str := sha256_hex (dumps_key q).

Lemma call_hit (q : request) (s : state) (v : content) :
  Agent.CACHE env s !! fingerprint q = Some v -> call q s = Some (s, Ok v).
Proof.
  intros H. unfold Agent._call_openai_chat, Agent._hash_text.
  unfold fingerprint in H. rewrite H. reflexivity.
Qed.

(** What a call that misses does. *)
Lemma call_miss (q : request) (s : state) :
  Agent.CACHE env s !! fingerprint q = None ->
  let '(w1, r) := api (Agent.world env s) q in
  call q s =
    match r with
    | Raise e =>
        Some ({| Agent.CACHE := Agent.CACHE env s; Agent.world := w1;
                 Agent.api_log := Agent.api_log env s ++ [q] |}, Raise e)
    | Ok c =>
        let cache := <[fingerprint q := c]> (Agent.CACHE env s) in
        let '(w2, r2) := write_file w1 cache in
        Some ({| Agent.CACHE := cache; Agent.world := w2;
                 Agent.api_log := Agent.api_log env s ++ [q] |},
              match r2 with Ok _ => Ok c | Raise e => Raise e end)
    end.
Proof.
  intros H. unfold Agent._call_openai_chat, Agent._hash_text.
  unfold fingerprint in *. rewrite H.
  unfold Agent.mbind', Agent.create, Agent.cache_store, Agent.save_cache, Agent.ret.
  destruct (api (Agent.world env s) q) as [w1 [c|e]]; [|reflexivity].
  cbn. destruct (write_file w1 _) as [w2 [[]|e]]; reflexivity.
Qed.

Lemma call_total (q : request) (s : state) : is_Some (call q s).
Proof.
  destruct (Agent.CACHE env s !! fingerprint q) as [v|] eqn:E.
  - rewrite (call_hit q s v E). eauto.
  - pose proof (call_miss q s E) as H.
    destruct (api (Agent.world env s) q) as [w1 [c|e]]; [|rewrite H; eauto].
    cbv zeta in H. destruct (write_file w1 _) as [w2 r2]. rewrite H. eauto.
Qed.

(** A call keeps every entry of the cache, adds at most the entry of its
    own fingerprint, and sends at most its own request. *)
Lemma call_effect (q : request) (s s1 : state) (res : result content) :
  call q s = Some (s1, res) ->
  (forall k v, Agent.CACHE env s !! k = Some v -> Agent.CACHE env s1 !! k = Some v)
  /\ (forall r, res = Ok r -> Agent.CACHE env s1 !! fingerprint q = Some r)
  /\ (Agent.api_log env s1 = Agent.api_log env s
      \/ (Agent.CACHE env s !! fingerprint q = None
          /\ Agent.api_log env s1 = Agent.api_log env s ++ [q])).
Proof.
  intros H. destruct (Agent.CACHE env s !! fingerprint q) as [v|] eqn:E.
  - rewrite (call_hit q s v E) in H. injection H as <- <-.
    split; [auto|]. split; [|left; reflexivity]. intros r [= <-]. exact E.
  - pose proof (call_miss q s E) as H'.
    destruct (api (Agent.world env s) q) as [w1 [c|e]].
    + cbv zeta in H'. destruct (write_file w1 _) as [w2 r2].
      rewrite H' in H. injection H as <- <-. cbn. split; [|split].
      * intros k v Hk. rewrite lookup_insert_ne; [exact Hk|]. congruence.
      * intros r Hr. destruct r2; [|discriminate]. injection Hr as <-.
        apply lookup_insert_eq.
      * right. split; reflexivity.
    + rewrite H' in H. injection H as <- <-. cbn. split; [auto|].
      split; [discriminate|]. right. split; reflexivity.
Qed.

Lemma calls_effect (qs : list request) (s s2 : state) (key : str) (v : content) :
  calls qs s = Some s2 ->
  Agent.CACHE env s !! key = Some v ->
  Agent.CACHE env s2 !! key = Some v
  /\ exists sent, Agent.api_log env s2 = Agent.api_log env s ++ sent
                  /\ Forall (fun x => fingerprint x <> key) sent.
Proof.
  revert s. induction qs as [|q qs IH]; intros s Hrun Hkey.
  - injection Hrun as <-. split; [exact Hkey|]. exists []. rewrite app_nil_r. auto.
  - cbn [Agent.calls] in Hrun.
    destruct (call q s) as [[s1 res]|] eqn:E; [|discriminate].
    destruct (call_effect q s s1 res E) as (Hkeep & _ & Hlog).
    destruct (IH s1 Hrun (Hkeep _ _ Hkey)) as (Hv & sent & Hsent & Hall).
    split; [exact Hv|]. destruct Hlog as [Hlog | [Hnone Hlog]].
    + exists sent. rewrite Hsent, Hlog. auto.
    + exists (q :: sent). rewrite Hsent, Hlog, <- app_assoc. split; [reflexivity|].
      constructor; [|exact Hall]. intros Heq. rewrite Heq in Hnone. congruence.
Qed.
End CacheFacts.

(** An environment in which the first call of the client raises and the
    later ones answer; its state counts the calls. *)
Definition flaky_api (n : nat) (q : request) : nat * result content :=
  (S n, match n with
        | O => Raise (Failure (u "boom"))
        | S _ => Ok (Some (u "ok"))
        end).

Definition disk_ok (n : nat) (cache : gmap str content) : nat * result unit :=
  (n, Ok tt).

Definition hello : request :=
  {| model := u "gpt-4o-mini"; messages := [(u "user", u "hello")];
     max_tokens := 1500; temperature := 0; response_format := None |}.

Definition start_state : Agent.state nat :=
  {| Agent.CACHE := ∅; Agent.world := 0%nat; Agent.api_log := [] |}.

Definition after_failure : Agent.state nat :=
  {| Agent.CACHE := ∅; Agent.world := 1%nat; Agent.api_log := [hello] |}.

Definition after_success : Agent.state nat :=
  {| Agent.CACHE := <[u "key" := Some (u "ok")]> ∅; Agent.world := 2%nat;
     Agent.api_log := [hello; hello] |}.

Lemma flaky_first_call :
  Agent._call_openai_chat nat flaky_api disk_ok id (fun q => u "key") hello start_state
  = Some (after_failure, Raise (Failure (u "boom"))).
Proof. vm_compute. reflexivity. Qed.

Lemma flaky_second_call :
  Agent._call_openai_chat nat flaky_api disk_ok id (fun q => u "key") hello after_failure
  = Some (after_success, Ok (Some (u "ok"))).
Proof. vm_compute. reflexivity. Qed.




(** *** A failing call in the two chunked loops *)

Section ChunkedFacts.
Context {env nlp_info : Type}.
Variable api : env -> request -> env * result content.
Variable write_file : env -> gmap str content -> env * result unit.
Variable sha256_hex : str -> str.
Variable dumps_key : request -> str.
Variable json_dumps : json -> str.
Variable exn_message : exn -> str.
Variable analysis_prompt : nlp_info -> str -> str.
Variable correction_prompt : str -> str.
Variable self_model : str.

Abbreviation analysis_out :=
  (Agent.analysis_out env api write_file sha256_hex dumps_key json_dumps
     exn_message nlp_info analysis_prompt self_model).
Abbreviation corrected_chunk :=
  (Agent.corrected_chunk env api write_file sha256_hex dumps_key
     correction_prompt self_model).

(** In [analyze] no exception of the call or of the cache write leaves the
    chunk: the chunk always has an output. *)
Lemma analysis_out_catches (info : nlp_info) (chunk : str) (s : Agent.state env) :
  exists s' out, analysis_out info chunk s = Some (s', Ok out).
Proof.
  unfold Agent.analysis_out.
  destruct (Agent.CACHE env s !! _) as [out|]; [eauto|].
  unfold Agent.try_except, Agent.mbind' at 1.
  destruct (call_total api write_file sha256_hex dumps_key
              (Agent.analysis_request nlp_info analysis_prompt self_model info chunk) s)
    as [[s1 [out|e]] ->]; [|unfold Agent.ret; eauto].
  unfold Agent.mbind', Agent.cache_store, Agent.save_cache, Agent.ret.
  destruct (write_file _ _) as [w [[]|e]]; eauto.
Qed.

(** When the call fails the output is the error-shaped one. *)
Lemma analysis_out_error (info : nlp_info) (chunk : str) (s : Agent.state env)
      (w : env) (e : exn) :
  let q := Agent.analysis_request nlp_info analysis_prompt self_model info chunk in
  Agent.CACHE env s !! sha256_hex (chunk ++ u "_analysis") = None ->
  Agent.CACHE env s !! fingerprint sha256_hex dumps_key q = None ->
  api (Agent.world env s) q = (w, Raise e) ->
  analysis_out info chunk s
  = Some ({| Agent.CACHE := Agent.CACHE env s; Agent.world := w;
             Agent.api_log := Agent.api_log env s ++ [q] |},
          Ok (Some (json_dumps (Agent.error_report exn_message e)))).
Proof.
  intros q H1 H2 Hapi. unfold Agent.analysis_out, Agent._hash_text. rewrite H1.
  unfold Agent.try_except, Agent.mbind' at 1.
  pose proof (call_miss api write_file sha256_hex dumps_key q s H2) as Hc.
  rewrite Hapi in Hc. fold q. rewrite Hc. reflexivity.
Qed.

(** In [correct_whole] the exception of the call leaves the chunk. *)
Lemma corrected_chunk_raises (chunk : str) (s : Agent.state env) (w : env) (e : exn) :
  let q := Agent.correction_request correction_prompt self_model chunk in
  Agent.CACHE env s !! sha256_hex (chunk ++ u "_correction") = None ->
  Agent.CACHE env s !! fingerprint sha256_hex dumps_key q = None ->
  api (Agent.world env s) q = (w, Raise e) ->
  corrected_chunk chunk s
  = Some ({| Agent.CACHE := Agent.CACHE env s; Agent.world := w;
             Agent.api_log := Agent.api_log env s ++ [q] |}, Raise e).
Proof.
  intros q H1 H2 Hapi. unfold Agent.corrected_chunk, Agent._hash_text. rewrite H1.
  unfold Agent.mbind' at 1.
  pose proof (call_miss api write_file sha256_hex dumps_key q s H2) as Hc.
  rewrite Hapi in Hc. fold q. rewrite Hc. reflexivity.
Qed.

(** And it ends the loop: the chunks after it are not processed. *)
Lemma correct_loop_raises (chunk : str) (rest parts : list str)
      (s : Agent.state env) (w : env) (e : exn) :
  let q := Agent.correction_request correction_prompt self_model chunk in
  Agent.CACHE env s !! sha256_hex (chunk ++ u "_correction") = None ->
  Agent.CACHE env s !! fingerprint sha256_hex dumps_key q = None ->
  api (Agent.world env s) q = (w, Raise e) ->
  Agent.correct_loop env api write_file sha256_hex dumps_key correction_prompt
    self_model (chunk :: rest) parts s
  = Some ({| Agent.CACHE := Agent.CACHE env s; Agent.world := w;
             Agent.api_log := Agent.api_log env s ++ [q] |}, Raise e).
Proof.
  intros q H1 H2 Hapi. cbn [Agent.correct_loop]. unfold Agent.mbind' at 1.
  rewrite (corrected_chunk_raises chunk s w e H1 H2 Hapi). reflexivity.
Qed.
End ChunkedFacts.

(** An environment in which every call of the client raises. *)
Definition failing_api (n : nat) (q : request) : nat * result content :=
  (S n, Raise (Failure (u "boom"))).

Definition message_of (e : exn) : str :=
  match e with
  | Failure m => m
  | _ => []
  end.

(** A stand-in for [json.dumps] and [json.loads] that is right on the
    error-shaped outputs: it writes the message and reads it back. *)
Definition dumps_message (j : json) : str :=
  match j with
  | JObj [(_, _); (_, JStr m)] => m
  | _ => []
  end.

Definition loads_message (s : str) : option json :=
  Some (JObj [(u "error", JStr (u "openai_call_failed")); (u "message", JStr s)]).

(** A text of two chunks: 7000 characters and one more. *)
Definition two_chunks : str := repeat 97%N (Z.to_nat 7001).

Definition error_report_at (idx : Z) : json :=
  JObj [(u "error", JStr (u "openai_call_failed"));
        (u "message", JStr (u "boom"));
        (u "_chunk_index", JInt idx)].

(** C9 fails in [correct_whole]. On a text of two chunks, with an empty
    cache and a client that raises: [analyze] catches the failure of each
    chunk, gives each an error-shaped report and goes on to the next (two
    requests are sent); [correct_whole] has no handler, so the exception
    of the first chunk ends the call, no chunk gets a result and the second
    chunk is never sent. *)
Theorem correct_whole_does_not_isolate_failures :
  match Agent.analyze nat failing_api disk_ok id (fun q => u "key")
          dumps_message loads_message message_of unit (fun _ => tt)
          (fun _ chunk => chunk) (u "gpt-4o-mini") two_chunks start_state with
  | Some (s, Ok f) =>
      Agent.per_chunk_reports f = [error_report_at 0; error_report_at 1]
      /\ length (Agent.api_log nat s) = 2%nat
  | _ => False
  end
  /\ match Agent.correct_whole nat failing_api disk_ok id (fun q => u "key")
             (fun chunk => chunk) (u "gpt-4o-mini") two_chunks start_state with
     | Some (s, Raise e) =>
         e = Failure (u "boom") /\ length (Agent.api_log nat s) = 1%nat
     | _ => False
     end.
Proof. split; vm_compute; split; reflexivity. Qed.

(** ** The round trip through [save_docx_text] and [extract_text_from_docx] *)

(** *** Texts without markup characters *)

(** A character that is no marker ('*', '_'), does not open a tag ('<') and
    is no line end. *)
Definition clean (c : char) : bool :=
  negb (c =? 42)%N && negb (c =? 95)%N && negb (c =? 60)%N
  && negb (c =? 10)%N && negb (c =? 13)%N.

Definition cleans (t : str) : bool := forallb clean t.

Lemma clean_inv (c : char) :
  clean c = true ->
  c <> Re.star /\ c <> Re.underscore /\ c <> lt_sign /\ c <> 10%N /\ c <> 13%N.
Proof.
  unfold clean. intros H.
  repeat (apply andb_true_iff in H as [H ?]).
  repeat split; intros ->; discriminate.
Qed.

Lemma cleans_cons (c : char) (t : str) :
  cleans (c :: t) = true <-> clean c = true /\ cleans t = true.
Proof. unfold cleans. simpl. apply andb_true_iff. Qed.

Lemma cleans_app (a b : str) :
  cleans (a ++ b) = true <-> cleans a = true /\ cleans b = true.
Proof. unfold cleans. rewrite forallb_app. apply andb_true_iff. Qed.

Lemma cleans_elem (c : char) (t : str) : cleans t = true -> c ∈ t -> clean c = true.
Proof.
  intros Ht Hin. unfold cleans in Ht. rewrite forallb_forall in Ht.
  apply Ht. apply list_elem_of_In. exact Hin.
Qed.

Lemma run_text_clean (t : str) : cleans t = true -> run_text t = t.
Proof.
  induction t as [|c t IH]; [reflexivity|]. intros H.
  apply cleans_cons in H as [Hc Ht]. simpl. rewrite (IH Ht).
  destruct (clean_inv c Hc) as (_ & _ & _ & _ & H13).
  destruct (N.eqb_spec c 13); [contradiction | reflexivity].
Qed.

Section CleanSearch.
Import Re.

Lemma find_pair_clean (d : char) (g rest : str) :
  (d = star \/ d = underscore) -> cleans g = true ->
  find_pair d (g ++ d :: d :: rest) = Some (g, rest).
Proof.
  intros Hd. induction g as [|c g IH]; intros Hg.
  - simpl. rewrite N.eqb_refl. reflexivity.
  - apply cleans_cons in Hg as [Hc Hg].
    destruct (clean_inv c Hc) as (H1 & H2 & _).
    assert (c <> d) as Hcd by (destruct Hd; subst; assumption).
    change ((c :: g) ++ d :: d :: rest) with (c :: (g ++ d :: d :: rest)).
    destruct (g ++ d :: d :: rest) as [|b t] eqn:E.
    { destruct g; discriminate. }
    rewrite find_pair_cons. destruct (N.eqb_spec c d); [contradiction|].
    cbn [andb]. rewrite (IH Hg). reflexivity.
Qed.

Lemma match_pair_at_clean (d c : char) (s : str) :
  c <> d -> match_pair_at d (c :: s) = None.
Proof.
  intros Hc. unfold match_pair_at. destruct s as [|b [|x t]]; try reflexivity.
  destruct (N.eqb_spec c d); [contradiction | reflexivity].
Qed.

Lemma search_pair_clean (d : char) (t g rest : str) :
  (d = star \/ d = underscore) ->
  cleans t = true -> cleans g = true -> g <> [] ->
  search_pair d (t ++ [d; d] ++ g ++ [d; d] ++ rest)
  = Some {| before := t; group1 := g; after := rest |}.
Proof.
  intros Hd Ht Hg Hne. induction t as [|c t IH].
  - destruct g as [|x g]; [congruence|]. apply cleans_cons in Hg as [_ Hg].
    cbn [app]. destruct (x :: g ++ d :: d :: rest) eqn:E; [discriminate|].
    cbn [search_pair]. rewrite <- E. unfold match_pair_at.
    rewrite !N.eqb_refl. cbn [andb]. rewrite (find_pair_clean d g rest Hd Hg).
    reflexivity.
  - apply cleans_cons in Ht as [Hc Ht].
    destruct (clean_inv c Hc) as (H1 & H2 & _).
    assert (c <> d) as Hcd by (destruct Hd; subst; assumption).
    cbn [app search_pair]. rewrite (match_pair_at_clean d c _ Hcd).
    cbn [app] in IH. rewrite (IH Ht). reflexivity.
Qed.

Lemma find_lone_star_clean (prev : char) (g rest : str) :
  clean prev = true -> cleans g = true -> is_star (head rest) = false ->
  find_lone_star prev (g ++ star :: rest) = Some (g, rest).
Proof.
  revert prev. induction g as [|c g IH]; intros prev Hp Hg Hrest.
  - cbn [app find_lone_star]. rewrite N.eqb_refl, Hrest.
    destruct (clean_inv prev Hp) as (H1 & _).
    destruct (N.eqb_spec prev star); [contradiction | reflexivity].
  - apply cleans_cons in Hg as [Hc Hg]. cbn [app find_lone_star].
    destruct (clean_inv c Hc) as (H1 & _).
    destruct (N.eqb_spec c star); [contradiction|]. cbn [andb].
    rewrite (IH c Hc Hg Hrest). reflexivity.
Qed.

Lemma match_italic_at_clean (prev : option char) (c : char) (s : str) :
  c <> star -> match_italic_at prev (c :: s) = None.
Proof.
  intros Hc. unfold match_italic_at. destruct s as [|x t]; [reflexivity|].
  destruct (N.eqb_spec c star); [contradiction | reflexivity].
Qed.

Lemma search_italic_from_clean (prev : option char) (t g rest : str) :
  is_star prev = false ->
  cleans t = true -> cleans g = true -> g <> [] ->
  is_star (head rest) = false ->
  search_italic_from prev (t ++ [star] ++ g ++ [star] ++ rest)
  = Some {| before := t; group1 := g; after := rest |}.
Proof.
  intros Hp Ht Hg Hne Hrest. revert prev Hp. induction t as [|c t IH]; intros prev Hp.
  - destruct g as [|x g]; [congruence|]. apply cleans_cons in Hg as [Hx Hg].
    cbn [app search_italic_from]. unfold match_italic_at.
    rewrite N.eqb_refl, Hp. destruct (clean_inv x Hx) as (H1 & _).
    destruct (N.eqb_spec x star); [contradiction|]. cbn [andb negb].
    rewrite (find_lone_star_clean x g rest Hx Hg Hrest). reflexivity.
  - apply cleans_cons in Ht as [Hc Ht].
    destruct (clean_inv c Hc) as (H1 & _).
    cbn [app search_italic_from]. rewrite (match_italic_at_clean prev c _ H1).
    cbn [app] in IH. rewrite (IH Ht (Some c)); [reflexivity|].
    simpl. destruct (N.eqb_spec c star); [contradiction | reflexivity].
Qed.

(** The group of an italic match does not start with a star. *)
Lemma search_italic_from_head (prev : option char) (s : str) (m : rmatch) :
  search_italic_from prev s = Some m -> head (group1 m) <> Some star.
Proof.
  revert prev m. induction s as [|c s IH]; intros prev m; [discriminate|].
  cbn [search_italic_from].
  destruct (match_italic_at prev (c :: s)) as [[g y]|] eqn:E.
  - intros [= <-]. cbn. unfold match_italic_at in E.
    destruct s as [|x t]; [discriminate|].
    destruct ((c =? star)%N && negb (is_star prev) && negb (x =? star)%N) eqn:E1;
      [|discriminate].
    destruct (find_lone_star x t) as [[g' y']|]; [|discriminate].
    injection E as <- <-. cbn. intros [= ->].
    apply andb_true_iff in E1 as [_ E1]. rewrite N.eqb_refl in E1. discriminate.
  - destruct (search_italic_from (Some c) s) as [m'|] eqn:E'; [|discriminate].
    intros [= <-]. cbn. exact (IH _ _ E').
Qed.
End CleanSearch.

(** *** Pieces: one run of a paragraph, as the markup writes it *)

Definition piece : Type := option Tokenizer.kind * str.

(** The text of a piece between its markers. *)
Definition piece_text (p : piece) : str :=
  match fst p with
  | Some k => Tokenizer.marker k ++ snd p ++ Tokenizer.marker k
  | None => snd p
  end.

(** The run that a piece stands for. *)
Definition piece_run (c : option Docx.rgb) (p : piece) : Docx.run :=
  {| Docx.text := snd p;
     Docx.bold := match fst p with Some Tokenizer.KBold => true | _ => false end;
     Docx.italic := match fst p with Some Tokenizer.KItalic => true | _ => false end;
     Docx.underline := match fst p with Some Tokenizer.KUnderline => true | _ => false end;
     Docx.color := c |}.

Definition piece_ok (p : piece) : bool :=
  cleans (snd p) && negb (str_eqb (snd p) []).

Definition is_plain (p : piece) : bool :=
  match fst p with None => true | Some _ => false end.

(** Its text starts with a star. *)
Definition starts_star (p : piece) : bool :=
  match fst p with
  | Some Tokenizer.KBold | Some Tokenizer.KItalic => true
  | _ => false
  end.

(** Two pieces in a row that the tokenizer tells apart: not two plain ones
    (they would read as one), and no italic one before a star. *)
Definition adjacent_ok (p q : piece) : bool :=
  negb (is_plain p && is_plain q)
  && negb (match fst p with Some Tokenizer.KItalic => starts_star q | _ => false end).

Fixpoint pieces_ok (ps : list piece) : bool :=
  match ps with
  | [] => true
  | p :: ps' =>
      piece_ok p
      && match ps' with [] => true | q :: _ => adjacent_ok p q end
      && pieces_ok ps'
  end.

Definition pieces_text (ps : list piece) : str := concat (List.map piece_text ps).

Definition add_runs (para : Docx.paragraph) (rs : list Docx.run) : Docx.paragraph :=
  {| Docx.style := Docx.style para; Docx.runs := Docx.runs para ++ rs |}.

Lemma add_runs_nil (para : Docx.paragraph) : add_runs para [] = para.
Proof. destruct para. unfold add_runs. simpl. rewrite app_nil_r. reflexivity. Qed.

Lemma add_runs_app (para : Docx.paragraph) (a b : list Docx.run) :
  add_runs (add_runs para a) b = add_runs para (a ++ b).
Proof. unfold add_runs. simpl. rewrite app_assoc. reflexivity. Qed.

Lemma add_run_piece (para : Docx.paragraph) (c : option Docx.rgb)
      (k : option Tokenizer.kind) (g : str) :
  cleans g = true ->
  Tokenizer.add_run para g k c = add_runs para [piece_run c (k, g)].
Proof.
  intros H. unfold Tokenizer.add_run, add_runs, piece_run.
  rewrite (run_text_clean _ H). destruct k as [[]|]; reflexivity.
Qed.

Section PieceSearch.
Import Re Tokenizer.

Lemma marker_head (k : kind) :
  exists c rest, marker k = c :: rest /\ clean c = false.
Proof. destruct k; eexists; eexists; split; reflexivity. Qed.

(** The text of a clean plain part [t] followed by a piece of kind [k]. *)
Definition with_styled (t : str) (k : kind) (g rest : str) : str :=
  t ++ marker k ++ g ++ marker k ++ rest.

Lemma search_intended (t g rest : str) (k : kind) :
  cleans t = true -> cleans g = true -> g <> [] ->
  (k = KItalic -> is_star (head rest) = false) ->
  search k (with_styled t k g rest)
  = Some {| before := t; group1 := g; after := rest |}.
Proof.
  intros Ht Hg Hne Hrest. unfold with_styled. destruct k; cbn [search marker].
  - apply (search_pair_clean star); auto.
  - apply (search_pair_clean underscore); auto.
  - apply (search_italic_from_clean None); auto.
Qed.

(** No match of any kind starts before the piece, and only a match of its
    kind starts where it starts. *)
Lemma search_not_before (t g rest : str) (k k' : kind) (m' : rmatch) :
  cleans t = true -> cleans g = true -> g <> [] ->
  search k' (with_styled t k g rest) = Some m' ->
  len t <= start m' /\ (start m' = len t -> k' = k).
Proof.
  intros Ht Hg Hne Hs.
  assert (Hhead : k' = KItalic -> head (group1 m') <> Some star).
  { intros ->. exact (search_italic_from_head _ _ _ Hs). }
  apply search_split in Hs as [Hne' Hs]. unfold with_styled in Hs.
  unfold start. apply app_eq_inv in Hs as [(x & Hx1 & Hx2) | (x & Hx1 & Hx2)].
  - (* the match starts inside [t] or at its end *)
    destruct x as [|c x].
    + rewrite app_nil_r in Hx1. subst t. split; [lia|]. intros _.
      cbn [app] in Hx2. destruct g as [|c g]; [congruence|].
      apply cleans_cons in Hg as [Hc _]. destruct (clean_inv c Hc) as (Hc1 & Hc2 & _).
      destruct (group1 m') as [|c' g'] eqn:Eg; [congruence|].
      destruct k, k'; try reflexivity; cbn in Hx2; try discriminate;
        injection Hx2 as E1 E2;
        try (specialize (Hhead eq_refl); cbn in Hhead); congruence.
    + exfalso. destruct (marker_head k') as (c' & r' & Hm & Hc').
      rewrite Hm in Hx2. injection Hx2 as E _. rewrite E in Hc'.
      assert (clean c = true); [|congruence].
      apply (cleans_elem c t Ht). rewrite Hx1. apply elem_of_app. right.
      apply elem_of_cons. left. reflexivity.
  - rewrite Hx1, len_app. pose proof (len_nonneg x). split; [lia|].
    intros Hlen. assert (x = []) as ->.
    { destruct x; [reflexivity|]. rewrite len_cons in Hlen. pose proof (len_nonneg x). lia. }
    cbn [app] in Hx2. destruct g as [|c g]; [congruence|].
    apply cleans_cons in Hg as [Hc _]. destruct (clean_inv c Hc) as (Hc1 & Hc2 & _).
    destruct (group1 m') as [|c' g'] eqn:Eg; [congruence|].
    destruct k, k'; try reflexivity; cbn in Hx2; try discriminate;
      injection Hx2 as E1 E2;
      try (specialize (Hhead eq_refl); cbn in Hhead); congruence.
Qed.

Lemma earliest_intended (t g rest : str) (k : kind) :
  cleans t = true -> cleans g = true -> g <> [] ->
  (k = KItalic -> is_star (head rest) = false) ->
  earliest (with_styled t k g rest)
  = Some ({| before := t; group1 := g; after := rest |}, k).
Proof.
  intros Ht Hg Hne Hrest.
  pose proof (search_intended t g rest k Ht Hg Hne Hrest) as Hint.
  pose proof (earliest_spec (with_styled t k g rest)) as Hsp.
  destruct (earliest (with_styled t k g rest)) as [[m k0]|].
  - destruct Hsp as [Hm Hmin].
    destruct (Hmin k _ Hint) as [Hle _].
    destruct (search_not_before t g rest k k0 m Ht Hg Hne Hm) as [Hge Heq].
    unfold start in *. cbn [before] in Hle.
    assert (k0 = k) as -> by (apply Heq; lia).
    rewrite Hint in Hm. injection Hm as <-. reflexivity.
  - rewrite Hsp in Hint. discriminate.
Qed.

Lemma earliest_clean (t : str) : cleans t = true -> earliest t = None.
Proof.
  intros Ht. pose proof (earliest_spec t) as Hsp.
  destruct (earliest t) as [[m k]|]; [|reflexivity].
  destruct Hsp as [Hm _]. apply search_split in Hm as [_ Hm].
  destruct (marker_head k) as (c & r & Hk & Hc). exfalso.
  assert (clean c = true); [|congruence].
  apply (cleans_elem c t Ht). rewrite Hm, Hk. apply elem_of_app. right.
  apply elem_of_cons. left. reflexivity.
Qed.
End PieceSearch.

(** *** The tokenizer on the text of pieces *)

Section TokenizePieces.
Import Re Tokenizer.

Lemma pieces_text_cons (p : piece) (ps : list piece) :
  pieces_text (p :: ps) = piece_text p ++ pieces_text ps.
Proof. reflexivity. Qed.

Lemma pieces_text_app (a b : list piece) :
  pieces_text (a ++ b) = pieces_text a ++ pieces_text b.
Proof. unfold pieces_text. rewrite map_app, concat_app. reflexivity. Qed.

Lemma piece_ok_inv (p : piece) :
  piece_ok p = true -> cleans (snd p) = true /\ snd p <> [].
Proof.
  unfold piece_ok. intros H. apply andb_true_iff in H as [H1 H2].
  split; [exact H1|]. intros E. rewrite E in H2. discriminate.
Qed.

Lemma pieces_ok_cons (p : piece) (ps : list piece) :
  pieces_ok (p :: ps) = true ->
  piece_ok p = true
  /\ match ps with [] => True | q :: _ => adjacent_ok p q = true end
  /\ pieces_ok ps = true.
Proof.
  cbn [pieces_ok]. intros H. apply andb_true_iff in H as [H H3].
  apply andb_true_iff in H as [H1 H2]. repeat split; try assumption.
  destruct ps; [exact I | exact H2].
Qed.

Lemma pieces_head_star (ps : list piece) :
  pieces_ok ps = true ->
  match ps with [] => True | q :: _ => starts_star q = false end ->
  is_star (head (pieces_text ps)) = false.
Proof.
  destruct ps as [|[k g] ps]; [reflexivity|]. intros Hok Hq.
  apply pieces_ok_cons in Hok as (Hp & _ & _).
  apply piece_ok_inv in Hp as [Hg Hne]. cbn [snd] in *.
  rewrite pieces_text_cons. destruct k as [[]|]; try discriminate.
  - reflexivity.
  - unfold piece_text. cbn [fst snd]. destruct g as [|x g]; [congruence|].
    apply cleans_cons in Hg as [Hx _]. destruct (clean_inv x Hx) as (H1 & _).
    cbn. destruct (N.eqb_spec x star); [contradiction | reflexivity].
Qed.

Lemma tokenize_pieces_bounded (c : option Docx.rgb) (n : nat) :
  forall (ps : list piece) (para : Docx.paragraph),
    (length ps <= n)%nat -> pieces_ok ps = true ->
    _add_runs_from_text para (pieces_text ps) c
    = Some (add_runs para (List.map (piece_run c) ps)).
Proof.
  induction n as [|n IH]; intros ps para Hlen Hok.
  - destruct ps; [|simpl in Hlen; lia]. cbn. rewrite add_runs_nil. reflexivity.
  - destruct ps as [|[k g] ps]; [cbn; rewrite add_runs_nil; reflexivity|].
    pose proof Hok as Hok0.
    apply pieces_ok_cons in Hok as (Hp & Hadj & Hps).
    apply piece_ok_inv in Hp as [Hg Hne]. cbn [snd] in Hg, Hne.
    destruct k as [k|].
    + (* a styled piece first *)
      assert (Hrest : k = KItalic -> is_star (head (pieces_text ps)) = false).
      { intros ->. apply pieces_head_star; [exact Hps|].
        destruct ps as [|q ps']; [exact I|]. unfold adjacent_ok in Hadj.
        cbn [fst is_plain andb negb] in Hadj. destruct (starts_star q); [discriminate|].
        reflexivity. }
      pose proof (earliest_intended [] g (pieces_text ps) k eq_refl Hg Hne Hrest) as He.
      rewrite add_runs_unfold. rewrite pieces_text_cons.
      replace (piece_text (Some k, g) ++ pieces_text ps)
        with (with_styled [] k g (pieces_text ps))
        by (unfold with_styled, piece_text; cbn [fst snd app];
            rewrite <- !app_assoc; reflexivity).
      destruct (with_styled [] k g (pieces_text ps)) as [|x s] eqn:Es.
      { destruct k; discriminate. }
      rewrite He. cbv zeta. unfold start. cbn [before group1 after].
      change (0 <? len []) with false. cbv iota.
      rewrite (add_run_piece para c (Some k) g Hg).
      rewrite IH by (try assumption; simpl in Hlen; lia).
      rewrite add_runs_app. reflexivity.
    + (* a plain piece first *)
      destruct ps as [|[k' g'] ps'].
      * rewrite add_runs_unfold. cbn [pieces_text List.map concat piece_text fst snd].
        rewrite app_nil_r. destruct g as [|x g]; [congruence|].
        rewrite (earliest_clean _ Hg).
        rewrite (add_run_piece para c None (x :: g) Hg). reflexivity.
      * apply pieces_ok_cons in Hps as (Hp' & Hadj' & Hps').
        apply piece_ok_inv in Hp' as [Hg' Hne']. cbn [snd] in Hg', Hne'.
        destruct k' as [k'|]; [|discriminate].
        assert (Hrest : k' = KItalic -> is_star (head (pieces_text ps')) = false).
        { intros ->. apply pieces_head_star; [exact Hps'|].
          destruct ps' as [|q ps'']; [exact I|]. unfold adjacent_ok in Hadj'.
          cbn [fst is_plain andb negb] in Hadj'. destruct (starts_star q); [discriminate|].
          reflexivity. }
        pose proof (earliest_intended g g' (pieces_text ps') k' Hg Hg' Hne' Hrest) as He.
        rewrite add_runs_unfold. rewrite !pieces_text_cons.
        replace (piece_text (None, g) ++ piece_text (Some k', g') ++ pieces_text ps')
          with (with_styled g k' g' (pieces_text ps'))
          by (unfold with_styled, piece_text; cbn [fst snd];
              rewrite <- !app_assoc; reflexivity).
        destruct (with_styled g k' g' (pieces_text ps')) as [|x s] eqn:Es.
        { destruct g; [congruence | discriminate]. }
        rewrite He. cbv zeta. unfold start. cbn [before group1 after].
        assert (Hpos : (0 <? len g) = true).
        { apply Z.ltb_lt. destruct g; [congruence|]. rewrite len_cons.
          pose proof (len_nonneg g). lia. }
        rewrite Hpos.
        rewrite (add_run_piece para c None g Hg).
        rewrite (add_run_piece _ c (Some k') g' Hg').
        rewrite IH by (try assumption; simpl in Hlen; lia).
        rewrite !add_runs_app. reflexivity.
Qed.

(** The tokenizer gives back the runs of the pieces. *)
Lemma tokenize_pieces (c : option Docx.rgb) (ps : list piece) (para : Docx.paragraph) :
  pieces_ok ps = true ->
  _add_runs_from_text para (pieces_text ps) c
  = Some (add_runs para (List.map (piece_run c) ps)).
Proof. apply (tokenize_pieces_bounded c (length ps)). lia. Qed.
End TokenizePieces.

(** *** Colours that the extractor writes in hexadecimal *)

Definition rgb_ok (c : Docx.rgb) : bool :=
  forallb (fun v => (0 <=? v) && (v <=? 255)) [Docx.red c; Docx.green c; Docx.blue c].

(** The buckets that [get_color_tag] names. *)
Definition named_bucket (c : Docx.rgb) : bool :=
  let '(r, g, b) := (Docx.red c, Docx.green c, Docx.blue c) in
  (200 <? r) && (g <? 80) && (b <? 80)
  || (200 <? b) && (r <? 80) && (g <? 80)
  || (150 <? g) && (r <? 100)
  || (200 <? r) && (200 <? g) && (b <? 100)
  || (100 <? r) && (100 <? g) && (100 <? b).

Definition hex_colour (c : Docx.rgb) : bool := rgb_ok c && negb (named_bucket c).

Lemma hex_pairs_checked :
  forallb (fun d1 => forallb (fun d2 =>
     bool_decide (int16 [hex_digit d1; hex_digit d2] = Some (d1 * 16 + d2))
     && ColorRe.is_hex (hex_digit d1) && negb (is_space (hex_digit d1)))
     (List.map Z.of_nat (seq 0 16))) (List.map Z.of_nat (seq 0 16)) = true.
Proof. vm_compute. reflexivity. Qed.

Lemma hex_pair (v : Z) :
  0 <= v <= 255 ->
  int16 (fmt_02X v) = Some v
  /\ forallb ColorRe.is_hex (fmt_02X v) = true
  /\ forallb (fun c => negb (is_space c)) (fmt_02X v) = true.
Proof.
  intros Hv. pose proof hex_pairs_checked as H. rewrite forallb_forall in H.
  assert (Hin : forall d, 0 <= d < 16 -> In d (List.map Z.of_nat (seq 0 16))).
  { intros d Hd. apply in_map_iff. exists (Z.to_nat d). split; [lia|].
    apply in_seq. lia. }
  assert (H1 : 0 <= v / 16 < 16).
  { split; [apply Z.div_pos; lia | apply Z.div_lt_upper_bound; lia]. }
  assert (H2 : 0 <= v mod 16 < 16) by (apply Z.mod_pos_bound; lia).
  pose proof (H _ (Hin _ H1)) as Ha. rewrite forallb_forall in Ha.
  pose proof (Ha _ (Hin _ H2)) as Hb.
  pose proof (H _ (Hin _ H2)) as Hc. rewrite forallb_forall in Hc.
  pose proof (Hc _ (Hin _ H2)) as Hd.
  apply andb_true_iff in Hb as [Hb Hb3]. apply andb_true_iff in Hb as [Hb1 Hb2].
  apply andb_true_iff in Hd as [Hd Hd3]. apply andb_true_iff in Hd as [_ Hd2].
  apply bool_decide_eq_true in Hb1. unfold fmt_02X. split; [|split].
  - rewrite Hb1. f_equal. pose proof (Z.div_mod v 16 ltac:(lia)). lia.
  - cbn [forallb]. rewrite Hb2, Hd2. reflexivity.
  - cbn [forallb]. rewrite Hb3, Hd3. reflexivity.
Qed.

Lemma rgb_ok_inv (c : Docx.rgb) :
  rgb_ok c = true ->
  0 <= Docx.red c <= 255 /\ 0 <= Docx.green c <= 255 /\ 0 <= Docx.blue c <= 255.
Proof.
  unfold rgb_ok. cbn [forallb]. intros H.
  repeat (apply andb_true_iff in H as [? H]).
  repeat match goal with
         | X : (_ && _) = true |- _ => apply andb_true_iff in X as [? ?]
         end. lia.
Qed.

Lemma rgb_str_valid (c : Docx.rgb) : rgb_ok c = true -> valid_hex (Docx.rgb_str c).
Proof.
  intros H. apply rgb_ok_inv in H as (Hr & Hg & Hb). unfold Docx.rgb_str. split.
  - reflexivity.
  - rewrite !forallb_app.
    destruct (hex_pair _ Hr) as (_ & -> & _), (hex_pair _ Hg) as (_ & -> & _),
             (hex_pair _ Hb) as (_ & -> & _). reflexivity.
Qed.

Lemma hex_roundtrip (c : Docx.rgb) :
  rgb_ok c = true -> HexColor._hex_to_rgbcolor (Docx.rgb_str c) = Ok c.
Proof.
  intros Hok. pose proof Hok as Hok'. apply rgb_ok_inv in Hok' as (Hr & Hg & Hb).
  destruct (hex_pair _ Hr) as (Er & _ & Sr), (hex_pair _ Hg) as (Eg & _ & _),
           (hex_pair _ Hb) as (Eb & _ & Sb).
  unfold HexColor._hex_to_rgbcolor.
  assert (Hstrip : strip (Docx.rgb_str c) = Docx.rgb_str c).
  { unfold Docx.rgb_str, fmt_02X in *. cbn [app forallb] in *.
    apply andb_true_iff in Sr as [Sr _]. apply andb_true_iff in Sb as [_ Sb].
    rewrite andb_true_r in Sb. apply negb_true_iff in Sr, Sb.
    apply (strip_id _ _ [_; _; _; _]); assumption. }
  rewrite Hstrip. change (len (Docx.rgb_str c) =? 6) with true. cbn [negb].
  change (py_slice (Docx.rgb_str c) 0 2) with (fmt_02X (Docx.red c)).
  change (py_slice (Docx.rgb_str c) 2 4) with (fmt_02X (Docx.green c)).
  change (py_slice (Docx.rgb_str c) 4 6) with (fmt_02X (Docx.blue c)).
  unfold HexColor.int16_or_raise. rewrite Er, Eg, Eb. cbn [bind].
  unfold HexColor.new_RGBColor. fold (rgb_ok c). rewrite Hok. destruct c; reflexivity.
Qed.

(** *** Runs of one style *)

Definition piece_of (r : Docx.run) : piece :=
  (if Docx.bold r then Some Tokenizer.KBold
   else if Docx.italic r then Some Tokenizer.KItalic
   else if Docx.underline r then Some Tokenizer.KUnderline
   else None,
   Docx.text r).

(** At most one of bold, italic and underline. *)
Definition single_style (r : Docx.run) : bool :=
  negb (Docx.bold r && Docx.italic r)
  && negb (Docx.bold r && Docx.underline r)
  && negb (Docx.italic r && Docx.underline r).

Definition run_ok (r : Docx.run) : bool :=
  piece_ok (piece_of r) && single_style r
  && match Docx.color r with
     | None => true
     | Some c => hex_colour c
     end.

Definition run_adjacent_ok (r r' : Docx.run) : bool :=
  match Docx.color r, Docx.color r' with
  | None, None => adjacent_ok (piece_of r) (piece_of r')
  | _, _ => true
  end.

Fixpoint runs_ok (rs : list Docx.run) : bool :=
  match rs with
  | [] => true
  | r :: rs' =>
      run_ok r
      && match rs' with [] => true | r' :: _ => run_adjacent_ok r r' end
      && runs_ok rs'
  end.

(** The formatted text of the runs of a paragraph. *)
Definition render (rs : list Docx.run) : str :=
  concat (List.map DocxExtract.format_run rs).

Lemma run_ok_inv (r : Docx.run) :
  run_ok r = true ->
  cleans (Docx.text r) = true /\ Docx.text r <> [] /\ single_style r = true
  /\ match Docx.color r with None => True | Some c => hex_colour c = true end.
Proof.
  unfold run_ok. intros H. apply andb_true_iff in H as [H H3].
  apply andb_true_iff in H as [H1 H2]. apply piece_ok_inv in H1 as [Ha Hb].
  repeat split; try assumption. destruct (Docx.color r); [exact H3 | exact I].
Qed.

Lemma runs_ok_cons (r : Docx.run) (rs : list Docx.run) :
  runs_ok (r :: rs) = true ->
  run_ok r = true
  /\ match rs with [] => True | r' :: _ => run_adjacent_ok r r' = true end
  /\ runs_ok rs = true.
Proof.
  cbn [runs_ok]. intros H. apply andb_true_iff in H as [H H3].
  apply andb_true_iff in H as [H1 H2]. repeat split; try assumption.
  destruct rs; [exact I | exact H2].
Qed.

Lemma piece_run_of (r : Docx.run) :
  single_style r = true -> piece_run (Docx.color r) (piece_of r) = r.
Proof.
  unfold single_style, piece_run, piece_of. destruct r as [t [] [] [] c];
    cbn; intros H; try discriminate; reflexivity.
Qed.

Lemma format_run_plain (r : Docx.run) :
  Docx.color r = None -> Docx.text r <> [] -> single_style r = true ->
  DocxExtract.format_run r = piece_text (piece_of r).
Proof.
  unfold DocxExtract.format_run, DocxExtract.get_color_tag, single_style,
    piece_text, piece_of.
  destruct r as [t [] [] [] c]; cbn; intros -> Ht H; try discriminate;
    destruct t; try congruence; reflexivity.
Qed.

Lemma format_run_coloured (r : Docx.run) (c : Docx.rgb) :
  Docx.color r = Some c -> hex_colour c = true ->
  Docx.text r <> [] -> single_style r = true ->
  DocxExtract.format_run r
  = ColorRe.open_tag (Docx.rgb_str c) ++ piece_text (piece_of r)
      ++ ColorRe.close_tag (Docx.rgb_str c).
Proof.
  intros Hc Hhex Ht Hs.
  assert (Htag : DocxExtract.get_color_tag r = Some (u "#" ++ Docx.rgb_str c)).
  { unfold DocxExtract.get_color_tag. rewrite Hc.
    unfold hex_colour, named_bucket in Hhex.
    apply andb_true_iff in Hhex as [_ Hb]. apply negb_true_iff in Hb.
    repeat (apply orb_false_iff in Hb as [Hb ?]).
    repeat match goal with X : _ = false |- _ => rewrite X; clear X end.
    reflexivity. }
  unfold DocxExtract.format_run. rewrite Htag.
  unfold single_style, piece_text, piece_of in *.
  destruct r as [t [] [] [] c0]; cbn in *; try discriminate;
    destruct t; try congruence; unfold ColorRe.open_tag, ColorRe.close_tag;
    str_norm; reflexivity.
Qed.

Lemma piece_text_avoids (p : piece) :
  cleans (snd p) = true -> avoids lt_sign (piece_text p) = true.
Proof.
  intros H. assert (Ha : avoids lt_sign (snd p) = true).
  { unfold avoids. apply forallb_forall. intros x Hx.
    apply list_elem_of_In in Hx. destruct (clean_inv x (cleans_elem x _ H Hx)) as (_ & _ & Hlt & _).
    destruct (N.eqb_spec x lt_sign); [contradiction | reflexivity]. }
  unfold piece_text. destruct (fst p) as [[]|]; rewrite ?avoids_app, ?Ha; reflexivity.
Qed.

Lemma avoids_lt_hex (h : str) : forallb ColorRe.is_hex h = true -> avoids lt_sign h = true.
Proof. apply hex_avoids. reflexivity. Qed.

(** *** The colour pattern on the text of runs *)

Section ColourSearch.
Import ColorRe.

Lemma find_sub_fresh (h inner rest : str) :
  avoids lt_sign inner = true ->
  find_sub (close_tag h) (inner ++ close_tag h ++ rest) = Some (inner, rest).
Proof.
  intros Hin. induction inner as [|c inner IH].
  - cbn [app]. destruct (close_tag h ++ rest) as [|x s] eqn:E; [discriminate|].
    cbn [find_sub]. rewrite <- E, startswith_app, drop_app_length. reflexivity.
  - rewrite avoids_cons in Hin. apply andb_true_iff in Hin as [Hc Hin].
    cbn [app find_sub].
    assert (Hs : startswith (close_tag h) (c :: inner ++ close_tag h ++ rest) = false).
    { rewrite close_tag_cons at 1. apply startswith_head_ne.
      intros E. rewrite <- E in Hc. discriminate. }
    rewrite Hs, (IH Hin). reflexivity.
Qed.

Lemma match_at_tag (h inner rest : str) :
  valid_hex h -> avoids lt_sign inner = true ->
  match_at (open_tag h ++ inner ++ close_tag h ++ rest) = Some (h, inner, rest).
Proof.
  intros [Hl Hh] Hin. unfold match_at, open_tag. rewrite <- !app_assoc.
  rewrite startswith_app.
  replace (drop 2 (u "<#" ++ h ++ u ">" ++ inner ++ close_tag h ++ rest))
    with (h ++ u ">" ++ inner ++ close_tag h ++ rest) by reflexivity.
  rewrite take_app_length' by (symmetry; exact Hl).
  rewrite Hl, Hh. rewrite drop_app_length' by (symmetry; exact Hl).
  cbn [Nat.eqb andb]. rewrite startswith_app. cbn [andb].
  replace (drop 7 (h ++ u ">" ++ inner ++ close_tag h ++ rest))
    with (inner ++ close_tag h ++ rest).
  - rewrite (find_sub_fresh h inner rest Hin). reflexivity.
  - replace 7%nat with (6 + 1)%nat by reflexivity.
    rewrite <- drop_drop, drop_app_length' by (symmetry; exact Hl). reflexivity.
Qed.

Lemma match_at_fresh (c : char) (s : str) : c <> lt_sign -> match_at (c :: s) = None.
Proof.
  intros Hc. unfold match_at.
  change (u "<#") with (lt_sign :: u "#").
  rewrite startswith_head_ne by congruence. reflexivity.
Qed.

Lemma colour_search_tag (g h inner rest : str) :
  avoids lt_sign g = true -> valid_hex h -> avoids lt_sign inner = true ->
  search (g ++ open_tag h ++ inner ++ close_tag h ++ rest)
  = Some ({| gap := g; hex := h; inner := inner |}, rest).
Proof.
  intros Hg Hv Hin. induction g as [|c g IH].
  - cbn [app]. destruct (open_tag h ++ inner ++ close_tag h ++ rest) as [|x s] eqn:E;
      [discriminate|].
    cbn [search]. rewrite <- E, (match_at_tag h inner rest Hv Hin). reflexivity.
  - rewrite avoids_cons in Hg. apply andb_true_iff in Hg as [Hc Hg].
    cbn [app search]. rewrite match_at_fresh.
    + rewrite (IH Hg). reflexivity.
    + intros ->. discriminate.
Qed.

Lemma colour_search_none (g : str) : avoids lt_sign g = true -> search g = None.
Proof.
  intros Hg. destruct (search g) as [[m rest]|] eqn:E; [|reflexivity].
  apply color_search_split in E as (E & _). exfalso.
  apply (avoids_elem lt_sign g Hg). rewrite E. apply elem_of_app. right.
  apply elem_of_cons. left. reflexivity.
Qed.
End ColourSearch.

(** *** A paragraph's runs through [fill_para] *)

Section FillRuns.
Import Docx.

Definition uncoloured (r : run) : Prop := color r = None.

Lemma render_cons (r : run) (rs : list run) :
  render (r :: rs) = DocxExtract.format_run r ++ render rs.
Proof. reflexivity. Qed.

Lemma render_app (a b : list run) : render (a ++ b) = render a ++ render b.
Proof. unfold render. rewrite map_app, concat_app. reflexivity. Qed.

Lemma runs_ok_app_r (a b : list run) : runs_ok (a ++ b) = true -> runs_ok b = true.
Proof.
  induction a as [|r a IH]; [auto|]. intros H.
  apply runs_ok_cons in H as (_ & _ & H). exact (IH H).
Qed.

Lemma runs_ok_app_l (a b : list run) : runs_ok (a ++ b) = true -> runs_ok a = true.
Proof.
  induction a as [|r a IH]; [reflexivity|]. intros H.
  apply runs_ok_cons in H as (H1 & H2 & H3). cbn [runs_ok].
  rewrite H1, (IH H3), andb_true_r. cbn [andb].
  destruct a as [|r' a]; [reflexivity | exact H2].
Qed.

Lemma group_pieces (G : list run) :
  Forall uncoloured G -> runs_ok G = true ->
  render G = pieces_text (List.map piece_of G)
  /\ pieces_ok (List.map piece_of G) = true
  /\ List.map (piece_run None) (List.map piece_of G) = G.
Proof.
  induction 1 as [|r G Hr HG IH]; intros Hok; [repeat split; reflexivity|].
  apply runs_ok_cons in Hok as (H1 & H2 & H3).
  destruct (IH H3) as (I1 & I2 & I3).
  pose proof H1 as H1'. apply run_ok_inv in H1' as (Hc & Hne & Hs & _).
  unfold uncoloured in Hr. split; [|split].
  - rewrite render_cons, I1, (format_run_plain r Hr Hne Hs). reflexivity.
  - cbn [List.map pieces_ok]. rewrite I2, andb_true_r.
    unfold run_ok in H1. apply andb_true_iff in H1 as [H1 _].
    apply andb_true_iff in H1 as [-> _]. cbn [andb].
    destruct G as [|r' G]; [reflexivity|]. cbn [List.map].
    unfold run_adjacent_ok in H2. rewrite Hr in H2.
    apply Forall_inv in HG. unfold uncoloured in HG. rewrite HG in H2. exact H2.
  - cbn [List.map]. rewrite I3. f_equal. rewrite <- Hr. apply piece_run_of, Hs.
Qed.

(** An uncoloured group through the tokenizer. *)
Lemma tokenize_group (G : list run) (para : paragraph) :
  Forall uncoloured G -> runs_ok G = true ->
  Tokenizer._add_runs_from_text para (render G) None = Some (add_runs para G).
Proof.
  intros HG Hok. destruct (group_pieces G HG Hok) as (E1 & E2 & E3).
  rewrite E1, (tokenize_pieces None _ para E2), E3. reflexivity.
Qed.

(** A coloured run through the tokenizer. *)
Lemma tokenize_coloured (r : run) (c : rgb) (para : paragraph) :
  color r = Some c -> run_ok r = true ->
  Tokenizer._add_runs_from_text para (piece_text (piece_of r)) (Some c)
  = Some (add_runs para [r]).
Proof.
  intros Hc Hok. pose proof Hok as Hok'. apply run_ok_inv in Hok' as (_ & _ & Hs & _).
  assert (Hp : pieces_ok [piece_of r] = true).
  { cbn [pieces_ok]. unfold run_ok in Hok. apply andb_true_iff in Hok as [Hok _].
    apply andb_true_iff in Hok as [-> _]. reflexivity. }
  pose proof (tokenize_pieces (Some c) [piece_of r] para Hp) as H.
  unfold pieces_text in H. cbn [List.map concat] in H. rewrite app_nil_r in H.
  rewrite H. rewrite <- Hc, (piece_run_of r Hs). reflexivity.
Qed.

(** What [finditer] is to find in [g ++ render rs]. *)
Fixpoint segs (g : str) (rs : list run) : list ColorRe.cmatch * str :=
  match rs with
  | [] => ([], g)
  | r :: rs' =>
      match color r with
      | None => segs (g ++ DocxExtract.format_run r) rs'
      | Some c =>
          let '(ms, sfx) := segs [] rs' in
          ({| ColorRe.gap := g; ColorRe.hex := rgb_str c;
              ColorRe.inner := piece_text (piece_of r) |} :: ms, sfx)
      end
  end.

Lemma finditer_segs (rs : list run) :
  runs_ok rs = true ->
  forall (g : str) (fuel : nat),
    avoids lt_sign g = true -> (length (g ++ render rs) <= fuel)%nat ->
    ColorRe.finditer fuel (g ++ render rs) = Some (segs g rs).
Proof.
  induction rs as [|r rs IH]; intros Hok g fuel Hg Hfuel.
  - cbn [render List.map concat segs]. rewrite app_nil_r.
    destruct fuel; cbn [ColorRe.finditer]; rewrite (colour_search_none g Hg); reflexivity.
  - apply runs_ok_cons in Hok as (H1 & _ & H3).
    pose proof H1 as H1'. apply run_ok_inv in H1' as (Hc & Hne & Hs & Hcol).
    cbn [segs]. rewrite render_cons in *. destruct (color r) as [c|] eqn:Ec.
    + pose proof Hcol as Hhex. unfold hex_colour in Hhex.
      apply andb_true_iff in Hhex as [Hrgb _].
      rewrite (format_run_coloured r c Ec Hcol Hne Hs) in *.
      rewrite <- !app_assoc in *.
      pose proof (colour_search_tag g (rgb_str c) (piece_text (piece_of r)) (render rs)
                    Hg (rgb_str_valid c Hrgb) (piece_text_avoids (piece_of r) Hc)) as Hsearch.
      destruct fuel as [|fuel].
      { rewrite !length_app in Hfuel. unfold ColorRe.open_tag in Hfuel.
        rewrite !length_app in Hfuel. simpl in Hfuel. lia. }
      cbn [ColorRe.finditer]. rewrite Hsearch.
      rewrite <- (app_nil_l (render rs)).
      rewrite (IH H3 [] fuel eq_refl).
      * destruct (segs [] rs) as [ms sfx]. reflexivity.
      * rewrite !length_app in Hfuel. unfold ColorRe.open_tag in Hfuel.
        rewrite !length_app in Hfuel. simpl in Hfuel. simpl. lia.
    + rewrite (format_run_plain r Ec Hne Hs) in *. rewrite app_assoc in *.
      apply (IH H3); [|exact Hfuel].
      rewrite avoids_app, Hg, (piece_text_avoids (piece_of r) Hc). reflexivity.
Qed.

Lemma tokenize_nil (para : paragraph) (sfx : str) (c : option rgb) :
  match sfx with
  | [] => Some para
  | _ => Tokenizer._add_runs_from_text para sfx c
  end = Tokenizer._add_runs_from_text para sfx c.
Proof. destruct sfx; reflexivity. Qed.

Lemma tokenize_nil_gap (para : paragraph) (gap : str) (c : option rgb) :
  match gap with
  | [] => Some para
  | x :: l => Tokenizer._add_runs_from_text para (x :: l) c
  end = Tokenizer._add_runs_from_text para gap c.
Proof. destruct gap; reflexivity. Qed.

Lemma color_loop_segs (rs : list run) :
  forall (G : list run) (para : paragraph),
    Forall uncoloured G -> runs_ok (G ++ rs) = true ->
    (para' ← Reconstruct.color_loop para (fst (segs (render G) rs));
     Tokenizer._add_runs_from_text para' (snd (segs (render G) rs)) None)
    = Some (add_runs para (G ++ rs)).
Proof.
  induction rs as [|r rs IH]; intros G para HG Hok.
  - rewrite app_nil_r in *. cbn [segs fst snd Reconstruct.color_loop mbind option_bind].
    apply tokenize_group; assumption.
  - pose proof (runs_ok_app_r _ _ Hok) as Hr. apply runs_ok_cons in Hr as (H1 & _ & H3).
    cbn [segs]. destruct (color r) as [c|] eqn:Ec.
    + pose proof H1 as H1'. apply run_ok_inv in H1' as (_ & _ & _ & Hcol).
      rewrite Ec in Hcol. unfold hex_colour in Hcol.
      apply andb_true_iff in Hcol as [Hrgb _].
      specialize (IH [] (add_runs para (G ++ [r])) (List.Forall_nil _) H3).
      change (render []) with (@nil char) in IH.
      destruct (segs [] rs) as [ms sfx]. cbn [fst snd] in *.
      cbn [Reconstruct.color_loop]. unfold Reconstruct.color_step.
      cbn [ColorRe.gap ColorRe.hex ColorRe.inner].
      rewrite tokenize_nil_gap.
      rewrite (tokenize_group G para HG (runs_ok_app_l _ _ Hok)).
      cbn [mbind option_bind]. unfold Reconstruct.rgb_or_none.
      rewrite (hex_roundtrip c Hrgb).
      rewrite (tokenize_coloured r c _ Ec H1). cbn [mbind option_bind].
      rewrite add_runs_app. rewrite IH. rewrite add_runs_app.
      rewrite <- app_assoc. reflexivity.
    + specialize (IH (G ++ [r]) para).
      rewrite render_app in IH. cbn [render List.map concat] in IH.
      rewrite app_nil_r in IH. rewrite IH.
      * rewrite <- app_assoc. reflexivity.
      * apply Forall_app. split; [exact HG|]. constructor; [exact Ec | constructor].
      * rewrite <- app_assoc. exact Hok.
Qed.

(** The runs of a paragraph come back from their formatted text. *)
Lemma fill_para_runs (rs : list run) (para : paragraph) :
  runs_ok rs = true ->
  Reconstruct.fill_para para (render rs) = Some (add_runs para rs).
Proof.
  intros Hok. unfold Reconstruct.fill_para.
  pose proof (finditer_segs rs Hok [] (length (render rs)) eq_refl) as Hf.
  cbn [app] in Hf. rewrite Hf by lia.
  pose proof (color_loop_segs rs [] para (List.Forall_nil _) Hok) as Hl.
  change (render []) with (@nil char) in Hl. cbn [app] in Hl.
  destruct (segs [] rs) as [ms sfx]. cbn [fst snd mbind option_bind] in *.
  destruct (Reconstruct.color_loop para ms) as [para'|]; [|discriminate].
  cbn [mbind option_bind] in *. rewrite tokenize_nil. exact Hl.
Qed.
End FillRuns.

(** *** The documents that make the round trip *)

Definition heading_style (n : Z) : str := u "Heading " ++ decimal (Z.to_N n).

(** The level of a heading style of the default template, 1 to 9. *)
Definition heading_level (style : str) : option Z :=
  List.find (fun n => str_eqb style (heading_style n)) [1; 2; 3; 4; 5; 6; 7; 8; 9].

Definition starts_visible (s : str) : bool :=
  match s with
  | [] => false
  | c :: _ => negb (is_space c)
  end.

(** A text that neither starts nor ends with white space. *)
Definition edge_ok (s : str) : bool := starts_visible s && starts_visible (rev s).

(** A text without a line end. *)
Definition one_line (s : str) : bool := avoids 10%N s && avoids 13%N s.

Definition plain_run (r : Docx.run) : bool :=
  negb (Docx.bold r) && negb (Docx.italic r) && negb (Docx.underline r)
  && match Docx.color r with None => true | Some _ => false end.

(** A line that the reconstructor does not read as a heading or as a list
    item. *)
Definition no_prefix (line : str) : bool :=
  negb (startswith (u "#") line) && negb (startswith [bullet; ch " "] line)
  && negb (startswith (u "1. ") line).

Definition paragraph_ok (p : Docx.paragraph) : bool :=
  match heading_level (Docx.style p) with
  | Some _ =>
      match Docx.runs p with
      | [r] => plain_run r && edge_ok (Docx.text r) && one_line (Docx.text r)
      | _ => false
      end
  | None =>
      runs_ok (Docx.runs p) && edge_ok (render (Docx.runs p))
      && negb (str_eqb (strip (Docx.para_text p)) [])
      && (str_eqb (Docx.style p) (u "List Bullet")
          || str_eqb (Docx.style p) (u "List Number")
          || str_eqb (Docx.style p) (u "Normal") && no_prefix (render (Docx.runs p)))
  end.

Definition document_ok (d : Docx.document) : bool :=
  forallb paragraph_ok (Docx.paragraphs d)
  && match Docx.tables d with [] => true | _ => false end.

Definition blue : option Docx.rgb := Some (Docx.RGBColor 54 95 145).

Definition sample_document : Docx.document :=
  {| Docx.paragraphs :=
       [ {| Docx.style := u "Heading 2";
            Docx.runs := [mk_run (u "A *title*") false false false None] |};
         {| Docx.style := u "List Bullet";
            Docx.runs := [mk_run (u "first") false false true None;
                          mk_run (u "second") false false true blue;
                          mk_run (u "third") false false false blue] |};
         {| Docx.style := u "List Number";
            Docx.runs := [mk_run (u "one ") false false false None;
                          mk_run (u "two") true false false None;
                          mk_run (u "three") false true false None;
                          mk_run (u " four") false false false None] |};
         {| Docx.style := u "Normal";
            Docx.runs := [mk_run (u "x") false true false None;
                          mk_run (u "y") false false false blue;
                          mk_run (u "z") false true false None;
                          mk_run (u " w") false false false None] |} ];
     Docx.tables := [] |}.

Example sample_round_trip :
  document_ok sample_document = true
  /\ Reconstruct.save_docx_text (DocxExtract.extract_text_from_docx sample_document)
     = Some (Ok sample_document).
Proof. split; vm_compute; reflexivity. Qed.

Section EdgeFacts.

Lemma lstrip_visible (s : str) : starts_visible s = true -> lstrip s = s.
Proof.
  destruct s as [|c s]; [reflexivity|]. cbn. intros H.
  apply negb_true_iff in H. rewrite H. reflexivity.
Qed.

Lemma strip_edge_ok (s : str) : edge_ok s = true -> strip s = s.
Proof.
  unfold edge_ok, strip, rstrip. intros H. apply andb_true_iff in H as [H1 H2].
  rewrite (lstrip_visible s H1), (lstrip_visible _ H2). apply rev_involutive.
Qed.

Lemma starts_visible_app (a b : str) :
  starts_visible a = true -> starts_visible (a ++ b) = true.
Proof. destruct a; [discriminate | auto]. Qed.

Lemma edge_ok_app (a b : str) :
  starts_visible a = true -> starts_visible (rev b) = true -> edge_ok (a ++ b) = true.
Proof.
  intros Ha Hb. unfold edge_ok. rewrite (starts_visible_app a b Ha).
  rewrite rev_app_distr, (starts_visible_app _ _ Hb). reflexivity.
Qed.

Lemma edge_ok_inv (s : str) :
  edge_ok s = true -> starts_visible s = true /\ starts_visible (rev s) = true /\ s <> [].
Proof.
  unfold edge_ok. intros H. apply andb_true_iff in H as [H1 H2].
  repeat split; try assumption. intros ->. discriminate.
Qed.

Lemma py_slice_from (s : str) (k : Z) :
  0 <= k <= len s -> py_slice s k (len s) = drop (Z.to_nat k) s.
Proof.
  intros Hk. rewrite py_slice_inside by lia. apply take_ge.
  rewrite length_drop. unfold len. lia.
Qed.

Lemma run_text_id (t : str) : avoids 13%N t = true -> run_text t = t.
Proof.
  induction t as [|c t IH]; [reflexivity|]. rewrite avoids_cons. intros H.
  apply andb_true_iff in H as [Hc Ht]. unfold run_text in *. cbn [List.map].
  rewrite (IH Ht). apply negb_true_iff in Hc. rewrite Hc. reflexivity.
Qed.

Lemma lstrip_hashes (k : nat) (t : str) :
  lstrip_char (ch "#") (repeat (ch "#") k ++ ch " " :: t) = ch " " :: t.
Proof. induction k as [|k IH]; [reflexivity|]. cbn. exact IH. Qed.

End EdgeFacts.

Section ParagraphTrip.
Import Docx.

Lemma heading_level_inv (style : str) (n : Z) :
  heading_level style = Some n ->
  style = heading_style n /\ 1 <= n <= 9
  /\ startswith (u "heading") (lower style) = true
  /\ int_of_digits (match List.filter is_digit (lower style) with
                    | [] => u "1"
                    | _ => List.filter is_digit (lower style)
                    end) = Z.to_N n.
Proof.
  unfold heading_level. intros H. apply find_some in H as [Hin Heq].
  apply bool_decide_eq_true in Heq. subst style. cbn [In] in Hin.
  repeat (destruct Hin as [<-|Hin]; [repeat split; (lia || reflexivity)|]).
  contradiction.
Qed.

(** A heading line goes back to its heading paragraph. *)
Lemma heading_line_trip (n : Z) (t : str) :
  1 <= n <= 9 -> edge_ok t = true -> avoids 13%N t = true ->
  Reconstruct._process_block_into_para
    (repeat (ch "#") (Z.to_nat n) ++ u " " ++ t)
  = Some (Ok {| style := heading_style n;
                runs := [mk_run t false false false None] |}).
Proof.
  intros Hn Ht H13. unfold Reconstruct._process_block_into_para.
  assert (Hstart : startswith (u "#") (repeat (ch "#") (Z.to_nat n) ++ u " " ++ t) = true).
  { destruct (Z.to_nat n) as [|k] eqn:E; [lia | reflexivity]. }
  rewrite Hstart. change (u " " ++ t) with (ch " " :: t). rewrite lstrip_hashes.
  assert (Hlevel : len (repeat (ch "#") (Z.to_nat n) ++ ch " " :: t) - len (ch " " :: t) = n).
  { rewrite len_app. unfold len at 1. rewrite repeat_length. lia. }
  rewrite Hlevel.
  assert (Hstrip : strip (ch " " :: t) = t).
  { unfold strip. change (lstrip (ch " " :: t)) with (lstrip t).
    apply (strip_edge_ok t Ht). }
  rewrite Hstrip. unfold Reconstruct.add_heading.
  destruct (Z.leb_spec 0 n); [|lia]. destruct (Z.leb_spec n 9); [|lia].
  destruct (Z.eqb_spec n 0); [lia|]. cbn [andb].
  unfold Reconstruct.add_paragraph. apply edge_ok_inv in Ht as (_ & _ & Hne).
  destruct t as [|c t]; [congruence|].
  unfold Tokenizer.add_run. rewrite (run_text_id _ H13). reflexivity.
Qed.

(** The line of a paragraph that is not a heading goes back to it. *)
Lemma runs_line_trip (prefix style : str) (rs : list run) :
  runs_ok rs = true -> edge_ok (render rs) = true ->
  startswith (u "#") (prefix ++ render rs) = false ->
  (if startswith [bullet; ch " "] (prefix ++ render rs)
   then prefix = [bullet; ch " "] /\ style = u "List Bullet"
   else if startswith (u "1. ") (prefix ++ render rs)
   then prefix = u "1. " /\ style = u "List Number"
   else prefix = [] /\ style = u "Normal") ->
  Reconstruct._process_block_into_para (prefix ++ render rs)
  = Some (Ok {| style := style; runs := rs |}).
Proof.
  intros Hok Hedge Hhash Hkind. unfold Reconstruct._process_block_into_para.
  rewrite Hhash.
  assert (Hfill : forall st,
            option_map Ok (Reconstruct.fill_para (Reconstruct.add_paragraph [] st) (render rs))
            = Some (Ok {| style := st; runs := rs |})).
  { intros st. rewrite (fill_para_runs rs _ Hok). reflexivity. }
  destruct (startswith [bullet; ch " "] (prefix ++ render rs)).
  - destruct Hkind as [-> ->].
    rewrite (py_slice_from _ 2).
    + change (drop (Z.to_nat 2) ([bullet; ch " "] ++ render rs)) with (render rs).
      rewrite (strip_edge_ok _ Hedge). apply Hfill.
    + rewrite len_app. pose proof (len_nonneg (render rs)). change (len [bullet; ch " "]) with 2. lia.
  - destruct (startswith (u "1. ") (prefix ++ render rs)).
    + destruct Hkind as [-> ->].
      rewrite (py_slice_from _ 3).
      * change (drop (Z.to_nat 3) (u "1. " ++ render rs)) with (render rs).
        rewrite (strip_edge_ok _ Hedge). apply Hfill.
      * rewrite len_app. pose proof (len_nonneg (render rs)). change (len (u "1. ")) with 3. lia.
    + destruct Hkind as [-> ->]. apply Hfill.
Qed.
End ParagraphTrip.

Section LineFacts.
Import Docx.

Lemma piece_text_avoids_char (c : char) (p : piece) :
  clean c = false -> c <> Re.star -> c <> Re.underscore ->
  cleans (snd p) = true -> avoids c (piece_text p) = true.
Proof.
  intros Hc H1 H2 H. assert (Ha : avoids c (snd p) = true).
  { unfold avoids. apply forallb_forall. intros x Hx. apply list_elem_of_In in Hx.
    pose proof (cleans_elem x _ H Hx) as Hx'.
    destruct (N.eqb_spec x c) as [->|]; [congruence | reflexivity]. }
  assert (Hs : (Re.star =? c)%N = false) by (apply N.eqb_neq; congruence).
  assert (Hu : (Re.underscore =? c)%N = false) by (apply N.eqb_neq; congruence).
  unfold piece_text. destruct (fst p) as [[]|]; cbn [Tokenizer.marker];
    rewrite ?avoids_app, ?avoids_cons, ?Ha, ?Hs, ?Hu; reflexivity.
Qed.

Lemma format_run_avoids_nl (r : run) :
  run_ok r = true -> avoids 10%N (DocxExtract.format_run r) = true.
Proof.
  intros Hok. apply run_ok_inv in Hok as (Hc & Hne & Hs & Hcol).
  assert (Hp : avoids 10%N (piece_text (piece_of r)) = true).
  { apply piece_text_avoids_char; [reflexivity | discriminate | discriminate | exact Hc]. }
  destruct (color r) as [c|] eqn:Ec.
  - rewrite (format_run_coloured r c Ec Hcol Hne Hs).
    unfold hex_colour in Hcol. apply andb_true_iff in Hcol as [Hrgb _].
    destruct (rgb_str_valid c Hrgb) as [_ Hh].
    unfold ColorRe.open_tag, ColorRe.close_tag.
    rewrite !avoids_app, Hp, (hex_avoids 10%N _ eq_refl Hh). reflexivity.
  - rewrite (format_run_plain r Ec Hne Hs). exact Hp.
Qed.

Lemma render_avoids_nl (rs : list run) :
  runs_ok rs = true -> avoids 10%N (render rs) = true.
Proof.
  induction rs as [|r rs IH]; [reflexivity|]. intros H.
  apply runs_ok_cons in H as (H1 & _ & H3).
  rewrite render_cons, avoids_app, (format_run_avoids_nl r H1), (IH H3). reflexivity.
Qed.

Lemma avoids_repeat (c x : char) (k : nat) :
  x <> c -> avoids c (repeat x k) = true.
Proof.
  intros H. induction k as [|k IH]; [reflexivity|]. cbn [repeat].
  rewrite avoids_cons, IH. destruct (N.eqb_spec x c); [contradiction | reflexivity].
Qed.

(** Every paragraph of the class has a line, a single line that neither
    starts nor ends with white space, and the reconstructor reads the
    paragraph back from it. *)
Lemma paragraph_trip (p : paragraph) :
  paragraph_ok p = true ->
  exists line,
    DocxExtract.para_line p = Some line
    /\ Reconstruct._process_block_into_para line = Some (Ok p)
    /\ edge_ok line = true /\ avoids 10%N line = true.
Proof.
  unfold paragraph_ok. destruct p as [style rs]. cbn [Docx.style Docx.runs].
  destruct (heading_level style) as [n|] eqn:Eh.
  - (* a heading *)
    destruct rs as [|r [|r' rs]]; try discriminate. intros H.
    apply andb_true_iff in H as [H Hline]. apply andb_true_iff in H as [Hplain Hedge].
    apply heading_level_inv in Eh as (-> & Hn & Hstart & Hlevel).
    destruct r as [t b i ul c]. unfold plain_run in Hplain. cbn in Hplain, Hedge, Hline.
    destruct b, i, ul, c; try discriminate.
    unfold one_line in Hline. apply andb_true_iff in Hline as [H10 H13].
    exists (repeat (ch "#") (Z.to_nat n) ++ u " " ++ t).
    pose proof (edge_ok_inv t Hedge) as (Hv1 & Hv2 & Hne).
    split; [|split; [|split]].
    + unfold DocxExtract.para_line, para_text. cbn [Docx.runs Docx.style List.map concat Docx.text].
      rewrite app_nil_r, (strip_edge_ok t Hedge). destruct t as [|x t]; [congruence|].
      rewrite Hstart, Hlevel. rewrite Z_N_nat. reflexivity.
    + apply (heading_line_trip n t Hn Hedge H13).
    + rewrite app_assoc. apply edge_ok_app; [|exact Hv2].
      destruct (Z.to_nat n) eqn:E; [lia | reflexivity].
    + rewrite !avoids_app, H10, avoids_repeat by discriminate. reflexivity.
  - (* a list item or a normal paragraph *)
    intros H. apply andb_true_iff in H as [H Hstyle].
    apply andb_true_iff in H as [H Hblank]. apply andb_true_iff in H as [Hok Hedge].
    pose proof (edge_ok_inv _ Hedge) as (Hv1 & Hv2 & Hne).
    pose proof (render_avoids_nl rs Hok) as Hnl.
    assert (Hline : forall prefix,
              startswith (u "heading") (lower style) = false ->
              (if contains (u "list bullet") (lower style)
                  || contains (u "list paragraph") (lower style)
               then [bullet; ch " "]
               else if contains (u "list number") (lower style) then u "1. " else [])
              = prefix ->
              DocxExtract.para_line {| style := style; runs := rs |}
              = Some (prefix ++ render rs)).
    { intros prefix Hh Hp. unfold DocxExtract.para_line. cbn [Docx.style Docx.runs].
      destruct (strip (para_text {| style := style; runs := rs |})) eqn:Es;
        [try rewrite Es in Hblank; discriminate|].
      rewrite Hh, Hp. fold (render rs). rewrite (strip_edge_ok _ Hedge). reflexivity. }
    apply orb_true_iff in Hstyle as [Hstyle | Hstyle];
      [apply orb_true_iff in Hstyle as [Hstyle | Hstyle]|].
    + apply bool_decide_eq_true in Hstyle. subst style.
      exists ([bullet; ch " "] ++ render rs). split; [|split; [|split]].
      * apply Hline; reflexivity.
      * apply runs_line_trip; try assumption; [reflexivity|].
        rewrite startswith_app. split; reflexivity.
      * apply edge_ok_app; [reflexivity | exact Hv2].
      * rewrite avoids_app, Hnl. reflexivity.
    + apply bool_decide_eq_true in Hstyle. subst style.
      exists (u "1. " ++ render rs). split; [|split; [|split]].
      * apply Hline; reflexivity.
      * apply runs_line_trip; try assumption; [reflexivity|].
        change (startswith [bullet; ch " "] (u "1. " ++ render rs)) with false.
        rewrite startswith_app. split; reflexivity.
      * apply edge_ok_app; [reflexivity | exact Hv2].
      * rewrite avoids_app, Hnl. reflexivity.
    + apply andb_true_iff in Hstyle as [Hstyle Hpre].
      apply bool_decide_eq_true in Hstyle. subst style.
      unfold no_prefix in Hpre. apply andb_true_iff in Hpre as [Hpre H3].
      apply andb_true_iff in Hpre as [H1 H2]. apply negb_true_iff in H1, H2, H3.
      exists ([] ++ render rs). split; [|split; [|split]].
      * apply Hline; reflexivity.
      * apply runs_line_trip; try assumption.
        cbn [app]. rewrite H2, H3. split; reflexivity.
      * exact Hedge.
      * exact Hnl.
Qed.
End LineFacts.

(** *** The lines of a document through the block separator *)

Section DocumentTrip.
Import Docx.

Definition sep : str := [10%N; 10%N].

Definition line_ok (l : str) : Prop := edge_ok l = true /\ avoids 10%N l = true.

Lemma join_cons2 (p q : str) (ps : list str) :
  join sep (p :: q :: ps) = p ++ sep ++ join sep (q :: ps).
Proof. reflexivity. Qed.

Lemma join_head (p : str) (ps : list str) : exists rest, join sep (p :: ps) = p ++ rest.
Proof.
  destruct ps as [|q ps].
  - exists []. cbn. rewrite app_nil_r. reflexivity.
  - eexists. apply join_cons2.
Qed.

Lemma join_edge_ok (l : str) (ls : list str) :
  Forall line_ok (l :: ls) -> edge_ok (join sep (l :: ls)) = true.
Proof.
  revert l. induction ls as [|l2 ls IH]; intros l H.
  - apply Forall_inv in H as [H _]. exact H.
  - rewrite join_cons2. pose proof (Forall_inv H) as [Hl _].
    apply Forall_inv_tail in H. specialize (IH l2 H).
    apply edge_ok_inv in Hl as (Hv & _ & _). apply edge_ok_inv in IH as (_ & Hv2 & _).
    apply edge_ok_app; [exact Hv|]. rewrite rev_app_distr.
    apply starts_visible_app. exact Hv2.
Qed.

Lemma blank_match_at_visible (c : char) (s : str) :
  c <> 10%N -> BlankRe.match_at (c :: s) = None.
Proof.
  intros H. unfold BlankRe.match_at.
  destruct (N.eqb_spec c 10); [contradiction | reflexivity].
Qed.

Lemma split_loop_line (l : str) :
  avoids 10%N l = true ->
  forall (cur rest : str) (fuel : nat),
    (length (l ++ rest) <= fuel)%nat ->
    BlankRe.split_loop fuel cur (l ++ rest)
    = BlankRe.split_loop (fuel - length l) (cur ++ l) rest.
Proof.
  induction l as [|c l IH]; intros Hl cur rest fuel Hfuel.
  - cbn [app length]. rewrite Nat.sub_0_r, app_nil_r. reflexivity.
  - rewrite avoids_cons in Hl. apply andb_true_iff in Hl as [Hc Hl].
    destruct fuel as [|fuel]; [simpl in Hfuel; lia|].
    cbn [app BlankRe.split_loop]. rewrite blank_match_at_visible.
    + rewrite (IH Hl) by (simpl in Hfuel; lia). cbn [length Nat.sub].
      rewrite <- app_assoc. reflexivity.
    + intros ->. discriminate.
Qed.

Lemma split_loop_sep (l2 rest cur : str) (fuel : nat) :
  starts_visible l2 = true ->
  BlankRe.split_loop (S fuel) cur (sep ++ l2 ++ rest)
  = option_map (cons cur) (BlankRe.split_loop fuel [] (l2 ++ rest)).
Proof.
  intros Hv. destruct l2 as [|x l2]; [discriminate|]. cbn in Hv.
  apply negb_true_iff in Hv. cbn [sep app BlankRe.split_loop].
  unfold BlankRe.match_at. cbn [N.eqb Pos.eqb BlankRe.span_space].
  change (is_space 10%N) with true. cbv iota. rewrite Hv. reflexivity.
Qed.

Lemma split_join (ls : list str) :
  forall (l cur : str) (fuel : nat),
    Forall line_ok (l :: ls) ->
    (length (join sep (l :: ls)) <= fuel)%nat ->
    BlankRe.split_loop fuel cur (join sep (l :: ls)) = Some ((cur ++ l) :: ls).
Proof.
  induction ls as [|l2 ls IH]; intros l cur fuel Hok Hfuel.
  - pose proof (Forall_inv Hok) as [_ Hnl]. cbn [join] in *.
    rewrite <- (app_nil_r l) at 1.
    rewrite (split_loop_line l Hnl) by (rewrite app_nil_r; exact Hfuel).
    destruct (fuel - length l)%nat; reflexivity.
  - pose proof (Forall_inv Hok) as [_ Hnl]. apply Forall_inv_tail in Hok.
    pose proof (Forall_inv Hok) as [Hedge2 _].
    apply edge_ok_inv in Hedge2 as (Hv2 & _ & _).
    rewrite join_cons2 in *. rewrite (split_loop_line l Hnl) by exact Hfuel.
    destruct (join_head l2 ls) as [rest Hrest].
    rewrite !length_app in Hfuel. cbn [sep length] in Hfuel.
    destruct (fuel - length l)%nat as [|fuel'] eqn:Ef; [lia|].
    rewrite Hrest, (split_loop_sep l2 rest _ fuel' Hv2), <- Hrest.
    rewrite (IH l2 [] fuel' Hok) by lia. reflexivity.
Qed.

(** The blocks of the markup of a document are its lines. *)
Lemma split_lines (ls : list str) :
  Forall line_ok ls ->
  BlankRe.split (strip (join sep ls))
  = Some (match ls with [] => [[]] | _ => ls end)
  /\ strip (join sep ls) = join sep ls.
Proof.
  intros Hok. destruct ls as [|l ls]; [split; reflexivity|].
  pose proof (join_edge_ok l ls Hok) as He. rewrite (strip_edge_ok _ He).
  split; [|reflexivity]. unfold BlankRe.split.
  rewrite (split_join ls l [] _ Hok) by lia. reflexivity.
Qed.

Lemma blocks_loop_lines (paras : list paragraph) (ls : list str) :
  Forall2 (fun p l => Reconstruct._process_block_into_para l = Some (Ok p)
                      /\ line_ok l) paras ls ->
  forall doc, Reconstruct.blocks_loop doc ls = Some (Ok (doc ++ paras)).
Proof.
  induction 1 as [|p l paras ls [Hp [He Hnl]] _ IH]; intros doc.
  - cbn. rewrite app_nil_r. reflexivity.
  - cbn [Reconstruct.blocks_loop]. rewrite (strip_edge_ok l He).
    apply edge_ok_inv in He as (_ & _ & Hne). destruct l as [|x l]; [congruence|].
    rewrite Hp. cbn [mbind option_bind]. rewrite IH, <- app_assoc. reflexivity.
Qed.

Lemma lines_of_paragraphs (paras : list paragraph) :
  forallb paragraph_ok paras = true ->
  exists ls,
    omap DocxExtract.para_line paras = ls
    /\ Forall2 (fun p l => Reconstruct._process_block_into_para l = Some (Ok p)
                           /\ line_ok l) paras ls
    /\ Forall line_ok ls.
Proof.
  induction paras as [|p paras IH]; intros H.
  - exists []. split; [reflexivity | split; constructor].
  - cbn [forallb] in H. apply andb_true_iff in H as [Hp Hps].
    destruct (IH Hps) as (ls & Hls & Hall & Hlines).
    destruct (paragraph_trip p Hp) as (l & Hl & Hproc & He & Hnl).
    exists (l :: ls). split; [|split].
    + cbn [omap list_omap]. rewrite Hl. cbn. rewrite <- Hls. reflexivity.
    + constructor; [|exact Hall]. repeat split; assumption.
    + constructor; [split; assumption | exact Hlines].
Qed.
End DocumentTrip.

(** A paragraph with one run that is bold, italic and coloured. *)
Definition bold_italic_document : Docx.document :=
  {| Docx.paragraphs :=
       [ {| Docx.style := u "Normal";
            Docx.runs := [mk_run (u "t") true true false blue] |} ];
     Docx.tables := [] |}.

(** What the reconstructor makes of its markup. *)
Definition bold_italic_rebuilt : Docx.document :=
  {| Docx.paragraphs :=
       [ {| Docx.style := u "Normal";
            Docx.runs := [mk_run (u "*t") true false false blue;
                          mk_run (u "*") false false false blue] |} ];
     Docx.tables := [] |}.


(** A document of this kind is rebuilt as it is.  Take a document
    without tables whose paragraphs are headings of level 1 to 9 made of
    one plain run (a single line, no white space at its ends), bullet
    items, numbered items or normal paragraphs, and, outside headings,
    whose runs each have a non-empty text free of '*', '_', '<' and line
    ends, at most one of bold, italic and underline, and no colour or a
    colour that the extractor writes in hexadecimal; with no two plain
    uncoloured runs in a row, no italic uncoloured run right before a bold
    or italic uncoloured one, a formatted text that neither starts nor
    ends with white space, and a normal paragraph that does not start
    with '#', a bullet and a space, or "1. ".  Then reconstructing a
    document from its markup gives this very document. *)
Lemma document_ok_rebuilt (d : Docx.document) :
  document_ok d = true ->
  Reconstruct.save_docx_text (DocxExtract.extract_text_from_docx d) = Some (Ok d).
Proof.
  intros Hok.
  unfold document_ok in Hok. apply andb_true_iff in Hok as [Hparas Htables].
  destruct d as [paras tables]. cbn [Docx.paragraphs Docx.tables] in *.
  destruct tables; [|discriminate].
  destruct (lines_of_paragraphs paras Hparas) as (ls & Hls & Hall & Hlines).
  unfold DocxExtract.extract_text_from_docx.
  cbn [Docx.paragraphs Docx.tables List.map concat]. rewrite app_nil_r, Hls.
  destruct (split_lines ls Hlines) as [Hsplit Hstrip].
  unfold Reconstruct.save_docx_text. fold sep. rewrite Hstrip, Hsplit.
  cbn [mbind option_bind]. destruct ls as [|l ls'].
  - inversion Hall. reflexivity.
  - rewrite (blocks_loop_lines paras (l :: ls') Hall []). reflexivity.
Qed.

(** * Further properties of the code *)

(** *** The chunks as slices of the text *)

Section ChunkSlices.
Context {A : Type}.
Implicit Types (text : list A) (S : Z).

Lemma chunk_while_end text S (fuel : nat) (start : Z) (chunks : list (list A)) :
  len text <= start -> Chunker.chunk_while text S fuel start chunks = Some chunks.
Proof.
  intros H. destruct fuel; simpl; destruct (Z.ltb_spec start (len text)); (lia || reflexivity).
Qed.

(** A slice that ends past the text ends at the end of the text. *)
Lemma py_slice_clamp text a b :
  0 <= a -> a <= b -> py_slice text a b = py_slice text a (Z.min b (len text)).
Proof.
  intros Ha Hab. pose proof (len_nonneg text) as Hn.
  assert (Hb : slice_bound (len text) (Z.min b (len text)) = slice_bound (len text) b).
  { unfold slice_bound.
    destruct (Z.ltb_spec (Z.min b (len text)) 0); [lia|].
    destruct (Z.ltb_spec b 0); [lia|].
    destruct (Z.ltb_spec (len text) (Z.min b (len text))); [lia|].
    destruct (Z.ltb_spec (len text) b); lia. }
  unfold py_slice. rewrite Hb. reflexivity.
Qed.

Lemma chunk_while_slices text S :
  0 < S ->
  forall (fuel : nat) (start : Z) (chunks : list (list A)),
    0 <= start -> start <= len text ->
    (len text - start <= Z.of_nat fuel) ->
    exists cs,
      Chunker.chunk_while text S fuel start chunks = Some (chunks ++ cs)
      /\ forall (i : nat) c, cs !! i = Some c ->
           c = py_slice text (start + Z.of_nat i * S) (start + Z.of_nat i * S + S).
Proof.
  intros HS. induction fuel as [|fuel IH]; intros start chunks H0 Hle Hfuel.
  - exists []. rewrite app_nil_r. split; [apply chunk_while_end; lia|].
    intros i c Hi. rewrite lookup_nil in Hi. discriminate.
  - simpl. destruct (Z.ltb_spec start (len text)) as [Hlt|Hge].
    + set (e := Chunker.next_end text S start).
      assert (He : start < e /\ e <= len text /\ e = Z.min (start + S) (len text)).
      { unfold e, Chunker.next_end. lia. }
      destruct He as (He1 & He2 & He3).
      destruct (Z.eq_dec e (len text)) as [Hend|Hmid].
      * exists [py_slice text start e]. split.
        -- apply chunk_while_end. lia.
        -- intros [|i] c Hi; [|rewrite lookup_cons, lookup_nil in Hi; discriminate].
           injection Hi as <-. rewrite Z.mul_0_l, Z.add_0_r.
           rewrite (py_slice_clamp text start (start + S)) by lia.
           rewrite <- He3. reflexivity.
      * destruct (IH e (chunks ++ [py_slice text start e])) as (cs & Hrun & Hall);
          [lia | lia | lia |].
        exists (py_slice text start e :: cs). split.
        -- rewrite Hrun, <- app_assoc. reflexivity.
        -- intros [|i] c Hi.
           ++ injection Hi as <-. rewrite Z.mul_0_l, Z.add_0_r.
              rewrite (py_slice_clamp text start (start + S)) by lia.
              rewrite <- He3. reflexivity.
           ++ rewrite lookup_cons in Hi. rewrite (Hall i c Hi).
              assert (e = start + S) as -> by lia. f_equal; lia.
    + exists []. rewrite app_nil_r. split; [reflexivity|].
      intros i c Hi. rewrite lookup_nil in Hi. discriminate.
Qed.

Lemma ceil_div_above (n d i : Z) : 0 < d -> i < ceil_div n d -> i * d < n.
Proof.
  intros Hd Hi. unfold ceil_div in Hi.
  pose proof (Z.mul_div_le (n + d - 1) d Hd). nia.
Qed.
End ChunkSlices.

(** X1. For every text T and size S > 0, the chunk of index i that
    [chunk_text(T, S)] returns is the slice [T[i*S : i*S + S]]; so every
    chunk but the last has exactly S characters. *)
Theorem chunk_text_slices {A : Type} (T : list A) (S : Z) :
  0 < S ->
  exists chunks,
    Chunker.chunk_text T S (length T) = Some chunks
    /\ forall (i : nat) (c : list A), chunks !! i = Some c ->
         c = py_slice T (Z.of_nat i * S) (Z.of_nat i * S + S)
         /\ (Z.of_nat i + 1 < len chunks -> len c = S).
Proof.
  intros HS.
  destruct (chunk_while_slices T S HS (length T) 0 []) as (cs & Hrun & Hall);
    [lia | unfold len; lia | unfold len; lia |].
  destruct (chunk_while_spec T S HS (length T) 0 []) as (cs' & Hrun' & _ & _ & Hcnt);
    [lia | unfold len; lia | unfold len; lia |].
  rewrite Hrun in Hrun'. injection Hrun' as <-. rewrite Z.sub_0_r in Hcnt.
  exists cs. split; [exact Hrun|].
  intros i c Hi. specialize (Hall i c Hi). rewrite Z.add_0_l in Hall.
  split; [exact Hall|]. intros Hlast. rewrite Hcnt in Hlast.
  apply ceil_div_above in Hlast; [|exact HS].
  rewrite Hall. rewrite py_slice_length; lia.
Qed.

Lemma chunk_text_slices_witness :
  exists chunks,
    Chunker.chunk_text (u "abcdefg") 3 7 = Some chunks
    /\ forall (i : nat) (c : str), chunks !! i = Some c ->
         c = py_slice (u "abcdefg") (Z.of_nat i * 3) (Z.of_nat i * 3 + 3)
         /\ (Z.of_nat i + 1 < len chunks -> len c = 3).
Proof. apply (chunk_text_slices (u "abcdefg") 3). lia. Defined.

(** *** Colours written in hexadecimal and read back *)

(** [s.upper()], on the ASCII letters *)
Definition upper (s : str) : str :=
  List.map (fun c => if ((97 <=? c) && (c <=? 122))%N then (c - 32)%N else c) s.

Definition hex_chars : list char :=
  List.map N.of_nat (seq 48 10 ++ seq 65 6 ++ seq 97 6).

Lemma is_hex_cases (c : char) : ColorRe.is_hex c = true -> In c hex_chars.
Proof.
  unfold ColorRe.is_hex, hex_value. intros H.
  assert (Hc : (48 <= c <= 57 \/ 65 <= c <= 70 \/ 97 <= c <= 102)%N).
  { destruct (N.leb_spec 48 c), (N.leb_spec c 57), (N.leb_spec 65 c), (N.leb_spec c 70),
      (N.leb_spec 97 c), (N.leb_spec c 102); cbn in H; try discriminate; lia. }
  unfold hex_chars. apply in_map_iff. exists (N.to_nat c). split; [lia|].
  rewrite !in_app_iff, !in_seq. lia.
Qed.

Lemma hex_chars_checked :
  forallb (fun a => forallb (fun b =>
     match int16 [a; b] with
     | Some v => (0 <=? v) && (v <=? 255) && str_eqb (fmt_02X v) (upper [a; b])
     | None => false
     end && negb (is_space a)) hex_chars) hex_chars = true.
Proof. vm_compute. reflexivity. Qed.

Lemma hex_chars_pair (a b : char) :
  ColorRe.is_hex a = true -> ColorRe.is_hex b = true ->
  is_space a = false
  /\ exists v, int16 [a; b] = Some v /\ 0 <= v <= 255 /\ fmt_02X v = upper [a; b].
Proof.
  intros Ha Hb. pose proof hex_chars_checked as H. rewrite forallb_forall in H.
  specialize (H a (is_hex_cases a Ha)). rewrite forallb_forall in H.
  specialize (H b (is_hex_cases b Hb)).
  apply andb_true_iff in H as [H Hs]. apply negb_true_iff in Hs. split; [exact Hs|].
  destruct (int16 [a; b]) as [v|]; [|discriminate]. exists v.
  apply andb_true_iff in H as [H H3]. apply andb_true_iff in H as [H1 H2].
  apply bool_decide_eq_true in H3. split; [reflexivity|]. split; [lia | exact H3].
Qed.

Lemma lstrip_app_spaces (w s : str) :
  forallb is_space w = true -> lstrip (w ++ s) = lstrip s.
Proof.
  induction w as [|c w IH]; [reflexivity|]. simpl. intros H.
  apply andb_true_iff in H as [Hc Hw]. rewrite Hc. exact (IH Hw).
Qed.

Lemma strip_spaces_around (w1 w2 : str) (a b : char) (s : str) :
  forallb is_space w1 = true -> forallb is_space w2 = true ->
  is_space a = false -> is_space b = false ->
  strip (w1 ++ (a :: s ++ [b]) ++ w2) = a :: s ++ [b].
Proof.
  intros H1 H2 Ha Hb. unfold strip. rewrite lstrip_app_spaces by exact H1.
  replace (lstrip ((a :: s ++ [b]) ++ w2)) with ((a :: s ++ [b]) ++ w2)
    by (simpl; rewrite Ha; reflexivity).
  rewrite (rstrip_app_spaces (a :: s ++ [b]) w2 H2).
  apply (rstrip_snoc_not_space (a :: s)), Hb.
Qed.

(** Six hexadecimal digits, in either case and with white space around
    them, convert to a colour whose own hexadecimal form is these digits in
    upper case. *)
Lemma hex_digits_convert (w1 w2 h : str) :
  forallb is_space w1 = true -> forallb is_space w2 = true -> valid_hex h ->
  exists c, HexColor._hex_to_rgbcolor (w1 ++ h ++ w2) = Ok c
            /\ rgb_ok c = true /\ Docx.rgb_str c = upper h.
Proof.
  intros H1 H2 [Hl Hh].
  destruct h as [|a [|b [|c [|d [|e [|f [|x h]]]]]]]; try discriminate. clear Hl.
  cbn [forallb] in Hh.
  repeat match goal with
         | H : (_ && _) = true |- _ => apply andb_true_iff in H as [? ?]
         end.
  destruct (hex_chars_pair a b) as (Sa & r & Er & Rr & Fr); try assumption.
  destruct (hex_chars_pair c d) as (_ & g & Eg & Rg & Fg); try assumption.
  destruct (hex_chars_pair e f) as (_ & bl & Eb & Rb & Fb); try assumption.
  destruct (hex_chars_pair f f) as (Sf & _); try assumption.
  exists (Docx.RGBColor r g bl). split; [|split].
  - unfold HexColor._hex_to_rgbcolor.
    change (w1 ++ [a; b; c; d; e; f] ++ w2) with (w1 ++ (a :: [b; c; d; e] ++ [f]) ++ w2).
    rewrite (strip_spaces_around w1 w2 a f [b; c; d; e] H1 H2 Sa Sf).
    change (py_slice (a :: [b; c; d; e] ++ [f]) 0 2) with [a; b].
    change (py_slice (a :: [b; c; d; e] ++ [f]) 2 4) with [c; d].
    change (py_slice (a :: [b; c; d; e] ++ [f]) 4 6) with [e; f].
    change (len (a :: [b; c; d; e] ++ [f]) =? 6) with true. cbn [negb].
    unfold HexColor.int16_or_raise. rewrite Er, Eg, Eb. cbn [bind].
    unfold HexColor.new_RGBColor. cbn [forallb].
    destruct (Z.leb_spec 0 r), (Z.leb_spec r 255), (Z.leb_spec 0 g), (Z.leb_spec g 255),
      (Z.leb_spec 0 bl), (Z.leb_spec bl 255); try lia; try reflexivity.
  - unfold rgb_ok. cbn [forallb Docx.red Docx.green Docx.blue].
    destruct (Z.leb_spec 0 r), (Z.leb_spec r 255), (Z.leb_spec 0 g), (Z.leb_spec g 255),
      (Z.leb_spec 0 bl), (Z.leb_spec bl 255); try lia; try reflexivity.
  - unfold Docx.rgb_str. cbn [Docx.red Docx.green Docx.blue].
    rewrite Fr, Fg, Fb. reflexivity.
Qed.

(** X2. The colour tag of the PDF extractor can be read back: for every
    packed colour value, [color_hex] is '#' and six hexadecimal digits that
    [_hex_to_rgbcolor] converts to the three bytes that the extractor took
    from the value. *)
Theorem pdf_colour_reads_back (color_val : Z) :
  let r := Z.land (Z.shiftr color_val 16) 255 in
  let g := Z.land (Z.shiftr color_val 8) 255 in
  let b := Z.land color_val 255 in
  exists h,
    Pdf.color_hex color_val = ch "#" :: h
    /\ valid_hex h
    /\ HexColor._hex_to_rgbcolor h = Ok (Docx.RGBColor r g b)
    /\ Pdf.color_hex color_val = Pdf.color_hex (color_val mod 2 ^ 24).
Proof.
  intros r g b. destruct (unpack_rgb color_val) as (Hr & Hg & Hb & Hval).
  fold r g b in Hr, Hg, Hb, Hval.
  assert (Hok : rgb_ok (Docx.RGBColor r g b) = true).
  { unfold rgb_ok. cbn [forallb Docx.red Docx.green Docx.blue].
    destruct (Z.leb_spec 0 r), (Z.leb_spec r 255), (Z.leb_spec 0 g), (Z.leb_spec g 255),
      (Z.leb_spec 0 b), (Z.leb_spec b 255); try lia; try reflexivity. }
  exists (Docx.rgb_str (Docx.RGBColor r g b)). split_and!.
  - unfold Pdf.color_hex. fold r g b. reflexivity.
  - apply rgb_str_valid, Hok.
  - apply hex_roundtrip, Hok.
  - destruct (unpack_rgb (color_val mod 2 ^ 24)) as (Hr' & Hg' & Hb' & Hval').
    rewrite Z.mod_mod in Hval' by lia.
    unfold Pdf.color_hex. fold r g b.
    set (r' := Z.land (Z.shiftr (color_val mod 2 ^ 24) 16) 255) in *.
    set (g' := Z.land (Z.shiftr (color_val mod 2 ^ 24) 8) 255) in *.
    set (b' := Z.land (color_val mod 2 ^ 24) 255) in *.
    set (m := color_val mod 2 ^ 24) in *.
    assert (r = r' /\ g = g' /\ b = b') as (-> & -> & ->) by lia. reflexivity.
Qed.

(** X3. [_hex_to_rgbcolor] takes six hexadecimal digits in either case,
    with any white space around them: it returns a colour with components
    in 0..255 whose hexadecimal form [str(rgb)] is the digits in upper
    case.  A text that is not six characters long once stripped raises
    [ValueError]. *)
Theorem hex_to_rgbcolor_digits (w1 w2 h : str) :
  forallb is_space w1 = true -> forallb is_space w2 = true -> valid_hex h ->
  (exists c, HexColor._hex_to_rgbcolor (w1 ++ h ++ w2) = Ok c
             /\ rgb_ok c = true /\ Docx.rgb_str c = upper h)
  /\ forall s : str, len (strip s) <> 6 -> HexColor._hex_to_rgbcolor s = Raise ValueError.
Proof.
  intros H1 H2 Hv. split; [apply hex_digits_convert; assumption|].
  intros s Hs. unfold HexColor._hex_to_rgbcolor.
  destruct (Z.eqb_spec (len (strip s)) 6); [contradiction | reflexivity].
Qed.

Lemma hex_to_rgbcolor_digits_witness :
  exists c, HexColor._hex_to_rgbcolor (u " " ++ u "ff00Aa" ++ [10%N]) = Ok c
            /\ rgb_ok c = true /\ Docx.rgb_str c = u "FF00AA".
Proof.
  exact (proj1 (hex_to_rgbcolor_digits (u " ") [10%N] (u "ff00Aa")
                  eq_refl eq_refl (conj eq_refl eq_refl))).
Defined.

(** *** The runs that the tokenizer adds *)

(** The run that [add_run] makes. *)
Definition new_run (text : str) (k : option Tokenizer.kind) (c : option Docx.rgb)
  : Docx.run :=
  {| Docx.text := run_text text;
     Docx.bold := match k with Some Tokenizer.KBold => true | _ => false end;
     Docx.italic := match k with Some Tokenizer.KItalic => true | _ => false end;
     Docx.underline := match k with Some Tokenizer.KUnderline => true | _ => false end;
     Docx.color := c |}.

(** The text without its stars and underscores. *)
Definition unmarked (s : str) : str :=
  List.filter (fun c => negb (c =? Re.star)%N && negb (c =? Re.underscore)%N) s.

(** A run with some text, at most one of bold, italic and underline, and
    the colour [c]. *)
Definition fresh_run (c : option Docx.rgb) (r : Docx.run) : Prop :=
  Docx.text r <> [] /\ single_style r = true /\ Docx.color r = c.

Section TokenizerRuns.
Import Docx Tokenizer.

Lemma add_run_new (para : paragraph) (t : str) (k : option kind) (c : option rgb) :
  add_run para t k c = add_runs para [new_run t k c].
Proof. reflexivity. Qed.

Lemma run_text_app (a b : str) : run_text (a ++ b) = run_text a ++ run_text b.
Proof. apply map_app. Qed.

Lemma run_text_nil (t : str) : run_text t = [] -> t = [].
Proof. destruct t; [reflexivity | discriminate]. Qed.

Lemma new_run_fresh (t : str) (k : option kind) (c : option rgb) :
  t <> [] -> fresh_run c (new_run t k c).
Proof.
  intros Ht. split; [|split].
  - intros H. apply Ht, run_text_nil, H.
  - destruct k as [[]|]; reflexivity.
  - reflexivity.
Qed.

Lemma run_text_marker (k : kind) : run_text (marker k) = marker k.
Proof. destruct k; reflexivity. Qed.

Lemma unmarked_marker (k : kind) : unmarked (marker k) = [].
Proof. destruct k; reflexivity. Qed.

Lemma unmarked_app (a b : str) : unmarked (a ++ b) = unmarked a ++ unmarked b.
Proof. apply List.filter_app. Qed.

(** What the loop does, by induction on the length of the text. *)
Lemma tokenize_spec (c : option rgb) (n : nat) :
  forall (text : str) (para : paragraph),
    (length text <= n)%nat ->
    exists rs,
      _add_runs_from_text para text c = Some (add_runs para rs)
      /\ Forall (fresh_run c) rs
      /\ (rs = [] <-> text = [])
      /\ concat (List.map Docx.text rs) `sublist_of` run_text text
      /\ unmarked (concat (List.map Docx.text rs)) = unmarked (run_text text).
Proof.
  induction n as [|n IH]; intros text para Hlen.
  - destruct text; [|simpl in Hlen; lia]. exists []. split_and!.
    + cbn. rewrite add_runs_nil. reflexivity.
    + constructor.
    + tauto.
    + constructor.
    + reflexivity.
  - rewrite add_runs_unfold. destruct text as [|x text].
    { exists []. rewrite add_runs_nil. split_and!; try tauto; constructor. }
    pose proof (earliest_spec (x :: text)) as Hsp.
    pose proof (earliest_shorter (x :: text)) as Hshort.
    destruct (earliest (x :: text)) as [[m k]|].
    + destruct Hsp as [Hm _]. apply search_split in Hm as [Hg Hs].
      specialize (Hshort m k eq_refl). cbv zeta.
      set (para1 := if 0 <? Re.start m then add_run para (Re.before m) None c else para).
      destruct (IH (Re.after m) (add_run para1 (Re.group1 m) (Some k) c))
        as (rs & Hrun & Hall & Hnil & Hsub & Hun); [simpl in *; lia|].
      set (pre := match Re.before m with [] => [] | b => [new_run b None c] end).
      assert (Hpara1 : para1 = add_runs para pre).
      { unfold para1, pre, Re.start. destruct (Re.before m) as [|y b].
        - cbn. rewrite add_runs_nil. reflexivity.
        - rewrite len_cons. pose proof (len_nonneg b).
          destruct (Z.ltb_spec 0 (len b + 1)); [|lia]. apply add_run_new. }
      assert (Hpre : Forall (fresh_run c) pre
                     /\ concat (List.map Docx.text pre) = run_text (Re.before m)).
      { unfold pre. destruct (Re.before m) as [|y b] eqn:Eb.
        - split; [constructor | reflexivity].
        - split; [repeat constructor; apply new_run_fresh; discriminate|].
          cbn [List.map concat Docx.text new_run]. apply app_nil_r. }
      destruct Hpre as [Hpre1 Hpre2].
      exists (pre ++ new_run (Re.group1 m) (Some k) c :: rs). split_and!.
      * rewrite Hrun, Hpara1, add_run_new, !add_runs_app. reflexivity.
      * apply Forall_app. split; [exact Hpre1|].
        constructor; [apply new_run_fresh, Hg | exact Hall].
      * split; [|discriminate]. intros H. apply app_eq_nil in H as [_ H]. discriminate.
      * rewrite map_app, concat_app, Hpre2. cbn [List.map concat Docx.text new_run].
        rewrite Hs, !run_text_app, !run_text_marker.
        apply sublist_app; [reflexivity|]. apply sublist_inserts_l.
        apply sublist_app; [reflexivity|]. apply sublist_inserts_l. exact Hsub.
      * rewrite map_app, concat_app, Hpre2. cbn [List.map concat Docx.text new_run].
        rewrite Hs. rewrite !run_text_app, !run_text_marker, !unmarked_app.
        rewrite !unmarked_marker, Hun. reflexivity.
    + exists [new_run (x :: text) None c]. split_and!.
      * apply f_equal, add_run_new.
      * repeat constructor. apply new_run_fresh. discriminate.
      * split; discriminate.
      * cbn [List.map concat Docx.text new_run]. rewrite app_nil_r. reflexivity.
      * cbn [List.map concat Docx.text new_run]. rewrite app_nil_r. reflexivity.
Qed.

(** A text with no star and no underscore has no match. *)
Lemma earliest_unmarked (t : str) :
  avoids Re.star t = true -> avoids Re.underscore t = true -> earliest t = None.
Proof.
  intros H1 H2. pose proof (earliest_spec t) as Hsp.
  destruct (earliest t) as [[m k]|]; [|reflexivity].
  destruct Hsp as [Hm _]. apply search_split in Hm as [_ Hm]. exfalso.
  assert (Hin : exists d, (d = Re.star \/ d = Re.underscore) /\ d ∈ t).
  { destruct k; [exists Re.star | exists Re.underscore | exists Re.star];
      (split; [auto|]); rewrite Hm; apply elem_of_app; right;
      apply elem_of_cons; left; reflexivity. }
  destruct Hin as (d & [->| ->] & Hin).
  - exact (avoids_elem _ _ H1 Hin).
  - exact (avoids_elem _ _ H2 Hin).
Qed.
End TokenizerRuns.

(** The characters that an XML document can hold: python-docx refuses to
    store a text with any other character in a run (the model of [add_run]
    does not look at the characters, so the properties of the runs are
    stated for the texts that python-docx takes). *)
Definition xml_char (c : char) : bool :=
  ((c =? 9) || (c =? 10) || (c =? 13) || (32 <=? c) && (c <=? 55295)
   || (57344 <=? c) && (c <=? 65533) || (65536 <=? c) && (c <=? 1114111))%N.

Definition xml_text (s : str) : bool := forallb xml_char s.

(** X4. Whatever the text (of characters that python-docx takes),
    [_add_runs_from_text] keeps the runs that the paragraph has and adds runs after them (none for an empty text, at
    least one otherwise); every run that it adds has some text, at most one
    of bold, italic and underline, and the colour that was passed. *)
Theorem tokenizer_runs_well_formed
    (para : Docx.paragraph) (text : str) (c : option Docx.rgb) :
  xml_text text = true ->
  exists rs,
    Tokenizer._add_runs_from_text para text c
      = Some {| Docx.style := Docx.style para; Docx.runs := Docx.runs para ++ rs |}
    /\ Forall (fun r => Docx.text r <> [] /\ single_style r = true /\ Docx.color r = c) rs
    /\ (rs = [] <-> text = []).
Proof.
  intros _. destruct (tokenize_spec c (length text) text para (le_n _))
    as (rs & Hrun & Hall & Hnil & _).
  exists rs. split_and!; assumption.
Qed.

Lemma tokenizer_runs_well_formed_witness :
  exists rs,
    Tokenizer._add_runs_from_text empty_para (u "x **a** __b__") None
      = Some {| Docx.style := u "Normal"; Docx.runs := [] ++ rs |}
    /\ Forall (fun r => Docx.text r <> [] /\ single_style r = true /\ Docx.color r = None) rs
    /\ (rs = [] <-> u "x **a** __b__" = []).
Proof.
  apply (tokenizer_runs_well_formed empty_para (u "x **a** __b__") None). reflexivity.
Defined.

(** X5. The tokenizer loses nothing but markers: for every text (of
    characters that python-docx takes) the texts of the runs that it adds, put end to end, are the text with some stars and
    underscores taken out (a carriage return being stored as a line
    break), nothing added and nothing moved. *)
Theorem tokenizer_keeps_text
    (para : Docx.paragraph) (text : str) (c : option Docx.rgb) :
  xml_text text = true ->
  exists rs,
    Tokenizer._add_runs_from_text para text c
      = Some {| Docx.style := Docx.style para; Docx.runs := Docx.runs para ++ rs |}
    /\ concat (List.map Docx.text rs) `sublist_of` run_text text
    /\ unmarked (concat (List.map Docx.text rs)) = unmarked (run_text text).
Proof.
  intros _. destruct (tokenize_spec c (length text) text para (le_n _))
    as (rs & Hrun & _ & _ & Hsub & Hun).
  exists rs. split_and!; assumption.
Qed.

Lemma tokenizer_keeps_text_witness :
  exists rs,
    Tokenizer._add_runs_from_text empty_para (u "***t*** and _") None
      = Some {| Docx.style := u "Normal"; Docx.runs := [] ++ rs |}
    /\ concat (List.map Docx.text rs) `sublist_of` run_text (u "***t*** and _")
    /\ unmarked (concat (List.map Docx.text rs)) = unmarked (run_text (u "***t*** and _")).
Proof.
  apply (tokenizer_keeps_text empty_para (u "***t*** and _") None). reflexivity.
Defined.

(** X6. A text with no star and no underscore (of characters that
    python-docx takes) becomes one plain run with the whole text. *)
Theorem tokenizer_plain_text
    (para : Docx.paragraph) (text : str) (c : option Docx.rgb) :
  xml_text text = true ->
  text <> [] -> avoids Re.star text = true -> avoids Re.underscore text = true ->
  Tokenizer._add_runs_from_text para text c
  = Some {| Docx.style := Docx.style para;
            Docx.runs := Docx.runs para
                         ++ [ {| Docx.text := run_text text; Docx.bold := false;
                                 Docx.italic := false; Docx.underline := false;
                                 Docx.color := c |} ] |}.
Proof.
  intros _ Hne H1 H2. rewrite add_runs_unfold. destruct text as [|x t]; [congruence|].
  rewrite (earliest_unmarked _ H1 H2). reflexivity.
Qed.

Lemma tokenizer_plain_text_witness :
  Tokenizer._add_runs_from_text empty_para (u "a < b") None
  = Some {| Docx.style := u "Normal";
            Docx.runs := [mk_run (u "a < b") false false false None] |}.
Proof.
  apply (tokenizer_plain_text empty_para (u "a < b") None);
    [reflexivity | discriminate | reflexivity | reflexivity].
Defined.

(** *** What [save_docx_text] does on any text *)

Section SaveFacts.
Import Docx Reconstruct.

(** Every colour match has six hexadecimal digits. *)
Lemma finditer_hex (fuel : nat) :
  forall (s : str) (ms : list ColorRe.cmatch) (tail : str),
    ColorRe.finditer fuel s = Some (ms, tail) ->
    Forall (fun m => valid_hex (ColorRe.hex m)) ms.
Proof.
  induction fuel as [|fuel IH]; intros s ms tail; cbn [ColorRe.finditer];
    destruct (ColorRe.search s) as [[m rest]|] eqn:E; try discriminate.
  - intros [= <- <-]. constructor.
  - destruct (ColorRe.finditer fuel rest) as [[ms' tail']|] eqn:E'; [|discriminate].
    cbn. intros [= <- <-]. constructor; [|exact (IH _ _ _ E')].
    apply color_search_split in E as (_ & Hl & Hh). split; assumption.
  - intros [= <- <-]. constructor.
Qed.

Lemma lstrip_char_repeat (c : char) (k : nat) (t : str) :
  lstrip_char c (repeat c k ++ t) = lstrip_char c t.
Proof. induction k as [|k IH]; [reflexivity|]. cbn. rewrite N.eqb_refl. exact IH. Qed.

Lemma lstrip_char_split (c : char) (s : str) :
  exists k : nat, s = repeat c k ++ lstrip_char c s.
Proof.
  induction s as [|x s [k IH]]; [exists 0%nat; reflexivity|]. cbn.
  destruct (N.eqb_spec x c) as [->|Hne].
  - exists (S k). cbn. rewrite <- IH. reflexivity.
  - exists 0%nat. reflexivity.
Qed.

Lemma lstrip_char_len (c : char) (s : str) : len (lstrip_char c s) <= len s.
Proof.
  destruct (lstrip_char_split c s) as [k Hk]. rewrite Hk at 2.
  rewrite len_app. pose proof (len_nonneg (repeat c k)). lia.
Qed.

Lemma repeat_split {A} (x : A) (k j : nat) :
  (j <= k)%nat -> repeat x k = repeat x j ++ repeat x (k - j).
Proof. intros H. rewrite <- repeat_app. f_equal. lia. Qed.

(** A block with ten hashes or more in front is refused. *)
Lemma heading_too_deep (k : nat) (t : str) :
  (10 <= k)%nat ->
  _process_block_into_para (repeat (ch "#") k ++ t) = Some (Raise ValueError).
Proof.
  intros Hk. unfold _process_block_into_para.
  assert (Hstart : startswith (u "#") (repeat (ch "#") k ++ t) = true).
  { destruct k; [lia | reflexivity]. }
  rewrite Hstart. rewrite lstrip_char_repeat, len_app.
  pose proof (lstrip_char_len (ch "#") t) as Hle.
  unfold len at 1. rewrite repeat_length. unfold add_heading.
  destruct (Z.leb_spec (Z.of_nat k + len t - len (lstrip_char (ch "#") t)) 9); [lia|].
  rewrite andb_false_r. reflexivity.
Qed.

(** A block that is refused has ten hashes in front; nothing else is. *)
Lemma process_block_outcome (block : str) :
  exists r, _process_block_into_para block = Some r
            /\ forall e, r = Raise e ->
                 e = ValueError /\ startswith (repeat (ch "#") 10) block = true.
Proof.
  unfold _process_block_into_para. destruct (startswith (u "#") block) eqn:Eh.
  - eexists. split; [reflexivity|]. intros e. unfold add_heading.
    destruct (lstrip_char_split (ch "#") block) as [k Hk].
    set (rest := lstrip_char (ch "#") block) in *.
    assert (Hlevel : len block - len rest = Z.of_nat k).
    { rewrite Hk at 1. rewrite len_app. unfold len at 1. rewrite repeat_length. lia. }
    rewrite Hlevel.
    destruct (Z.leb_spec 0 (Z.of_nat k)); [|lia].
    destruct (Z.leb_spec (Z.of_nat k) 9); cbn [andb]; [discriminate|].
    intros [= <-]. split; [reflexivity|]. apply startswith_spec.
    exists (repeat (ch "#") (k - 10) ++ rest). rewrite Hk at 1.
    rewrite (repeat_split (ch "#") k 10) by lia. rewrite <- app_assoc. reflexivity.
  - destruct (startswith [bullet; ch " "] block);
      [|destruct (startswith (u "1. ") block)];
      match goal with
      | |- context [fill_para ?p ?b] => destruct (fill_para_total p b) as [para' ->]
      end; eexists; (split; [reflexivity | discriminate]).
Qed.

Lemma blocks_loop_outcome (blocks : list str) :
  forall doc : list paragraph,
    exists r, blocks_loop doc blocks = Some r
              /\ forall e, r = Raise e ->
                   e = ValueError
                   /\ exists b, b ∈ blocks /\ startswith (repeat (ch "#") 10) (strip b) = true.
Proof.
  induction blocks as [|b blocks IH]; intros doc.
  - eexists. split; [reflexivity | discriminate].
  - cbn [blocks_loop]. destruct (strip b) as [|x sb] eqn:Eb.
    + destruct (IH doc) as (r & Hr & He). exists r. split; [exact Hr|].
      intros e Hre. destruct (He e Hre) as (-> & b' & Hin & Hb').
      split; [reflexivity|]. exists b'. split; [|exact Hb'].
      apply elem_of_cons. right. exact Hin.
    + destruct (process_block_outcome (x :: sb)) as (r & Hr & He). rewrite Hr. cbn.
      destruct r as [para|e0].
      * destruct (IH (doc ++ [para])) as (r' & Hr' & He'). exists r'. split; [exact Hr'|].
        intros e Hre. destruct (He' e Hre) as (-> & b' & Hin & Hb').
        split; [reflexivity|]. exists b'. split; [|exact Hb'].
        apply elem_of_cons. right. exact Hin.
      * eexists. split; [reflexivity|]. intros e [= <-].
        destruct (He e0 eq_refl) as [-> Hs]. split; [reflexivity|].
        exists b. split; [apply elem_of_cons; left; reflexivity|]. rewrite Eb. exact Hs.
Qed.
End SaveFacts.

(** *** The blocks as parts of the text *)

(** [p] is a part of [s]: some characters, [p], some characters. *)
Definition part_of (p s : str) : Prop := exists a b, s = a ++ p ++ b.

Lemma part_of_refl (s : str) : part_of s s.
Proof. exists [], []. rewrite app_nil_r. reflexivity. Qed.

Lemma part_of_trans (p q s : str) : part_of p q -> part_of q s -> part_of p s.
Proof.
  intros (a & b & ->) (a' & b' & ->). exists (a' ++ a), (b ++ b').
  rewrite <- !app_assoc. reflexivity.
Qed.

Lemma lstrip_suffix (s : str) : exists w, s = w ++ lstrip s.
Proof.
  induction s as [|c s [w IH]]; [exists []; reflexivity|]. simpl.
  destruct (is_space c); [|exists []; reflexivity].
  exists (c :: w). simpl. rewrite <- IH. reflexivity.
Qed.

Lemma rstrip_prefix (s : str) : exists w, s = rstrip s ++ w.
Proof.
  unfold rstrip. destruct (lstrip_suffix (rev s)) as [w Hw]. exists (rev w).
  rewrite <- rev_app_distr, <- Hw, rev_involutive. reflexivity.
Qed.

Lemma strip_part_of (s : str) : part_of (strip s) s.
Proof.
  unfold strip. destruct (lstrip_suffix s) as [w1 H1].
  destruct (rstrip_prefix (lstrip s)) as [w2 H2].
  exists w1, w2. rewrite <- H2. exact H1.
Qed.

Section SplitFacts.
Import BlankRe.

Lemma after_last_newline_split (w r : str) :
  after_last_newline w = Some r -> exists x, w = x ++ 10%N :: r.
Proof.
  revert r. induction w as [|c w IH]; intros r; [discriminate|]. cbn.
  destruct (after_last_newline w) as [r'|].
  - intros [= <-]. destruct (IH r' eq_refl) as [x ->]. exists (c :: x). reflexivity.
  - destruct (N.eqb_spec c 10) as [->|]; [|discriminate].
    intros [= <-]. exists []. reflexivity.
Qed.

Lemma span_space_app (s : str) : s = fst (span_space s) ++ snd (span_space s).
Proof.
  induction s as [|c s IH]; [reflexivity|]. cbn.
  destruct (is_space c); [|reflexivity].
  destruct (span_space s) as [w r]. cbn in *. rewrite IH at 1. reflexivity.
Qed.

(** A separator is one character at least, and what follows it is the end
    of the text. *)
Lemma blank_match_at_suffix (s rest : str) :
  match_at s = Some rest -> exists m, s = m ++ rest /\ m <> [].
Proof.
  unfold match_at. destruct s as [|c t]; [discriminate|].
  destruct (N.eqb_spec c 10) as [->|]; [|discriminate].
  pose proof (span_space_app t) as Ht. destruct (span_space t) as [w r]. cbn in Ht.
  destruct (after_last_newline w) as [w'|] eqn:E; [|discriminate].
  cbn. intros [= <-]. apply after_last_newline_split in E as [x ->].
  exists (10%N :: x ++ [10%N]). split; [|discriminate].
  rewrite Ht. cbn. rewrite <- !app_assoc. reflexivity.
Qed.

Lemma split_loop_total (fuel : nat) :
  forall cur s : str, (length s <= fuel)%nat -> is_Some (split_loop fuel cur s).
Proof.
  induction fuel as [|fuel IH]; intros cur s Hlen.
  - destruct s; [cbn; eauto | simpl in Hlen; lia].
  - destruct s as [|c t]; [cbn; eauto|]. cbn [split_loop].
    destruct (match_at (c :: t)) as [rest|] eqn:E.
    + apply blank_match_at_suffix in E as (m & Hm & Hne).
      destruct (IH [] rest) as [ps ->]; [|cbn; eauto].
      apply (f_equal (@length _)) in Hm. rewrite length_app in Hm.
      destruct m; [congruence|]. simpl in *. lia.
    + apply IH. simpl in Hlen. lia.
Qed.

(** Every piece is a part of the text that is split. *)
Lemma split_loop_parts (fuel : nat) :
  forall (cur s : str) (ps : list str),
    split_loop fuel cur s = Some ps -> Forall (fun p => part_of p (cur ++ s)) ps.
Proof.
  induction fuel as [|fuel IH]; intros cur s ps.
  - destruct s; [|discriminate]. intros [= <-]. repeat constructor.
    rewrite app_nil_r. apply part_of_refl.
  - destruct s as [|c t].
    { intros [= <-]. repeat constructor. rewrite app_nil_r. apply part_of_refl. }
    cbn [split_loop]. destruct (match_at (c :: t)) as [rest|] eqn:E.
    + destruct (split_loop fuel [] rest) as [ps'|] eqn:E'; [|discriminate].
      cbn. intros [= <-]. constructor.
      * exists [], (c :: t). reflexivity.
      * apply blank_match_at_suffix in E as (m & Hm & _). rewrite Hm.
        apply (IH _ _ _) in E'. cbn [app] in E'.
        eapply Forall_impl; [exact E'|]. intros p (a & b & ->).
        exists (cur ++ m ++ a), b. rewrite <- !app_assoc. reflexivity.
    + intros H. apply IH in H. rewrite <- app_assoc in H. exact H.
Qed.

(** Characters that are no newline go to the piece that is being read. *)
Lemma split_loop_visible (h : str) :
  avoids 10%N h = true ->
  forall (fuel : nat) (cur s : str),
    split_loop (length h + fuel) cur (h ++ s) = split_loop fuel (cur ++ h) s.
Proof.
  induction h as [|c h IH]; intros Hh fuel cur s.
  - rewrite app_nil_r. reflexivity.
  - rewrite avoids_cons in Hh. apply andb_true_iff in Hh as [Hc Hh].
    apply negb_true_iff in Hc. cbn [length Nat.add app split_loop].
    unfold match_at at 1. rewrite Hc. rewrite (IH Hh), <- app_assoc. reflexivity.
Qed.

Lemma split_loop_first (fuel : nat) :
  forall (cur s : str) (ps : list str),
    split_loop fuel cur s = Some ps -> exists x ps', ps = (cur ++ x) :: ps'.
Proof.
  induction fuel as [|fuel IH]; intros cur s ps.
  - destruct s; [|discriminate]. intros [= <-]. exists [], []. rewrite app_nil_r. reflexivity.
  - destruct s as [|c t].
    { intros [= <-]. exists [], []. rewrite app_nil_r. reflexivity. }
    cbn [split_loop]. destruct (match_at (c :: t)) as [rest|].
    + destruct (split_loop fuel [] rest) as [ps'|]; [|discriminate].
      cbn. intros [= <-]. exists [], ps'. rewrite app_nil_r. reflexivity.
    + intros H. apply IH in H as (x & ps' & ->). exists (c :: x), ps'.
      rewrite <- app_assoc. reflexivity.
Qed.
End SplitFacts.

Lemma strip_spaces (w : str) : forallb is_space w = true -> strip w = [].
Proof.
  intros H. unfold strip. rewrite <- (app_nil_r w), lstrip_app_spaces by exact H.
  reflexivity.
Qed.

(** What comes before a visible character stays when the end is
    stripped. *)
Lemma rstrip_keeps (p : str) (c : char) (s : str) :
  is_space c = false -> exists s', rstrip ((p ++ [c]) ++ s) = (p ++ [c]) ++ s'.
Proof.
  intros Hc. induction s as [|x s IH] using rev_ind.
  - exists []. rewrite !app_nil_r. apply rstrip_snoc_not_space, Hc.
  - destruct (is_space x) eqn:Ex.
    + destruct IH as [s' IH]. exists s'. rewrite app_assoc, rstrip_snoc_space by exact Ex.
      exact IH.
    + exists (s ++ [x]). rewrite app_assoc. apply rstrip_snoc_not_space, Ex.
Qed.

(** X7. [save_docx_text] ends on every text (of characters that
    python-docx takes).  The only exception that it raises is the
    [ValueError] of python-docx for a heading deeper than 9, and only on a
    text that has ten '#' in a row: on any other text it returns a
    document. *)
Theorem save_docx_text_outcome (text : str) :
  xml_text text = true ->
  exists r,
    Reconstruct.save_docx_text text = Some r
    /\ (forall e, r = Raise e ->
          e = ValueError /\ contains (repeat (ch "#") 10) text = true)
    /\ (contains (repeat (ch "#") 10) text = false -> exists d, r = Ok d).
Proof.
  intros _. unfold Reconstruct.save_docx_text.
  destruct (split_loop_total (length (strip text)) [] (strip text) (le_n _)) as [ps Hps].
  unfold BlankRe.split. rewrite Hps. cbn [mbind option_bind].
  destruct (blocks_loop_outcome ps []) as (r & Hr & He). rewrite Hr. cbn [mbind option_bind].
  assert (Hraise : forall e, r = Raise e ->
            e = ValueError /\ contains (repeat (ch "#") 10) text = true).
  { intros e Hre. destruct (He e Hre) as (-> & b & Hin & Hb). split; [reflexivity|].
    apply contains_spec. apply startswith_spec in Hb as [t Ht].
    apply split_loop_parts in Hps. rewrite Forall_forall in Hps.
    specialize (Hps b Hin). cbn [app] in Hps.
    assert (Hp : part_of (repeat (ch "#") 10) text).
    { apply (part_of_trans _ (strip b)); [exists [], t; exact Ht|].
      apply (part_of_trans _ b); [apply strip_part_of|].
      apply (part_of_trans _ (strip text)); [exact Hps | apply strip_part_of]. }
    exact Hp. }
  eexists. split; [reflexivity|]. split.
  - intros e Hre. destruct r as [paras|e0]; [discriminate|]. cbn in Hre.
    injection Hre as <-. apply Hraise. reflexivity.
  - intros Hno. destruct r as [paras|e0]; [eauto|].
    destruct (Hraise e0 eq_refl) as [_ Hc]. congruence.
Qed.

(** A text that starts with ten hashes is refused as a whole. *)
Lemma save_heading_too_deep (w : str) (k : nat) (t : str) :
  forallb is_space w = true -> (10 <= k)%nat ->
  Reconstruct.save_docx_text (w ++ repeat (ch "#") k ++ t) = Some (Raise ValueError).
Proof.
  intros Hw Hk.
  set (nine := repeat (ch "#") 9).
  assert (Hrep : repeat (ch "#") k = (nine ++ [ch "#"]) ++ repeat (ch "#") (k - 10)).
  { rewrite (repeat_split (ch "#") k 10) by lia. reflexivity. }
  assert (Hstrip : exists s', strip (w ++ repeat (ch "#") k ++ t)
                              = (nine ++ [ch "#"]) ++ s').
  { unfold strip. rewrite lstrip_app_spaces by exact Hw. rewrite Hrep, <- app_assoc.
    replace (lstrip ((nine ++ [ch "#"]) ++ repeat (ch "#") (k - 10) ++ t))
      with ((nine ++ [ch "#"]) ++ repeat (ch "#") (k - 10) ++ t) by reflexivity.
    apply rstrip_keeps. reflexivity. }
  destruct Hstrip as [s' Hstrip].
  unfold Reconstruct.save_docx_text. rewrite Hstrip. unfold BlankRe.split.
  destruct (split_loop_total (length ((nine ++ [ch "#"]) ++ s')) []
              ((nine ++ [ch "#"]) ++ s') (le_n _)) as [ps Hps].
  rewrite Hps. cbn [mbind option_bind].
  rewrite length_app in Hps. rewrite split_loop_visible in Hps by reflexivity.
  apply split_loop_first in Hps as (x & ps' & ->).
  cbn [Reconstruct.blocks_loop].
  destruct (rstrip_keeps nine (ch "#") x eq_refl) as [x' Hx].
  assert (Hb : strip (([] ++ nine ++ [ch "#"]) ++ x) = repeat (ch "#") 10 ++ x').
  { unfold strip. cbn [app].
    replace (lstrip ((nine ++ [ch "#"]) ++ x)) with ((nine ++ [ch "#"]) ++ x) by reflexivity.
    exact Hx. }
  rewrite Hb. rewrite (heading_too_deep 10 x' (le_n _)). reflexivity.
Qed.

Lemma save_docx_text_outcome_witness :
  exists r,
    Reconstruct.save_docx_text test_markup = Some r
    /\ (forall e, r = Raise e ->
          e = ValueError /\ contains (repeat (ch "#") 10) test_markup = true)
    /\ (contains (repeat (ch "#") 10) test_markup = false -> exists d, r = Ok d).
Proof. apply (save_docx_text_outcome test_markup). reflexivity. Defined.

(** X8. A text that starts (after white space) with ten '#' or more is
    refused: the block is a heading of a level that python-docx does not
    have, [_process_block_into_para] raises [ValueError] and so does
    [save_docx_text], which saves nothing. *)
Theorem heading_deeper_than_nine (w : str) (k : nat) (t : str) :
  forallb is_space w = true -> (10 <= k)%nat ->
  Reconstruct._process_block_into_para (repeat (ch "#") k ++ t) = Some (Raise ValueError)
  /\ Reconstruct.save_docx_text (w ++ repeat (ch "#") k ++ t) = Some (Raise ValueError).
Proof.
  intros Hw Hk. split; [apply heading_too_deep, Hk | apply save_heading_too_deep; assumption].
Qed.

Lemma heading_deeper_than_nine_witness :
  Reconstruct.save_docx_text (u " " ++ repeat (ch "#") 10 ++ u " Title")
  = Some (Raise ValueError).
Proof.
  exact (proj2 (heading_deeper_than_nine (u " ") 10 (u " Title") eq_refl (le_n _))).
Defined.

(** X9. A text with nothing but white space (the empty text too) gives a
    document with no paragraph. *)
Theorem save_docx_text_blank (text : str) :
  forallb is_space text = true ->
  Reconstruct.save_docx_text text
  = Some (Ok {| Docx.paragraphs := []; Docx.tables := [] |}).
Proof.
  intros H. unfold Reconstruct.save_docx_text. rewrite (strip_spaces text H). reflexivity.
Qed.

Lemma save_docx_text_blank_witness :
  Reconstruct.save_docx_text [32; 10; 10; 9]%N
  = Some (Ok {| Docx.paragraphs := []; Docx.tables := [] |}).
Proof. apply (save_docx_text_blank [32; 10; 10; 9]%N). reflexivity. Defined.

(** X10. The handler around [_hex_to_rgbcolor] in
    [_process_block_into_para] is never needed: the digits of every match
    of the colour-tag pattern convert, to a colour with components in
    0..255 whose hexadecimal form is the digits in upper case. *)
Theorem colour_match_converts (fuel : nat) (block : str)
    (ms : list ColorRe.cmatch) (tail : str) :
  ColorRe.finditer fuel block = Some (ms, tail) ->
  Forall (fun m => exists c, HexColor._hex_to_rgbcolor (ColorRe.hex m) = Ok c
                             /\ Reconstruct.rgb_or_none (ColorRe.hex m) = Some c
                             /\ rgb_ok c = true
                             /\ Docx.rgb_str c = upper (ColorRe.hex m)) ms.
Proof.
  intros H. apply finditer_hex in H. eapply Forall_impl; [exact H|].
  intros m Hv. cbv beta in Hv.
  destruct (hex_digits_convert [] [] (ColorRe.hex m) eq_refl eq_refl Hv) as (c & Hc & Hok & Hs).
  rewrite app_nil_r in Hc. cbn [app] in Hc.
  exists c. split_and!; try assumption. unfold Reconstruct.rgb_or_none. rewrite Hc. reflexivity.
Qed.

Lemma colour_match_converts_witness :
  Forall (fun m => exists c, HexColor._hex_to_rgbcolor (ColorRe.hex m) = Ok c
                             /\ Reconstruct.rgb_or_none (ColorRe.hex m) = Some c
                             /\ rgb_ok c = true
                             /\ Docx.rgb_str c = upper (ColorRe.hex m))
         [ColorRe.Build_cmatch (u "x") (u "ff00aa") (u "A")].
Proof.
  apply (colour_match_converts 9 (u "x<#ff00aa>A</#ff00aa>y") _ (u "y")).
  vm_compute. reflexivity.
Defined.

(** *** Line breaks and plain text in the HTML *)

Section ReplaceAvoids.
Variable n : nat.
Variable pat : str -> option str.

(** A replacement that never writes [c] brings no [c] into a text. *)
Lemma replace_loop_avoids (c : char) :
  (forall tok r, pat tok = Some r -> avoids c r = true) ->
  forall (s : str) (k : nat),
    avoids c s = true -> avoids c (Html.replace_loop n pat k s) = true.
Proof.
  intros Hpat. induction s as [|x s IH]; intros k Hs; [reflexivity|].
  rewrite avoids_cons in Hs. apply andb_true_iff in Hs as [Hx Hs].
  cbn [Html.replace_loop]. destruct k as [|k]; [|apply IH, Hs].
  destruct (if (length (take n (x :: s)) =? n)%nat then pat (take n (x :: s)) else None)
    as [r|] eqn:E.
  - rewrite avoids_app, (IH _ Hs), andb_true_r.
    destruct (length (take n (x :: s)) =? n)%nat; [|discriminate]. exact (Hpat _ _ E).
  - rewrite avoids_cons, Hx, (IH _ Hs). reflexivity.
Qed.

(** The head of the text after the replacement: its own, or the head of
    what replaces its first token. *)
Lemma replace_all_head (c : char) (s : str) :
  (forall tok r, pat tok = Some r -> head r <> Some c /\ r <> []) ->
  head s <> Some c -> head (Html.replace_all n pat s) <> Some c.
Proof.
  intros Hpat Hs. destruct s as [|x s]; [exact Hs|].
  unfold Html.replace_all. cbn [Html.replace_loop].
  destruct (if (length (take n (x :: s)) =? n)%nat then pat (take n (x :: s)) else None)
    as [r|] eqn:E; [|exact Hs].
  destruct (length (take n (x :: s)) =? n)%nat; [|discriminate].
  destruct (Hpat _ _ E) as [Hh Hne]. destruct r; [congruence | exact Hh].
Qed.
End ReplaceAvoids.

Definition newline : char := 10%N.

Lemma span_avoids_newline (h : str) :
  forallb ColorRe.is_hex h = true -> avoids newline (Html.span h) = true.
Proof.
  intros Hh. rewrite span_cons, avoids_cons.
  rewrite span_tail_avoids; [reflexivity | reflexivity | reflexivity | exact Hh].
Qed.

Lemma open_pat_writes (tok r : str) :
  Html.open_pat tok = Some r ->
  avoids newline r = true /\ head r <> Some newline /\ r <> [].
Proof.
  intros H. apply open_pat_inv in H as (h & _ & Hh & ->).
  split; [apply span_avoids_newline, Hh|]. split; discriminate.
Qed.

Lemma close_pat_writes (tok r : str) :
  Html.close_pat tok = Some r ->
  avoids newline r = true /\ head r <> Some newline /\ r <> [].
Proof.
  intros H. apply close_pat_inv in H as (h & _ & _ & ->).
  split; [reflexivity|]. split; discriminate.
Qed.

Lemma open_pat_newline_barrier : barrier Html.open_pat newline.
Proof.
  intros tok r H. apply open_pat_inv in H as (h & -> & Hh & _).
  apply avoids_elem. change (drop 1 (u "<#" ++ h ++ u ">")) with (ch "#" :: h ++ u ">").
  rewrite !avoids_cons, avoids_app, (hex_avoids newline h eq_refl Hh). reflexivity.
Qed.

Lemma close_pat_newline_barrier : barrier Html.close_pat newline.
Proof.
  intros tok r H. apply close_pat_inv in H as (h & -> & Hh & _).
  apply avoids_elem.
  change (drop 1 (u "</#" ++ h ++ u ">")) with (ch "/" :: ch "#" :: h ++ u ">").
  rewrite !avoids_cons, avoids_app, (hex_avoids newline h eq_refl Hh). reflexivity.
Qed.

(** The colour passes: the tags of a text before a newline and after it
    are replaced apart. *)
Definition P_tags (s : str) : str := P_close (P_open s).

Lemma P_tags_newline (a b : str) :
  P_tags (a ++ newline :: b) = P_tags a ++ newline :: P_tags b.
Proof.
  unfold P_tags, P_open, P_close.
  rewrite (replace_barrier 9 Html.open_pat ltac:(lia) newline a b open_pat_newline_barrier).
  rewrite (replace_not_head 9 Html.open_pat ltac:(lia) newline b)
    by (apply open_pat_head; discriminate).
  rewrite (replace_barrier 10 Html.close_pat ltac:(lia) newline _ _ close_pat_newline_barrier).
  rewrite (replace_not_head 10 Html.close_pat ltac:(lia) newline)
    by (apply close_pat_head; discriminate).
  reflexivity.
Qed.

Lemma P_tags_avoids (a : str) : avoids newline a = true -> avoids newline (P_tags a) = true.
Proof.
  intros Ha. unfold P_tags, P_close, P_open, Html.replace_all.
  apply replace_loop_avoids; [intros tok r H; apply (close_pat_writes tok r H)|].
  apply replace_loop_avoids; [intros tok r H; apply (open_pat_writes tok r H)|].
  exact Ha.
Qed.

Lemma P_tags_head (b : str) :
  head b <> Some newline -> head (P_tags b) <> Some newline.
Proof.
  intros Hb. unfold P_tags, P_close, P_open.
  apply replace_all_head; [intros tok r H; apply (close_pat_writes tok r H)|].
  apply replace_all_head; [intros tok r H; apply (open_pat_writes tok r H)|].
  exact Hb.
Qed.

Lemma no_newline_inert (old new w : str) :
  head old = Some newline -> avoids newline w = true ->
  Forall (not_head (Html.literal old new)) w.
Proof.
  intros Hold Hw. apply (avoids_Forall _ newline); [|exact Hw].
  intros x Hx. apply (literal_head _ _ newline); assumption.
Qed.

(** A text without a newline goes through the two newline passes as it
    is. *)
Lemma P_para_inert (w s : str) :
  avoids newline w = true -> P_para (w ++ s) = w ++ P_para s.
Proof.
  intros Hw. apply replace_inert; [lia|]. apply no_newline_inert; [reflexivity | exact Hw].
Qed.

Lemma P_br_inert (w s : str) :
  avoids newline w = true -> P_br (w ++ s) = w ++ P_br s.
Proof.
  intros Hw. apply replace_inert; [lia|]. apply no_newline_inert; [reflexivity | exact Hw].
Qed.

Lemma body_no_newline (a : str) : avoids newline a = true -> Html.body a = P_tags a.
Proof.
  intros Ha. rewrite body_passes. fold (P_tags a).
  pose proof (P_tags_avoids a Ha) as H.
  rewrite <- (app_nil_r (P_tags a)). rewrite P_para_inert by exact H.
  rewrite P_br_inert by exact H. reflexivity.
Qed.

Lemma body_paragraph_break (a b : str) :
  avoids newline a = true ->
  Html.body (a ++ [newline; newline] ++ b) = Html.body a ++ u "</p><p>" ++ Html.body b.
Proof.
  intros Ha. rewrite (body_no_newline a Ha). rewrite !body_passes.
  fold (P_tags (a ++ [newline; newline] ++ b)). fold (P_tags b).
  cbn [app]. rewrite (P_tags_newline a).
  change (P_tags (newline :: b)) with (P_tags ([] ++ newline :: b)).
  rewrite (P_tags_newline [] b).
  change (P_tags [] ++ newline :: P_tags b) with (newline :: P_tags b).
  pose proof (P_tags_avoids a Ha) as H.
  rewrite P_para_inert by exact H.
  change (newline :: newline :: P_tags b) with ([newline; newline] ++ P_tags b).
  unfold P_para at 1.
  rewrite (replace_token 2 _ ltac:(lia) [newline; newline] (u "</p><p>"))
    by reflexivity.
  fold P_para. rewrite P_br_inert by exact H.
  rewrite (P_br_inert (u "</p><p>")) by reflexivity. reflexivity.
Qed.

Lemma body_line_break (a b : str) :
  avoids newline a = true -> head b <> Some newline ->
  Html.body (a ++ [newline] ++ b) = Html.body a ++ u "<br>" ++ Html.body b.
Proof.
  intros Ha Hb. rewrite (body_no_newline a Ha). rewrite !body_passes.
  fold (P_tags (a ++ [newline] ++ b)). fold (P_tags b).
  cbn [app]. rewrite P_tags_newline.
  pose proof (P_tags_avoids a Ha) as H. pose proof (P_tags_head b Hb) as Hh.
  rewrite P_para_inert by exact H.
  assert (Hone : P_para (newline :: P_tags b) = newline :: P_para (P_tags b)).
  { apply replace_no_match. destruct (P_tags b) as [|x t]; [reflexivity|].
    change (take 2 (newline :: x :: t)) with [newline; x]. unfold Html.literal.
    destruct (str_eqb [newline; x] [10%N; 10%N]) eqn:E; [|reflexivity].
    apply bool_decide_eq_true in E. injection E as ->. exfalso. apply Hh. reflexivity. }
  rewrite Hone. rewrite P_br_inert by exact H.
  change (newline :: P_para (P_tags b)) with ([newline] ++ P_para (P_tags b)).
  unfold P_br at 1.
  rewrite (replace_token 1 _ ltac:(lia) [newline] (u "<br>")) by reflexivity.
  reflexivity.
Qed.

Lemma P_br_avoids (s : str) : avoids newline (P_br s) = true.
Proof.
  induction s as [|c s IH]; [reflexivity|].
  destruct (N.eqb_spec c newline) as [->|Hc].
  - change (newline :: s) with ([newline] ++ s). unfold P_br.
    rewrite (replace_token 1 _ ltac:(lia) [newline] (u "<br>")) by reflexivity.
    fold P_br. rewrite avoids_app, IH. reflexivity.
  - unfold P_br. rewrite replace_no_match.
    + fold P_br. rewrite avoids_cons, IH, andb_true_r.
      apply negb_true_iff, N.eqb_neq, Hc.
    + change (take 1 (c :: s)) with [c]. unfold Html.literal.
      destruct (str_eqb [c] [10%N]) eqn:E; [|reflexivity].
      apply bool_decide_eq_true in E. injection E as ->. contradiction.
Qed.

(** X11. The text that [convert_custom_text_to_html] puts between
    [<body><p>] and [</p></body>] never holds a newline: every newline of
    the input is written as a paragraph break or as [<br>]. *)
Theorem html_body_has_no_newline (text : str) :
  avoids 10%N (Html.body text) = true
  /\ Html.convert_custom_text_to_html text = Html.header ++ Html.body text ++ Html.footer.
Proof. split; [rewrite body_passes; apply P_br_avoids | reflexivity]. Qed.

(** X12. Nothing is escaped: a text with no '<' and no newline is copied
    into the HTML as it is. *)
Theorem html_plain_text_verbatim (text : str) :
  avoids (ch "<") text = true -> avoids 10%N text = true ->
  Html.convert_custom_text_to_html text = Html.header ++ text ++ Html.footer.
Proof.
  intros Hlt Hnl. unfold Html.convert_custom_text_to_html. do 2 f_equal.
  rewrite (body_no_newline text Hnl). unfold P_tags, P_open, P_close.
  rewrite <- (app_nil_r text).
  rewrite (replace_inert 9 Html.open_pat ltac:(lia) text [])
    by (apply (avoids_Forall _ lt_sign); [apply open_pat_head | exact Hlt]).
  cbn [Html.replace_all Html.replace_loop]. rewrite !app_nil_r.
  rewrite <- (app_nil_r text) at 1.
  rewrite (replace_inert 10 Html.close_pat ltac:(lia) text [])
    by (apply (avoids_Forall _ lt_sign); [apply close_pat_head | exact Hlt]).
  cbn [Html.replace_all Html.replace_loop]. rewrite !app_nil_r. reflexivity.
Qed.

Lemma html_plain_text_verbatim_witness :
  Html.convert_custom_text_to_html (u "R&D > 1")
  = Html.header ++ u "R&D > 1" ++ Html.footer.
Proof. apply (html_plain_text_verbatim (u "R&D > 1")); reflexivity. Defined.

Lemma body_join (ps : list str) :
  Forall (fun p => avoids 10%N p = true) ps ->
  Html.body (join [10; 10]%N ps) = join (u "</p><p>") (List.map Html.body ps).
Proof.
  induction 1 as [|p ps Hp Hps IH]; [reflexivity|].
  destruct ps as [|q ps]; [reflexivity|].
  change (join [10; 10]%N (p :: q :: ps)) with (p ++ [10; 10]%N ++ join [10; 10]%N (q :: ps)).
  rewrite (body_paragraph_break p _ Hp), IH. reflexivity.
Qed.

(** X13. Blank lines and line ends in the HTML: two newlines after a
    text without a newline become a paragraph break [</p><p>] and one
    newline (not followed by another) a [<br>], the texts on both sides
    rendered as they would be alone; so paragraphs joined by blank lines,
    as the extractors write them, become HTML paragraphs. *)
Theorem html_line_breaks :
  (forall a b : str, avoids 10%N a = true ->
     Html.body (a ++ [10; 10]%N ++ b) = Html.body a ++ u "</p><p>" ++ Html.body b)
  /\ (forall a b : str, avoids 10%N a = true -> head b <> Some 10%N ->
        Html.body (a ++ [10%N] ++ b) = Html.body a ++ u "<br>" ++ Html.body b)
  /\ (forall ps : list str, Forall (fun p => avoids 10%N p = true) ps ->
        Html.body (join [10; 10]%N ps) = join (u "</p><p>") (List.map Html.body ps)).
Proof.
  split; [exact body_paragraph_break|]. split; [exact body_line_break|].
  exact body_join.
Qed.

Lemma html_line_breaks_witness :
  Html.body (join [10; 10]%N [u "<#FF0000>a</#FF0000>"; u "b"])
  = join (u "</p><p>") (List.map Html.body [u "<#FF0000>a</#FF0000>"; u "b"]).
Proof.
  destruct html_line_breaks as (_ & _ & H). apply H.
  repeat constructor.
Defined.

(** *** The chunked calls in any environment *)

(** [fields.get(key)] on the fields of an object *)
Fixpoint dict_get (fields : list (str * json)) (key : str) : option json :=
  match fields with
  | [] => None
  | (k, v) :: rest => if str_eqb k key then Some v else dict_get rest key
  end.

Lemma dict_get_set (fields : list (str * json)) (key : str) (value : json) :
  dict_get (Agent.dict_set fields key value) key = Some value.
Proof.
  induction fields as [|[k v] rest IH]; cbn.
  - unfold str_eqb. rewrite bool_decide_eq_true_2 by reflexivity. reflexivity.
  - destruct (str_eqb k key) eqn:E; cbn; rewrite E; [reflexivity | exact IH].
Qed.

Definition is_object (j : json) : bool :=
  match j with JObj _ => true | _ => false end.

Section FirstChunk.
Context {A : Type}.

(** The first chunk of a text that is not empty. *)
Lemma chunk_text_head (T : list A) (S : Z) :
  0 < S -> T <> [] ->
  exists rest, Chunker.chunk_text T S (length T) = Some (py_slice T 0 S :: rest).
Proof.
  intros HS HT.
  destruct (chunk_while_slices T S HS (length T) 0 []) as (cs & Hrun & Hall);
    [lia | unfold len; lia | unfold len; lia |].
  destruct (chunk_while_spec T S HS (length T) 0 []) as (cs' & Hrun' & Hcat & _);
    [lia | unfold len; lia | unfold len; lia |].
  rewrite Hrun in Hrun'. injection Hrun' as <-.
  change (drop (Z.to_nat 0) T) with T in Hcat.
  destruct cs as [|c cs]; [cbn in Hcat; congruence|].
  specialize (Hall 0%nat c eq_refl). cbn in Hall. exists cs.
  unfold Chunker.chunk_text. rewrite Hrun, Hall. reflexivity.
Qed.

(** A text that fits in one chunk is its only chunk. *)
Lemma chunk_text_single (T : list A) (S : Z) :
  T <> [] -> len T <= S -> Chunker.chunk_text T S (length T) = Some [T].
Proof.
  intros HT HS. assert (0 < S).
  { destruct T; [congruence|]. rewrite len_cons in HS. pose proof (len_nonneg T). lia. }
  destruct (chunk_while_spec T S ltac:(lia) (length T) 0 []) as (cs & Hrun & Hcat & Hall & Hcnt);
    [lia | unfold len; lia | unfold len; lia |].
  unfold Chunker.chunk_text. rewrite Hrun. cbn [app]. f_equal.
  change (drop (Z.to_nat 0) T) with T in Hcat.
  rewrite Z.sub_0_r, ceil_div_small in Hcnt; [| |lia].
  - destruct cs as [|c [|c' cs]]; try (unfold len in Hcnt; simpl in Hcnt; lia).
    cbn in Hcat. rewrite app_nil_r in Hcat. subst c. reflexivity.
  - destruct T; [congruence|]. rewrite len_cons. pose proof (len_nonneg T). lia.
Qed.
End FirstChunk.

Section ChunkedCalls.
Context {env nlp_info : Type}.
Variable api : env -> request -> env * result content.
Variable write_file : env -> gmap str content -> env * result unit.
Variable sha256_hex : str -> str.
Variable dumps_key : request -> str.
Variable json_dumps : json -> str.
Variable json_loads : str -> option json.
Variable exn_message : exn -> str.
Variable nlp_summary : str -> nlp_info.
Variable analysis_prompt : nlp_info -> str -> str.
Variable correction_prompt : str -> str.
Variable self_model : str.

Abbreviation state := (Agent.state env).
Abbreviation call := (Agent._call_openai_chat env api write_file sha256_hex dumps_key).
Abbreviation analysis_out :=
  (Agent.analysis_out env api write_file sha256_hex dumps_key json_dumps
     exn_message nlp_info analysis_prompt self_model).
Abbreviation analysis_request :=
  (Agent.analysis_request nlp_info analysis_prompt self_model).
Abbreviation analyze_loop :=
  (Agent.analyze_loop env api write_file sha256_hex dumps_key json_dumps json_loads
     exn_message nlp_info analysis_prompt self_model).
Abbreviation analyze :=
  (Agent.analyze env api write_file sha256_hex dumps_key json_dumps json_loads
     exn_message nlp_info nlp_summary analysis_prompt self_model).
Abbreviation corrected_chunk :=
  (Agent.corrected_chunk env api write_file sha256_hex dumps_key
     correction_prompt self_model).
Abbreviation correction_request := (Agent.correction_request correction_prompt self_model).
Abbreviation correct_loop :=
  (Agent.correct_loop env api write_file sha256_hex dumps_key correction_prompt self_model).
Abbreviation correct_whole :=
  (Agent.correct_whole env api write_file sha256_hex dumps_key correction_prompt self_model).
Abbreviation parse_out := (Agent.parse_out json_loads).

Definition analysis_key (chunk : str) : str := sha256_hex (chunk ++ u "_analysis").
Definition correction_key (chunk : str) : str := sha256_hex (chunk ++ u "_correction").

(** A chunk of [analyze] always has an output, and costs one request at
    most. *)
Lemma analysis_out_effect (info : nlp_info) (chunk : str) (s : state) :
  exists s' out,
    analysis_out info chunk s = Some (s', Ok out)
    /\ (Agent.api_log env s' = Agent.api_log env s
        \/ Agent.api_log env s' = Agent.api_log env s ++ [analysis_request info chunk]).
Proof.
  unfold Agent.analysis_out.
  destruct (Agent.CACHE env s !! _) as [out|]; [eauto|].
  unfold Agent.try_except, Agent.mbind' at 1.
  destruct (call (analysis_request info chunk) s) as [[s1 res]|] eqn:Ec.
  - apply call_effect in Ec as (_ & _ & Hlog).
    assert (Hlog' : Agent.api_log env s1 = Agent.api_log env s
                    \/ Agent.api_log env s1
                       = Agent.api_log env s ++ [analysis_request info chunk]).
    { destruct Hlog as [?|[_ ?]]; auto. }
    destruct res as [out|e]; [|unfold Agent.ret; eauto].
    unfold Agent.mbind', Agent.cache_store, Agent.save_cache, Agent.ret.
    cbn [Agent.world Agent.CACHE Agent.api_log].
    destruct (write_file _ _) as [w [[]|e]]; eauto.
  - destruct (call_total api write_file sha256_hex dumps_key
                (analysis_request info chunk) s) as [x Hx].
    rewrite Hx in Ec. discriminate.
Qed.

Lemma set_chunk_index_object (j : json) (idx : Z) :
  match Agent.set_chunk_index j idx with
  | Ok j' => exists fields, j' = JObj fields
                            /\ dict_get fields (u "_chunk_index") = Some (JInt idx)
  | Raise e => e = TypeError /\ is_object j = false
  end.
Proof.
  destruct j; cbn; try (split; reflexivity).
  eexists. split; [reflexivity | apply dict_get_set].
Qed.

(** The loop of [analyze]: it ends; it raises nothing but the [TypeError]
    of an output that is no object; otherwise every chunk has its report,
    an object with its index. *)
Lemma analyze_loop_spec (info : nlp_info) (chunks : list str) :
  forall (idx : Z) (reports : list json) (s : state),
    exists s' r,
      analyze_loop info idx chunks reports s = Some (s', r)
      /\ (exists sent, Agent.api_log env s' = Agent.api_log env s ++ sent
                       /\ (length sent <= length chunks)%nat)
      /\ match r with
         | Ok out =>
             exists new, out = reports ++ new /\ length new = length chunks
               /\ forall (i : nat) (j : json), new !! i = Some j ->
                    exists fields, j = JObj fields
                      /\ dict_get fields (u "_chunk_index") = Some (JInt (idx + Z.of_nat i))
         | Raise e => e = TypeError
         end.
Proof.
  induction chunks as [|chunk rest IH]; intros idx reports s.
  - exists s, (Ok reports). split; [reflexivity|]. split.
    + exists []. rewrite app_nil_r. split; [reflexivity | simpl; lia].
    + exists []. rewrite app_nil_r. split; [reflexivity|]. split; [reflexivity|].
      intros i j Hi. rewrite lookup_nil in Hi. discriminate.
  - cbn [Agent.analyze_loop]. unfold Agent.mbind' at 1.
    destruct (analysis_out_effect info chunk s) as (s1 & out & -> & Hlog1).
    unfold Agent.mbind' at 1, Agent.lift.
    pose proof (set_chunk_index_object (parse_out out) idx) as Hset.
    destruct (Agent.set_chunk_index (parse_out out) idx) as [parsed|e].
    + destruct (IH (idx + 1) (reports ++ [parsed]) s1) as (s2 & r & -> & Hlog2 & Hr).
      exists s2, r. split; [reflexivity|]. split.
      * destruct Hlog2 as (sent & Hs & Hl). destruct Hlog1 as [E|E]; rewrite E in Hs.
        -- exists sent. split; [exact Hs | simpl; lia].
        -- exists (analysis_request info chunk :: sent). rewrite Hs, <- app_assoc.
           split; [reflexivity | simpl; lia].
      * destruct r as [out'|e]; [|exact Hr].
        destruct Hr as (new & -> & Hlen & Hall). exists (parsed :: new).
        rewrite <- app_assoc. split; [reflexivity|]. split; [simpl; lia|].
        intros [|i] j Hi.
        -- injection Hi as <-. rewrite Z.add_0_r. exact Hset.
        -- rewrite lookup_cons in Hi. destruct (Hall i j Hi) as (fields & -> & Hf).
           exists fields. split; [reflexivity|]. rewrite Hf. do 2 f_equal. lia.
    + exists s1, (Raise e). split; [reflexivity|]. split; [|apply Hset].
      destruct Hlog1 as [E|E]; rewrite E.
      * exists []. rewrite app_nil_r. split; [reflexivity | simpl; lia].
      * eexists. split; [reflexivity | simpl; lia].
Qed.

Lemma chunks_of_spec (text : str) (s : state) :
  exists chunks,
    Chunker.chunk_text text CHUNK_SIZE (length text) = Some chunks
    /\ Agent.chunks_of env text s = Some (s, Ok chunks)
    /\ len chunks = ceil_div (len text) CHUNK_SIZE
    /\ Forall (fun c => 0 < len c <= CHUNK_SIZE) chunks.
Proof.
  destruct (chunk_while_spec text CHUNK_SIZE ltac:(reflexivity) (length text) 0 [])
    as (cs & Hrun & _ & Hall & Hcnt); [lia | unfold len; lia | unfold len; lia |].
  exists cs. unfold Agent.chunks_of, Chunker.chunk_text. rewrite Hrun.
  rewrite Z.sub_0_r in Hcnt. auto.
Qed.

(** A first chunk whose output is JSON but no object. *)
Lemma analyze_not_object (text : str) (s s1 : state) (out : content) :
  text <> [] ->
  analysis_out (nlp_summary text) (py_slice text 0 CHUNK_SIZE) s = Some (s1, Ok out) ->
  is_object (parse_out out) = false ->
  analyze text s = Some (s1, Raise TypeError).
Proof.
  intros Ht Hout Hobj. unfold Agent.analyze, Agent.mbind' at 1, Agent.chunks_of.
  destruct (chunk_text_head text CHUNK_SIZE ltac:(reflexivity) Ht) as [rest ->].
  unfold Agent.mbind' at 1. cbn [Agent.analyze_loop]. unfold Agent.mbind' at 1.
  rewrite Hout. unfold Agent.mbind' at 1, Agent.lift.
  destruct (parse_out out); try discriminate Hobj; reflexivity.
Qed.

(** A chunk of [correct_whole] that is in the cache. *)
Lemma corrected_chunk_hit (chunk : str) (s : state) (v : content) :
  Agent.CACHE env s !! correction_key chunk = Some v ->
  corrected_chunk chunk s = Some (s, Ok v).
Proof.
  intros H. unfold Agent.corrected_chunk, Agent._hash_text.
  unfold correction_key in H. rewrite H. reflexivity.
Qed.

Lemma analysis_out_hit (info : nlp_info) (chunk : str) (s : state) (v : content) :
  Agent.CACHE env s !! analysis_key chunk = Some v ->
  analysis_out info chunk s = Some (s, Ok v).
Proof.
  intros H. unfold Agent.analysis_out, Agent._hash_text.
  unfold analysis_key in H. rewrite H. reflexivity.
Qed.

Lemma correct_loop_cached (chunks : list str) (s : state) :
  Forall (fun c => exists v, Agent.CACHE env s !! correction_key c = Some (Some v)) chunks ->
  forall done : list str,
    exists parts,
      correct_loop chunks done s = Some (s, Ok (done ++ parts))
      /\ Forall2 (fun c p => exists v, Agent.CACHE env s !! correction_key c = Some (Some v)
                                       /\ p = strip v) chunks parts.
Proof.
  induction 1 as [|c chunks (v & Hv) _ IH]; intros done.
  - exists []. rewrite app_nil_r. split; [reflexivity | constructor].
  - cbn [Agent.correct_loop]. unfold Agent.mbind' at 1.
    rewrite (corrected_chunk_hit c s _ Hv). unfold Agent.mbind' at 1, Agent.lift.
    cbn [Agent.content_strip].
    destruct (IH (done ++ [strip v])) as (parts & -> & Hparts).
    exists (strip v :: parts). rewrite <- app_assoc. split; [reflexivity|].
    constructor; [eauto | exact Hparts].
Qed.

Lemma analyze_loop_cached (info : nlp_info) (chunks : list str) (s : state) :
  Forall (fun c => is_Some (Agent.CACHE env s !! analysis_key c)) chunks ->
  forall (idx : Z) (reports : list json),
    exists r, analyze_loop info idx chunks reports s = Some (s, r).
Proof.
  induction 1 as [|c chunks [v Hv] _ IH]; intros idx reports.
  - eexists. reflexivity.
  - cbn [Agent.analyze_loop]. unfold Agent.mbind' at 1.
    rewrite (analysis_out_hit info c s v Hv). unfold Agent.mbind' at 1, Agent.lift.
    destruct (Agent.set_chunk_index (parse_out v) idx) as [parsed|e]; [|eauto].
    apply IH.
Qed.

(** The content [None] of an answer, found in the cache. *)
Lemma correct_whole_none_cached (text : str) (s2 : state) :
  text <> [] -> len text <= CHUNK_SIZE ->
  Agent.CACHE env s2 !! correction_key text = Some None ->
  correct_whole text s2 = Some (s2, Raise AttributeError).
Proof.
  intros Ht Hlen H2. unfold Agent.correct_whole, Agent.mbind' at 1, Agent.chunks_of.
  rewrite (chunk_text_single text CHUNK_SIZE Ht Hlen).
  unfold Agent.mbind' at 1. cbn [Agent.correct_loop]. unfold Agent.mbind' at 1.
  rewrite (corrected_chunk_hit text s2 None H2). reflexivity.
Qed.

(** The content [None] of an answer, stored. *)
Lemma correct_whole_none (text : str) (s : state) (w1 : env) :
  text <> [] -> len text <= CHUNK_SIZE ->
  Agent.CACHE env s !! correction_key text = None ->
  Agent.CACHE env s !! fingerprint sha256_hex dumps_key (correction_request text) = None ->
  api (Agent.world env s) (correction_request text) = (w1, Ok None) ->
  (forall w c, snd (write_file w c) = Ok tt) ->
  exists s1,
    correct_whole text s = Some (s1, Raise AttributeError)
    /\ Agent.api_log env s1 = Agent.api_log env s ++ [correction_request text]
    /\ Agent.CACHE env s1 !! correction_key text = Some None.
Proof.
  intros Ht Hlen Hk Hfp Hapi Hdisk.
  unfold Agent.correct_whole, Agent.mbind' at 1, Agent.chunks_of.
  rewrite (chunk_text_single text CHUNK_SIZE Ht Hlen).
  unfold Agent.mbind' at 1. cbn [Agent.correct_loop]. unfold Agent.mbind' at 1.
  unfold Agent.corrected_chunk, Agent._hash_text. fold (correction_key text). rewrite Hk.
  unfold Agent.mbind' at 1.
  pose proof (call_miss api write_file sha256_hex dumps_key (correction_request text) s Hfp)
    as Hc.
  rewrite Hapi in Hc. cbv zeta in Hc.
  pose proof (Hdisk w1 (<[fingerprint sha256_hex dumps_key (correction_request text) := None]>
                          (Agent.CACHE env s))) as Hd1.
  destruct (write_file w1 _) as [w2 r2] eqn:Ew1. cbn [snd] in Hd1. subst r2.
  rewrite Hc. unfold Agent.mbind', Agent.cache_store, Agent.save_cache, Agent.ret, Agent.lift.
  cbn [Agent.world Agent.CACHE Agent.api_log].
  pose proof (Hdisk w2 (<[correction_key text := None]>
                          (<[fingerprint sha256_hex dumps_key (correction_request text) := None]>
                             (Agent.CACHE env s)))) as Hd2.
  destruct (write_file w2 _) as [w3 r3] eqn:Ew2. cbn [snd] in Hd2. subst r3.
  cbn [Agent.content_strip].
  eexists. split; [reflexivity|]. cbn [Agent.api_log Agent.CACHE].
  split; [reflexivity | apply lookup_insert_eq].
Qed.
End ChunkedCalls.


Section SecondRun.
Context {env : Type}.
Variable api : env -> request -> env * result content.
Variable write_file : env -> gmap str content -> env * result unit.
Variable sha256_hex : str -> str.
Variable dumps_key : request -> str.
Variable correction_prompt : str -> str.
Variable self_model : str.

Abbreviation ckey := (correction_key sha256_hex).
Abbreviation cchunk :=
  (Agent.corrected_chunk env api write_file sha256_hex dumps_key
     correction_prompt self_model).
Abbreviation cloop :=
  (Agent.correct_loop env api write_file sha256_hex dumps_key correction_prompt self_model).

(** A chunk that gives a result leaves it under its key, and keeps what
    the keys of the chunks hold: an entry of the cache is never written a
    second time. *)
Lemma corrected_chunk_stores (chunk : str) (s s1 : Agent.state env) (v : content) :
  cchunk chunk s = Some (s1, Ok v) ->
  Agent.CACHE env s1 !! ckey chunk = Some v
  /\ forall k x, Agent.CACHE env s !! k = Some x ->
                 Agent.CACHE env s1 !! k = Some x.
Proof.
  unfold Agent.corrected_chunk, Agent._hash_text. fold (ckey chunk).
  destruct (Agent.CACHE env s !! ckey chunk) as [v0|] eqn:Ek.
  - intros [= <- <-]. auto.
  - unfold Agent.mbind' at 1.
    destruct (Agent._call_openai_chat env api write_file sha256_hex dumps_key
                (Agent.correction_request correction_prompt self_model chunk) s)
      as [[sa [a|e]]|] eqn:Ec; try discriminate.
    apply call_effect in Ec as (Hkeep & _ & _).
    unfold Agent.mbind', Agent.cache_store, Agent.save_cache, Agent.ret.
    cbn [Agent.world Agent.CACHE Agent.api_log].
    destruct (write_file _ _) as [w [[]|e]]; [|discriminate].
    intros [= <- <-]. cbn [Agent.CACHE]. split; [apply lookup_insert_eq|].
    intros k x Hk. rewrite lookup_insert_ne; [exact (Hkeep _ _ Hk)|].
    intros E. rewrite <- E in Hk. congruence.
Qed.

Lemma correct_loop_stores (chunks : list str) :
  forall (done : list str) (s s' : Agent.state env) (parts : list str),
    cloop chunks done s = Some (s', Ok parts) ->
    (forall k x, Agent.CACHE env s !! k = Some x ->
                 Agent.CACHE env s' !! k = Some x)
    /\ exists new, parts = done ++ new
         /\ Forall2 (fun c p => exists v, Agent.CACHE env s' !! ckey c = Some (Some v)
                                          /\ p = strip v) chunks new.
Proof.
  induction chunks as [|chunk rest IH]; intros done s s' parts.
  - intros [= <- <-]. split; [auto|]. exists []. rewrite app_nil_r.
    split; [reflexivity | constructor].
  - cbn [Agent.correct_loop]. unfold Agent.mbind' at 1.
    destruct (cchunk chunk s) as [[s1 [v|e]]|] eqn:Ec; try discriminate.
    apply corrected_chunk_stores in Ec as [Hv Hkeep1].
    unfold Agent.mbind' at 1, Agent.lift.
    destruct v as [t|]; cbn [Agent.content_strip]; [|discriminate].
    intros Hrest. apply IH in Hrest as (Hkeep2 & new & -> & Hnew).
    split; [auto|]. exists (strip t :: new). rewrite <- app_assoc.
    split; [reflexivity|]. constructor; [|exact Hnew].
    exists t. split; [apply Hkeep2, Hv | reflexivity].
Qed.
End SecondRun.

(** An environment in which the client answers with no content. *)
Definition silent_api (n : nat) (q : request) : nat * result content := (S n, Ok None).

(** An environment in which the client answers with a JSON list. *)
Definition list_api (n : nat) (q : request) : nat * result content :=
  (S n, Ok (Some (u "[]"))).

Definition loads_list (s : str) : option json := Some (JArr []).

Definition hi : str := u "hi".

Definition cached_state : Agent.state nat :=
  {| Agent.CACHE := <[u "hi_correction" := Some (u " Hi. ")]> ∅;
     Agent.world := 0%nat; Agent.api_log := [] |}.

(** X15. [analyze] does not catch everything: when the output of a chunk
    (here the first) is JSON that is no object, a list for one, the
    assignment of "_chunk_index" raises [TypeError] and [analyze] raises
    it, with no report for any chunk. *)
Theorem analyze_output_not_an_object
    {env nlp_info : Type} (api : env -> request -> env * result content)
    (write_file : env -> gmap str content -> env * result unit)
    (sha256_hex : str -> str) (dumps_key : request -> str)
    (json_dumps : json -> str) (json_loads : str -> option json)
    (exn_message : exn -> str) (nlp_summary : str -> nlp_info)
    (analysis_prompt : nlp_info -> str -> str) (self_model : str)
    (text : str) (s s1 : Agent.state env) (out : str) (j : json) :
  text <> [] ->
  Agent.analysis_out env api write_file sha256_hex dumps_key json_dumps exn_message
    nlp_info analysis_prompt self_model (nlp_summary text) (py_slice text 0 CHUNK_SIZE) s
    = Some (s1, Ok (Some out)) ->
  json_loads out = Some j -> is_object j = false ->
  Agent.analyze env api write_file sha256_hex dumps_key json_dumps json_loads
    exn_message nlp_info nlp_summary analysis_prompt self_model text s
  = Some (s1, Raise TypeError).
Proof.
  intros Ht Hout Hj Hobj. apply (analyze_not_object _ _ _ _ _ _ _ _ _ _ _ _ _ (Some out));
    [exact Ht | exact Hout |].
  cbn [Agent.parse_out]. rewrite Hj. exact Hobj.
Qed.

Lemma analyze_output_not_an_object_witness :
  exists s1,
    Agent.analyze nat list_api disk_ok id (fun q => u "key") dumps_message loads_list
      message_of unit (fun _ => tt) (fun _ chunk => chunk) (u "gpt-4o-mini") hi start_state
    = Some (s1, Raise TypeError).
Proof.
  eexists.
  apply (analyze_output_not_an_object list_api disk_ok id (fun q => u "key")
           dumps_message loads_list message_of (fun _ => tt) (fun _ chunk => chunk)
           (u "gpt-4o-mini") hi start_state _ (u "[]") (JArr []));
    [discriminate | vm_compute; reflexivity | reflexivity | reflexivity].
Defined.

(** X16. An answer with no content poisons the cache of [correct_whole]:
    when the client answers a chunk with the content [None] (and the cache
    file can be written), [None] is stored under the key of the chunk and
    [correct_whole] raises [AttributeError]; and as long as the cache
    holds it, every later [correct_whole] of the text raises
    [AttributeError] again, without asking the client. *)
Theorem correct_whole_none_content
    {env : Type} (api : env -> request -> env * result content)
    (write_file : env -> gmap str content -> env * result unit)
    (sha256_hex : str -> str) (dumps_key : request -> str)
    (correction_prompt : str -> str) (self_model : str)
    (text : str) (s : Agent.state env) (w1 : env) :
  let q := Agent.correction_request correction_prompt self_model text in
  let key := sha256_hex (text ++ u "_correction") in
  text <> [] -> len text <= CHUNK_SIZE ->
  Agent.CACHE env s !! key = None ->
  Agent.CACHE env s !! fingerprint sha256_hex dumps_key q = None ->
  api (Agent.world env s) q = (w1, Ok None) ->
  (forall w c, snd (write_file w c) = Ok tt) ->
  (exists s1,
     Agent.correct_whole env api write_file sha256_hex dumps_key correction_prompt
       self_model text s = Some (s1, Raise AttributeError)
     /\ Agent.api_log env s1 = Agent.api_log env s ++ [q]
     /\ Agent.CACHE env s1 !! key = Some None)
  /\ forall s2 : Agent.state env,
       Agent.CACHE env s2 !! key = Some None ->
       Agent.correct_whole env api write_file sha256_hex dumps_key correction_prompt
         self_model text s2 = Some (s2, Raise AttributeError).
Proof.
  intros q key Ht Hlen Hk Hfp Hapi Hdisk. split.
  - apply (correct_whole_none api write_file sha256_hex dumps_key correction_prompt
             self_model text s w1); assumption.
  - intros s2 H2. apply correct_whole_none_cached; assumption.
Qed.

Lemma correct_whole_none_content_witness :
  exists s1,
    Agent.correct_whole nat silent_api disk_ok id (fun q => u "key")
      (fun chunk => chunk) (u "gpt-4o-mini") hi start_state
      = Some (s1, Raise AttributeError)
    /\ Agent.correct_whole nat silent_api disk_ok id (fun q => u "key")
         (fun chunk => chunk) (u "gpt-4o-mini") hi s1
       = Some (s1, Raise AttributeError).
Proof.
  destruct (correct_whole_none_content silent_api disk_ok id (fun q => u "key")
              (fun chunk => chunk) (u "gpt-4o-mini") hi start_state 1%nat)
    as [(s1 & H1 & _ & Hk) H2];
    [discriminate | vm_compute; discriminate | reflexivity | reflexivity | reflexivity
     | reflexivity |].
  exists s1. split; [exact H1 | exact (H2 s1 Hk)].
Defined.

(** X17. A chunk that is in the cache costs nothing: when the cache holds
    a text for every chunk, [correct_whole] returns these texts, stripped
    and joined by blank lines, and leaves the state as it is (no request
    to the client, no write of the cache file); and when it holds an
    output for every chunk, [analyze] leaves the state as it is too. *)
Theorem cached_chunks_cost_nothing
    {env nlp_info : Type} (api : env -> request -> env * result content)
    (write_file : env -> gmap str content -> env * result unit)
    (sha256_hex : str -> str) (dumps_key : request -> str)
    (json_dumps : json -> str) (json_loads : str -> option json)
    (exn_message : exn -> str) (nlp_summary : str -> nlp_info)
    (analysis_prompt : nlp_info -> str -> str) (correction_prompt : str -> str)
    (self_model : str) (text : str) (chunks : list str) (s : Agent.state env) :
  Chunker.chunk_text text CHUNK_SIZE (length text) = Some chunks ->
  (Forall (fun c => exists v,
             Agent.CACHE env s !! sha256_hex (c ++ u "_correction") = Some (Some v)) chunks ->
   exists parts,
     Agent.correct_whole env api write_file sha256_hex dumps_key correction_prompt
       self_model text s = Some (s, Ok (join [10; 10]%N parts))
     /\ Forall2 (fun c p => exists v,
                   Agent.CACHE env s !! sha256_hex (c ++ u "_correction") = Some (Some v)
                   /\ p = strip v) chunks parts)
  /\ (Forall (fun c => is_Some (Agent.CACHE env s !! sha256_hex (c ++ u "_analysis")))
        chunks ->
      exists r,
        Agent.analyze env api write_file sha256_hex dumps_key json_dumps json_loads
          exn_message nlp_info nlp_summary analysis_prompt self_model text s
        = Some (s, r)).
Proof.
  intros Hchunks. split; intros Hall.
  - destruct (correct_loop_cached api write_file sha256_hex dumps_key correction_prompt
                self_model chunks s Hall []) as (parts & Hrun & Hparts).
    exists parts. split; [|exact Hparts].
    unfold Agent.correct_whole, Agent.mbind' at 1, Agent.chunks_of. rewrite Hchunks.
    unfold Agent.mbind' at 1. rewrite Hrun. reflexivity.
  - destruct (analyze_loop_cached api write_file sha256_hex dumps_key json_dumps
                json_loads exn_message analysis_prompt self_model (nlp_summary text)
                chunks s Hall 0 []) as [r Hrun].
    unfold Agent.analyze, Agent.mbind' at 1, Agent.chunks_of. rewrite Hchunks.
    unfold Agent.mbind' at 1. rewrite Hrun. destruct r; eauto.
Qed.

Lemma cached_chunks_cost_nothing_witness :
  Agent.correct_whole nat failing_api disk_ok id (fun q => u "key")
    (fun chunk => chunk) (u "gpt-4o-mini") hi cached_state
  = Some (cached_state, Ok (u "Hi.")).
Proof.
  destruct (cached_chunks_cost_nothing failing_api disk_ok id (fun q => u "key")
              dumps_message loads_message message_of (fun _ : str => tt)
              (fun _ chunk => chunk) (fun chunk => chunk) (u "gpt-4o-mini")
              hi [hi] cached_state eq_refl) as [H _].
  destruct H as (parts & Hrun & Hparts).
  - repeat constructor. exists (u " Hi. "). reflexivity.
  - rewrite Hrun. do 3 f_equal.
    apply Forall2_cons_inv_l in Hparts as (p & ps & (v & Hv & ->) & Hps & ->).
    apply Forall2_nil_inv_l in Hps as ->. injection Hv as <-. reflexivity.
Defined.

(** X18. The second run is free: after a [correct_whole] that returns
    its text, [correct_whole] of the same text returns the same text
    again, and leaves the state as it is: no request to the client and no
    write of the cache file.  And the first run has written over no entry
    of the cache: every key that the cache held still has its value. *)
Theorem correct_whole_twice
    {env : Type} (api : env -> request -> env * result content)
    (write_file : env -> gmap str content -> env * result unit)
    (sha256_hex : str -> str) (dumps_key : request -> str)
    (correction_prompt : str -> str) (self_model : str)
    (text corrected : str) (s s1 : Agent.state env) :
  Agent.correct_whole env api write_file sha256_hex dumps_key correction_prompt
    self_model text s = Some (s1, Ok corrected) ->
  Agent.correct_whole env api write_file sha256_hex dumps_key correction_prompt
    self_model text s1 = Some (s1, Ok corrected)
  /\ forall (k : str) (v : content),
       Agent.CACHE env s !! k = Some v -> Agent.CACHE env s1 !! k = Some v.
Proof.
  unfold Agent.correct_whole, Agent.mbind' at 1, Agent.chunks_of.
  unfold Agent.mbind' at 3, Agent.chunks_of.
  destruct (Chunker.chunk_text text CHUNK_SIZE (length text)) as [chunks|]; [|discriminate].
  unfold Agent.mbind' at 1.
  destruct (Agent.correct_loop env api write_file sha256_hex dumps_key correction_prompt
              self_model chunks [] s) as [[s' [parts|e]]|] eqn:Erun; try discriminate.
  intros [= <- <-].
  apply (correct_loop_stores api write_file sha256_hex dumps_key correction_prompt
           self_model) in Erun as (Hkeep & new & -> & Hnew). cbn [app] in *.
  split; [|exact Hkeep].
  assert (Hall : Forall (fun c => exists v,
                   Agent.CACHE env s' !! correction_key sha256_hex c = Some (Some v)) chunks).
  { clear -Hnew. induction Hnew as [|c p chunks new (v & Hv & _) _ IH]; constructor; eauto. }
  destruct (correct_loop_cached api write_file sha256_hex dumps_key correction_prompt
              self_model chunks s' Hall []) as (parts & Hrun & Hparts).
  assert (Hsame : parts = new).
  { clear -Hnew Hparts. revert parts Hparts.
    induction Hnew as [|c p chunks new (v & Hv & ->) _ IH]; intros parts Hparts.
    - apply Forall2_nil_inv_l in Hparts. exact Hparts.
    - apply Forall2_cons_inv_l in Hparts as (p' & ps' & (v' & Hv' & ->) & Hps & ->).
      rewrite Hv in Hv'. injection Hv' as <-. f_equal. apply IH, Hps. }
  unfold Agent.mbind' at 1. rewrite Hrun, Hsame. reflexivity.
Qed.

(** An environment in which the client answers every request. *)
Definition polite_api (n : nat) (q : request) : nat * result content :=
  (S n, Ok (Some (u " Hi. "))).

Lemma correct_whole_twice_witness :
  exists s1,
    Agent.correct_whole nat polite_api disk_ok id (fun q => u "key")
      (fun chunk => chunk) (u "gpt-4o-mini") hi s1
    = Some (s1, Ok (u "Hi."))
    /\ forall (k : str) (v : content),
         Agent.CACHE nat start_state !! k = Some v -> Agent.CACHE nat s1 !! k = Some v.
Proof.
  eexists.
  apply (correct_whole_twice polite_api disk_ok id (fun q => u "key")
           (fun chunk => chunk) (u "gpt-4o-mini") hi (u "Hi.") start_state).
  vm_compute. reflexivity.
Defined.

(** X19. The tokens that the chunked calls ask for: for every chunk of a
    text, [analyze] asks for len(chunk)/3 + 1500 tokens, which is between
    1500 and 3833, so that its cap of 7000 is never the minimum; and
    [correct_whole] asks for at least 1500 and at most 3500. *)
Theorem requested_tokens
    {nlp_info : Type} (analysis_prompt : nlp_info -> str -> str)
    (correction_prompt : str -> str) (self_model : str) (info : nlp_info)
    (text : str) (chunks : list str) :
  Chunker.chunk_text text CHUNK_SIZE (length text) = Some chunks ->
  Forall (fun c =>
            let asked := max_tokens (Agent.analysis_request nlp_info analysis_prompt
                                       self_model info c) in
            let asked' := max_tokens (Agent.correction_request correction_prompt
                                        self_model c) in
            asked = len c / 3 + 1500 /\ 1500 <= asked <= 3833
            /\ asked' = Z.min 3500 (len c / 3 + 1500) /\ 1500 <= asked' <= 3500) chunks.
Proof.
  intros Hchunks.
  destruct (chunk_while_spec text CHUNK_SIZE ltac:(reflexivity) (length text) 0 [])
    as (cs & Hrun & _ & Hall & _); [lia | unfold len; lia | unfold len; lia |].
  unfold Chunker.chunk_text in Hchunks. rewrite Hrun in Hchunks. injection Hchunks as <-.
  eapply Forall_impl; [exact Hall|]. intros c Hc. cbv beta in Hc. cbv zeta.
  cbn [max_tokens Agent.analysis_request Agent.correction_request].
  unfold Agent.est_tokens. change CHUNK_SIZE with 7000 in *.
  assert (0 <= len c / 3 < 2334).
  { split; [apply Z.div_pos; lia | apply Z.div_lt_upper_bound; lia]. }
  lia.
Qed.

Lemma requested_tokens_witness :
  Forall (fun c =>
            let asked := max_tokens (Agent.analysis_request unit (fun _ chunk => chunk)
                                       (u "gpt-4o-mini") tt c) in
            let asked' := max_tokens (Agent.correction_request (fun chunk => chunk)
                                        (u "gpt-4o-mini") c) in
            asked = len c / 3 + 1500 /\ 1500 <= asked <= 3833
            /\ asked' = Z.min 3500 (len c / 3 + 1500) /\ 1500 <= asked' <= 3500) [hi].
Proof.
  apply (requested_tokens (fun _ chunk => chunk) (fun chunk => chunk) (u "gpt-4o-mini")
           tt hi [hi]).
  reflexivity.
Defined.

(** *** The two extractors and [save_docx_text] *)

Definition hash : char := ch "#".

Lemma avoids_part (c : char) (p s : str) :
  part_of p s -> avoids c s = true -> avoids c p = true.
Proof.
  intros (a & b & ->). rewrite !avoids_app. intros H.
  apply andb_true_iff in H as [_ H]. apply andb_true_iff in H as [H _]. exact H.
Qed.

Lemma avoids_strip (c : char) (s : str) : avoids c s = true -> avoids c (strip s) = true.
Proof. apply avoids_part, strip_part_of. Qed.

Lemma avoids_concat (c : char) (ss : list str) :
  Forall (fun s => avoids c s = true) ss -> avoids c (concat ss) = true.
Proof.
  induction 1 as [|s ss Hs _ IH]; [reflexivity|]. cbn [concat].
  rewrite avoids_app, Hs, IH. reflexivity.
Qed.

Lemma avoids_join (c : char) (sp : str) (ss : list str) :
  avoids c sp = true -> Forall (fun s => avoids c s = true) ss ->
  avoids c (join sp ss) = true.
Proof.
  intros Hsp. induction 1 as [|s ss Hs Hss IH]; [reflexivity|].
  destruct ss as [|s2 ss]; [exact Hs|].
  change (join sp (s :: s2 :: ss)) with (s ++ sp ++ join sp (s2 :: ss)).
  rewrite !avoids_app, Hs, Hsp, IH. reflexivity.
Qed.

Lemma avoids_drop (c : char) (k : nat) (s : str) :
  avoids c s = true -> avoids c (drop k s) = true.
Proof.
  intros H. apply (avoids_part c _ s); [|exact H].
  exists (take k s), []. rewrite app_nil_r, take_drop. reflexivity.
Qed.

Section NamedColours.
Import Docx.

(** No colour, or a colour of one of the buckets that [get_color_tag]
    names. *)
Definition named_or_none (r : run) : bool :=
  match color r with
  | None => true
  | Some c => named_bucket c
  end.

Definition hashless_run (r : run) : bool := avoids hash (text r) && named_or_none r.

Definition hashless_paragraph (p : paragraph) : bool :=
  negb (startswith (u "heading") (lower (style p))) && forallb hashless_run (runs p).

(** A document without headings, without '#' in its texts, and whose
    colours are all of the named buckets. *)
Definition hashless_document (d : document) : bool :=
  forallb hashless_paragraph (paragraphs d)
  && forallb (forallb (forallb (avoids hash))) (tables d).

Lemma named_tag_hashless (r : run) :
  named_or_none r = true ->
  match DocxExtract.get_color_tag r with
  | Some tag => avoids hash tag = true
  | None => True
  end.
Proof.
  unfold named_or_none, DocxExtract.get_color_tag, named_bucket.
  destruct (color r) as [c|]; [|trivial]. intros H.
  destruct (200 <? red c), (green c <? 80), (blue c <? 80), (200 <? blue c),
    (red c <? 80), (150 <? green c), (red c <? 100), (200 <? green c),
    (blue c <? 100), (100 <? red c), (100 <? green c), (100 <? blue c);
    cbn in H |- *; try reflexivity; discriminate.
Qed.

Lemma format_run_hashless (r : run) :
  hashless_run r = true -> avoids hash (DocxExtract.format_run r) = true.
Proof.
  unfold hashless_run. intros H. apply andb_true_iff in H as [Ht Hc].
  pose proof (named_tag_hashless r Hc) as Htag. unfold DocxExtract.format_run.
  destruct (text r) as [|x t] eqn:Et; [reflexivity|].
  destruct (DocxExtract.get_color_tag r) as [tag|];
    destruct (bold r), (italic r), (underline r);
    rewrite ?avoids_app, ?Ht, ?Htag; reflexivity.
Qed.

Lemma para_line_hashless (p : paragraph) (line : str) :
  hashless_paragraph p = true -> DocxExtract.para_line p = Some line ->
  avoids hash line = true.
Proof.
  unfold hashless_paragraph, DocxExtract.para_line. intros H.
  apply andb_true_iff in H as [Hh Hr]. apply negb_true_iff in Hh. rewrite Hh.
  destruct (strip (para_text p)); [discriminate|]. intros [= <-].
  rewrite avoids_app. apply andb_true_iff. split.
  - destruct (contains (u "list bullet") (lower (style p))
              || contains (u "list paragraph") (lower (style p)));
      [|destruct (contains (u "list number") (lower (style p)))]; reflexivity.
  - apply avoids_strip, avoids_concat. rewrite Forall_map, Forall_forall.
    intros r Hin. apply format_run_hashless.
    rewrite forallb_forall in Hr. apply Hr, list_elem_of_In, Hin.
Qed.

Lemma table_lines_hashless (t : table) :
  forallb (forallb (avoids hash)) t = true ->
  Forall (fun s => avoids hash s = true) (DocxExtract.table_lines t).
Proof.
  intros H. unfold DocxExtract.table_lines. apply Forall_app. split; [|repeat constructor].
  rewrite Forall_map, Forall_forall. intros row Hin.
  apply avoids_join; [reflexivity|]. rewrite Forall_map, Forall_forall. intros cell Hc.
  apply avoids_strip. rewrite forallb_forall in H.
  specialize (H row (proj1 (list_elem_of_In _ _) Hin)). rewrite forallb_forall in H.
  apply H, list_elem_of_In, Hc.
Qed.

Lemma extract_hashless (d : document) :
  hashless_document d = true ->
  avoids hash (DocxExtract.extract_text_from_docx d) = true.
Proof.
  unfold hashless_document. intros H. apply andb_true_iff in H as [Hp Ht].
  unfold DocxExtract.extract_text_from_docx. apply avoids_strip, avoids_join; [reflexivity|].
  apply Forall_app. split.
  - rewrite forallb_forall in Hp. clear Ht. induction (paragraphs d) as [|p ps IH];
      [constructor|].
    cbn [omap list_omap]. destruct (DocxExtract.para_line p) as [line|] eqn:El.
    + constructor.
      * apply (para_line_hashless p line); [apply Hp; left; reflexivity | exact El].
      * apply IH. intros x Hx. apply Hp. right. exact Hx.
    + apply IH. intros x Hx. apply Hp. right. exact Hx.
  - rewrite forallb_forall in Ht. clear Hp. induction (tables d) as [|t ts IH];
      [constructor|].
    cbn [List.map concat]. apply Forall_app. split.
    + apply table_lines_hashless, Ht. left. reflexivity.
    + apply IH. intros x Hx. apply Ht. right. exact Hx.
Qed.

(** A text without '#' has no colour tag. *)
Lemma colour_search_hashless (g : str) : avoids hash g = true -> ColorRe.search g = None.
Proof.
  intros Hg. destruct (ColorRe.search g) as [[m rest]|] eqn:E; [|reflexivity].
  apply color_search_split in E as (E & _). exfalso.
  apply (avoids_elem hash g Hg). rewrite E. apply elem_of_app. right.
  unfold ColorRe.open_tag. apply elem_of_app. left. apply elem_of_app. left.
  apply elem_of_cons. right. apply elem_of_cons. left. reflexivity.
Qed.

Definition colourless (p : paragraph) : Prop := Forall (fun r => color r = None) (runs p).

Lemma fill_para_hashless (para : paragraph) (block : str) :
  avoids hash block = true -> colourless para ->
  exists para', Reconstruct.fill_para para block = Some para' /\ colourless para'.
Proof.
  intros Hb Hp. unfold Reconstruct.fill_para.
  assert (Hf : ColorRe.finditer (length block) block = Some ([], block)).
  { destruct (length block); cbn [ColorRe.finditer];
      rewrite (colour_search_hashless block Hb); reflexivity. }
  rewrite Hf. cbn [mbind option_bind Reconstruct.color_loop]. rewrite tokenize_nil.
  destruct (tokenize_spec None (length block) block para (le_n _))
    as (rs & -> & Hall & _).
  eexists. split; [reflexivity|]. unfold colourless, add_runs. cbn [runs].
  apply Forall_app. split; [exact Hp|].
  eapply Forall_impl; [exact Hall|]. intros r (_ & _ & Hc). exact Hc.
Qed.

Lemma process_block_hashless (block : str) :
  avoids hash block = true ->
  exists para, Reconstruct._process_block_into_para block = Some (Ok para)
               /\ colourless para.
Proof.
  intros Hb. unfold Reconstruct._process_block_into_para.
  assert (Hs : startswith (u "#") block = false).
  { destruct block as [|x t]; [reflexivity|]. rewrite avoids_cons in Hb.
    apply andb_true_iff in Hb as [Hx _]. apply negb_true_iff in Hx.
    change (u "#") with [hash]. cbn [startswith]. rewrite N.eqb_sym, Hx. reflexivity. }
  rewrite Hs.
  assert (Hslice : forall k, avoids hash (strip (py_slice block k (len block))) = true).
  { intros k. apply avoids_strip. unfold py_slice.
    destruct (_ <? _); [|reflexivity].
    apply (avoids_part hash _ (drop (Z.to_nat (slice_bound (len block) k)) block)).
    - eexists [], _. cbn [app]. symmetry. apply take_drop.
    - apply avoids_drop, Hb. }
  destruct (startswith [bullet; ch " "] block);
    [|destruct (startswith (u "1. ") block)];
    match goal with
    | |- context [Reconstruct.fill_para ?p ?b] =>
        destruct (fill_para_hashless p b) as (para' & -> & Hc);
          [auto | constructor | exists para'; split; [reflexivity | exact Hc]]
    end.
Qed.

Lemma blocks_loop_hashless (blocks : list str) :
  Forall (fun b => avoids hash b = true) blocks ->
  forall doc : list paragraph,
    Forall colourless doc ->
    exists paras, Reconstruct.blocks_loop doc blocks = Some (Ok paras)
                  /\ Forall colourless paras.
Proof.
  induction 1 as [|b blocks Hb _ IH]; intros doc Hdoc; [eauto|].
  cbn [Reconstruct.blocks_loop]. pose proof (avoids_strip hash b Hb) as Hsb.
  destruct (strip b) as [|x sb] eqn:Eb; [apply IH, Hdoc|].
  destruct (process_block_hashless (x :: sb) Hsb) as (para & -> & Hc).
  cbn [mbind option_bind]. apply IH. apply Forall_app. split; [exact Hdoc|].
  repeat constructor. exact Hc.
Qed.

Lemma save_hashless (text : str) :
  avoids hash text = true ->
  exists paras,
    Reconstruct.save_docx_text text
      = Some (Ok {| paragraphs := paras; tables := [] |})
    /\ Forall colourless paras.
Proof.
  intros Ht. unfold Reconstruct.save_docx_text, BlankRe.split.
  destruct (split_loop_total (length (strip text)) [] (strip text) (le_n _)) as [ps Hps].
  rewrite Hps. cbn [mbind option_bind].
  assert (Hall : Forall (fun b => avoids hash b = true) ps).
  { apply split_loop_parts in Hps. eapply Forall_impl; [exact Hps|].
    intros p Hp. apply (avoids_part hash p (strip text)); [exact Hp|].
    apply avoids_strip, Ht. }
  destruct (blocks_loop_hashless ps Hall [] (List.Forall_nil _)) as (paras & -> & Hc).
  exists paras. split; [reflexivity | exact Hc].
Qed.
End NamedColours.

(** X20. The named colours do not come back.  Take a document without
    headings and without '#' in its texts, whose runs have no colour or a
    colour of one of the buckets that the extractor names (red, blue,
    green, yellow, gray): the document that [save_docx_text] makes of its
    extracted text has no coloured run at all (the reconstructor reads the
    hexadecimal tags only, so a tag such as [<red>] stays in the text). *)
Theorem named_colours_are_lost (d : Docx.document) :
  hashless_document d = true ->
  exists d',
    Reconstruct.save_docx_text (DocxExtract.extract_text_from_docx d) = Some (Ok d')
    /\ Forall (fun p => Forall (fun r => Docx.color r = None) (Docx.runs p))
              (Docx.paragraphs d').
Proof.
  intros H. destruct (save_hashless _ (extract_hashless d H)) as (paras & Hs & Hc).
  eexists. split; [exact Hs | exact Hc].
Qed.

Definition red_document : Docx.document :=
  {| Docx.paragraphs :=
       [ {| Docx.style := u "Normal";
            Docx.runs := [mk_run (u "alert") false false false
                            (Some (Docx.RGBColor 255 0 0))] |} ];
     Docx.tables := [] |}.

Lemma named_colours_are_lost_witness :
  exists d',
    Reconstruct.save_docx_text (DocxExtract.extract_text_from_docx red_document)
      = Some (Ok d')
    /\ Forall (fun p => Forall (fun r => Docx.color r = None) (Docx.runs p))
              (Docx.paragraphs d').
Proof. apply (named_colours_are_lost red_document). reflexivity. Defined.

Example red_document_rebuilt :
  Reconstruct.save_docx_text (DocxExtract.extract_text_from_docx red_document)
  = Some (Ok {| Docx.paragraphs :=
                  [ {| Docx.style := u "Normal";
                       Docx.runs := [mk_run (u "<red>alert</red>") false false false None] |} ];
                Docx.tables := [] |}).
Proof. vm_compute. reflexivity. Qed.

(** X21. A heading style whose name holds a number above 9 breaks the
    round trip: when the first paragraph with text of a document has such
    a style, the extractor writes that many '#' and [save_docx_text]
    raises [ValueError] on the extracted text. *)
Theorem deep_heading_style_is_refused
    (p : Docx.paragraph) (ps : list Docx.paragraph) (ts : list Docx.table) :
  strip (Docx.para_text p) <> [] ->
  startswith (u "heading") (lower (Docx.style p)) = true ->
  (10 <= int_of_digits (List.filter is_digit (lower (Docx.style p))))%N ->
  Reconstruct.save_docx_text
    (DocxExtract.extract_text_from_docx {| Docx.paragraphs := p :: ps; Docx.tables := ts |})
  = Some (Raise ValueError).
Proof.
  intros Ht Hh Hn.
  set (digits := List.filter is_digit (lower (Docx.style p))) in *.
  assert (Hline : exists t, DocxExtract.para_line p
            = Some (repeat (ch "#") (N.to_nat (int_of_digits digits)) ++ t)).
  { unfold DocxExtract.para_line. destruct (strip (Docx.para_text p)) as [|x s];
      [congruence|]. rewrite Hh. fold digits.
    destruct digits as [|a l] eqn:Ed; [cbn in Hn; lia|]. eauto. }
  destruct Hline as [t Hline].
  unfold DocxExtract.extract_text_from_docx. cbn [Docx.paragraphs Docx.tables].
  cbn [omap list_omap]. rewrite Hline. cbn [app].
  destruct (join_head (repeat (ch "#") (N.to_nat (int_of_digits digits)) ++ t)
              (omap DocxExtract.para_line ps
               ++ concat (List.map DocxExtract.table_lines ts))) as [rest Hj].
  fold (omap DocxExtract.para_line ps). unfold sep in Hj. rewrite Hj, <- app_assoc.
  set (n := N.to_nat (int_of_digits digits)). assert (Hn' : (10 <= n)%nat) by lia.
  assert (Hs : exists t', strip (repeat (ch "#") n ++ t ++ rest) = repeat (ch "#") n ++ t').
  { destruct n as [|m]; [lia|].
    assert (Hrep : repeat (ch "#") (S m) = repeat (ch "#") m ++ [ch "#"]).
    { cbn [repeat]. apply repeat_cons. }
    unfold strip.
    replace (lstrip (repeat (ch "#") (S m) ++ t ++ rest))
      with (repeat (ch "#") (S m) ++ t ++ rest) by reflexivity.
    rewrite Hrep. apply rstrip_keeps. reflexivity. }
  destruct Hs as [t' ->].
  apply (save_heading_too_deep [] n t' eq_refl Hn').
Qed.

Definition deep_heading : Docx.paragraph :=
  {| Docx.style := u "Heading 10";
     Docx.runs := [mk_run (u "Appendix") false false false None] |}.

Lemma deep_heading_style_is_refused_witness :
  Reconstruct.save_docx_text
    (DocxExtract.extract_text_from_docx
       {| Docx.paragraphs := [deep_heading]; Docx.tables := [] |})
  = Some (Raise ValueError).
Proof.
  apply (deep_heading_style_is_refused deep_heading [] []);
    [vm_compute; discriminate | reflexivity | vm_compute; discriminate].
Defined.

(** *** The paragraphs of the PDF extractor *)

(** A text that starts with '<' and ends with '>'. *)
Definition tagged (s : str) : Prop := exists m, s = ch "<" :: m ++ [ch ">"].

Lemma tagged_app (a b : str) : tagged a -> tagged b -> tagged (a ++ b).
Proof.
  intros [m ->] [m' ->]. exists (m ++ [ch ">"] ++ ch "<" :: m').
  cbn [app]. rewrite <- !app_assoc. reflexivity.
Qed.

Lemma tagged_between (a sp b : str) : tagged a -> tagged b -> tagged (a ++ sp ++ b).
Proof.
  intros [m ->] [m' ->]. exists (m ++ [ch ">"] ++ sp ++ ch "<" :: m').
  cbn [app]. rewrite <- !app_assoc. cbn [app]. rewrite <- !app_assoc. reflexivity.
Qed.

Lemma tagged_concat (s : str) (ss : list str) :
  Forall tagged (s :: ss) -> tagged (concat (s :: ss)).
Proof.
  revert s. induction ss as [|s2 ss IH]; intros s H.
  - cbn. rewrite app_nil_r. exact (Forall_inv H).
  - cbn [concat]. apply tagged_app; [exact (Forall_inv H)|].
    apply IH. exact (Forall_inv_tail H).
Qed.

Lemma tagged_join (sp s : str) (ss : list str) :
  Forall tagged (s :: ss) -> tagged (join sp (s :: ss)).
Proof.
  revert s. induction ss as [|s2 ss IH]; intros s H.
  - exact (Forall_inv H).
  - change (join sp (s :: s2 :: ss)) with (s ++ sp ++ join sp (s2 :: ss)).
    apply tagged_between; [exact (Forall_inv H)|]. apply IH. exact (Forall_inv_tail H).
Qed.

Lemma tagged_ends (s : str) :
  head s = Some (ch "<") -> last s = Some (ch ">") -> tagged s.
Proof.
  destruct s as [|x s]; [discriminate|]. intros [= ->].
  destruct s as [|y s _] using rev_ind; [discriminate|].
  rewrite app_comm_cons, last_snoc. intros [= ->]. exists s. reflexivity.
Qed.

Lemma styled_span_tagged (sp : Pdf.span) (s : str) :
  Pdf.styled_span sp = Some s -> tagged s.
Proof.
  unfold Pdf.styled_span. destruct (strip (Pdf.text sp)) as [|c t]; [discriminate|].
  intros H. apply (inj Some) in H. subst s. cbv zeta.
  destruct (Pdf.is_bold _), (Pdf.is_italic _);
    (apply tagged_ends; [reflexivity | rewrite !last_app; reflexivity]).
Qed.

(** The paragraph of a block: the tagged texts of its spans that are not
    blank, end to end. *)
Definition block_paragraph (b : Pdf.block) : option str :=
  match b with
  | None => None
  | Some lines =>
      match omap Pdf.styled_span (concat lines) with
      | [] => None
      | spans => Some (concat spans)
      end
  end.

Definition pdf_paragraphs (doc : Pdf.pdf) : list str := omap block_paragraph (concat doc).

Lemma omap_styled_tagged (spans : list Pdf.span) :
  Forall tagged (omap Pdf.styled_span spans).
Proof.
  induction spans as [|sp spans IH]; [constructor|]. cbn [omap list_omap].
  destruct (Pdf.styled_span sp) as [s|] eqn:E; [|exact IH].
  constructor; [exact (styled_span_tagged sp s E) | exact IH].
Qed.

Lemma block_paragraph_tagged (b : Pdf.block) (p : str) :
  block_paragraph b = Some p -> tagged p.
Proof.
  destruct b as [lines|]; [|discriminate]. cbn [block_paragraph].
  pose proof (omap_styled_tagged (concat lines)) as H.
  destruct (omap Pdf.styled_span (concat lines)) as [|s ss]; [discriminate|].
  intros [= <-]. apply tagged_concat, H.
Qed.

Lemma block_text_paragraph (b : Pdf.block) :
  Pdf.block_text b = match block_paragraph b with
                     | Some p => [p; [10; 10]%N]
                     | None => []
                     end.
Proof.
  destruct b as [lines|]; [|reflexivity]. cbn [Pdf.block_text block_paragraph].
  destruct (omap Pdf.styled_span (concat lines)); reflexivity.
Qed.

Lemma blocks_text (bs : list Pdf.block) :
  concat (concat (List.map Pdf.block_text bs))
  = concat (List.map (fun p => p ++ [10; 10]%N) (omap block_paragraph bs)).
Proof.
  induction bs as [|b bs IH]; [reflexivity|].
  cbn [List.map concat omap list_omap]. rewrite concat_app, IH, block_text_paragraph.
  destruct (block_paragraph b) as [p|]; [|reflexivity].
  cbn [List.map concat]. rewrite app_nil_r. reflexivity.
Qed.

Lemma join_then_sep (sp : str) (p : str) (ps : list str) :
  concat (List.map (fun p => p ++ sp) (p :: ps)) = join sp (p :: ps) ++ sp.
Proof.
  revert p. induction ps as [|q ps IH]; intros p.
  - cbn. rewrite app_nil_r. reflexivity.
  - change (join sp (p :: q :: ps)) with (p ++ sp ++ join sp (q :: ps)).
    cbn [List.map concat] in *. rewrite IH, <- !app_assoc. reflexivity.
Qed.

Lemma pdf_paragraphs_tagged (doc : Pdf.pdf) : Forall tagged (pdf_paragraphs doc).
Proof.
  unfold pdf_paragraphs. induction (concat doc) as [|b bs IH]; [constructor|].
  cbn [omap list_omap]. destruct (block_paragraph b) as [p|] eqn:E; [|exact IH].
  constructor; [exact (block_paragraph_tagged b p E) | exact IH].
Qed.

(** The text of a PDF is its paragraphs, a blank line between them. *)
Lemma pdf_text_join (doc : Pdf.pdf) :
  Pdf.extract_text_from_pdf doc = join [10; 10]%N (pdf_paragraphs doc).
Proof.
  unfold Pdf.extract_text_from_pdf. rewrite blocks_text. fold (pdf_paragraphs doc).
  pose proof (pdf_paragraphs_tagged doc) as Htag.
  destruct (pdf_paragraphs doc) as [|p ps]; [reflexivity|].
  rewrite join_then_sep. destruct (tagged_join [10; 10]%N p ps Htag) as [m ->].
  apply (strip_trailing (ch "<") (ch ">") m [10; 10]%N); reflexivity.
Qed.

(** X22. The text that [extract_text_from_pdf] returns is the paragraphs
    of the blocks joined by one blank line, with nothing before the first
    and nothing after the last: a block without lines, a block whose spans
    are all blank and a blank span give nothing, and the final [strip]
    takes the last separator only, every paragraph starting with '<' and
    ending with '>'. *)
Theorem pdf_paragraphs_joined (doc : Pdf.pdf) :
  Pdf.extract_text_from_pdf doc = join [10; 10]%N (pdf_paragraphs doc)
  /\ Forall (fun p => exists m, p = ch "<" :: m ++ [ch ">"]) (pdf_paragraphs doc)
  /\ (Forall (Forall (fun b => block_paragraph b = None)) doc ->
      Pdf.extract_text_from_pdf doc = []).
Proof.
  split; [apply pdf_text_join|]. split; [apply pdf_paragraphs_tagged|].
  intros Hblank. rewrite pdf_text_join. unfold pdf_paragraphs.
  assert (Hnone : omap block_paragraph (concat doc) = []).
  { induction Hblank as [|page pages Hp _ IH]; [reflexivity|].
    cbn [concat]. rewrite omap_app, IH, app_nil_r.
    induction Hp as [|b bs Hb _ IHb]; [reflexivity|].
    cbn [omap list_omap]. rewrite Hb. exact IHb. }
  rewrite Hnone. reflexivity.
Qed.

(** *** The check of an upload *)

Lemma endswith_spec (p s : str) : endswith p s = true <-> exists t, s = t ++ p.
Proof.
  unfold endswith. rewrite startswith_spec. split.
  - intros [t Ht]. exists (rev t). apply (f_equal (@rev _)) in Ht.
    rewrite rev_involutive, rev_app_distr, rev_involutive in Ht. exact Ht.
  - intros [t ->]. exists (rev t). apply rev_app_distr.
Qed.

Lemma existsb_str_eqb (x : str) (l : list str) :
  existsb (str_eqb x) l = true <-> x ∈ l.
Proof.
  rewrite existsb_exists. split.
  - intros (y & Hin & Heq). apply bool_decide_eq_true in Heq. subst y.
    apply list_elem_of_In, Hin.
  - intros Hin. exists x. split; [apply list_elem_of_In, Hin|].
    apply bool_decide_eq_true. reflexivity.
Qed.

(** X23. [validate_file] accepts an upload exactly when its name, in
    lower case, ends with ".pdf" or ".docx" and the type that libmagic
    gives for the 2048 bytes at the position of the file is one of the
    three allowed types; the name and the type are not compared with one
    another.  The bytes are left as they are, and a file that is accepted
    is at position 0 afterwards. *)
Theorem validate_file_verdict
    (from_buffer : list Byte.byte -> result str) (file : Upload.upload)
    (name mime : str) :
  Upload.filename file = Some name ->
  from_buffer (take 2048 (drop (Upload.position file) (Upload.data file))) = Ok mime ->
  exists (ok : bool) (msg : str) (file' : Upload.upload),
    Upload.validate_file from_buffer file = (file', Ok (ok, msg))
    /\ (ok = true <->
        (endswith (u ".pdf") (lower name) = true
         \/ endswith (u ".docx") (lower name) = true)
        /\ mime ∈ Upload.allowed_types)
    /\ Upload.data file' = Upload.data file
    /\ Upload.filename file' = Upload.filename file
    /\ (ok = true -> Upload.position file' = 0%nat).
Proof.
  intros Hname Hmime. unfold Upload.validate_file. rewrite Hname.
  destruct (endswith (u ".pdf") (lower name) || endswith (u ".docx") (lower name)) eqn:Eext.
  - unfold Upload.read. cbv zeta. rewrite Hmime.
    destruct (existsb (str_eqb mime) Upload.allowed_types) eqn:Em.
    + eexists _, _, _. split; [reflexivity|].
      split; [|split; [reflexivity | split; [exact Hname | reflexivity]]].
      split; [intros _|reflexivity]. split.
      * apply orb_true_iff, Eext.
      * apply existsb_str_eqb, Em.
    + eexists _, _, _. split; [reflexivity|].
      split; [|split; [reflexivity | split; [exact Hname | discriminate]]].
      split; [discriminate|]. intros [_ Hin]. apply existsb_str_eqb in Hin. congruence.
  - eexists _, _, _. split; [reflexivity|].
    split; [|split; [reflexivity | split; [exact Hname | discriminate]]].
    split; [discriminate|]. intros [Hext _]. apply orb_true_iff in Hext. congruence.
Qed.

Definition sniff_docx (head : list Byte.byte) : result str :=
  Ok (u "application/vnd.openxmlformats-officedocument.wordprocessingml.document").

Definition report_pdf : Upload.upload :=
  {| Upload.filename := Some (u "Report.PDF");
     Upload.data := [Byte.x50; Byte.x4b; Byte.x03; Byte.x04];
     Upload.position := 2 |}.

Lemma validate_file_verdict_witness :
  exists (ok : bool) (msg : str) (file' : Upload.upload),
    Upload.validate_file sniff_docx report_pdf = (file', Ok (ok, msg))
    /\ (ok = true <->
        (endswith (u ".pdf") (lower (u "Report.PDF")) = true
         \/ endswith (u ".docx") (lower (u "Report.PDF")) = true)
        /\ u "application/vnd.openxmlformats-officedocument.wordprocessingml.document"
           ∈ Upload.allowed_types)
    /\ Upload.data file' = Upload.data report_pdf
    /\ Upload.filename file' = Upload.filename report_pdf
    /\ (ok = true -> Upload.position file' = 0%nat).
Proof.
  apply (validate_file_verdict sniff_docx report_pdf (u "Report.PDF")); reflexivity.
Defined.

(** X24. A ".doc" file never passes, although "application/msword" is
    one of the allowed types: an upload whose name ends with ".doc" (in
    any case) is refused for its name, the file is not read and libmagic
    is not asked. *)
Theorem validate_file_refuses_doc
    (from_buffer : list Byte.byte -> result str) (file : Upload.upload) (name : str) :
  Upload.filename file = Some name ->
  endswith (u ".doc") (lower name) = true ->
  Upload.validate_file from_buffer file
  = (file, Ok (false, u "File must be a PDF or DOCX")).
Proof.
  intros Hname Hdoc. unfold Upload.validate_file. rewrite Hname.
  unfold endswith in *. apply startswith_spec in Hdoc as [t Ht].
  rewrite Ht. reflexivity.
Qed.

Definition sniff_msword (head : list Byte.byte) : result str :=
  Ok (u "application/msword").

Lemma validate_file_refuses_doc_witness :
  Upload.validate_file sniff_msword
    {| Upload.filename := Some (u "Letter.DOC"); Upload.data := [Byte.xd0; Byte.xcf];
       Upload.position := 0 |}
  = ({| Upload.filename := Some (u "Letter.DOC"); Upload.data := [Byte.xd0; Byte.xcf];
        Upload.position := 0 |},
     Ok (false, u "File must be a PDF or DOCX")).
Proof.
  apply (validate_file_refuses_doc sniff_msword _ (u "Letter.DOC")); reflexivity.
Defined.

(** *** The markup of a PDF span in the HTML and in the DOCX *)

Lemma digits_avoid (c : char) (s : str) :
  is_digit c = false -> forallb is_digit s = true -> avoids c s = true.
Proof.
  intros Hc. induction s as [|x s IH]; [reflexivity|]. simpl.
  intros H. apply andb_true_iff in H as [Hx Hs]. rewrite (IH Hs), andb_true_r.
  destruct (N.eqb_spec x c) as [->|]; [congruence | reflexivity].
Qed.

Lemma string_of_uint_digits (d : Decimal.uint) :
  forallb is_digit (u (NilZero.string_of_uint d)) = true
  /\ forallb is_digit (u (NilEmpty.string_of_uint d)) = true.
Proof.
  assert (H : forallb is_digit (u (NilEmpty.string_of_uint d)) = true).
  { induction d; [reflexivity | | | | | | | | | |]; exact IHd. }
  split; [|exact H]. destruct d; [reflexivity | | | | | | | | | |]; exact H.
Qed.

Lemma decimal_digits (n : N) : forallb is_digit (decimal n) = true.
Proof. apply string_of_uint_digits. Qed.

(** [f"{x:.1f}"] writes digits, a point and a sign. *)
Lemma fmt_1f_avoids (c : char) (x : Q) :
  is_digit c = false -> c <> ch "." -> c <> ch "-" -> avoids c (Pdf.fmt_1f x) = true.
Proof.
  intros Hd Hp Hm. unfold Pdf.fmt_1f. cbv zeta. rewrite !avoids_app.
  rewrite !(digits_avoid c _ Hd (decimal_digits _)).
  assert (H1 : avoids c (u ".") = true).
  { change (u ".") with [ch "."]. rewrite avoids_cons.
    destruct (N.eqb_spec (ch ".") c); [congruence | reflexivity]. }
  assert (H2 : avoids c (u "-") = true).
  { change (u "-") with [ch "-"]. rewrite avoids_cons.
    destruct (N.eqb_spec (ch "-") c); [congruence | reflexivity]. }
  rewrite H1. destruct (Qnum x <? 0); [rewrite H2|]; reflexivity.
Qed.

(** The parts of the text of a span: what is written before the colour
    tag, the colour, and what is written after it. *)
Definition span_prefix (sp : Pdf.span) : str :=
  let font_name := default [] (Pdf.font sp) in
  (if Pdf.is_italic font_name then u "<i>" else [])
  ++ (if Pdf.is_bold font_name then u "<b>" else [])
  ++ u "<size=" ++ Pdf.fmt_1f (default (12 # 1)%Q (Pdf.size sp))
  ++ u "><font=" ++ Pdf.font_family font_name ++ u ">".

Definition span_suffix (sp : Pdf.span) : str :=
  let font_name := default [] (Pdf.font sp) in
  u "</font></size>"
  ++ (if Pdf.is_bold font_name then u "</b>" else [])
  ++ (if Pdf.is_italic font_name then u "</i>" else []).

Definition span_rgb (sp : Pdf.span) : Docx.rgb :=
  let color_val := default 0 (Pdf.color sp) in
  Docx.RGBColor (Z.land (Z.shiftr color_val 16) 255) (Z.land (Z.shiftr color_val 8) 255)
                (Z.land color_val 255).

Lemma styled_span_parts (sp : Pdf.span) :
  Pdf.styled_span sp
  = match strip (Pdf.text sp) with
    | [] => None
    | t => Some (span_prefix sp ++ ColorRe.open_tag (Docx.rgb_str (span_rgb sp)) ++ t
                 ++ ColorRe.close_tag (Docx.rgb_str (span_rgb sp)) ++ span_suffix sp)
    end.
Proof.
  unfold Pdf.styled_span, span_prefix, span_suffix.
  destruct (strip (Pdf.text sp)) as [|c t]; [reflexivity|]. cbv zeta. f_equal.
  set (fmt := Pdf.fmt_1f _). set (fam := Pdf.font_family _).
  set (T := c :: t).
  assert (Hhex : Pdf.color_hex (default 0 (Pdf.color sp))
                 = hash :: Docx.rgb_str (span_rgb sp)) by reflexivity.
  rewrite Hhex. clearbody fmt fam T. generalize (Docx.rgb_str (span_rgb sp)). intros h.
  unfold ColorRe.open_tag, ColorRe.close_tag.
  destruct (Pdf.is_bold _), (Pdf.is_italic _); str_norm; reflexivity.
Qed.

(** *** A text without '#' through the replacements of colour tags *)

Lemma avoids_take (c : char) (k : nat) (s : str) :
  avoids c s = true -> avoids c (take k s) = true.
Proof.
  revert k. induction s as [|x s IH]; intros [|k]; try reflexivity.
  rewrite avoids_cons. intros H. apply andb_true_iff in H as [Hx Hs].
  cbn [take]. rewrite avoids_cons, Hx, (IH k Hs). reflexivity.
Qed.

Lemma open_pat_hashless (tok : str) : avoids hash tok = true -> Html.open_pat tok = None.
Proof.
  intros H. unfold Html.open_pat.
  destruct (startswith (u "<#") tok) eqn:E; [|reflexivity].
  apply startswith_spec in E as [t ->]. discriminate H.
Qed.

Lemma close_pat_hashless (tok : str) : avoids hash tok = true -> Html.close_pat tok = None.
Proof.
  intros H. unfold Html.close_pat.
  destruct (startswith (u "</#") tok) eqn:E; [|reflexivity].
  apply startswith_spec in E as [t ->]. discriminate H.
Qed.

Lemma replace_hashless (n : nat) (pat : str -> option str) (w : str) :
  (forall tok, avoids hash tok = true -> pat tok = None) ->
  avoids hash w = true -> Html.replace_all n pat w = w.
Proof.
  intros Hpat. induction w as [|c w IH]; [reflexivity|]. intros Hw.
  rewrite replace_no_match by (apply Hpat, avoids_take, Hw).
  rewrite avoids_cons in Hw. apply andb_true_iff in Hw as [_ Hw].
  rewrite (IH Hw). reflexivity.
Qed.

(** A text without '#' and without a newline is written as it is. *)
Lemma body_hashless (w : str) :
  avoids hash w = true -> avoids newline w = true -> Html.body w = w.
Proof.
  intros Hh Hn. rewrite (body_no_newline w Hn). unfold P_tags, P_open, P_close.
  rewrite (replace_hashless 9 Html.open_pat w open_pat_hashless Hh).
  apply (replace_hashless 10 Html.close_pat w close_pat_hashless Hh).
Qed.

(** *** What the tags of a span are made of *)

Lemma avoids_incl (c : char) (a b : str) :
  forallb (fun x => existsb (N.eqb x) b) a = true -> avoids c b = true -> avoids c a = true.
Proof.
  intros Hab Hb. unfold avoids. apply forallb_forall. intros x Hx.
  rewrite forallb_forall in Hab. specialize (Hab x Hx).
  apply existsb_exists in Hab as (y & Hy & Hxy). apply N.eqb_eq in Hxy. subst y.
  unfold avoids in Hb. rewrite forallb_forall in Hb. exact (Hb x Hy).
Qed.

Lemma avoids_before_first (c d : char) (s : str) :
  avoids c s = true -> avoids c (before_first d s) = true.
Proof.
  induction s as [|x s IH]; [reflexivity|]. rewrite avoids_cons. intros H.
  apply andb_true_iff in H as [Hx Hs]. cbn [before_first].
  destruct (x =? d)%N; [reflexivity|]. rewrite avoids_cons, Hx, (IH Hs). reflexivity.
Qed.

Lemma font_family_avoids (c : char) (f : str) :
  avoids c f = true -> avoids c (Pdf.font_family f) = true.
Proof.
  intros H. unfold Pdf.font_family. destruct (contains _ f); [|exact H].
  apply avoids_before_first, H.
Qed.

(** The characters of the tags around the colour tag. *)
Definition affix_chars : str := u "<>/=.-bifontsze".

Ltac literals_avoid Hlit :=
  repeat match goal with
         | |- context [avoids ?c (u ?s)] => rewrite (Hlit (u s) eq_refl)
         end.

Lemma span_affix_avoids (c : char) (sp : Pdf.span) :
  is_digit c = false -> avoids c affix_chars = true ->
  avoids c (default [] (Pdf.font sp)) = true ->
  avoids c (span_prefix sp) = true /\ avoids c (span_suffix sp) = true.
Proof.
  intros Hd Hc Hf.
  assert (Hlit : forall a, forallb (fun x => existsb (N.eqb x) affix_chars) a = true ->
                           avoids c a = true).
  { intros a Ha. exact (avoids_incl c a affix_chars Ha Hc). }
  assert (Hfmt : forall x, avoids c (Pdf.fmt_1f x) = true).
  { intros x. apply fmt_1f_avoids; [exact Hd | |]; intros ->; discriminate Hc. }
  unfold span_prefix, span_suffix. cbv zeta. split.
  - rewrite !avoids_app, Hfmt, (font_family_avoids c _ Hf).
    destruct (Pdf.is_italic _), (Pdf.is_bold _); literals_avoid Hlit; reflexivity.
  - rewrite !avoids_app.
    destruct (Pdf.is_italic _), (Pdf.is_bold _); literals_avoid Hlit; reflexivity.
Qed.

Lemma colour_tags_avoid (c : char) (h : str) :
  ColorRe.is_hex c = false -> avoids c (u "<>/#") = true ->
  forallb ColorRe.is_hex h = true ->
  avoids c (ColorRe.open_tag h) = true /\ avoids c (ColorRe.close_tag h) = true.
Proof.
  intros Hx Hc Hh.
  assert (Hlit : forall a, forallb (fun x => existsb (N.eqb x) (u "<>/#")) a = true ->
                           avoids c a = true).
  { intros a Ha. exact (avoids_incl c a _ Ha Hc). }
  unfold ColorRe.open_tag, ColorRe.close_tag.
  rewrite !avoids_app, (hex_avoids c h Hx Hh). literals_avoid Hlit. split; reflexivity.
Qed.

Lemma span_rgb_ok (sp : Pdf.span) : rgb_ok (span_rgb sp) = true.
Proof.
  destruct (unpack_rgb (default 0 (Pdf.color sp))) as (Hr & Hg & Hb & _).
  unfold rgb_ok, span_rgb. cbn [forallb Docx.red Docx.green Docx.blue].
  repeat (apply andb_true_intro; split); try reflexivity; lia.
Qed.

Lemma span_hex_valid (sp : Pdf.span) : valid_hex (Docx.rgb_str (span_rgb sp)).
Proof. apply rgb_str_valid, span_rgb_ok. Qed.

(** *** The text of a PDF in the HTML *)

(** The spans of a block, and of a PDF. *)
Definition block_spans (b : Pdf.block) : list Pdf.span :=
  match b with
  | None => []
  | Some lines => concat lines
  end.

Definition pdf_spans (doc : Pdf.pdf) : list Pdf.span :=
  concat (List.map block_spans (concat doc)).

(** A span in the HTML: its tags as they are, but for the colour tag. *)
Definition span_in_html (sp : Pdf.span) : option str :=
  match strip (Pdf.text sp) with
  | [] => None
  | t => Some (span_prefix sp ++ Html.span (Docx.rgb_str (span_rgb sp)) ++ t
               ++ u "</span>" ++ span_suffix sp)
  end.

Definition html_paragraph (b : Pdf.block) : option str :=
  match omap span_in_html (block_spans b) with
  | [] => None
  | spans => Some (concat spans)
  end.

(** No '#' and no newline in the text and in the font name. *)
Definition html_safe (sp : Pdf.span) : bool :=
  forallb (fun c => avoids c (Pdf.text sp) && avoids c (default [] (Pdf.font sp)))
          [hash; newline].

Lemma html_safe_inv (sp : Pdf.span) :
  html_safe sp = true ->
  avoids hash (strip (Pdf.text sp)) = true /\ avoids newline (strip (Pdf.text sp)) = true
  /\ avoids hash (span_prefix sp) = true /\ avoids newline (span_prefix sp) = true
  /\ avoids hash (span_suffix sp) = true /\ avoids newline (span_suffix sp) = true.
Proof.
  unfold html_safe. cbn [forallb]. rewrite andb_true_r, !andb_true_iff.
  intros [[Ht Hf] [Ht' Hf']].
  destruct (span_affix_avoids hash sp eq_refl eq_refl Hf) as [H1 H2].
  destruct (span_affix_avoids newline sp eq_refl eq_refl Hf') as [H3 H4].
  split_and!; try assumption; apply avoids_strip; assumption.
Qed.

Lemma block_paragraph_spans (b : Pdf.block) :
  block_paragraph b = match omap Pdf.styled_span (block_spans b) with
                      | [] => None
                      | spans => Some (concat spans)
                      end.
Proof. destruct b; reflexivity. Qed.

(** The spans after a text [g] that is written as it is. *)
Lemma body_spans (spans : list Pdf.span) :
  Forall (fun sp => html_safe sp = true) spans ->
  forall g : str, avoids hash g = true -> avoids newline g = true ->
    Html.body (g ++ concat (omap Pdf.styled_span spans))
    = g ++ concat (omap span_in_html spans)
    /\ avoids newline (concat (omap Pdf.styled_span spans)) = true.
Proof.
  induction 1 as [|sp spans Hsp _ IH]; intros g Hg Hn.
  - cbn [omap list_omap concat]. rewrite app_nil_r. split; [|reflexivity].
    apply body_hashless; assumption.
  - cbn [omap list_omap]. rewrite styled_span_parts. unfold span_in_html.
    destruct (html_safe_inv sp Hsp) as (Ht & Ht' & Hp & Hp' & Hs & Hs').
    pose proof (span_hex_valid sp) as Hv.
    destruct (strip (Pdf.text sp)) as [|c t] eqn:Et; [exact (IH g Hg Hn)|].
    set (T := c :: t) in *. clearbody T.
    destruct (IH (span_suffix sp) Hs Hs') as [IH1 IH2].
    destruct (colour_tags_avoid newline _ eq_refl eq_refl (proj2 Hv)) as [Ho Hc].
    cbn [concat]. split.
    + rewrite <- !app_assoc. rewrite (app_assoc g (span_prefix sp)).
      rewrite (body_open_tag _ _ _ Hv), (body_close_tag _ _ _ Hv), IH1.
      rewrite body_hashless by (rewrite avoids_app; apply andb_true_intro; split; assumption).
      rewrite (body_hashless T Ht Ht'). rewrite <- !app_assoc. reflexivity.
    + rewrite !avoids_app, Hp', Ho, Ht', Hc, Hs', IH2. reflexivity.
Qed.

Lemma styled_none (sp : Pdf.span) :
  Pdf.styled_span sp = None <-> span_in_html sp = None.
Proof.
  rewrite styled_span_parts. unfold span_in_html.
  destruct (strip (Pdf.text sp)); split; intros; (reflexivity || discriminate).
Qed.

Lemma styled_nil (spans : list Pdf.span) :
  omap Pdf.styled_span spans = [] <-> omap span_in_html spans = [].
Proof.
  induction spans as [|sp spans IH]; [tauto|]. cbn [omap list_omap].
  pose proof (styled_none sp) as Hn.
  destruct (Pdf.styled_span sp), (span_in_html sp); try exact IH.
  - split; discriminate.
  - destruct Hn as [_ Hn]. discriminate Hn. reflexivity.
  - destruct Hn as [Hn _]. discriminate Hn. reflexivity.
Qed.

Lemma Forall_pdf_spans (P : Pdf.span -> Prop) (bs : list Pdf.block) :
  Forall P (concat (List.map block_spans bs)) ->
  Forall (fun b => Forall P (block_spans b)) bs.
Proof.
  induction bs as [|b bs IH]; [constructor|]. cbn [List.map concat].
  intros H. apply Forall_app in H as [Hb Hbs]. constructor; [exact Hb | exact (IH Hbs)].
Qed.

Lemma body_paragraphs (bs : list Pdf.block) :
  Forall (fun b => Forall (fun sp => html_safe sp = true) (block_spans b)) bs ->
  List.map Html.body (omap block_paragraph bs) = omap html_paragraph bs
  /\ Forall (fun p => avoids 10%N p = true) (omap block_paragraph bs).
Proof.
  induction 1 as [|b bs Hb _ [IH1 IH2]]; [split; [reflexivity | constructor]|].
  cbn [omap list_omap]. rewrite block_paragraph_spans. unfold html_paragraph.
  destruct (body_spans (block_spans b) Hb [] eq_refl eq_refl) as [Hbody Hn].
  cbn [app] in Hbody. pose proof (styled_nil (block_spans b)) as Hnil.
  destruct (omap Pdf.styled_span (block_spans b)) as [|s ss] eqn:Es.
  - rewrite (proj1 Hnil eq_refl). split; assumption.
  - destruct (omap span_in_html (block_spans b)) as [|h hs] eqn:Eh.
    + destruct Hnil as [_ Hnil]. discriminate (Hnil eq_refl).
    + cbn [List.map]. split; [|constructor; assumption].
      f_equal; [exact Hbody | exact IH1].
Qed.

(** X25. The text of a PDF in the HTML.  When no span has a '#' or a
    newline in its text or in its font name, the HTML that
    [convert_custom_text_to_html] makes of the text of
    [extract_text_from_pdf] is the template around the paragraphs of the
    blocks joined by [</p><p>], in which every span that is not blank is
    written with its tags [<i>], [<b>], [<size=...>] and [<font=...>] and
    their closing tags as the extractor wrote them, only the colour tag
    being rewritten, as a [span] with the style [color:#RRGGBB;] and
    [</span>]. *)
Theorem pdf_markup_in_html (doc : Pdf.pdf) :
  Forall (fun sp => html_safe sp = true) (pdf_spans doc) ->
  Html.convert_custom_text_to_html (Pdf.extract_text_from_pdf doc)
  = Html.header ++ join (u "</p><p>") (omap html_paragraph (concat doc)) ++ Html.footer.
Proof.
  intros Hsafe. apply Forall_pdf_spans in Hsafe.
  destruct (body_paragraphs (concat doc) Hsafe) as [Hmap Hn].
  unfold Html.convert_custom_text_to_html. rewrite pdf_text_join. unfold pdf_paragraphs.
  rewrite (body_join _ Hn), Hmap. reflexivity.
Qed.

Definition red_span : Pdf.span :=
  {| Pdf.text := u " Total: 5 "; Pdf.font := Some (u "Arial-BoldItalic");
     Pdf.size := Some 11.5%Q; Pdf.color := Some 0xFF0000 |}.

Definition plain_span : Pdf.span :=
  {| Pdf.text := u "due"; Pdf.font := None; Pdf.size := None; Pdf.color := None |}.

Definition two_blocks : Pdf.pdf := [[Some [[red_span; plain_span]]; None]; [Some [[plain_span]]]].

Lemma pdf_markup_in_html_witness :
  Html.convert_custom_text_to_html (Pdf.extract_text_from_pdf two_blocks)
  = Html.header
      ++ u "<i><b><size=11.5><font=Arial><span style=" ++ [Html.quote] ++ u "color:#FF0000;"
      ++ [Html.quote] ++ u ">Total: 5</span></font></size></b></i>"
      ++ u "<size=12.0><font=><span style=" ++ [Html.quote] ++ u "color:#000000;"
      ++ [Html.quote] ++ u ">due</span></font></size>"
      ++ u "</p><p>"
      ++ u "<size=12.0><font=><span style=" ++ [Html.quote] ++ u "color:#000000;"
      ++ [Html.quote] ++ u ">due</span></font></size>"
      ++ Html.footer.
Proof.
  rewrite (pdf_markup_in_html two_blocks); [vm_compute; reflexivity|].
  repeat constructor.
Defined.

(** *** The text of a PDF in the DOCX *)

Section GapSearch.
Import ColorRe.

(** The closing tag is not found before the end of a text without '#'. *)
Lemma find_sub_hashless (h inner rest : str) :
  avoids hash inner = true ->
  find_sub (close_tag h) (inner ++ close_tag h ++ rest) = Some (inner, rest).
Proof.
  intros Hin. induction inner as [|c inner IH].
  - cbn [app]. destruct (close_tag h ++ rest) as [|x s] eqn:E; [discriminate|].
    cbn [find_sub]. rewrite <- E, startswith_app, drop_app_length. reflexivity.
  - rewrite avoids_cons in Hin. apply andb_true_iff in Hin as [Hc Hin].
    cbn [app find_sub].
    assert (Hs : startswith (close_tag h) (c :: inner ++ close_tag h ++ rest) = false).
    { destruct (startswith _ _) eqn:E; [|reflexivity]. exfalso.
      apply startswith_spec in E as [t E].
      change (close_tag h) with (lt_sign :: ch "/" :: hash :: h ++ u ">") in E.
      destruct inner as [|x [|y inner]]; cbn [app] in E.
      - injection E as _ E _. discriminate E.
      - injection E as _ _ E _. discriminate E.
      - injection E as _ _ E _. subst y. rewrite !avoids_cons in Hin.
        rewrite N.eqb_refl, andb_false_r in Hin. discriminate Hin. }
    rewrite Hs, (IH Hin). reflexivity.
Qed.

Lemma match_at_hashless_tag (h inner rest : str) :
  valid_hex h -> avoids hash inner = true ->
  match_at (open_tag h ++ inner ++ close_tag h ++ rest) = Some (h, inner, rest).
Proof.
  intros [Hl Hh] Hin. unfold match_at, open_tag. rewrite <- !app_assoc.
  rewrite startswith_app.
  replace (drop 2 (u "<#" ++ h ++ u ">" ++ inner ++ close_tag h ++ rest))
    with (h ++ u ">" ++ inner ++ close_tag h ++ rest) by reflexivity.
  rewrite take_app_length' by (symmetry; exact Hl).
  rewrite Hl, Hh. rewrite drop_app_length' by (symmetry; exact Hl).
  cbn [Nat.eqb andb]. rewrite startswith_app. cbn [andb].
  replace (drop 7 (h ++ u ">" ++ inner ++ close_tag h ++ rest))
    with (inner ++ close_tag h ++ rest).
  - rewrite (find_sub_hashless h inner rest Hin). reflexivity.
  - replace 7%nat with (6 + 1)%nat by reflexivity.
    rewrite <- drop_drop, drop_app_length' by (symmetry; exact Hl). reflexivity.
Qed.

(** No tag starts where the next character is not '#'. *)
Lemma match_at_second (c : char) (s : str) :
  head s <> Some hash -> match_at (c :: s) = None.
Proof.
  intros Hs. unfold match_at.
  destruct (startswith (u "<#") (c :: s)) eqn:E; [|reflexivity]. exfalso.
  apply startswith_spec in E as [t E]. change (u "<#" ++ t) with (lt_sign :: hash :: t) in E.
  injection E as _ ->. apply Hs. reflexivity.
Qed.

(** The first colour tag after a text without '#'. *)
Lemma colour_search_gap (g h inner rest : str) :
  avoids hash g = true -> valid_hex h -> avoids hash inner = true ->
  search (g ++ open_tag h ++ inner ++ close_tag h ++ rest)
  = Some ({| gap := g; hex := h; inner := inner |}, rest).
Proof.
  intros Hg Hv Hin. induction g as [|c g IH].
  - cbn [app]. destruct (open_tag h ++ inner ++ close_tag h ++ rest) as [|x s] eqn:E;
      [discriminate|].
    cbn [search]. rewrite <- E, (match_at_hashless_tag h inner rest Hv Hin). reflexivity.
  - rewrite avoids_cons in Hg. apply andb_true_iff in Hg as [Hc Hg].
    cbn [app search]. rewrite match_at_second.
    + rewrite (IH Hg). reflexivity.
    + destruct g as [|x g]; [discriminate|]. cbn [app head].
      rewrite avoids_cons in Hg. apply andb_true_iff in Hg as [Hx _].
      intros [= ->]. discriminate Hx.
Qed.
End GapSearch.

(** The runs that the spans of a block become, after a text [g] that is
    still to be written: the tags between two colour tags are one plain
    run, the text of a span is one run with the colour of the span. *)
Fixpoint span_runs (g : str) (spans : list Pdf.span) : list Docx.run :=
  match spans with
  | [] =>
      match g with
      | [] => []
      | _ => [new_run g None None]
      end
  | sp :: spans' =>
      match strip (Pdf.text sp) with
      | [] => span_runs g spans'
      | t => new_run (g ++ span_prefix sp) None None
             :: new_run t None (Some (span_rgb sp))
             :: span_runs (span_suffix sp) spans'
      end
  end.

Definition docx_paragraph (b : Pdf.block) : option Docx.paragraph :=
  match span_runs [] (block_spans b) with
  | [] => None
  | rs => Some {| Docx.style := u "Normal"; Docx.runs := rs |}
  end.

(** No '#', '*', '_' and newline in the text and in the font name, which
    are made of characters that python-docx takes. *)
Definition docx_safe (sp : Pdf.span) : bool :=
  forallb (fun c => avoids c (Pdf.text sp) && avoids c (default [] (Pdf.font sp)))
          [hash; newline; Re.star; Re.underscore]
  && xml_text (Pdf.text sp) && xml_text (default [] (Pdf.font sp)).

Definition quiet (g : str) : Prop :=
  avoids hash g = true /\ avoids Re.star g = true /\ avoids Re.underscore g = true.

Lemma quiet_app (a b : str) : quiet a -> quiet b -> quiet (a ++ b).
Proof.
  intros (H1 & H2 & H3) (H4 & H5 & H6). unfold quiet. rewrite !avoids_app.
  rewrite H1, H2, H3, H4, H5, H6. auto.
Qed.

Lemma docx_safe_inv (sp : Pdf.span) :
  docx_safe sp = true ->
  html_safe sp = true /\ quiet (strip (Pdf.text sp))
  /\ quiet (span_prefix sp) /\ quiet (span_suffix sp).
Proof.
  unfold docx_safe. cbn [forallb]. rewrite andb_true_r, !andb_true_iff.
  intros [[([Ht1 Hf1] & [Ht2 Hf2] & [Ht3 Hf3] & [Ht4 Hf4]) _] _].
  destruct (span_affix_avoids hash sp eq_refl eq_refl Hf1) as [H1 H2].
  destruct (span_affix_avoids Re.star sp eq_refl eq_refl Hf3) as [H3 H4].
  destruct (span_affix_avoids Re.underscore sp eq_refl eq_refl Hf4) as [H5 H6].
  split.
  - unfold html_safe. cbn [forallb]. rewrite Ht1, Hf1, Ht2, Hf2. reflexivity.
  - unfold quiet. split_and!; try assumption; apply avoids_strip; assumption.
Qed.

Lemma span_prefix_head (sp : Pdf.span) : exists w, span_prefix sp = lt_sign :: w.
Proof.
  unfold span_prefix. cbv zeta.
  destruct (Pdf.is_italic _), (Pdf.is_bold _); eexists; reflexivity.
Qed.

Section SpanRuns.
Import Docx.

(** A text without markers is one plain run. *)
Lemma add_runs_quiet (para : paragraph) (t : str) (c : option rgb) :
  t <> [] -> quiet t ->
  Tokenizer._add_runs_from_text para t c = Some (add_runs para [new_run t None c]).
Proof.
  intros Hne (_ & H1 & H2). rewrite add_runs_unfold. destruct t as [|x t]; [congruence|].
  rewrite (earliest_unmarked _ H1 H2). reflexivity.
Qed.

(** The matches of the colour-tag pattern in the spans after [g]. *)
Fixpoint span_matches (g : str) (spans : list Pdf.span) : list ColorRe.cmatch * str :=
  match spans with
  | [] => ([], g)
  | sp :: spans' =>
      match strip (Pdf.text sp) with
      | [] => span_matches g spans'
      | t =>
          let '(ms, sfx) := span_matches (span_suffix sp) spans' in
          ({| ColorRe.gap := g ++ span_prefix sp;
              ColorRe.hex := rgb_str (span_rgb sp);
              ColorRe.inner := t |} :: ms, sfx)
      end
  end.

Lemma finditer_spans (spans : list Pdf.span) :
  Forall (fun sp => docx_safe sp = true) spans ->
  forall (g : str) (fuel : nat),
    quiet g -> (length (g ++ concat (omap Pdf.styled_span spans)) <= fuel)%nat ->
    ColorRe.finditer fuel (g ++ concat (omap Pdf.styled_span spans))
    = Some (span_matches g spans).
Proof.
  induction 1 as [|sp spans Hsp _ IH]; intros g fuel Hg Hfuel.
  - cbn [omap list_omap concat span_matches]. rewrite app_nil_r.
    destruct fuel; cbn [ColorRe.finditer];
      rewrite (colour_search_hashless g (proj1 Hg)); reflexivity.
  - cbn [omap list_omap span_matches] in *. rewrite styled_span_parts in *.
    destruct (docx_safe_inv sp Hsp) as (_ & Ht & Hp & Hs).
    destruct (strip (Pdf.text sp)) as [|c t] eqn:Et; [exact (IH g fuel Hg Hfuel)|].
    set (T := c :: t) in *. cbn [concat] in *. rewrite <- !app_assoc in *.
    rewrite (app_assoc g (span_prefix sp)) in *.
    pose proof (colour_search_gap (g ++ span_prefix sp) (rgb_str (span_rgb sp)) T
                  (span_suffix sp ++ concat (omap Pdf.styled_span spans))
                  (proj1 (quiet_app _ _ Hg Hp)) (span_hex_valid sp) (proj1 Ht)) as Hsearch.
    assert (Hlen : (S (length (span_suffix sp ++ concat (omap Pdf.styled_span spans)))
                    <= fuel)%nat).
    { rewrite !length_app in Hfuel. rewrite length_app. subst T. cbn [length] in Hfuel. lia. }
    destruct fuel as [|fuel]; [lia|].
    cbn [ColorRe.finditer]. rewrite Hsearch.
    rewrite (IH (span_suffix sp) fuel Hs) by lia.
    destruct (span_matches (span_suffix sp) spans) as [ms sfx]. reflexivity.
Qed.

Lemma color_loop_spans (spans : list Pdf.span) :
  Forall (fun sp => docx_safe sp = true) spans ->
  forall (g : str) (para : paragraph),
    quiet g ->
    (para' ← Reconstruct.color_loop para (fst (span_matches g spans));
     match snd (span_matches g spans) with
     | [] => Some para'
     | sfx => Tokenizer._add_runs_from_text para' sfx None
     end)
    = Some (add_runs para (span_runs g spans)).
Proof.
  induction 1 as [|sp spans Hsp _ IH]; intros g para Hg.
  - cbn [span_matches span_runs fst snd Reconstruct.color_loop mbind option_bind].
    destruct g as [|x g]; [rewrite add_runs_nil; reflexivity|].
    apply add_runs_quiet; [discriminate | exact Hg].
  - cbn [span_matches span_runs].
    destruct (docx_safe_inv sp Hsp) as (_ & Ht & Hp & Hs).
    destruct (strip (Pdf.text sp)) as [|c t] eqn:Et; [exact (IH g para Hg)|].
    set (T := c :: t) in *.
    specialize (IH (span_suffix sp)
                   (add_runs para [new_run (g ++ span_prefix sp) None None;
                                   new_run T None (Some (span_rgb sp))]) Hs).
    destruct (span_matches (span_suffix sp) spans) as [ms sfx]. cbn [fst snd] in *.
    cbn [Reconstruct.color_loop]. unfold Reconstruct.color_step.
    cbn [ColorRe.gap ColorRe.hex ColorRe.inner].
    rewrite tokenize_nil_gap.
    rewrite (add_runs_quiet para (g ++ span_prefix sp) None).
    + cbn [mbind option_bind]. unfold Reconstruct.rgb_or_none.
      rewrite (hex_roundtrip _ (span_rgb_ok sp)).
      rewrite (add_runs_quiet _ T (Some (span_rgb sp)) ltac:(discriminate) Ht).
      cbn [mbind option_bind]. rewrite add_runs_app. cbn [app].
      rewrite IH, add_runs_app. reflexivity.
    + destruct (span_prefix_head sp) as [w ->]. destruct g; discriminate.
    + apply quiet_app; assumption.
Qed.

Lemma fill_para_spans (spans : list Pdf.span) (para : paragraph) :
  Forall (fun sp => docx_safe sp = true) spans ->
  Reconstruct.fill_para para (concat (omap Pdf.styled_span spans))
  = Some (add_runs para (span_runs [] spans)).
Proof.
  intros Hok. unfold Reconstruct.fill_para.
  pose proof (finditer_spans spans Hok [] (length (concat (omap Pdf.styled_span spans)))
                (conj eq_refl (conj eq_refl eq_refl))) as Hf.
  cbn [app] in Hf. rewrite Hf by lia.
  pose proof (color_loop_spans spans Hok [] para (conj eq_refl (conj eq_refl eq_refl)))
    as Hl.
  destruct (span_matches [] spans) as [ms sfx]. cbn [fst snd mbind option_bind] in *.
  destruct sfx; exact Hl.
Qed.
End SpanRuns.

Section PdfToDocx.
Import Docx.

Lemma span_runs_blank (spans : list Pdf.span) (g : str) :
  omap Pdf.styled_span spans = [] -> span_runs g spans = span_runs g [].
Proof.
  induction spans as [|sp spans IH]; [reflexivity|]. cbn [omap list_omap span_runs].
  rewrite styled_span_parts. destruct (strip (Pdf.text sp)); [exact IH | discriminate].
Qed.

Lemma span_runs_some (spans : list Pdf.span) (g : str) :
  omap Pdf.styled_span spans <> [] -> span_runs g spans <> [].
Proof.
  induction spans as [|sp spans IH]; [intros H; contradiction H; reflexivity|].
  cbn [omap list_omap span_runs].
  rewrite styled_span_parts. destruct (strip (Pdf.text sp)); [exact IH | discriminate].
Qed.

Lemma tagged_line (p : str) : tagged p -> avoids 10%N p = true -> line_ok p.
Proof.
  intros [m ->] Hn. split; [|exact Hn].
  change (ch "<" :: m ++ [ch ">"]) with ((ch "<" :: m) ++ [ch ">"]).
  apply edge_ok_app; reflexivity.
Qed.

(** The paragraph that the text of a block becomes. *)
Lemma process_paragraph (b : Pdf.block) (p : str) :
  Forall (fun sp => docx_safe sp = true) (block_spans b) ->
  block_paragraph b = Some p ->
  exists para,
    docx_paragraph b = Some para
    /\ Reconstruct._process_block_into_para p = Some (Ok para)
    /\ line_ok p.
Proof.
  intros Hok Hp. pose proof (block_paragraph_tagged b p Hp) as Htag.
  rewrite block_paragraph_spans in Hp.
  pose proof (fill_para_spans (block_spans b) (Reconstruct.add_paragraph [] (u "Normal")) Hok)
    as Hfill.
  assert (Hsafe : Forall (fun sp => html_safe sp = true) (block_spans b)).
  { eapply Forall_impl; [exact Hok|]. intros sp H. exact (proj1 (docx_safe_inv sp H)). }
  destruct (body_spans (block_spans b) Hsafe [] eq_refl eq_refl) as [_ Hn].
  pose proof (span_runs_some (block_spans b) []) as Hruns.
  assert (Hpe : concat (omap Pdf.styled_span (block_spans b)) = p
                /\ omap Pdf.styled_span (block_spans b) <> []).
  { destruct (omap Pdf.styled_span (block_spans b)) as [|s ss]; [discriminate|].
    apply (inj Some) in Hp. split; [exact Hp | discriminate]. }
  destruct Hpe as [Hpe Hne]. rewrite Hpe in Hfill, Hn. specialize (Hruns Hne).
  unfold docx_paragraph.
  destruct (span_runs [] (block_spans b)) as [|r rs] eqn:Er; [congruence|].
  eexists. split; [reflexivity|]. split; [|exact (tagged_line p Htag Hn)].
  unfold Reconstruct._process_block_into_para.
  assert (H1 : startswith (u "#") p = false) by (destruct Htag as [m ->]; reflexivity).
  assert (H2 : startswith [bullet; ch " "] p = false)
    by (destruct Htag as [m ->]; reflexivity).
  assert (H3 : startswith (u "1. ") p = false) by (destruct Htag as [m ->]; reflexivity).
  rewrite H1, H2, H3, Hfill. reflexivity.
Qed.

Lemma process_paragraphs (bs : list Pdf.block) :
  Forall (fun b => Forall (fun sp => docx_safe sp = true) (block_spans b)) bs ->
  Forall2 (fun p l => Reconstruct._process_block_into_para l = Some (Ok p) /\ line_ok l)
          (omap docx_paragraph bs) (omap block_paragraph bs).
Proof.
  induction 1 as [|b bs Hb _ IH]; [constructor|]. cbn [omap list_omap].
  destruct (block_paragraph b) as [p|] eqn:Ep.
  - destruct (process_paragraph b p Hb Ep) as (para & -> & Hpara & Hline).
    constructor; [split; assumption | exact IH].
  - rewrite block_paragraph_spans in Ep. unfold docx_paragraph.
    destruct (omap Pdf.styled_span (block_spans b)) as [|s ss] eqn:Es; [|discriminate].
    rewrite (span_runs_blank _ [] Es). exact IH.
Qed.
End PdfToDocx.

(** X26. The text of a PDF in the DOCX.  When no span has a '#', a '*',
    a '_' or a newline in its text or in its font name, [save_docx_text]
    makes of the text of [extract_text_from_pdf] one "Normal" paragraph
    for each block that has a span that is not blank.  The tags [<i>],
    [<b>], [<size=...>] and [<font=...>] and their closing tags are not
    read: they are the text of plain runs, one before the first span,
    one between two spans (the closing tags of the one and the opening
    tags of the next) and one after the last; every span that is not
    blank is one run with its stripped text and the colour of the span,
    neither bold nor italic. *)
Theorem pdf_markup_in_docx (doc : Pdf.pdf) :
  Forall (fun sp => docx_safe sp = true) (pdf_spans doc) ->
  Reconstruct.save_docx_text (Pdf.extract_text_from_pdf doc)
  = Some (Ok {| Docx.paragraphs := omap docx_paragraph (concat doc); Docx.tables := [] |}).
Proof.
  intros Hsafe. apply Forall_pdf_spans in Hsafe.
  pose proof (process_paragraphs (concat doc) Hsafe) as Hall.
  rewrite pdf_text_join. unfold pdf_paragraphs.
  assert (Hlines : Forall line_ok (omap block_paragraph (concat doc))).
  { clear -Hall. induction Hall as [|p l ps ls [_ Hl] _ IH]; constructor; assumption. }
  destruct (split_lines _ Hlines) as [Hsplit Hstrip].
  unfold Reconstruct.save_docx_text. fold sep. rewrite Hsplit.
  cbn [mbind option_bind].
  destruct (omap block_paragraph (concat doc)) as [|l ls].
  - inversion Hall. reflexivity.
  - rewrite (blocks_loop_lines _ _ Hall []). reflexivity.
Qed.

Lemma pdf_markup_in_docx_witness :
  Reconstruct.save_docx_text (Pdf.extract_text_from_pdf two_blocks)
  = Some (Ok {| Docx.paragraphs :=
                  [ {| Docx.style := u "Normal";
                       Docx.runs :=
                         [ mk_run (u "<i><b><size=11.5><font=Arial>") false false false None;
                           mk_run (u "Total: 5") false false false
                                  (Some (Docx.RGBColor 255 0 0));
                           mk_run (u "</font></size></b></i><size=12.0><font=>")
                                  false false false None;
                           mk_run (u "due") false false false (Some (Docx.RGBColor 0 0 0));
                           mk_run (u "</font></size>") false false false None ] |};
                    {| Docx.style := u "Normal";
                       Docx.runs :=
                         [ mk_run (u "<size=12.0><font=>") false false false None;
                           mk_run (u "due") false false false (Some (Docx.RGBColor 0 0 0));
                           mk_run (u "</font></size>") false false false None ] |} ];
                Docx.tables := [] |}).
Proof.
  rewrite (pdf_markup_in_docx two_blocks); [vm_compute; reflexivity|].
  repeat constructor.
Defined.

(** * The error path of the colours and the round trip of the markup *)

(** *** The error path of the colour conversion *)

(** The patterns of [int16] on literal characters, as tests. *)
Lemma sign_cases (s : str) :
  match s with
  | 43%N :: t => (1, t)
  | 45%N :: t => (-1, t)
  | _ => (1, s)
  end
  = match s with
    | c :: t => if (c =? 43)%N then (1, t) else if (c =? 45)%N then (-1, t) else (1, s)
    | [] => (1, s)
    end.
Proof.
  destruct s as [|c t]; [reflexivity|]. destruct c as [|p]; [reflexivity|].
  do 6 (try destruct p as [p|p|]); reflexivity.
Qed.

Lemma prefix_cases (s : str) :
  match s with
  | 48%N :: x :: t =>
      if ((x =? 120) || (x =? 88))%N
      then match t with 95%N :: t' => t' | _ => t end
      else s
  | _ => s
  end
  = match s with
    | c :: x :: t =>
        if ((c =? 48) && ((x =? 120) || (x =? 88)))%N
        then match t with 95%N :: t' => t' | _ => t end
        else s
    | _ => s
    end.
Proof.
  destruct s as [|c [|x t]]; try reflexivity.
  - destruct c as [|p]; [reflexivity|]. do 6 (try destruct p as [p|p|]); reflexivity.
  - destruct c as [|p]; [reflexivity|].
    do 6 (try destruct p as [p|p|]); try reflexivity;
      destruct ((x =? 120) || (x =? 88))%N; reflexivity.
Qed.

(** [int16], its patterns on literal characters written as tests. *)
Definition int16_tests (s : str) : option Z :=
  let s := dropwhile_space s in
  let '(sign, s) :=
    match s with
    | c :: t => if (c =? 43)%N then (1, t) else if (c =? 45)%N then (-1, t) else (1, s)
    | [] => (1, s)
    end in
  let s :=
    match s with
    | c :: x :: t =>
        if ((c =? 48) && ((x =? 120) || (x =? 88)))%N
        then match t with 95%N :: t' => t' | _ => t end
        else s
    | _ => s
    end in
  match s with
  | d :: t =>
      match hex_value d with
      | Some v => option_map (Z.mul sign) (int16_digits v t)
      | None => None
      end
  | [] => None
  end.

Lemma int16_as_tests (s : str) : int16 s = int16_tests s.
Proof.
  unfold int16, int16_tests. cbv zeta. generalize (dropwhile_space s). clear s. intros s.
  rewrite (sign_cases s).
  destruct (match s with
            | c :: t =>
                if (c =? 43)%N then (1, t) else if (c =? 45)%N then (-1, t) else (1, s)
            | [] => (1, s)
            end) as [sign s2].
  rewrite (prefix_cases s2). reflexivity.
Qed.

(** The characters that [int(s, 16)] takes in a text of two characters:
    hexadecimal digits, white space and signs. *)
Definition pair_char (c : char) : bool :=
  ColorRe.is_hex c || is_space c || (c =? 43)%N || (c =? 45)%N.

Lemma int16_pair_refused (a b : char) :
  pair_char a && pair_char b = false -> int16 [a; b] = None.
Proof.
  intros H. rewrite int16_as_tests. unfold int16_tests. cbn [dropwhile_space].
  assert (Hsp : forall c, pair_char c = false ->
                  int_space c = false /\ hex_value c = None
                  /\ (c =? 43)%N = false /\ (c =? 45)%N = false).
  { intros c Hc. unfold pair_char, ColorRe.is_hex in Hc.
    apply orb_false_iff in Hc as [Hc H45]. apply orb_false_iff in Hc as [Hc H43].
    apply orb_false_iff in Hc as [Hx Hs]. unfold int_space. rewrite Hs.
    destruct (hex_value c); [discriminate|]. auto. }
  assert (Hhs : forall c, int_space c = true -> pair_char c = true).
  { intros c Hc. unfold int_space in Hc. apply andb_true_iff in Hc as [Hc _].
    unfold pair_char. rewrite Hc, orb_true_r. reflexivity. }
  apply andb_false_iff in H.
  destruct (int_space a) eqn:Ea.
  - (* the first character is skipped *)
    assert (Hb : pair_char b = false).
    { destruct H as [H|H]; [|exact H]. rewrite (Hhs a Ea) in H. discriminate H. }
    destruct (Hsp b Hb) as (Hsb & Hxb & H43 & H45). rewrite Hsb.
    cbv zeta. rewrite H43, H45, Hxb. reflexivity.
  - cbv zeta.
    destruct (a =? 43)%N eqn:E43; [|destruct (a =? 45)%N eqn:E45].
    + assert (Hb : pair_char b = false).
      { destruct H as [H|H]; [|exact H]. unfold pair_char in H.
        rewrite E43, !orb_true_r in H. discriminate H. }
      destruct (Hsp b Hb) as (_ & Hxb & _ & _). rewrite Hxb. reflexivity.
    + assert (Hb : pair_char b = false).
      { destruct H as [H|H]; [|exact H]. unfold pair_char in H.
        rewrite E45, !orb_true_r in H. discriminate H. }
      destruct (Hsp b Hb) as (_ & Hxb & _ & _). rewrite Hxb. reflexivity.
    + destruct ((a =? 48) && ((b =? 120) || (b =? 88)))%N eqn:E0; [reflexivity|].
      destruct (hex_value a) as [va|] eqn:Exa; [|reflexivity].
      assert (Hb : pair_char b = false).
      { destruct H as [H|H]; [|exact H]. unfold pair_char, ColorRe.is_hex in H.
        rewrite Exa in H. discriminate H. }
      destruct (Hsp b Hb) as (Hsb & Hxb & _ & _).
      cbn [int16_digits]. rewrite Hxb. cbn [forallb]. rewrite Hsb.
      destruct (b =? 95)%N; reflexivity.
Qed.

Lemma six_characters (s : str) :
  len s = 6 -> exists a b c d e f, s = [a; b; c; d; e; f].
Proof.
  unfold len. intros H.
  destruct s as [|a [|b [|c [|d [|e [|f [|g s]]]]]]]; cbn [length] in H; try lia.
  eauto 7.
Qed.

(** Whatever the text, the conversion returns a colour with components
    in 0..255 or raises [ValueError]. *)
Lemma hex_to_rgbcolor_outcome (s : str) :
  (exists c, HexColor._hex_to_rgbcolor s = Ok c /\ rgb_ok c = true)
  \/ HexColor._hex_to_rgbcolor s = Raise ValueError.
Proof.
  unfold HexColor._hex_to_rgbcolor, HexColor.int16_or_raise. cbv zeta.
  destruct (negb (len (strip s) =? 6)); [right; reflexivity|].
  destruct (int16 (py_slice (strip s) 0 2)) as [r|]; [|right; reflexivity].
  destruct (int16 (py_slice (strip s) 2 4)) as [g|]; [|right; reflexivity].
  destruct (int16 (py_slice (strip s) 4 6)) as [b|]; [|right; reflexivity].
  cbn [bind]. unfold HexColor.new_RGBColor.
  destruct (forallb _ [r; g; b]) eqn:E; [|right; reflexivity].
  left. eexists. split; [reflexivity | exact E].
Qed.

(** Six characters of which one is no hexadecimal digit, white space or
    sign are refused. *)
Lemma hex_to_rgbcolor_refused (s : str) :
  len (strip s) = 6 -> forallb pair_char (strip s) = false ->
  HexColor._hex_to_rgbcolor s = Raise ValueError.
Proof.
  intros Hlen Hbad. destruct (hex_to_rgbcolor_outcome s) as [(col & Hc & _)|H]; [|exact H].
  exfalso. revert Hc. unfold HexColor._hex_to_rgbcolor, HexColor.int16_or_raise. cbv zeta.
  destruct (six_characters _ Hlen) as (a & b & c & d & e & f & Hs). rewrite Hs in *.
  change (py_slice [a; b; c; d; e; f] 0 2) with [a; b].
  change (py_slice [a; b; c; d; e; f] 2 4) with [c; d].
  change (py_slice [a; b; c; d; e; f] 4 6) with [e; f].
  cbn [forallb] in Hbad. rewrite andb_true_r in Hbad.
  destruct (pair_char a && pair_char b) eqn:E1.
  - destruct (pair_char c && pair_char d) eqn:E2.
    + assert (E3 : pair_char e && pair_char f = false).
      { rewrite !andb_assoc in Hbad. rewrite E1 in Hbad. cbn [andb] in Hbad.
        rewrite <- andb_assoc in Hbad. rewrite E2 in Hbad. exact Hbad. }
      rewrite (int16_pair_refused e f E3).
      destruct (negb _); [discriminate|].
      destruct (int16 [a; b]); [|discriminate]. destruct (int16 [c; d]); discriminate.
    + rewrite (int16_pair_refused c d E2).
      destruct (negb _); [discriminate|]. destruct (int16 [a; b]); discriminate.
  - rewrite (int16_pair_refused a b E1). destruct (negb _); discriminate.
Qed.

Section MalformedTag.
Import ColorRe.

(** No colour tag starts in a text without '#' that is followed by
    another character than '#'. *)
Lemma search_app_none (w s : str) :
  avoids hash w = true -> head s <> Some hash -> search s = None ->
  search (w ++ s) = None.
Proof.
  intros Hw Hs Hnone. induction w as [|c w IH]; [exact Hnone|].
  rewrite avoids_cons in Hw. apply andb_true_iff in Hw as [Hc Hw].
  cbn [app search]. rewrite match_at_second.
  - rewrite (IH Hw). reflexivity.
  - destruct w as [|x w]; [exact Hs|]. cbn [app head].
    rewrite avoids_cons in Hw. apply andb_true_iff in Hw as [Hx _].
    intros [= ->]. discriminate Hx.
Qed.

Lemma search_step_none (c : char) (s : str) :
  match_at (c :: s) = None -> search s = None -> search (c :: s) = None.
Proof. intros Hm Hs. cbn [search]. rewrite Hm, Hs. reflexivity. Qed.

Lemma search_cons_none (c : char) (s : str) :
  c <> lt_sign -> search s = None -> search (c :: s) = None.
Proof. intros Hc Hs. apply search_step_none; [apply match_at_fresh, Hc | exact Hs]. Qed.

(** A tag whose six characters are not all hexadecimal digits is no
    colour tag. *)
Definition malformed_tag_block (g h x rest : str) : str :=
  g ++ u "<#" ++ h ++ u ">" ++ x ++ u "</#" ++ h ++ u ">" ++ rest.

Lemma search_malformed (g h x rest : str) :
  length h = 6%nat -> forallb is_hex h = false ->
  avoids hash g = true -> avoids hash h = true -> avoids hash x = true ->
  avoids hash rest = true ->
  search (malformed_tag_block g h x rest) = None.
Proof.
  intros Hl Hh Hg Hhh Hx Hrest. unfold malformed_tag_block.
  assert (H6 : search (h ++ u ">" ++ rest) = None).
  { apply colour_search_hashless. rewrite !avoids_app, Hhh, Hrest. reflexivity. }
  assert (H4 : search (u "/#" ++ h ++ u ">" ++ rest) = None).
  { change (u "/#" ++ h ++ u ">" ++ rest) with (ch "/" :: hash :: h ++ u ">" ++ rest).
    apply search_cons_none; [discriminate|]. apply search_cons_none; [discriminate|].
    exact H6. }
  assert (H3 : search (h ++ u ">" ++ x ++ u "</#" ++ h ++ u ">" ++ rest) = None).
  { replace (h ++ u ">" ++ x ++ u "</#" ++ h ++ u ">" ++ rest)
      with ((h ++ u ">" ++ x ++ u "<") ++ u "/#" ++ h ++ u ">" ++ rest)
      by (rewrite <- !app_assoc; reflexivity).
    apply search_app_none; [|discriminate | exact H4].
    rewrite !avoids_app, Hhh, Hx. reflexivity. }
  apply search_app_none; [exact Hg | discriminate |].
  change (u "<#" ++ h ++ u ">" ++ x ++ u "</#" ++ h ++ u ">" ++ rest)
    with (lt_sign :: hash :: h ++ u ">" ++ x ++ u "</#" ++ h ++ u ">" ++ rest).
  apply search_step_none; [|exact (search_cons_none hash _ ltac:(discriminate) H3)].
  { unfold match_at.
    change (startswith (u "<#") (lt_sign :: hash :: ?t)) with true.
    change (drop 2 (lt_sign :: hash :: h ++ u ">" ++ x ++ u "</#" ++ h ++ u ">" ++ rest))
      with (h ++ u ">" ++ x ++ u "</#" ++ h ++ u ">" ++ rest).
    rewrite take_app_length' by (symmetry; exact Hl). rewrite Hh, andb_false_r.
    reflexivity. }
Qed.
End MalformedTag.

(** A text without markers and without '#', '*' and '_'. *)
Definition plain_part (w : str) : bool :=
  avoids hash w && avoids Re.star w && avoids Re.underscore w.

Lemma malformed_tag_block_plain (g h x rest : str) :
  forallb plain_part [g; h; x; rest] = true ->
  avoids Re.star (malformed_tag_block g h x rest) = true
  /\ avoids Re.underscore (malformed_tag_block g h x rest) = true
  /\ avoids hash g = true /\ avoids hash h = true /\ avoids hash x = true
  /\ avoids hash rest = true.
Proof.
  cbn [forallb]. unfold plain_part. rewrite !andb_true_iff.
  intros (((Hg1 & Hg2) & Hg3) & ((Hh1 & Hh2) & Hh3) & ((Hx1 & Hx2) & Hx3)
          & ((Hr1 & Hr2) & Hr3) & _).
  unfold malformed_tag_block. rewrite !avoids_app.
  rewrite Hg2, Hg3, Hh2, Hh3, Hx2, Hx3, Hr2, Hr3.
  split_and!; try assumption; reflexivity.
Qed.

(** The paragraph of a block with a tag that is no colour tag: one plain
    run with the whole block. *)
Lemma malformed_tag_paragraph (g h x rest : str) :
  length h = 6%nat -> forallb ColorRe.is_hex h = false ->
  forallb plain_part [g; h; x; rest] = true ->
  no_prefix (malformed_tag_block g h x rest) = true ->
  Reconstruct._process_block_into_para (malformed_tag_block g h x rest)
  = Some (Ok {| Docx.style := u "Normal";
                Docx.runs := [new_run (malformed_tag_block g h x rest) None None] |}).
Proof.
  intros Hl Hh Hplain Hpre.
  destruct (malformed_tag_block_plain g h x rest Hplain) as (Hs & Hu & Hg & Hhh & Hx & Hr).
  pose proof (search_malformed g h x rest Hl Hh Hg Hhh Hx Hr) as Hsearch.
  set (block := malformed_tag_block g h x rest) in *.
  assert (Hne : block <> []).
  { unfold block, malformed_tag_block. destruct g; discriminate. }
  unfold no_prefix in Hpre. rewrite !andb_true_iff, !negb_true_iff in Hpre.
  destruct Hpre as [[H1 H2] H3].
  unfold Reconstruct._process_block_into_para. rewrite H1, H2, H3.
  unfold Reconstruct.fill_para.
  assert (Hf : ColorRe.finditer (length block) block = Some ([], block)).
  { destruct (length block); cbn [ColorRe.finditer]; rewrite Hsearch; reflexivity. }
  rewrite Hf. cbn [mbind option_bind Reconstruct.color_loop].
  destruct block as [|c t] eqn:Eb; [congruence|]. rewrite <- Eb in *.
  rewrite add_runs_unfold. rewrite Eb at 1.
  rewrite (earliest_unmarked _ Hs Hu). reflexivity.
Qed.




(** *** The markup that the reconstructor reads back *)

(** The markup of a run without its colour tag. *)
Definition markup (r : Docx.run) : str := piece_text (piece_of r).

(** A text that the tokenizer reads as one run: a text without a match,
    or one match with nothing before it and nothing after it. *)
Definition single_run (t : str) : bool :=
  match t with
  | [] => false
  | _ =>
      match Tokenizer.earliest t with
      | None => true
      | Some (m, _) =>
          match Re.before m, Re.after m with
          | [], [] => true
          | _, _ => false
          end
      end
  end.

Section TokenizeMarkup.
Import Docx Tokenizer.

Definition styled_run (c : option rgb) (r : run) : Prop :=
  text r <> [] /\ single_style r = true /\ color r = c.

Lemma new_run_markup (t : str) (k : option kind) (c : option rgb) :
  t <> [] -> avoids 13%N t = true ->
  styled_run c (new_run t k c)
  /\ markup (new_run t k c)
     = match k with Some k => marker k ++ t ++ marker k | None => t end.
Proof.
  intros Ht H13. split.
  - split; [|split].
    + cbn [text new_run]. rewrite (run_text_id t H13). exact Ht.
    + destruct k as [[]|]; reflexivity.
    + reflexivity.
  - unfold markup, piece_text, piece_of. cbn [text bold italic underline new_run fst snd].
    rewrite (run_text_id t H13). destruct k as [[]|]; reflexivity.
Qed.

(** The runs of a text, put end to end with their markers, are the text:
    the tokenizer loses nothing. *)
Lemma tokenize_markup (c : option rgb) (n : nat) :
  forall (t : str) (para : paragraph),
    (length t <= n)%nat -> avoids 13%N t = true ->
    exists rs,
      _add_runs_from_text para t c = Some (add_runs para rs)
      /\ Forall (styled_run c) rs
      /\ concat (List.map markup rs) = t.
Proof.
  induction n as [|n IH]; intros t para Hlen H13.
  - destruct t; [|simpl in Hlen; lia]. exists []. split_and!.
    + cbn. rewrite add_runs_nil. reflexivity.
    + constructor.
    + reflexivity.
  - rewrite add_runs_unfold. destruct t as [|x t].
    { exists []. rewrite add_runs_nil. split_and!; [reflexivity | constructor | reflexivity]. }
    pose proof (earliest_spec (x :: t)) as Hsp.
    pose proof (earliest_shorter (x :: t)) as Hshort.
    destruct (earliest (x :: t)) as [[m k]|].
    + destruct Hsp as [Hm _]. apply search_split in Hm as [Hg Hs].
      specialize (Hshort m k eq_refl). cbv zeta.
      assert (Hparts : avoids 13%N (Re.before m) = true
                       /\ avoids 13%N (Re.group1 m) = true
                       /\ avoids 13%N (Re.after m) = true).
      { rewrite Hs in H13. rewrite !avoids_app in H13.
        apply andb_true_iff in H13 as [H1 H13]. apply andb_true_iff in H13 as [_ H13].
        apply andb_true_iff in H13 as [H2 H13]. apply andb_true_iff in H13 as [_ H3].
        auto. }
      destruct Hparts as (Hb13 & Hg13 & Ha13).
      set (para1 := if 0 <? Re.start m then add_run para (Re.before m) None c else para).
      destruct (IH (Re.after m) (add_run para1 (Re.group1 m) (Some k) c))
        as (rs & Hrun & Hall & Hcat); [simpl in *; lia | exact Ha13 |].
      set (pre := match Re.before m with [] => [] | b => [new_run b None c] end).
      assert (Hpara1 : para1 = add_runs para pre).
      { unfold para1, pre, Re.start. destruct (Re.before m) as [|y b].
        - cbn. rewrite add_runs_nil. reflexivity.
        - rewrite len_cons. pose proof (len_nonneg b).
          destruct (Z.ltb_spec 0 (len b + 1)); [|lia]. apply add_run_new. }
      assert (Hpre : Forall (styled_run c) pre
                     /\ concat (List.map markup pre) = Re.before m).
      { unfold pre. destruct (Re.before m) as [|y b] eqn:Eb.
        - split; [constructor | reflexivity].
        - destruct (new_run_markup (y :: b) None c ltac:(discriminate) Hb13) as [H1 H2].
          split; [constructor; [exact H1 | constructor]|].
          cbn [List.map concat]. rewrite H2. apply app_nil_r. }
      destruct Hpre as [Hpre1 Hpre2].
      destruct (new_run_markup (Re.group1 m) (Some k) c Hg Hg13) as [Hr1 Hr2].
      exists (pre ++ new_run (Re.group1 m) (Some k) c :: rs). split_and!.
      * rewrite Hrun, Hpara1, add_run_new, !add_runs_app. reflexivity.
      * apply Forall_app. split; [exact Hpre1|]. constructor; [exact Hr1 | exact Hall].
      * rewrite map_app, concat_app, Hpre2. cbn [List.map concat].
        rewrite Hr2, Hcat, Hs, <- !app_assoc. reflexivity.
    + destruct (new_run_markup (x :: t) None c ltac:(discriminate) H13) as [H1 H2].
      exists [new_run (x :: t) None c]. split_and!.
      * apply f_equal, add_run_new.
      * constructor; [exact H1 | constructor].
      * cbn [List.map concat]. rewrite H2. apply app_nil_r.
Qed.

(** A text that reads as one run. *)
Lemma tokenize_single (c : option rgb) (t : str) (para : paragraph) :
  single_run t = true -> avoids 13%N t = true ->
  exists r,
    _add_runs_from_text para t c = Some (add_runs para [r])
    /\ styled_run c r /\ markup r = t.
Proof.
  unfold single_run. intros Hs H13. destruct t as [|x t]; [discriminate|].
  rewrite add_runs_unfold.
  pose proof (earliest_spec (x :: t)) as Hsp.
  destruct (earliest (x :: t)) as [[m k]|].
  - destruct Hsp as [Hm _]. apply search_split in Hm as [Hg Hsplit].
    destruct (Re.before m) as [|b0 b] eqn:Eb; [|discriminate].
    destruct (Re.after m) as [|a0 a] eqn:Ea; [|discriminate].
    cbn [app] in Hsplit. rewrite app_nil_r in Hsplit.
    assert (Hg13 : avoids 13%N (Re.group1 m) = true).
    { rewrite Hsplit in H13. rewrite !avoids_app in H13.
      apply andb_true_iff in H13 as [_ H13]. apply andb_true_iff in H13 as [H13 _].
      exact H13. }
    destruct (new_run_markup (Re.group1 m) (Some k) c Hg Hg13) as [Hr1 Hr2].
    exists (new_run (Re.group1 m) (Some k) c). cbv zeta. unfold Re.start. rewrite Eb.
    change (0 <? len []) with false. cbv iota.
    rewrite add_runs_unfold. split_and!.
    + rewrite add_run_new. reflexivity.
    + exact Hr1.
    + rewrite Hr2, Hsplit. reflexivity.
  - destruct (new_run_markup (x :: t) None c ltac:(discriminate) H13) as [H1 H2].
    exists (new_run (x :: t) None c). split_and!; [apply f_equal, add_run_new | exact H1 | exact H2].
Qed.
End TokenizeMarkup.

(** *** The colour tags that the reconstructor reads back *)

(** The text of a match of the colour-tag pattern, with the text before
    it. *)
Definition tag_text (m : ColorRe.cmatch) : str :=
  ColorRe.gap m ++ ColorRe.open_tag (ColorRe.hex m) ++ ColorRe.inner m
  ++ ColorRe.close_tag (ColorRe.hex m).

(** A colour tag that is written again as it is: its inner text reads as
    one run, its digits are in upper case, and its colour is none of
    those that the extractor names. *)
Definition tag_ok (m : ColorRe.cmatch) : bool :=
  single_run (ColorRe.inner m)
  && str_eqb (upper (ColorRe.hex m)) (ColorRe.hex m)
  && match Reconstruct.rgb_or_none (ColorRe.hex m) with
     | Some c => negb (named_bucket c)
     | None => false
     end.

Definition tags_ok (body : str) : bool :=
  match ColorRe.finditer (length body) body with
  | Some (ms, _) => forallb tag_ok ms
  | None => false
  end.

Section RenderBack.
Import Docx.

Lemma finditer_split (fuel : nat) :
  forall (s : str) (ms : list ColorRe.cmatch) (tail : str),
    ColorRe.finditer fuel s = Some (ms, tail) ->
    s = concat (List.map tag_text ms) ++ tail.
Proof.
  induction fuel as [|fuel IH]; intros s ms tail; cbn [ColorRe.finditer];
    destruct (ColorRe.search s) as [[m rest]|] eqn:E; try discriminate.
  - intros [= <- <-]. reflexivity.
  - destruct (ColorRe.finditer fuel rest) as [[ms' tail']|] eqn:E'; [|discriminate].
    cbn. intros [= <- <-]. apply color_search_split in E as (E & _).
    cbn [List.map concat]. rewrite <- app_assoc, <- (IH _ _ _ E'). unfold tag_text.
    rewrite <- !app_assoc. exact E.
  - intros [= <- <-]. reflexivity.
Qed.

Lemma render_plain (rs : list run) :
  Forall (styled_run None) rs -> render rs = concat (List.map markup rs).
Proof.
  induction 1 as [|r rs (Ht & Hs & Hc) _ IH]; [reflexivity|].
  rewrite render_cons, IH. cbn [List.map concat].
  rewrite (format_run_plain r Hc Ht Hs). reflexivity.
Qed.

Lemma styled_run_text (c : option rgb) (rs : list run) :
  Forall (styled_run c) rs -> Forall (fun r => text r <> []) rs.
Proof. intros H. eapply Forall_impl; [exact H|]. intros r (Ht & _). exact Ht. Qed.

Lemma color_step_render (para : paragraph) (m : ColorRe.cmatch) :
  valid_hex (ColorRe.hex m) -> tag_ok m = true -> avoids 13%N (tag_text m) = true ->
  exists rs,
    Reconstruct.color_step para m = Some (add_runs para rs)
    /\ render rs = tag_text m /\ Forall (fun r => text r <> []) rs.
Proof.
  intros Hv Hok H13. unfold tag_ok in Hok.
  apply andb_true_iff in Hok as [Hok Hcol]. apply andb_true_iff in Hok as [Hone Hup].
  apply bool_decide_eq_true in Hup.
  unfold tag_text in H13. rewrite !avoids_app in H13.
  apply andb_true_iff in H13 as [Hg13 H13]. apply andb_true_iff in H13 as [_ H13].
  apply andb_true_iff in H13 as [Hi13 _].
  destruct (hex_digits_convert [] [] (ColorRe.hex m) eq_refl eq_refl Hv)
    as (c & Hc & Hrgb & Hstr).
  rewrite app_nil_r in Hc. cbn [app] in Hc.
  assert (Hsome : Reconstruct.rgb_or_none (ColorRe.hex m) = Some c).
  { unfold Reconstruct.rgb_or_none. rewrite Hc. reflexivity. }
  rewrite Hsome in Hcol.
  assert (Hhex : hex_colour c = true).
  { unfold hex_colour. rewrite Hrgb, Hcol. reflexivity. }
  unfold Reconstruct.color_step. rewrite tokenize_nil_gap.
  destruct (tokenize_markup None (length (ColorRe.gap m)) (ColorRe.gap m) para (le_n _) Hg13)
    as (rg & Hrun & Hall & Hcat).
  rewrite Hrun. cbn [mbind option_bind]. rewrite Hsome.
  destruct (tokenize_single (Some c) (ColorRe.inner m) (add_runs para rg) Hone Hi13)
    as (r & Hr & (Ht & Hs & Hcr) & Hm).
  rewrite Hr. exists (rg ++ [r]). split_and!.
  - rewrite add_runs_app. reflexivity.
  - rewrite render_app, (render_plain rg Hall), Hcat. cbn [render List.map concat].
    rewrite app_nil_r, (format_run_coloured r c Hcr Hhex Ht Hs).
    fold (markup r). rewrite Hm, Hstr, Hup. reflexivity.
  - apply Forall_app. split; [exact (styled_run_text _ _ Hall)|].
    constructor; [exact Ht | constructor].
Qed.

Lemma color_loop_render (ms : list ColorRe.cmatch) :
  forall para : paragraph,
    Forall (fun m => valid_hex (ColorRe.hex m)) ms -> forallb tag_ok ms = true ->
    avoids 13%N (concat (List.map tag_text ms)) = true ->
    exists rs,
      Reconstruct.color_loop para ms = Some (add_runs para rs)
      /\ render rs = concat (List.map tag_text ms)
      /\ Forall (fun r => text r <> []) rs.
Proof.
  induction ms as [|m ms IH]; intros para Hv Hok H13.
  - exists []. rewrite add_runs_nil. split_and!; [reflexivity | reflexivity | constructor].
  - cbn [forallb] in Hok. apply andb_true_iff in Hok as [Hm Hok].
    cbn [List.map concat] in H13. rewrite avoids_app in H13.
    apply andb_true_iff in H13 as [Hm13 H13].
    destruct (color_step_render para m (Forall_inv Hv) Hm Hm13) as (r1 & Hr1 & Hrender1 & Ht1).
    destruct (IH (add_runs para r1) (Forall_inv_tail Hv) Hok H13) as (r2 & Hr2 & Hrender2 & Ht2).
    exists (r1 ++ r2). cbn [Reconstruct.color_loop]. rewrite Hr1. cbn [mbind option_bind].
    rewrite Hr2, add_runs_app. split_and!.
    + reflexivity.
    + rewrite render_app, Hrender1, Hrender2. reflexivity.
    + apply Forall_app. split; assumption.
Qed.

(** The runs of a block are written again as the block. *)
Lemma fill_para_render (body : str) (para : paragraph) :
  avoids 13%N body = true -> tags_ok body = true ->
  exists rs,
    Reconstruct.fill_para para body = Some (add_runs para rs)
    /\ render rs = body /\ Forall (fun r => text r <> []) rs.
Proof.
  intros H13 Hok. unfold tags_ok in Hok. unfold Reconstruct.fill_para.
  destruct (ColorRe.finditer (length body) body) as [[ms tail]|] eqn:Ef; [|discriminate].
  pose proof (finditer_split _ _ _ _ Ef) as Hsplit.
  pose proof (finditer_hex _ _ _ _ Ef) as Hv.
  assert (H13' : avoids 13%N (concat (List.map tag_text ms)) = true
                 /\ avoids 13%N tail = true).
  { rewrite Hsplit, avoids_app in H13. apply andb_true_iff in H13. exact H13. }
  destruct H13' as [Hm13 Ht13].
  destruct (color_loop_render ms para Hv Hok Hm13) as (r1 & Hr1 & Hrender1 & Ht1).
  cbn [mbind option_bind]. rewrite Hr1. cbn [mbind option_bind]. rewrite tokenize_nil.
  destruct (tokenize_markup None (length tail) tail (add_runs para r1) (le_n _) Ht13)
    as (r2 & Hr2 & Hall & Hcat).
  rewrite Hr2. exists (r1 ++ r2). split_and!.
  - rewrite add_runs_app. reflexivity.
  - rewrite render_app, Hrender1, (render_plain r2 Hall), Hcat. symmetry. exact Hsplit.
  - apply Forall_app. split; [exact Ht1 | exact (styled_run_text _ _ Hall)].
Qed.
End RenderBack.

(** *** The lines of a markup through the block separator *)

Section BlankLines.

(** The pattern of a blank line matches nowhere in the text. *)
Fixpoint no_blank_line (s : str) : bool :=
  match s with
  | [] => true
  | c :: t =>
      match BlankRe.match_at s with
      | None => no_blank_line t
      | Some _ => false
      end
  end.

Definition has_visible (s : str) : bool := existsb (fun c => negb (is_space c)) s.

Lemma span_space_visible (t rest : str) :
  has_visible t = true ->
  BlankRe.span_space (t ++ rest)
  = (fst (BlankRe.span_space t), snd (BlankRe.span_space t) ++ rest).
Proof.
  induction t as [|c t IH]; [discriminate|]. cbn [has_visible existsb app BlankRe.span_space].
  destruct (is_space c) eqn:Ec; cbn [negb orb]; [|reflexivity].
  intros Hv. rewrite (IH Hv). destruct (BlankRe.span_space t) as [w r]. reflexivity.
Qed.

Lemma blank_match_at_app (c : char) (t rest : str) :
  has_visible t = true -> BlankRe.match_at (c :: t) = None ->
  BlankRe.match_at ((c :: t) ++ rest) = None.
Proof.
  intros Hv. cbn [app]. unfold BlankRe.match_at. destruct (c =? 10)%N; [|reflexivity].
  rewrite (span_space_visible t rest Hv). destruct (BlankRe.span_space t) as [w r].
  cbn [fst snd]. destruct (BlankRe.after_last_newline w); [discriminate | reflexivity].
Qed.

(** The last character is no white space. *)
Definition ends_visible (s : str) : bool := starts_visible (rev s).

Lemma ends_visible_cons (c : char) (t : str) :
  t <> [] -> ends_visible (c :: t) = ends_visible t.
Proof.
  intros Ht. unfold ends_visible. cbn [rev].
  destruct (rev t) as [|x r] eqn:E; [|reflexivity].
  apply (f_equal (@rev char)) in E. rewrite rev_involutive in E. contradiction.
Qed.

Lemma ends_visible_has (t : str) : ends_visible t = true -> has_visible t = true.
Proof.
  unfold ends_visible, has_visible. intros H. destruct (rev t) as [|x r] eqn:E; [discriminate|].
  apply existsb_exists. exists x. split; [|exact H].
  apply in_rev. rewrite E. left. reflexivity.
Qed.

Lemma split_loop_no_blank (l : str) :
  no_blank_line l = true -> ends_visible l = true ->
  forall (cur rest : str) (fuel : nat),
    (length (l ++ rest) <= fuel)%nat ->
    BlankRe.split_loop fuel cur (l ++ rest)
    = BlankRe.split_loop (fuel - length l) (cur ++ l) rest.
Proof.
  induction l as [|c l IH]; intros Hnb Hend cur rest fuel Hfuel; [discriminate|].
  cbn [no_blank_line] in Hnb.
  destruct (BlankRe.match_at (c :: l)) eqn:Em; [discriminate|].
  destruct fuel as [|fuel]; [simpl in Hfuel; lia|].
  destruct l as [|x l].
  - (* the last character *)
    cbn [app BlankRe.split_loop length Nat.sub].
    rewrite blank_match_at_visible.
    + rewrite Nat.sub_0_r. reflexivity.
    + intros ->. discriminate Hend.
  - assert (Hend' : ends_visible (x :: l) = true)
      by (rewrite <- (ends_visible_cons c (x :: l)); [exact Hend | discriminate]).
    pose proof (blank_match_at_app c (x :: l) rest (ends_visible_has _ Hend') Em) as Em'.
    change ((c :: x :: l) ++ rest) with (c :: (x :: l) ++ rest) in *.
    cbn [BlankRe.split_loop]. rewrite Em'.
    rewrite (IH Hnb Hend') by (simpl in Hfuel; simpl; lia).
    cbn [length Nat.sub]. rewrite <- app_assoc. reflexivity.
Qed.

(** A line of a markup: no white space at its ends, no blank line in it. *)
Definition block_line (l : str) : Prop := edge_ok l = true /\ no_blank_line l = true.

Lemma edge_ok_ends (l : str) : edge_ok l = true -> ends_visible l = true.
Proof. unfold edge_ok. intros H. apply andb_true_iff in H as [_ H]. exact H. Qed.

Lemma join_edge_ok_lines (l : str) (ls : list str) :
  Forall block_line (l :: ls) -> edge_ok (join sep (l :: ls)) = true.
Proof.
  revert l. induction ls as [|l2 ls IH]; intros l H.
  - apply Forall_inv in H as [H _]. exact H.
  - rewrite join_cons2. pose proof (Forall_inv H) as [Hl _].
    apply Forall_inv_tail in H. specialize (IH l2 H).
    apply edge_ok_inv in Hl as (Hv & _ & _). apply edge_ok_inv in IH as (_ & Hv2 & _).
    apply edge_ok_app; [exact Hv|]. rewrite rev_app_distr.
    apply starts_visible_app. exact Hv2.
Qed.

Lemma split_join_lines (ls : list str) :
  forall (l cur : str) (fuel : nat),
    Forall block_line (l :: ls) ->
    (length (join sep (l :: ls)) <= fuel)%nat ->
    BlankRe.split_loop fuel cur (join sep (l :: ls)) = Some ((cur ++ l) :: ls).
Proof.
  induction ls as [|l2 ls IH]; intros l cur fuel Hok Hfuel.
  - pose proof (Forall_inv Hok) as [He Hnb]. cbn [join] in *.
    rewrite <- (app_nil_r l) at 1.
    rewrite (split_loop_no_blank l Hnb (edge_ok_ends l He))
      by (rewrite app_nil_r; exact Hfuel).
    destruct (fuel - length l)%nat; reflexivity.
  - pose proof (Forall_inv Hok) as [He Hnb]. apply Forall_inv_tail in Hok.
    pose proof (Forall_inv Hok) as [Hedge2 _].
    apply edge_ok_inv in Hedge2 as (Hv2 & _ & _).
    rewrite join_cons2 in *.
    rewrite (split_loop_no_blank l Hnb (edge_ok_ends l He)) by exact Hfuel.
    destruct (join_head l2 ls) as [rest Hrest].
    rewrite !length_app in Hfuel. cbn [sep length] in Hfuel.
    destruct (fuel - length l)%nat as [|fuel'] eqn:Ef; [lia|].
    rewrite Hrest, (split_loop_sep l2 rest _ fuel' Hv2), <- Hrest.
    rewrite (IH l2 [] fuel' Hok) by lia. reflexivity.
Qed.

(** The blocks of a markup are its lines. *)
Lemma split_block_lines (ls : list str) :
  Forall block_line ls ->
  BlankRe.split (strip (join sep ls))
  = Some (match ls with [] => [[]] | _ => ls end)
  /\ strip (join sep ls) = join sep ls.
Proof.
  intros Hok. destruct ls as [|l ls]; [split; reflexivity|].
  pose proof (join_edge_ok_lines l ls Hok) as He. rewrite (strip_edge_ok _ He).
  split; [|reflexivity]. unfold BlankRe.split.
  rewrite (split_join_lines ls l [] _ Hok) by lia. reflexivity.
Qed.

Lemma blocks_loop_block_lines (paras : list Docx.paragraph) (ls : list str) :
  Forall2 (fun p l => Reconstruct._process_block_into_para l = Some (Ok p)
                      /\ edge_ok l = true) paras ls ->
  forall doc, Reconstruct.blocks_loop doc ls = Some (Ok (doc ++ paras)).
Proof.
  induction 1 as [|p l paras ls [Hp He] _ IH]; intros doc.
  - cbn. rewrite app_nil_r. reflexivity.
  - cbn [Reconstruct.blocks_loop]. rewrite (strip_edge_ok l He).
    apply edge_ok_inv in He as (_ & _ & Hne). destruct l as [|x l]; [congruence|].
    rewrite Hp. cbn [mbind option_bind]. rewrite IH, <- app_assoc. reflexivity.
Qed.

(** A stripped text that is not empty has no white space at its ends. *)
Lemma strip_edges (s : str) : strip s <> [] -> edge_ok (strip s) = true.
Proof.
  intros Hne. unfold edge_ok. apply andb_true_intro. split.
  - unfold strip in *. destruct (rstrip_prefix (lstrip s)) as [w Hw].
    pose proof (lstrip_head s) as Hh. rewrite Hw in Hh.
    destruct (rstrip (lstrip s)) as [|c r]; [congruence|].
    cbn in Hh. cbn. rewrite Hh. reflexivity.
  - unfold strip, rstrip in *. rewrite rev_involutive.
    pose proof (lstrip_head (rev (lstrip s))) as Hh.
    destruct (lstrip (rev (lstrip s))) as [|c r]; [cbn in Hne; congruence|].
    cbn. rewrite Hh. reflexivity.
Qed.

Lemma strip_strip (s : str) : strip (strip s) = strip s.
Proof.
  destruct (strip s) as [|c r] eqn:E; [reflexivity|]. rewrite <- E.
  apply strip_edge_ok, strip_edges. rewrite E. discriminate.
Qed.
End BlankLines.

(** *** The lines that the reconstructor reads back *)

(** The style, the prefix and the body that the reconstructor reads in a
    block that is no heading. *)
Definition block_kind (l : str) : str * str * str :=
  if startswith [bullet; ch " "] l
  then (u "List Bullet", [bullet; ch " "], strip (py_slice l 2 (len l)))
  else if startswith (u "1. ") l
  then (u "List Number", u "1. ", strip (py_slice l 3 (len l)))
  else (u "Normal", [], l).

(** The text of the paragraph that the reconstructor makes of a block. *)
Definition rebuilt_text (l : str) : str :=
  match Reconstruct._process_block_into_para l with
  | Some (Ok p) => Docx.para_text p
  | _ => []
  end.

(** A line that the reconstructor reads back as it is written: it has no
    carriage return, no white space at its ends and no blank line in it;
    when it starts with '#', it is one to nine '#', one space and a text;
    otherwise the character after a list prefix is no white space, every
    colour tag that the pattern finds in it is written again as it is,
    and the paragraph made of it has a text that is not blank. *)
Definition line_reads_back (l : str) : bool :=
  avoids 13%N l && edge_ok l && no_blank_line l
  && if startswith (u "#") l
     then let rest := lstrip_char (ch "#") l in
          (len l - len rest <=? 9) && str_eqb rest (ch " " :: strip rest)
     else let '(_, prefix, body) := block_kind l in
          str_eqb l (prefix ++ body) && tags_ok body
          && negb (str_eqb (strip (rebuilt_text l)) []).

Section LineTrip.
Import Docx.

Lemma heading_para_line (n : Z) (t : str) :
  1 <= n <= 9 -> edge_ok t = true ->
  DocxExtract.para_line {| style := heading_style n;
                           runs := [mk_run t false false false None] |}
  = Some (repeat (ch "#") (Z.to_nat n) ++ u " " ++ t).
Proof.
  intros Hn Ht.
  assert (Hl : heading_level (heading_style n) = Some n).
  { assert (Hin : n = 1 \/ n = 2 \/ n = 3 \/ n = 4 \/ n = 5 \/ n = 6 \/ n = 7 \/ n = 8
                  \/ n = 9) by lia.
    repeat (destruct Hin as [->|Hin]; [reflexivity|]). subst n. reflexivity. }
  apply heading_level_inv in Hl as (_ & _ & Hstart & Hlevel).
  unfold DocxExtract.para_line, para_text.
  cbn [Docx.runs Docx.style List.map concat Docx.text mk_run].
  rewrite app_nil_r, (strip_edge_ok t Ht).
  apply edge_ok_inv in Ht as (_ & _ & Hne). destruct t as [|x t]; [congruence|].
  rewrite Hstart, Hlevel, Z_N_nat. reflexivity.
Qed.

Lemma heading_line_reads_back (l : str) :
  avoids 13%N l = true -> edge_ok l = true -> startswith (u "#") l = true ->
  len l - len (lstrip_char (ch "#") l) <= 9 ->
  lstrip_char (ch "#") l = ch " " :: strip (lstrip_char (ch "#") l) ->
  exists p,
    Reconstruct._process_block_into_para l = Some (Ok p)
    /\ DocxExtract.para_line p = Some l.
Proof.
  intros H13 He Hstart Hk Hrest.
  destruct (lstrip_char_split (ch "#") l) as [k Hl].
  set (rest := lstrip_char (ch "#") l) in *. set (t := strip rest) in *.
  assert (Hlen : len l - len rest = Z.of_nat k).
  { rewrite Hl at 1. rewrite len_app. unfold len at 1. rewrite repeat_length. lia. }
  assert (Hk1 : (1 <= k)%nat).
  { destruct k as [|k]; [|lia]. cbn [repeat app] in Hl.
    apply startswith_spec in Hstart as [x Hx]. rewrite Hl, Hrest in Hx. discriminate Hx. }
  assert (Hline : l = repeat (ch "#") (Z.to_nat (Z.of_nat k)) ++ u " " ++ t).
  { rewrite Nat2Z.id. rewrite Hl at 1. rewrite Hrest. reflexivity. }
  assert (Ht : edge_ok t = true).
  { apply strip_edges. fold t. intros Hnil.
    apply edge_ok_inv in He as (_ & Hend & _). rewrite Hline, Hnil in Hend.
    rewrite rev_app_distr in Hend. discriminate Hend. }
  assert (Ht13 : avoids 13%N t = true).
  { rewrite Hline, !avoids_app in H13. apply andb_true_iff in H13 as [_ H13].
    apply andb_true_iff in H13 as [_ H13]. exact H13. }
  eexists. split.
  - rewrite Hline. apply (heading_line_trip (Z.of_nat k) t); [lia | exact Ht | exact Ht13].
  - rewrite heading_para_line by (lia || exact Ht). symmetry. f_equal. exact Hline.
Qed.

Lemma block_kind_cases (l style prefix body : str) :
  block_kind l = (style, prefix, body) ->
  (style = u "List Bullet" /\ prefix = [bullet; ch " "]
   /\ startswith [bullet; ch " "] l = true /\ body = strip (py_slice l 2 (len l)))
  \/ (style = u "List Number" /\ prefix = u "1. "
      /\ startswith [bullet; ch " "] l = false /\ startswith (u "1. ") l = true
      /\ body = strip (py_slice l 3 (len l)))
  \/ (style = u "Normal" /\ prefix = []
      /\ startswith [bullet; ch " "] l = false /\ startswith (u "1. ") l = false
      /\ body = l).
Proof.
  unfold block_kind.
  destruct (startswith [bullet; ch " "] l); [|destruct (startswith (u "1. ") l)];
    intros [= <- <- <-]; auto 10.
Qed.

Lemma body_line_reads_back (l style prefix body : str) :
  avoids 13%N l = true -> edge_ok l = true -> startswith (u "#") l = false ->
  block_kind l = (style, prefix, body) ->
  l = prefix ++ body -> tags_ok body = true -> strip (rebuilt_text l) <> [] ->
  exists p,
    Reconstruct._process_block_into_para l = Some (Ok p)
    /\ DocxExtract.para_line p = Some l.
Proof.
  intros H13 He Hstart Hkind Hl Hok Htext.
  assert (Hb13 : avoids 13%N body = true).
  { rewrite Hl, avoids_app in H13. apply andb_true_iff in H13 as [_ H13]. exact H13. }
  destruct (fill_para_render body (Reconstruct.add_paragraph [] style) Hb13 Hok)
    as (rs & Hfill & Hrender & _).
  apply block_kind_cases in Hkind.
  assert (Hproc : Reconstruct._process_block_into_para l
                  = Some (Ok {| Docx.style := style; runs := rs |})).
  { unfold Reconstruct._process_block_into_para. rewrite Hstart.
    destruct Hkind as [(Hs & _ & H1 & Hb)|[(Hs & _ & H1 & H2 & Hb)|(Hs & _ & H1 & H2 & Hb)]];
      rewrite H1, ?H2, <- Hb, <- Hs, Hfill; reflexivity. }
  unfold rebuilt_text in Htext. rewrite Hproc in Htext.
  exists {| Docx.style := style; runs := rs |}. split; [exact Hproc|].
  assert (Hbody : strip body = body).
  { destruct Hkind as [(_ & _ & _ & Hb)|[(_ & _ & _ & _ & Hb)|(_ & _ & _ & _ & Hb)]];
      rewrite Hb; [apply strip_strip | apply strip_strip | apply strip_edge_ok, He]. }
  unfold DocxExtract.para_line.
  destruct (strip (para_text {| Docx.style := style; runs := rs |})) as [|x t] eqn:Es;
    [congruence|].
  cbn [Docx.style Docx.runs]. fold (render rs). rewrite Hrender, Hbody, Hl.
  destruct Hkind as [(-> & -> & _)|[(-> & -> & _)|(-> & -> & _)]]; reflexivity.
Qed.

(** A line that reads back is the line of the paragraph made of it. *)
Lemma line_trip (l : str) :
  line_reads_back l = true ->
  exists p,
    Reconstruct._process_block_into_para l = Some (Ok p)
    /\ DocxExtract.para_line p = Some l.
Proof.
  unfold line_reads_back. intros H. apply andb_true_iff in H as [H Hcase].
  apply andb_true_iff in H as [H Hnb]. apply andb_true_iff in H as [H13 He].
  destruct (startswith (u "#") l) eqn:Hstart.
  - cbv zeta in Hcase. apply andb_true_iff in Hcase as [Hk Hrest].
    apply Z.leb_le in Hk. apply bool_decide_eq_true in Hrest.
    apply heading_line_reads_back; assumption.
  - destruct (block_kind l) as [[style prefix] body] eqn:Hkind.
    apply andb_true_iff in Hcase as [Hcase Htext].
    apply andb_true_iff in Hcase as [Hl Hok].
    apply bool_decide_eq_true in Hl. apply negb_true_iff in Htext.
    apply bool_decide_eq_false in Htext.
    apply (body_line_reads_back l style prefix body); assumption.
Qed.

Lemma line_reads_back_block (l : str) : line_reads_back l = true -> block_line l.
Proof.
  unfold line_reads_back. intros Hl. apply andb_true_iff in Hl as [Hl _].
  apply andb_true_iff in Hl as [Hl Hnb]. apply andb_true_iff in Hl as [_ He].
  split; assumption.
Qed.

Lemma lines_trip (ls : list str) :
  forallb line_reads_back ls = true ->
  exists paras,
    Forall2 (fun p l => Reconstruct._process_block_into_para l = Some (Ok p)
                        /\ DocxExtract.para_line p = Some l) paras ls
    /\ Forall2 (fun p l => Reconstruct._process_block_into_para l = Some (Ok p)
                           /\ edge_ok l = true) paras ls
    /\ Forall block_line ls.
Proof.
  induction ls as [|l ls IH]; intros H.
  - exists []. split_and!; constructor.
  - cbn [forallb] in H. apply andb_true_iff in H as [Hl Hls].
    destruct (IH Hls) as (paras & Hall & Hall' & Hlines).
    destruct (line_trip l Hl) as (p & Hp & Hline).
    pose proof (line_reads_back_block l Hl) as Hb.
    exists (p :: paras). split_and!.
    + constructor; [split; assumption | exact Hall].
    + constructor; [split; [exact Hp | exact (proj1 Hb)] | exact Hall'].
    + constructor; assumption.
Qed.

Lemma omap_para_lines (paras : list paragraph) (ls : list str) :
  Forall2 (fun p l => DocxExtract.para_line p = Some l) paras ls ->
  omap DocxExtract.para_line paras = ls.
Proof.
  induction 1 as [|p l paras ls Hp _ IH]; [reflexivity|].
  cbn [omap list_omap]. rewrite Hp, IH. reflexivity.
Qed.
End LineTrip.

(** The lines of a document. *)
Definition markup_lines (d : Docx.document) : list str :=
  omap DocxExtract.para_line (Docx.paragraphs d).

(** A document of headings with several runs, styles of any name, runs
    in a row, and texts with '<', '#', '*' and '_'. *)
Definition mixed_document : Docx.document :=
  {| Docx.paragraphs :=
       [ {| Docx.style := u "Heading 2";
            Docx.runs := [mk_run (u "Big") true false false None;
                          mk_run (u " title") false false false None] |};
         {| Docx.style := u "Body Text";
            Docx.runs := [mk_run (u "Hello ") false false false None;
                          mk_run (u "world") false false false None;
                          mk_run (u "!") true false false None] |};
         {| Docx.style := u "Normal"; Docx.runs := [mk_run (u "  ") false false false None] |};
         {| Docx.style := u "List Paragraph";
            Docx.runs := [mk_run (u "a < b, 2*3, snake_case and #5") false false false None] |};
         {| Docx.style := u "Normal";
            Docx.runs := [mk_run (u "*a*") false false false None;
                          mk_run (u " then ") true true false None;
                          mk_run (u "second") false false true blue;
                          mk_run (u "alert") false false false
                                 (Some (Docx.RGBColor 255 0 0))] |} ];
     Docx.tables := [] |}.

Example mixed_document_markup :
  DocxExtract.extract_text_from_docx mixed_document
  = u "## Big title" ++ [10; 10]%N ++ u "Hello world**!**" ++ [10; 10]%N
    ++ [bullet] ++ u " a < b, 2*3, snake_case and #5" ++ [10; 10]%N
    ++ u "*a**** then ***<#365F91>__second__</#365F91><red>alert</red>".
Proof. vm_compute. reflexivity. Qed.

(** The counterexample of C1 is no such document: the inner text of its
    colour tag reads as two runs. *)
Example bold_italic_line_does_not_read_back :
  single_run (u "***t***") = false
  /\ line_reads_back (u "<#365F91>***t***</#365F91>") = false.
Proof. split; vm_compute; reflexivity. Qed.



(** What the reconstructor makes of the markup of this document: not the
    document, but one that is written as the same markup. *)
Example mixed_document_rebuilt :
  Reconstruct.save_docx_text (DocxExtract.extract_text_from_docx mixed_document)
  = Some (Ok {| Docx.paragraphs :=
       [ {| Docx.style := u "Heading 2";
            Docx.runs := [mk_run (u "Big title") false false false None] |};
         {| Docx.style := u "Normal";
            Docx.runs := [mk_run (u "Hello world") false false false None;
                          mk_run (u "!") true false false None] |};
         {| Docx.style := u "List Bullet";
            Docx.runs := [mk_run (u "a < b, 2*3, snake_case and #5") false false false None] |};
         {| Docx.style := u "Normal";
            Docx.runs := [mk_run (u "*a") false false false None;
                          mk_run (u "** then ") true false false None;
                          mk_run (u "*") false false false None;
                          mk_run (u "second") false false true blue;
                          mk_run (u "<red>alert</red>") false false false None] |} ];
     Docx.tables := [] |}).
Proof. vm_compute. reflexivity. Qed.

(** *** Lines without '#' *)

Section UntaggedLines.
Import Docx.

Lemma lstrip_nil (s : str) : lstrip s = [] -> forallb is_space s = true.
Proof.
  induction s as [|c s IH]; [reflexivity|]. cbn.
  destruct (is_space c); [exact IH | discriminate].
Qed.

(** A text that strips to nothing is white space. *)
Lemma strip_nil (s : str) : strip s = [] -> forallb is_space s = true.
Proof.
  unfold strip, rstrip. intros H.
  apply (f_equal (@rev char)) in H. rewrite rev_involutive in H. cbn in H.
  apply lstrip_nil in H. rewrite forallb_forall in H.
  assert (Hl : forallb is_space (lstrip s) = true).
  { apply forallb_forall. intros x Hx. apply H, in_rev. rewrite rev_involutive. exact Hx. }
  pose proof (lstrip_head s) as Hh. destruct (lstrip s) as [|c r] eqn:E.
  - apply lstrip_nil, E.
  - cbn in Hl. rewrite Hh in Hl. discriminate Hl.
Qed.

(** A character that is no white space and no marker. *)
Definition plain_char (c : char) : bool :=
  negb (is_space c) && negb (c =? Re.star)%N && negb (c =? Re.underscore)%N
  && negb (c =? 13)%N.

Lemma plain_char_unmarked (c : char) (s : str) :
  plain_char c = true -> c ∈ s -> c ∈ unmarked (run_text s).
Proof.
  unfold plain_char. rewrite !andb_true_iff, !negb_true_iff.
  intros [[[Hs H1] H2] H13] Hin. unfold unmarked, run_text.
  apply list_elem_of_In, filter_In. split.
  - apply in_map_iff. exists c. rewrite H13. split; [reflexivity|].
    apply list_elem_of_In, Hin.
  - rewrite H1, H2. reflexivity.
Qed.

Lemma unmarked_elem (c : char) (s : str) : c ∈ unmarked s -> c ∈ s.
Proof.
  unfold unmarked. intros H. apply list_elem_of_In in H. apply filter_In in H as [H _].
  apply list_elem_of_In, H.
Qed.

(** Every line without '#' reads back, whatever its markers, when it has
    a character that is no white space and no marker. *)
Lemma untagged_line_reads_back (l : str) :
  avoids 13%N l = true -> edge_ok l = true -> no_blank_line l = true ->
  avoids hash l = true ->
  (let '(_, prefix, body) := block_kind l in
   l = prefix ++ body /\ existsb plain_char body = true) ->
  line_reads_back l = true.
Proof.
  intros H13 He Hnb Hh Hbody. unfold line_reads_back. rewrite H13, He, Hnb. cbn [andb].
  assert (Hstart : startswith (u "#") l = false).
  { destruct (startswith (u "#") l) eqn:E; [|reflexivity].
    apply startswith_spec in E as [t ->]. discriminate Hh. }
  rewrite Hstart.
  destruct (block_kind l) as [[style prefix] body] eqn:Hkind.
  destruct Hbody as [Hl Hplain].
  assert (Hbh : avoids hash body = true).
  { rewrite Hl, avoids_app in Hh. apply andb_true_iff in Hh as [_ Hh]. exact Hh. }
  assert (Hsearch : ColorRe.finditer (length body) body = Some ([], body)).
  { destruct (length body); cbn [ColorRe.finditer];
      rewrite (colour_search_hashless body Hbh); reflexivity. }
  assert (Htags : tags_ok body = true).
  { unfold tags_ok. rewrite Hsearch. reflexivity. }
  unfold str_eqb. rewrite Htags, (bool_decide_eq_true_2 _ Hl). cbn [andb].
  apply negb_true_iff, bool_decide_eq_false. intros Hblank.
  apply strip_nil in Hblank. rewrite forallb_forall in Hblank.
  apply existsb_exists in Hplain as (c & Hc & Hpc).
  assert (Hin : c ∈ rebuilt_text l).
  { unfold rebuilt_text, Reconstruct._process_block_into_para. rewrite Hstart.
    apply block_kind_cases in Hkind.
    assert (Hfill : forall para,
              exists rs, Reconstruct.fill_para para body = Some (add_runs para rs)
                         /\ c ∈ concat (List.map text rs)).
    { intros para. unfold Reconstruct.fill_para. rewrite Hsearch.
      cbn [mbind option_bind Reconstruct.color_loop]. rewrite tokenize_nil.
      destruct (tokenize_spec None (length body) body para (le_n _))
        as (rs & Hrun & _ & _ & _ & Hun).
      exists rs. split; [exact Hrun|]. apply unmarked_elem. rewrite Hun.
      apply plain_char_unmarked; [exact Hpc | apply list_elem_of_In, Hc]. }
    destruct Hkind as [(Hs & _ & H1 & Hb)|[(Hs & _ & H1 & H2 & Hb)|(Hs & _ & H1 & H2 & Hb)]];
      rewrite H1, ?H2, <- Hb;
      match goal with
      | |- context [Reconstruct.fill_para ?p body] =>
          destruct (Hfill p) as (rs & -> & Hin)
      end; exact Hin. }
  apply list_elem_of_In in Hin. specialize (Hblank c Hin).
  unfold plain_char in Hpc. rewrite Hblank in Hpc. discriminate Hpc.
Qed.
End UntaggedLines.
